(** * Hydrogen management of the molecular graph (GraphMol/AddHs.cpp)

    A shallow embedding of [setHydrogenCoords], [AssignHsResidueInfo],
    [MolOps::addHs], [adjustStereoAtomsIfRequired], [MolOps::removeHs],
    [isQueryH] and [MolOps::mergeQueryHs], the properties the
    hydrogen-management specification states about them, and further
    properties of the code.

    Coordinates are [double] in the source; they are real numbers here, so
    every statement about a placement is a statement about the exact
    arithmetic the code performs, not about rounding. *)

From Stdlib Require Import Reals Lra.
From stdpp Require Import base option list gmap strings sorting pretty.

Open Scope nat_scope.

(* ===================================================================== *)
(** * Geometry/point.h: the part of [RDGeom::Point3D] the code uses       *)
(* ===================================================================== *)

Module RDGeom.

Record Point3D : Type := mkPoint3D { x : R; y : R; z : R }.

(** [Point3D()] is the origin. *)
Definition origin : Point3D := mkPoint3D 0 0 0.

Definition set_x (v : R) (p : Point3D) : Point3D := mkPoint3D v (y p) (z p).
Definition set_z (v : R) (p : Point3D) : Point3D := mkPoint3D (x p) (y p) v.

Definition plus (p q : Point3D) : Point3D :=
  mkPoint3D (x p + x q) (y p + y q) (z p + z q).
Definition minus (p q : Point3D) : Point3D :=
  mkPoint3D (x p - x q) (y p - y q) (z p - z q).
Definition times (p : Point3D) (s : R) : Point3D :=
  mkPoint3D (x p * s) (y p * s) (z p * s).

Definition lengthSq (p : Point3D) : R := x p * x p + y p * y p + z p * z p.
Definition length (p : Point3D) : R := sqrt (lengthSq p).

(** [normalize]: each coordinate divided by the length. The code divides
    by zero on the zero vector and has no number for the result; what the
    division of the reals gives there stands for no value of the code, so a
    statement about the place or the length of a normalized vector is one
    about a vector that is not the zero vector. *)
Definition normalize (p : Point3D) : Point3D :=
  mkPoint3D (x p / length p) (y p / length p) (z p / length p).

Definition dotProduct (p q : Point3D) : R := x p * x q + y p * y q + z p * z q.
Definition crossProduct (p q : Point3D) : Point3D :=
  mkPoint3D (y p * z q - z p * y q) (z p * x q - x p * z q) (x p * y q - y p * x q).

(** [p.directionVector(q)]: the unit vector from [p] to [q]. *)
Definition directionVector (p q : Point3D) : Point3D := normalize (minus q p).

End RDGeom.

Import RDGeom.

(** [length] stays the length of a list; the length of a vector is
    [RDGeom.length]. *)
Abbreviation length := Datatypes.length (only parsing).

Declare Scope point_scope.
Delimit Scope point_scope with P3.
Infix "+" := plus : point_scope.
Infix "-" := minus : point_scope.
Infix "*" := times : point_scope.

(** [fabs(v.lengthSq()) < 1e-4]: the two atoms coincide. *)
Definition degenerate (v : Point3D) : bool :=
  if Rlt_dec (Rabs (lengthSq v)) (1 / 10000) then true else false.

(* ===================================================================== *)
(** * Data model: atoms, bonds, conformers, molecules                     *)
(* ===================================================================== *)

Inductive HybridizationType :=
  | HYB_UNSPECIFIED | HYB_S | SP | SP2 | SP3 | SP3D | SP3D2 | HYB_OTHER.

(** Modelled from the spec: the chiral-parity tag is one of unspecified,
    clockwise, counterclockwise (the Atom class is not among the sources). *)
Inductive ChiralType := CHI_UNSPECIFIED | CHI_TETRAHEDRAL_CW | CHI_TETRAHEDRAL_CCW.

Inductive BondType := BT_UNSPECIFIED | SINGLE | DOUBLE | TRIPLE | AROMATIC | BT_OTHER.

(** The double-bond stereo descriptor; the code compares it with
    [> Bond::STEREOANY], so the order of the constructors matters. *)
Inductive BondStereo :=
  | STEREONONE | STEREOANY | STEREOZ | STEREOE | STEREOCIS | STEREOTRANS.

Definition stereoRank (s : BondStereo) : nat :=
  match s with
  | STEREONONE => 0 | STEREOANY => 1 | STEREOZ => 2
  | STEREOE => 3 | STEREOCIS => 4 | STEREOTRANS => 5
  end.

(** Modelled from the spec: the bond direction marker is one of none,
    up-right, down-right, unknown; [BD_NONE] is the least value. *)
Inductive BondDir := BD_NONE | ENDDOWNRIGHT | ENDUPRIGHT | BD_UNKNOWN.

#[global] Instance HybridizationType_eq_dec : EqDecision HybridizationType.
Proof. solve_decision. Defined.
#[global] Instance ChiralType_eq_dec : EqDecision ChiralType.
Proof. solve_decision. Defined.
#[global] Instance BondType_eq_dec : EqDecision BondType.
Proof. solve_decision. Defined.
#[global] Instance BondStereo_eq_dec : EqDecision BondStereo.
Proof. solve_decision. Defined.
#[global] Instance BondDir_eq_dec : EqDecision BondDir.
Proof. solve_decision. Defined.

(** ** Queries

    A query node has a description, a negation flag, the value an
    equality query compares with, and children.  A recursive-structure
    node points to its query molecule, which lives outside the tree (the
    source reaches it through [getQueryMol()] and edits it in place). *)
#[warnings="-register-all"]
Inductive Query : Type :=
  mkQuery (description : string) (negation : bool) (qval : nat)
          (children : list Query) (queryMol : option nat).

Definition getDescription (q : Query) : string :=
  match q with mkQuery d _ _ _ _ => d end.
Definition getNegation (q : Query) : bool :=
  match q with mkQuery _ n _ _ _ => n end.
Definition getVal (q : Query) : nat :=
  match q with mkQuery _ _ v _ _ => v end.
Definition getChildren (q : Query) : list Query :=
  match q with mkQuery _ _ _ c _ => c end.
Definition getQueryMol (q : Query) : option nat :=
  match q with mkQuery _ _ _ _ m => m end.

(** ** Property dictionary *)
Inductive PropVal := PVInt (i : Z) | PVUInt (u : nat) | PVBool (b : bool) | PVString (s : string).

Module common_properties.
Definition isImplicit : string := "isImplicit".
Definition origNoImplicit : string := "origNoImplicit".
Definition _UnknownStereo : string := "_UnknownStereo".
Definition _CIPCode : string := "_CIPCode".
Definition _CIPRank : string := "_CIPRank".
Definition molAtomMapNumber : string := "molAtomMapNumber".
End common_properties.

Record Atom : Type := mkAtom {
  atomicNum : nat;
  isotope : nat;
  numExplicitHs : nat;
  implicitValence : nat;      (* the cached implicit-hydrogen count *)
  noImplicit : bool;
  chiralTag : ChiralType;
  isAromatic : bool;
  hybridization : HybridizationType;
  query : option Query;
  props : gmap string PropVal
}.

Record Bond : Type := mkBond {
  beginAtomIdx : nat;
  endAtomIdx : nat;
  bondType : BondType;
  bondIsAromatic : bool;
  stereo : BondStereo;
  stereoAtoms : list nat;
  bondDir : BondDir
}.

Record Conformer : Type := mkConformer {
  is3D : bool;
  positions : list Point3D
}.

Record Mol : Type := mkMol {
  atoms : list Atom;
  bonds : list Bond;
  confs : list Conformer
}.

(** [new Atom(1)] *)
Definition newAtom (num : nat) : Atom :=
  mkAtom num 0 0 0 false CHI_UNSPECIFIED false HYB_UNSPECIFIED None ∅.

#[global] Instance Atom_inhabited : Inhabited Atom := populate (newAtom 0).
#[global] Instance Bond_inhabited : Inhabited Bond :=
  populate (mkBond 0 0 BT_UNSPECIFIED false STEREONONE [] BD_NONE).
#[global] Instance Point3D_inhabited : Inhabited Point3D := populate origin.

(** ** Field updates *)
Definition set_numExplicitHs (v : nat) (a : Atom) : Atom :=
  mkAtom (atomicNum a) (isotope a) v (implicitValence a) (noImplicit a) (chiralTag a)
         (isAromatic a) (hybridization a) (query a) (props a).
Definition set_implicitValence (v : nat) (a : Atom) : Atom :=
  mkAtom (atomicNum a) (isotope a) (numExplicitHs a) v (noImplicit a) (chiralTag a)
         (isAromatic a) (hybridization a) (query a) (props a).
Definition set_noImplicit (v : bool) (a : Atom) : Atom :=
  mkAtom (atomicNum a) (isotope a) (numExplicitHs a) (implicitValence a) v (chiralTag a)
         (isAromatic a) (hybridization a) (query a) (props a).
Definition set_chiralTag (v : ChiralType) (a : Atom) : Atom :=
  mkAtom (atomicNum a) (isotope a) (numExplicitHs a) (implicitValence a) (noImplicit a) v
         (isAromatic a) (hybridization a) (query a) (props a).
Definition set_query (v : option Query) (a : Atom) : Atom :=
  mkAtom (atomicNum a) (isotope a) (numExplicitHs a) (implicitValence a) (noImplicit a)
         (chiralTag a) (isAromatic a) (hybridization a) v (props a).
Definition set_props (v : gmap string PropVal) (a : Atom) : Atom :=
  mkAtom (atomicNum a) (isotope a) (numExplicitHs a) (implicitValence a) (noImplicit a)
         (chiralTag a) (isAromatic a) (hybridization a) (query a) v.

Definition set_beginAtomIdx (v : nat) (b : Bond) : Bond :=
  mkBond v (endAtomIdx b) (bondType b) (bondIsAromatic b) (stereo b) (stereoAtoms b) (bondDir b).
Definition set_endAtomIdx (v : nat) (b : Bond) : Bond :=
  mkBond (beginAtomIdx b) v (bondType b) (bondIsAromatic b) (stereo b) (stereoAtoms b) (bondDir b).
Definition set_stereo (v : BondStereo) (b : Bond) : Bond :=
  mkBond (beginAtomIdx b) (endAtomIdx b) (bondType b) (bondIsAromatic b) v (stereoAtoms b) (bondDir b).
Definition set_stereoAtoms (v : list nat) (b : Bond) : Bond :=
  mkBond (beginAtomIdx b) (endAtomIdx b) (bondType b) (bondIsAromatic b) (stereo b) v (bondDir b).
Definition set_bondDir (v : BondDir) (b : Bond) : Bond :=
  mkBond (beginAtomIdx b) (endAtomIdx b) (bondType b) (bondIsAromatic b) (stereo b) (stereoAtoms b) v.

Definition set_atoms (v : list Atom) (m : Mol) : Mol := mkMol v (bonds m) (confs m).
Definition set_bonds (v : list Bond) (m : Mol) : Mol := mkMol (atoms m) v (confs m).
Definition set_confs (v : list Conformer) (m : Mol) : Mol := mkMol (atoms m) (bonds m) v.

(** ** Atom accessors *)
Definition hasQuery (a : Atom) : bool := bool_decide (is_Some (query a)).
Definition hasProp (key : string) (a : Atom) : bool := bool_decide (is_Some (props a !! key)).
Definition setProp (key : string) (v : PropVal) (a : Atom) : Atom :=
  set_props (<[key := v]> (props a)) a.
Definition clearProp (key : string) (a : Atom) : Atom :=
  set_props (delete key (props a)) a.

(** Modelled from the spec: an atom whose no-implicit-H flag is set has no
    implicit hydrogens; otherwise the implicit-hydrogen count is the one
    stored with the atom. *)
Definition getNumImplicitHs (a : Atom) : nat :=
  if noImplicit a then 0 else implicitValence a.

(** [Atom::invertChirality] on the three tags of the data model. *)
Definition invertChirality (a : Atom) : Atom :=
  match chiralTag a with
  | CHI_TETRAHEDRAL_CW => set_chiralTag CHI_TETRAHEDRAL_CCW a
  | CHI_TETRAHEDRAL_CCW => set_chiralTag CHI_TETRAHEDRAL_CW a
  | CHI_UNSPECIFIED => a
  end.

(** ** The graph

    Atoms and bonds are addressed by their position.  The bonds of an atom
    are enumerated in the order in which they were added, which is the
    order of their indices; the neighbours of an atom are enumerated in
    the same order. *)
Definition getNumAtoms (m : Mol) : nat := length (atoms m).
Definition getNumBonds (m : Mol) : nat := length (bonds m).
Definition getAtomWithIdx (m : Mol) (i : nat) : Atom := atoms m !!! i.
Definition getBondWithIdx (m : Mol) (k : nat) : Bond := bonds m !!! k.

Definition touches (i : nat) (b : Bond) : bool :=
  bool_decide (beginAtomIdx b = i) || bool_decide (endAtomIdx b = i).

Definition getOtherAtomIdx (b : Bond) (i : nat) : nat :=
  if bool_decide (beginAtomIdx b = i) then endAtomIdx b else beginAtomIdx b.

(** [boost::tie(beg, end) = mol.getAtomBonds(atom)]: indices of the bonds at
    atom [i]. *)
Definition getAtomBonds (m : Mol) (i : nat) : list nat :=
  List.filter (fun k => touches i (getBondWithIdx m k)) (seq 0 (getNumBonds m)).

Definition getAtomNeighbors (m : Mol) (i : nat) : list nat :=
  (fun k => getOtherAtomIdx (getBondWithIdx m k) i) <$> getAtomBonds m i.

Definition getDegree (m : Mol) (i : nat) : nat := length (getAtomBonds m i).

Definition joins (i j : nat) (b : Bond) : bool :=
  (bool_decide (beginAtomIdx b = i) && bool_decide (endAtomIdx b = j))
  || (bool_decide (beginAtomIdx b = j) && bool_decide (endAtomIdx b = i)).

Definition getBondBetweenAtoms (m : Mol) (i j : nat) : option nat :=
  fst <$> list_find (fun b => joins i j b = true) (bonds m).

(** Apply [f] to the atom (bond) at one index. *)
Definition updAtom (i : nat) (f : Atom -> Atom) (m : Mol) : Mol :=
  set_atoms (alter f i (atoms m)) m.
Definition updBond (k : nat) (f : Bond -> Bond) (m : Mol) : Mol :=
  set_bonds (alter f k (bonds m)) m.

(** ** Conformers

    Modelled from the spec: a conformer holds one point per atom index;
    [setAtomPos] beyond the current length grows the conformer with
    origin points (invariant (c): conformer length equals atom count). *)
Definition getAtomPos (c : Conformer) (i : nat) : Point3D := positions c !!! i.

Definition setAtomPos (i : nat) (p : Point3D) (c : Conformer) : Conformer :=
  mkConformer (is3D c)
    (if decide (i < length (positions c)) then <[i := p]> (positions c)
     else positions c ++ replicate (i - length (positions c)) origin ++ [p]).

(** ** Graph Mutator

    Modelled from the spec (RWMol is not among the sources): [addAtom]
    appends a vertex and gives it an origin position in every conformer;
    [addBond] appends an edge; [removeAtom] removes the vertex and its
    incident bonds, shifts every atom index greater than the removed one
    down by one in bond end points, stereo reference atoms and conformers. *)
Definition addAtom (a : Atom) (m : Mol) : Mol * nat :=
  let idx := getNumAtoms m in
  (mkMol (atoms m ++ [a]) (bonds m) (setAtomPos idx origin <$> confs m), idx).

Definition addBond (i j : nat) (t : BondType) (m : Mol) : Mol :=
  set_bonds (bonds m ++ [mkBond i j t false STEREONONE [] BD_NONE]) m.

Definition shiftIdx (removed : nat) (i : nat) : nat :=
  if decide (removed < i) then i - 1 else i.

Definition renumberBond (removed : nat) (b : Bond) : Bond :=
  mkBond (shiftIdx removed (beginAtomIdx b)) (shiftIdx removed (endAtomIdx b))
         (bondType b) (bondIsAromatic b) (stereo b)
         (shiftIdx removed <$> stereoAtoms b) (bondDir b).

Definition removeAtom (i : nat) (m : Mol) : Mol :=
  mkMol (delete i (atoms m))
        (renumberBond i <$> List.filter (fun b => negb (touches i b)) (bonds m))
        ((fun c => mkConformer (is3D c) (delete i (positions c))) <$> confs m).

(* ===================================================================== *)
(** * External services                                                   *)
(* ===================================================================== *)

(** The Geometry Engine operations that are not in [point.h]'s inline part:
    a unit perpendicular of a vector, and the rotation by an angle about an
    axis ([Transform3D::SetRotation] followed by [tform * v]). *)
Class GeometryEngine := {
  getPerpendicular : Point3D -> Point3D;
  rotate : R -> Point3D -> Point3D -> Point3D
}.

(** The periodic table: covalent radius and list of default valences. *)
Class PeriodicTable := {
  getRb0 : nat -> R;
  getValenceList : nat -> list Z
}.

(* ===================================================================== *)
(** * setHydrogenCoords                                                   *)
(* ===================================================================== *)

(** [getAtomNeighborNot]: the first neighbour of [atom] that is not
    [other]; [None] stands for a failed PRECONDITION or POSTCONDITION. *)
Definition getAtomNeighborNot (mol : Mol) (atom other : nat) : option nat :=
  if decide (1 < getDegree mol atom)
  then List.find (fun n => negb (bool_decide (n = other))) (getAtomNeighbors mol atom)
  else None.

(** The variables of [setHydrogenCoords] that are declared before the
    [switch] and written inside the loops over the conformers: they keep
    their value from one conformer to the next. *)
Record Locals : Type := mkLocals { dirVect : Point3D; perpVect : Point3D }.

Definition initLocals : Locals := mkLocals (mkPoint3D 0 0 0) origin.

(** [for (auto cfi = mol->beginConformers(); ...)] with the locals threaded
    through; [None] when an iteration raises. *)
Fixpoint forConformers (body : Locals -> Conformer -> option (Locals * Conformer))
    (st : Locals) (cs : list Conformer) : option (list Conformer) :=
  match cs with
  | [] => Some []
  | c :: cs' =>
      match body st c with
      | None => None
      | Some (st', c') => (fun r => c' :: r) <$> forConformers body st' cs'
      end
  end.

(** [std::sort] on [(cip, idx)] pairs. *)
Definition pair_le (a b : nat * nat) : Prop :=
  a.1 < b.1 \/ (a.1 = b.1 /\ a.2 <= b.2).

#[global] Instance pair_le_dec a b : Decision (pair_le a b).
Proof. unfold pair_le. apply _. Defined.

Definition getCIPRank (a : Atom) : nat :=
  match props a !! common_properties._CIPRank with
  | Some (PVUInt r) => r
  | _ => 0
  end.

Definition getCIPCode (a : Atom) : option string :=
  match props a !! common_properties._CIPCode with
  | Some (PVString s) => Some s
  | _ => None
  end.

Section SetHydrogenCoords.
Context {GE : GeometryEngine} {PT : PeriodicTable}.

Definition scaleFor (c : Conformer) (bondLength : R) : R :=
  if is3D c then bondLength else 1%R.

(** case 1: no other atoms present *)
Definition placeDegree1 (hydIdx heavyIdx : nat) (bondLength : R)
    (st : Locals) (c : Conformer) : option (Locals * Conformer) :=
  let dirVect' := if is3D c then set_z 1 (dirVect st) else set_x 1 (dirVect st) in
  let heavyPos := getAtomPos c heavyIdx in
  let hydPos := (heavyPos + dirVect' * scaleFor c bondLength)%P3 in
  Some (mkLocals dirVect' (perpVect st), setAtomPos hydIdx hydPos c).

(** case 2: one other neighbour *)
Definition placeDegree2 (mol : Mol) (hydIdx heavyIdx nbr1 : nat) (bondLength : R)
    (st : Locals) (c : Conformer) : option (Locals * Conformer) :=
  let heavyAtom := getAtomWithIdx mol heavyIdx in
  let heavyPos := getAtomPos c heavyIdx in
  let nbr1Pos := getAtomPos c nbr1 in
  let nbr1Vect := (nbr1Pos - heavyPos)%P3 in
  if degenerate nbr1Vect then Some (st, setAtomPos hydIdx heavyPos c)
  else
    let nbr1Vect := (normalize nbr1Vect * (-1))%P3 in
    match hybridization heavyAtom with
    | SP3 =>
        let perpVect' :=
          if is3D c then getPerpendicular nbr1Vect else set_z 1 (perpVect st) in
        let dirVect' := rotate ((180 - 109471 / 1000) * PI / 180) perpVect' nbr1Vect in
        let hydPos := (heavyPos + dirVect' * scaleFor c bondLength)%P3 in
        Some (mkLocals dirVect' perpVect', setAtomPos hydIdx hydPos c)
    | SP2 =>
        let perpDefault := getPerpendicular nbr1Vect in
        let perpOpt :=
          if decide (1 < getDegree mol nbr1) then
            match getBondBetweenAtoms mol heavyIdx nbr1 with
            | None => None
            | Some nbrBond =>
                if bondIsAromatic (getBondWithIdx mol nbrBond)
                   || bool_decide (bondType (getBondWithIdx mol nbrBond) = DOUBLE)
                then
                  match getAtomNeighborNot mol nbr1 heavyIdx with
                  | None => None
                  | Some nbr2 =>
                      let nbr2Vect := directionVector nbr1Pos (getAtomPos c nbr2) in
                      Some (crossProduct nbr2Vect nbr1Vect)
                  end
                else Some perpDefault
            end
          else Some perpDefault in
        match perpOpt with
        | None => None
        | Some perpVect' =>
            let perpVect' := normalize perpVect' in
            let dirVect' := rotate (60 * PI / 180) perpVect' nbr1Vect in
            let hydPos := (heavyPos + dirVect' * scaleFor c bondLength)%P3 in
            Some (mkLocals dirVect' perpVect', setAtomPos hydIdx hydPos c)
        end
    | _ =>
        (* SP, and every other hybridization: lay the H along the vector *)
        let dirVect' := nbr1Vect in
        let hydPos := (heavyPos + dirVect' * scaleFor c bondLength)%P3 in
        Some (mkLocals dirVect' (perpVect st), setAtomPos hydIdx hydPos c)
    end.

(** case 3: two other neighbours *)
Definition placeDegree3 (mol : Mol) (hydIdx heavyIdx nbr1 nbr2 : nat) (bondLength : R)
    (st : Locals) (c : Conformer) : option (Locals * Conformer) :=
  let heavyAtom := getAtomWithIdx mol heavyIdx in
  let heavyPos := getAtomPos c heavyIdx in
  let nbr1Vect := (heavyPos - getAtomPos c nbr1)%P3 in
  let nbr2Vect := (heavyPos - getAtomPos c nbr2)%P3 in
  if degenerate nbr1Vect || degenerate nbr2Vect
  then Some (st, setAtomPos hydIdx heavyPos c)
  else
    let nbr1Vect := normalize nbr1Vect in
    let nbr2Vect := normalize nbr2Vect in
    let dirVect' := (nbr1Vect + nbr2Vect)%P3 in
    let dirVect' := normalize dirVect' in
    if is3D c then
      match hybridization heavyAtom with
      | SP3 =>
          let nbrPerp := crossProduct nbr1Vect nbr2Vect in
          let rotnAxis := normalize (crossProduct nbrPerp dirVect') in
          let dirVect' := rotate ((109471 / 1000 / 2) * PI / 180) rotnAxis dirVect' in
          let hydPos := (heavyPos + dirVect' * scaleFor c bondLength)%P3 in
          Some (mkLocals dirVect' (perpVect st), setAtomPos hydIdx hydPos c)
      | _ =>
          (* SP2, and every other hybridization *)
          let hydPos := (heavyPos + dirVect' * scaleFor c bondLength)%P3 in
          Some (mkLocals dirVect' (perpVect st), setAtomPos hydIdx hydPos c)
      end
    else
      let hydPos := (heavyPos + dirVect')%P3 in
      Some (mkLocals dirVect' (perpVect st), setAtomPos hydIdx hydPos c).

(** case 4: three other neighbours *)
Definition placeDegree4 (mol : Mol) (hydIdx heavyIdx nbr1 nbr2 nbr3 : nat) (bondLength : R)
    (st : Locals) (c : Conformer) : option (Locals * Conformer) :=
  let heavyAtom := getAtomWithIdx mol heavyIdx in
  let heavyPos := getAtomPos c heavyIdx in
  let nbr1Vect := (heavyPos - getAtomPos c nbr1)%P3 in
  let nbr2Vect := (heavyPos - getAtomPos c nbr2)%P3 in
  let nbr3Vect := (heavyPos - getAtomPos c nbr3)%P3 in
  if degenerate nbr1Vect || degenerate nbr2Vect || degenerate nbr3Vect
  then Some (st, setAtomPos hydIdx heavyPos c)
  else
    let nbr1Vect := normalize nbr1Vect in
    let nbr2Vect := normalize nbr2Vect in
    let nbr3Vect := normalize nbr3Vect in
    let dirVect' :=
      if is3D c then
        if Rlt_dec (Rabs (dotProduct nbr3Vect (crossProduct nbr1Vect nbr2Vect))) (1 / 10)
        then
          let d := crossProduct nbr1Vect nbr2Vect in
          match getCIPCode heavyAtom with
          | Some cipCode =>
              let v1 := (d - nbr3Vect)%P3 in
              let v2 := (nbr1Vect - nbr3Vect)%P3 in
              let v3 := (nbr2Vect - nbr3Vect)%P3 in
              let vol := dotProduct v1 (crossProduct v2 v3) in
              if (bool_decide (cipCode = "S") && (if Rlt_dec vol 0 then true else false))
                 || (bool_decide (cipCode = "R") && (if Rlt_dec 0 vol then true else false))
              then (d * (-1))%P3 else d
          | None => d
          end
        else (nbr1Vect + nbr2Vect + nbr3Vect)%P3
      else
        let minDot := dotProduct nbr1Vect nbr2Vect in
        let d := (nbr1Vect + nbr2Vect)%P3 in
        let '(minDot, d) :=
          if Rlt_dec (dotProduct nbr2Vect nbr3Vect) minDot
          then (dotProduct nbr2Vect nbr3Vect, (nbr2Vect + nbr3Vect)%P3)
          else (minDot, d) in
        let '(minDot, d) :=
          if Rlt_dec (dotProduct nbr1Vect nbr3Vect) minDot
          then (dotProduct nbr1Vect nbr3Vect, (nbr1Vect + nbr3Vect)%P3)
          else (minDot, d) in
        (d * (-1))%P3 in
    let dirVect' := normalize dirVect' in
    let hydPos := (heavyPos + dirVect' * scaleFor c bondLength)%P3 in
    Some (mkLocals dirVect' (perpVect st), setAtomPos hydIdx hydPos c).

(** the neighbours of the heavy atom other than the hydrogen, in
    neighbour order *)
Definition otherNeighbors (mol : Mol) (hydIdx heavyIdx : nat) : list nat :=
  List.filter (fun n => negb (bool_decide (n = hydIdx))) (getAtomNeighbors mol heavyIdx).

(** case 4, the choice of [nbr1], [nbr2], [nbr3] *)
Definition threeNeighbors (mol : Mol) (hydIdx heavyIdx : nat) : option (nat * nat * nat) :=
  if hasProp common_properties._CIPCode (getAtomWithIdx mol heavyIdx) then
    let nbrs := merge_sort pair_le
      ((fun n => (getCIPRank (getAtomWithIdx mol n), n)) <$> otherNeighbors mol hydIdx heavyIdx) in
    match nbrs with
    | a :: b :: c :: _ => Some (a.2, b.2, c.2)
    | _ => None
    end
  else
    match otherNeighbors mol hydIdx heavyIdx with
    | a :: b :: c :: rest => Some (a, b, List.last rest c)
    | _ => None
    end.

Definition setHydrogenCoords (mol : Mol) (hydIdx heavyIdx : nat) : option Mol :=
  if bool_decide (heavyIdx = hydIdx) then None
  else if negb (bool_decide (hydIdx < getNumAtoms mol)) then None
  else if negb (bool_decide (getDegree mol hydIdx = 1)) then None
  else match getBondBetweenAtoms mol heavyIdx hydIdx with
  | None => None
  | Some _ =>
    if negb (bool_decide (heavyIdx < getNumAtoms mol)) then None else
    let heavyAtom := getAtomWithIdx mol heavyIdx in
    let bondLength := (getRb0 1 + getRb0 (atomicNum heavyAtom))%R in
    let run body := (fun cs => set_confs cs mol) <$> forConformers body initLocals (confs mol) in
    match getDegree mol heavyIdx with
    | 1 => run (placeDegree1 hydIdx heavyIdx bondLength)
    | 2 =>
        match getAtomNeighborNot mol heavyIdx hydIdx with
        | None => None
        | Some nbr1 => run (placeDegree2 mol hydIdx heavyIdx nbr1 bondLength)
        end
    | 3 =>
        match otherNeighbors mol hydIdx heavyIdx with
        | nbr1 :: nbr2 :: rest =>
            run (placeDegree3 mol hydIdx heavyIdx nbr1 (List.last rest nbr2) bondLength)
        | _ => None
        end
    | 4 =>
        match threeNeighbors mol hydIdx heavyIdx with
        | Some (nbr1, nbr2, nbr3) =>
            run (placeDegree4 mol hydIdx heavyIdx nbr1 nbr2 nbr3 bondLength)
        | None => None
        end
    | _ =>
        (* heavyPos and dirVect still hold their initial value here *)
        let heavyPos := origin in
        let hydPos := (heavyPos + dirVect initLocals * bondLength)%P3 in
        run (fun st c => Some (st, setAtomPos hydIdx hydPos c))
    end
  end.

End SetHydrogenCoords.

(** The PRECONDITIONs at the head of [setHydrogenCoords]. *)
Definition setHydrogenCoords_pre (mol : Mol) (hydIdx heavyIdx : nat) : Prop :=
  heavyIdx <> hydIdx /\ hydIdx < getNumAtoms mol /\ getDegree mol hydIdx = 1 /\
  is_Some (getBondBetweenAtoms mol heavyIdx hydIdx) /\ heavyIdx < getNumAtoms mol.

(** ** An instance of the services, for the examples

    Modelled from the spec: the Geometry Engine's perpendicular-vector
    construction and its rotation of a vector about a unit axis (Rodrigues'
    formula); the radii are sample values of the covalent-radius lookup. *)
Definition perpendicularOf (p : Point3D) : Point3D :=
  let res :=
    if Req_dec_T (x p) 0 then
      if Req_dec_T (y p) 0 then
        if Req_dec_T (z p) 0 then origin else mkPoint3D 1 0 0
      else if Req_dec_T (z p) 0 then mkPoint3D 1 0 0
      else mkPoint3D 0 (z p) (-1 * y p)
    else if Req_dec_T (y p) 0 then
      if Req_dec_T (z p) 0 then mkPoint3D 0 1 0 else mkPoint3D (z p) 0 (-1 * x p)
    else mkPoint3D (y p) (-1 * x p) 0 in
  normalize res.

Definition rotateAbout (angle : R) (axis v : Point3D) : Point3D :=
  ((v * cos angle) + (crossProduct axis v * sin angle)
   + (axis * (dotProduct axis v * (1 - cos angle))))%P3.

Definition sampleGeometry : GeometryEngine :=
  {| getPerpendicular := perpendicularOf; rotate := rotateAbout |}.

Definition samplePeriodicTable : PeriodicTable :=
  {| getRb0 := fun n => match n with
                        | 1 => (33 / 100)%R
                        | 6 => (77 / 100)%R
                        | 7 => (70 / 100)%R
                        | 8 => (66 / 100)%R
                        | _ => 1%R
                        end;
     getValenceList := fun n => match n with
                                | 1 => [1%Z]
                                | 6 => [4%Z]
                                | 7 => [3%Z]
                                | 8 => [2%Z]
                                | 15 => [3%Z; 5%Z; 7%Z]
                                | 16 => [2%Z; 4%Z; 6%Z]
                                | 17 => [1%Z]
                                | _ => [(-1)%Z]
                                end |}.

(** ** Example molecules *)

Definition atomOf (num : nat) : Atom := newAtom num.
Definition bondOf (i j : nat) (t : BondType) : Bond :=
  mkBond i j t false STEREONONE [] BD_NONE.

(** PF4H: a phosphorus with four fluorines and one hydrogen, one 3-D
    conformer. *)
Definition ex_PF4H : Mol :=
  mkMol [atomOf 15; atomOf 9; atomOf 9; atomOf 9; atomOf 9; atomOf 1]
        [bondOf 0 1 SINGLE; bondOf 0 2 SINGLE; bondOf 0 3 SINGLE; bondOf 0 4 SINGLE;
         bondOf 0 5 SINGLE]
        [mkConformer true
           [mkPoint3D 1 2 3; mkPoint3D 2 2 3; mkPoint3D 0 2 3; mkPoint3D 1 3 3;
            mkPoint3D 1 1 3; origin]].

(** A carbon (atom 0) with two carbon neighbours at (-3, -4) and (-3, 4)
    and a hydrogen (atom 3); one 2-D conformer, the central carbon at the
    origin. *)
Definition ex_CH_2D : Mol :=
  mkMol [atomOf 6; atomOf 6; atomOf 6; atomOf 1]
        [bondOf 0 1 SINGLE; bondOf 0 2 SINGLE; bondOf 0 3 SINGLE]
        [mkConformer false
           [origin; mkPoint3D (-3) (-4) 0; mkPoint3D (-3) 4 0; origin]].

(* ===================================================================== *)
(** * MolOps::addHs                                                       *)
(* ===================================================================== *)

(** The valence model and the property dictionary's bookkeeping of which
    entries are computed ones are services of the surrounding library. *)
Class ValenceModel := {
  calcImplicitValence : Mol -> nat -> nat;
  getTotalValence : Mol -> nat -> Z;
  clearComputedProps : gmap string PropVal -> gmap string PropVal
}.

Section AddHs.
Context {GE : GeometryEngine} {PT : PeriodicTable} {VM : ValenceModel}.

(** Modelled from the spec: [updatePropertyCache] recomputes the derived
    properties of one atom in place. The only derived property kept with
    the atom here is the implicit-hydrogen count; an atom with the
    no-implicit-H flag has none to compute, and its stored count is left
    as it is. *)
Definition updatePropertyCache (mol : Mol) (i : nat) : Mol :=
  updAtom i (fun a => if noImplicit a then a
                      else set_implicitValence (calcImplicitValence mol i) a) mol.

(** One hydrogen for atom [aidx]: the body of the two [for] loops. *)
Definition addOneH (implicitH addCoords : bool) (aidx : nat) (mol : Mol) : option Mol :=
  let '(mol, newIdx) := addAtom (newAtom 1) mol in
  let mol := addBond aidx newIdx SINGLE mol in
  let mol :=
    if implicitH
    then updAtom newIdx (setProp common_properties.isImplicit (PVInt 1)) mol
    else mol in
  let mol := updatePropertyCache mol newIdx in
  if addCoords then setHydrogenCoords mol newIdx aidx else Some mol.

(** [for (i = 0; i < onumexpl; i++)] *)
Fixpoint addExplicitHs (onumexpl : nat) (addCoords : bool) (aidx : nat) (mol : Mol)
    : option Mol :=
  match onumexpl with
  | 0 => Some mol
  | S n => addOneH false addCoords aidx mol ≫= addExplicitHs n addCoords aidx
  end.

(** [for (i = 0; i < mol.getAtomWithIdx(aidx)->getNumImplicitHs(); i++)]: the
    bound is read again at every turn. [budget] bounds the number of turns
    and is the bound read at the first turn; since a turn leaves the atom
    [aidx] as it is, the budget is never exhausted while another turn is
    due (lemma [addImplicitHs_budget]). *)
Fixpoint addImplicitHs (budget i : nat) (addCoords : bool) (aidx : nat) (mol : Mol)
    : option Mol :=
  if bool_decide (i < getNumImplicitHs (getAtomWithIdx mol aidx)) then
    match budget with
    | 0 => None
    | S b => addOneH true addCoords aidx mol ≫= addImplicitHs b (S i) addCoords aidx
    end
  else Some mol.

Definition onList (onlyOnAtoms : option (list nat)) (i : nat) : bool :=
  match onlyOnAtoms with
  | None => true
  | Some l => bool_decide (i ∈ l)
  end.

(** The body of the loop over [aidx]. *)
Definition addHsAt (explicitOnly addCoords : bool) (aidx : nat) (mol : Mol) : option Mol :=
  let mol := updAtom aidx (fun a => set_props (clearComputedProps (props a)) a) mol in
  let onumexpl := numExplicitHs (getAtomWithIdx mol aidx) in
  mol ← addExplicitHs onumexpl addCoords aidx mol;
  let mol := updAtom aidx (set_numExplicitHs 0) mol in
  mol ←
    (if explicitOnly then Some mol
     else
       mol ← addImplicitHs (getNumImplicitHs (getAtomWithIdx mol aidx)) 0 addCoords aidx mol;
       let mol :=
         updAtom aidx (fun a => setProp common_properties.origNoImplicit
                                  (PVBool (noImplicit a)) a) mol in
       Some (updAtom aidx (set_noImplicit true) mol));
  Some (updatePropertyCache mol aidx).

Fixpoint addHsLoop (explicitOnly addCoords : bool) (onlyOnAtoms : option (list nat))
    (aidxs : list nat) (mol : Mol) : option Mol :=
  match aidxs with
  | [] => Some mol
  | aidx :: rest =>
      if onList onlyOnAtoms aidx
      then addHsAt explicitOnly addCoords aidx mol
             ≫= addHsLoop explicitOnly addCoords onlyOnAtoms rest
      else addHsLoop explicitOnly addCoords onlyOnAtoms rest mol
  end.

(** Modelled from the spec: [mol.clearComputedProps(false)] forgets the
    computed properties of the molecule and of each of its atoms and bonds,
    and keeps the ring information. Of these the model has the property
    dictionaries of the atoms. *)
Definition clearMolComputedProps (mol : Mol) : Mol :=
  set_atoms ((fun a => set_props (clearComputedProps (props a)) a) <$> atoms mol) mol.

(** [MolOps::addHs(mol, explicitOnly, addCoords, onlyOnAtoms, false)]: the
    call with [addResidueInfo] false, in which the residue-label pass
    [AssignHsResidueInfo] at the end (line 487) is not run; the call with
    its last argument is [MolOps.addHs] below. The computed properties are
    cleared first (line 421). [None] stands for a failed precondition of
    [setHydrogenCoords]. The capacity that [Conformer::reserve] sets aside
    is not part of the model. *)
Definition addHs (explicitOnly addCoords : bool) (onlyOnAtoms : option (list nat))
    (mol : Mol) : option Mol :=
  let mol := clearMolComputedProps mol in
  let stopIdx := getNumAtoms mol in
  addHsLoop explicitOnly addCoords onlyOnAtoms (seq 0 stopIdx) mol.

End AddHs.

(** A chlorine with one implicit hydrogen and two conformers: the first
    3-D, the second 2-D, the chlorine at the origin in both. *)
Definition ex_HCl : Mol :=
  mkMol [set_implicitValence 1 (atomOf 17)] []
        [mkConformer true [origin]; mkConformer false [origin]].

(** A sample valence model: bond orders are counted as 1, 2, 3 (1 for
    anything else), and the implicit hydrogens fill up the first default
    valence. The only computed property it knows is [origNoImplicit], which
    [addHs] sets with the computed flag. *)
Definition bondOrder (b : Bond) : nat :=
  match bondType b with DOUBLE => 2 | TRIPLE => 3 | _ => 1 end.

Definition sampleExplicitValence (m : Mol) (i : nat) : nat :=
  sum_list ((fun k => bondOrder (getBondWithIdx m k)) <$> getAtomBonds m i)
  + numExplicitHs (getAtomWithIdx m i).

Definition sampleValence : ValenceModel :=
  {| calcImplicitValence := fun m i =>
       match getValenceList (PeriodicTable := samplePeriodicTable)
               (atomicNum (getAtomWithIdx m i)) with
       | v :: _ => Z.to_nat (v - Z.of_nat (sampleExplicitValence m i))
       | [] => 0
       end;
     getTotalValence := fun m i =>
       Z.of_nat (sampleExplicitValence m i + getNumImplicitHs (getAtomWithIdx m i));
     clearComputedProps := fun p => delete common_properties.origNoImplicit p |}.

(* ===================================================================== *)
(** * adjustStereoAtomsIfRequired                                         *)
(* ===================================================================== *)

(** position of the first occurrence, [std::find] *)
Definition findIndex (n : nat) (l : list nat) : option nat :=
  fst <$> list_find (fun m => m = n) l.

Definition invertCisTrans (s : BondStereo) : BondStereo * bool :=
  match s with
  | STEREOCIS => (STEREOTRANS, true)
  | STEREOTRANS => (STEREOCIS, true)
  | other => (other, false)
  end.

(** The loop over the bonds of the heavy atom. [ks] are the bond indices
    still to visit. The function returns from inside the inner loop, at
    the first neighbour that is neither the other end of the double bond
    nor the hydrogen. *)
Fixpoint adjustStereoAtomsLoop (mol : Mol) (atomIdx heavyIdx : nat) (ks : list nat)
    : Mol * bool :=
  match ks with
  | [] => (mol, false)
  | k :: ks' =>
      let bnd := getBondWithIdx mol k in
      if bool_decide (bondType bnd = DOUBLE)
         && bool_decide (stereoRank STEREOANY < stereoRank (stereo bnd)) then
        match findIndex atomIdx (stereoAtoms bnd) with
        | Some sAtomIt =>
            let dblNbrIdx := getOtherAtomIdx bnd heavyIdx in
            match List.find (fun nbr => negb (bool_decide (nbr = dblNbrIdx)
                                              || bool_decide (nbr = atomIdx)))
                            (getAtomNeighbors mol heavyIdx) with
            | Some nbr =>
                let '(st, madeAdjustment) := invertCisTrans (stereo bnd) in
                (updBond k (fun b => set_stereo st
                                       (set_stereoAtoms (<[sAtomIt := nbr]> (stereoAtoms b)) b))
                         mol,
                 madeAdjustment)
            | None => adjustStereoAtomsLoop mol atomIdx heavyIdx ks'
            end
        | None => adjustStereoAtomsLoop mol atomIdx heavyIdx ks'
        end
      else adjustStereoAtomsLoop mol atomIdx heavyIdx ks'
  end.

Definition adjustStereoAtomsIfRequired (mol : Mol) (atomIdx heavyIdx : nat) : Mol * bool :=
  if bool_decide (getDegree mol heavyIdx = 2) then (mol, false)
  else match getBondBetweenAtoms mol atomIdx heavyIdx with
       | None => (mol, false)
       | Some _ => adjustStereoAtomsLoop mol atomIdx heavyIdx (getAtomBonds mol heavyIdx)
       end.

(* ===================================================================== *)
(** * MolOps::removeHs                                                    *)
(* ===================================================================== *)

(** Modelled from the spec: [getPerturbationOrder] is the number of swaps
    that take the given list of bond indices to the atom's stored bond
    order (step 1 of the Stereo Preservation Engine); the positions are
    fixed from left to right, one swap for each position that does not
    hold its element yet. *)
Fixpoint replaceFirst (old new : nat) (l : list nat) : list nat :=
  match l with
  | [] => []
  | a :: l' => if bool_decide (a = old) then new :: l' else a :: replaceFirst old new l'
  end.

Fixpoint countSwapsToInterconvert (ref probe : list nat) : nat :=
  match ref, probe with
  | r :: ref', p :: probe' =>
      if bool_decide (p = r) then countSwapsToInterconvert ref' probe'
      else S (countSwapsToInterconvert ref' (replaceFirst r p probe'))
  | _, _ => 0
  end.

Definition getPerturbationOrder (mol : Mol) (atomIdx : nat) (probe : list nat) : nat :=
  countSwapsToInterconvert (getAtomBonds mol atomIdx) probe.


(** The outcome of an operation that works in place and may raise: the
    molecule as it is left, and the exception, if any. *)
Inductive Exception := MolSanitizeException (what : string) | Invariant (what : string).

(** The sanitization pass, a service of the surrounding library. *)
Class Sanitizer := { sanitizeMol : Mol -> Mol * option Exception }.

Section RemoveHs.
Context {PT : PeriodicTable} {VM : ValenceModel} {SAN : Sanitizer}.

(** The decision [removeIt] for the hydrogen at [idx]. *)
Definition removeIt (implicitOnly : bool) (mol : Mol) (idx : nat) : bool :=
  let atom := getAtomWithIdx mol idx in
  if bool_decide (getDegree mol idx = 0) then false
  else if negb (hasQuery atom) then
    if hasProp common_properties.isImplicit atom then
      if bool_decide (getDegree mol idx = 1) then
        match getAtomNeighbors mol idx with
        | begin :: _ => negb (bool_decide (atomicNum (getAtomWithIdx mol begin) < 1))
        | [] => true
        end
      else true
    else if negb implicitOnly && bool_decide (isotope atom = 0)
            && bool_decide (getDegree mol idx = 1) then
      match getAtomNeighbors mol idx with
      | nbr :: _ =>
          if bool_decide (1 < atomicNum (getAtomWithIdx mol nbr)) then
            if bool_decide (getDegree mol nbr = 2) then
              negb (existsb
                      (fun k =>
                         let bnd := getBondWithIdx mol k in
                         bool_decide (bondType bnd = DOUBLE)
                         && (bool_decide (stereoRank STEREOANY < stereoRank (stereo bnd))
                             || match getBondBetweenAtoms mol idx nbr with
                                | Some kb => negb (bool_decide
                                               (bondDir (getBondWithIdx mol kb) = BD_NONE))
                                | None => false
                                end))
                      (getAtomBonds mol nbr))
            else true
          else false
      | [] => false
      end
    else false
  else false.

(** The explicit-hydrogen bookkeeping on the heavy atom. *)
Definition bumpExplicitCount (updateExplicitCount : bool) (heavyIdx : nat) (mol : Mol) : Mol :=
  let heavyAtom := getAtomWithIdx mol heavyIdx in
  let heavyAtomNum := atomicNum heavyAtom in
  let defaultVs := getValenceList heavyAtomNum in
  let bump := updAtom heavyIdx (fun a => set_numExplicitHs (numExplicitHs a + 1) a) mol in
  if updateExplicitCount || noImplicit heavyAtom
     || negb (bool_decide (chiralTag heavyAtom = CHI_UNSPECIFIED)) then bump
  else if ((bool_decide (heavyAtomNum = 7) || bool_decide (heavyAtomNum = 15))
           && isAromatic heavyAtom)
          || bool_decide (getTotalValence mol heavyIdx ∈ tail defaultVs) then bump
  else mol.

(** The list handed to [getPerturbationOrder]: the bonds of the heavy atom
    with the bond to the hydrogen moved to the end. *)
Definition neighborIndices (mol : Mol) (heavyIdx bondIdx : nat) : list nat :=
  List.filter (fun k => negb (bool_decide (k = bondIdx))) (getAtomBonds mol heavyIdx)
  ++ [bondIdx].

Definition fixChirality (heavyIdx bondIdx : nat) (mol : Mol) : Mol :=
  if negb (bool_decide (chiralTag (getAtomWithIdx mol heavyIdx) = CHI_UNSPECIFIED)) then
    let nSwaps := getPerturbationOrder mol heavyIdx (neighborIndices mol heavyIdx bondIdx) in
    if negb (bool_decide (nSwaps mod 2 = 0)) then updAtom heavyIdx invertChirality mol
    else mol
  else mol.

(** The search for another single bond that can carry the direction:
    [oBond] is the last undirected one, [foundADir] tells whether a
    directed one was seen. *)
Fixpoint scanDirs (mol : Mol) (bondIdx : nat) (ks : list nat) (foundADir : bool)
    (oBond : option nat) : bool * option nat :=
  match ks with
  | [] => (foundADir, oBond)
  | k :: ks' =>
      if negb (bool_decide (k = bondIdx))
         && bool_decide (bondType (getBondWithIdx mol k) = SINGLE) then
        if bool_decide (bondDir (getBondWithIdx mol k) = BD_NONE)
        then scanDirs mol bondIdx ks' foundADir (Some k)
        else scanDirs mol bondIdx ks' true oBond
      else scanDirs mol bondIdx ks' foundADir oBond
  end.

Definition fixBondDirs (idx heavyIdx bondIdx : nat) (mol : Mol) : Mol :=
  let bond := getBondWithIdx mol bondIdx in
  if bool_decide (bondDir bond = BD_UNKNOWN) && bool_decide (beginAtomIdx bond = heavyIdx) then
    updAtom heavyIdx (setProp common_properties._UnknownStereo (PVInt 1)) mol
  else if bool_decide (bondDir bond = ENDDOWNRIGHT) || bool_decide (bondDir bond = ENDUPRIGHT) then
    let '(foundADir, oBond) :=
      scanDirs mol bondIdx (getAtomBonds mol heavyIdx) false None in
    let mol :=
      match oBond with
      | Some ob =>
          if negb foundADir then
            let flipIt := bool_decide (beginAtomIdx (getBondWithIdx mol ob) = heavyIdx)
                          && bool_decide (beginAtomIdx bond = heavyIdx) in
            if flipIt then
              updBond ob (set_bondDir (if bool_decide (bondDir bond = ENDDOWNRIGHT)
                                       then ENDUPRIGHT else ENDDOWNRIGHT)) mol
            else updBond ob (set_bondDir (bondDir bond)) mol
          else mol
      | None => mol
      end in
    (adjustStereoAtomsIfRequired mol idx heavyIdx).1
  else (adjustStereoAtomsIfRequired mol idx heavyIdx).1.

(** The block [if (removeIt) { ... mol.removeAtom(atom); }] for the
    hydrogen at [idx]. The CHECK_INVARIANT cannot fail: [removeIt] is only
    true for an atom that has a bond. *)
Definition removeHydrogen (updateExplicitCount : bool) (mol : Mol) (idx : nat) : Mol :=
  match getAtomBonds mol idx with
  | [] => mol
  | bondIdx :: _ =>
      let heavyIdx := getOtherAtomIdx (getBondWithIdx mol bondIdx) idx in
      let mol := bumpExplicitCount updateExplicitCount heavyIdx mol in
      let mol := fixChirality heavyIdx bondIdx mol in
      let mol := fixBondDirs idx heavyIdx bondIdx mol in
      removeAtom idx mol
  end.

Definition getOrigNoImplicit (a : Atom) : option bool :=
  match props a !! common_properties.origNoImplicit with
  | Some (PVBool b) => Some b
  | _ => None
  end.

(** The [else] branch for an atom that is not a hydrogen. *)
Definition restoreNoImplicit (mol : Mol) (idx : nat) : Mol :=
  match getOrigNoImplicit (getAtomWithIdx mol idx) with
  | Some origNoImplicit =>
      updAtom idx (fun a => clearProp common_properties.origNoImplicit
                              (set_noImplicit origNoImplicit a)) mol
  | None => mol
  end.

(** The [while (currIdx < mol.getNumAtoms())] loop. Every turn either
    removes an atom or moves [currIdx] forward, so [n] turns, [n] the
    number of atoms to look at, are all there are. Next to the molecule
    the loop hands back the original indices ([origIdx]) of the atoms it
    removed. *)
Fixpoint removeHsLoop (n : nat) (implicitOnly updateExplicitCount : bool)
    (mol : Mol) (currIdx origIdx : nat) : Mol * list nat :=
  match n with
  | 0 => (mol, [])
  | S n' =>
      if bool_decide (currIdx < getNumAtoms mol) then
        let atom := getAtomWithIdx mol currIdx in
        if bool_decide (atomicNum atom = 1) then
          if removeIt implicitOnly mol currIdx then
            let '(mol', removed) :=
              removeHsLoop n' implicitOnly updateExplicitCount
                (removeHydrogen updateExplicitCount mol currIdx) currIdx (S origIdx) in
            (mol', origIdx :: removed)
          else
            removeHsLoop n' implicitOnly updateExplicitCount mol (S currIdx) (S origIdx)
        else
          removeHsLoop n' implicitOnly updateExplicitCount
            (restoreNoImplicit mol currIdx) (S currIdx) (S origIdx)
      else (mol, [])
  end.

(** The first loop: the property cache of every atom that is not a
    hydrogen is brought up to date. *)
Definition updateHeavyCaches (mol : Mol) : Mol :=
  foldl (fun m i => if bool_decide (atomicNum (getAtomWithIdx m i) = 1) then m
                    else updatePropertyCache m i)
        mol (seq 0 (getNumAtoms mol)).

Definition removeHsTrace (implicitOnly updateExplicitCount : bool) (mol : Mol)
    : Mol * list nat :=
  let mol := updateHeavyCaches mol in
  removeHsLoop (getNumAtoms mol) implicitOnly updateExplicitCount mol 0 0.

(** [MolOps::removeHs(RWMol &mol, implicitOnly, updateExplicitCount,
    sanitize)]: the molecule as it is left, and the exception of the
    sanitization pass, if it raised one. *)
Definition removeHs (implicitOnly updateExplicitCount sanitize : bool) (mol : Mol)
    : Mol * option Exception :=
  let mol := (removeHsTrace implicitOnly updateExplicitCount mol).1 in
  if negb implicitOnly then
    if sanitize then sanitizeMol mol else (mol, None)
  else (mol, None).

End RemoveHs.

(* ===================================================================== *)
(** * Vocabulary of the statements                                        *)
(* ===================================================================== *)

(** The end points of a bond: all that the graph queries look at. *)
Definition endpoints (b : Bond) : nat * nat := (beginAtomIdx b, endAtomIdx b).

(** What the fix-ups that precede the removal of a hydrogen leave of an
    atom: they may change the explicit-hydrogen count, the chiral tag and
    the [_UnknownStereo] property, and nothing else. *)
Definition atomKept (a a' : Atom) : Prop :=
  atomicNum a' = atomicNum a /\ isotope a' = isotope a /\
  implicitValence a' = implicitValence a /\ noImplicit a' = noImplicit a /\
  isAromatic a' = isAromatic a /\ hybridization a' = hybridization a /\
  query a' = query a /\
  forall key, key <> common_properties._UnknownStereo -> props a' !! key = props a !! key.

(** What they leave of a bond: they may change the direction, the stereo
    atoms, and swap cis and trans. *)
Definition stereoSet (b : Bond) : Prop := stereoRank STEREOANY < stereoRank (stereo b).

Definition bondKept (b b' : Bond) : Prop :=
  endpoints b' = endpoints b /\ bondType b' = bondType b /\
  bondIsAromatic b' = bondIsAromatic b /\ (stereoSet b' <-> stereoSet b).

(** The molecule just before [mol.removeAtom(atom)]. *)
Definition preRemoval {PT : PeriodicTable} {VM : ValenceModel}
    (updateExplicitCount : bool) (mol : Mol) (idx heavyIdx bondIdx : nat) : Mol :=
  fixBondDirs idx heavyIdx bondIdx
    (fixChirality heavyIdx bondIdx (bumpExplicitCount updateExplicitCount heavyIdx mol)).

(** Invariant (a) of the data model: the end points of every bond are
    atoms of the molecule, and they differ. *)
Definition wfBonds (m : Mol) : Prop :=
  forall b, b ∈ bonds m ->
    beginAtomIdx b < getNumAtoms m /\ endAtomIdx b < getNumAtoms m /\
    beginAtomIdx b <> endAtomIdx b.

Definition molKept (m m' : Mol) : Prop :=
  getNumAtoms m' = getNumAtoms m /\ getNumBonds m' = getNumBonds m /\
  (forall j, atomKept (getAtomWithIdx m j) (getAtomWithIdx m' j)) /\
  (forall k, bondKept (getBondWithIdx m k) (getBondWithIdx m' k)) /\
  confs m' = confs m.

(** The neighbour [adjustStereoAtomsIfRequired] substitutes at bond [k]:
    the first neighbour of the heavy atom that is neither the other end of
    the double bond nor the hydrogen. *)
Definition substitute (mol : Mol) (atomIdx heavyIdx k : nat) : option nat :=
  List.find (fun nbr => negb (bool_decide (nbr = getOtherAtomIdx (getBondWithIdx mol k) heavyIdx)
                              || bool_decide (nbr = atomIdx)))
            (getAtomNeighbors mol heavyIdx).

(** A double bond with a set stereo descriptor whose stereo atoms name
    [atomIdx]. *)
Definition namesInStereo (atomIdx : nat) (b : Bond) : Prop :=
  bondType b = DOUBLE /\ stereoSet b /\ atomIdx ∈ stereoAtoms b.

(** A tetrahedral carbon (atom 0, clockwise) with a hydrogen (atom 1) and
    three halogens. *)
Definition ex_CHFClBr : Mol :=
  mkMol [set_chiralTag CHI_TETRAHEDRAL_CW (atomOf 6); atomOf 1; atomOf 9; atomOf 17; atomOf 35]
        [bondOf 0 1 SINGLE; bondOf 0 2 SINGLE; bondOf 0 3 SINGLE; bondOf 0 4 SINGLE]
        [].

(** F(H)C=CF with the double bond (bond 0) marked cis with respect to the
    hydrogen (atom 2) and the fluorine of the other carbon (atom 4). The
    bond to the hydrogen has direction [dir]. *)
Definition ex_fluoroethene (dir : BondDir) : Mol :=
  mkMol [atomOf 6; atomOf 6; atomOf 1; atomOf 9; atomOf 9]
        [mkBond 0 1 DOUBLE false STEREOCIS [2; 4] BD_NONE;
         mkBond 0 2 SINGLE false STEREONONE [] dir;
         bondOf 0 3 SINGLE; bondOf 1 4 SINGLE]
        [].

(** Bonds that differ in their direction marker at most. *)
Definition sameButDir (b b' : Bond) : Prop :=
  endpoints b' = endpoints b /\ bondType b' = bondType b /\
  stereo b' = stereo b /\ stereoAtoms b' = stereoAtoms b.

Definition molSameButDir (m m' : Mol) : Prop :=
  getNumBonds m' = getNumBonds m /\
  forall k, sameButDir (getBondWithIdx m k) (getBondWithIdx m' k).

(** The hydrogen's bond is a wavy bond that begins at the heavy atom. *)
Definition wavyFrom (mol : Mol) (bondIdx heavyIdx : nat) : Prop :=
  bondDir (getBondWithIdx mol bondIdx) = BD_UNKNOWN /\
  beginAtomIdx (getBondWithIdx mol bondIdx) = heavyIdx.

(** What [removeHs] looks at when it decides about a hydrogen, and what no
    step of it changes: the atomic number, the isotope, the query and the
    [isImplicit] property of every atom; the end points, the type and the
    presence of a stereo descriptor of every bond. *)
Definition atomAlike (a a' : Atom) : Prop :=
  atomicNum a' = atomicNum a /\ isotope a' = isotope a /\ query a' = query a /\
  props a' !! common_properties.isImplicit = props a !! common_properties.isImplicit.

Definition molAlike (m m' : Mol) : Prop :=
  getNumAtoms m' = getNumAtoms m /\ getNumBonds m' = getNumBonds m /\
  (forall j, atomAlike (getAtomWithIdx m j) (getAtomWithIdx m' j)) /\
  (forall k, bondKept (getBondWithIdx m k) (getBondWithIdx m' k)).

(** The hydrogens of claim C4. *)

(** (i) a hydrogen without bonds *)
Definition unbondedH (m : Mol) (j : nat) : Prop :=
  atomicNum (getAtomWithIdx m j) = 1 /\ getDegree m j = 0.

(** (ii) an isotopically labelled hydrogen that is not flagged implicit *)
Definition labelledH (m : Mol) (j : nat) : Prop :=
  atomicNum (getAtomWithIdx m j) = 1 /\
  hasProp common_properties.isImplicit (getAtomWithIdx m j) = false /\
  0 < isotope (getAtomWithIdx m j).

(** (iii) a hydrogen flagged implicit whose only neighbour is a dummy atom *)
Definition dummyBoundH (m : Mol) (j : nat) : Prop :=
  atomicNum (getAtomWithIdx m j) = 1 /\
  hasProp common_properties.isImplicit (getAtomWithIdx m j) = true /\
  exists d, getAtomNeighbors m j = [d] /\ atomicNum (getAtomWithIdx m d) = 0.

(** (iv) a hydrogen whose only neighbour is a heavy atom of degree 2 that
    carries a double bond with a set stereo descriptor: the hydrogen is
    the only substituent at this end of the double bond. [flagged] tells
    whether the hydrogen is flagged implicit. The other neighbour of the
    heavy atom is not a hydrogen. *)
Definition stereoRefH (flagged : bool) (m : Mol) (j : nat) : Prop :=
  atomicNum (getAtomWithIdx m j) = 1 /\
  hasProp common_properties.isImplicit (getAtomWithIdx m j) = flagged /\
  exists nbr,
    getAtomNeighbors m j = [nbr] /\
    1 < atomicNum (getAtomWithIdx m nbr) /\
    getDegree m nbr = 2 /\
    (forall n, n ∈ getAtomNeighbors m nbr -> n = j \/ atomicNum (getAtomWithIdx m n) <> 1) /\
    exists b, b ∈ List.filter (touches nbr) (bonds m) /\ bondType b = DOUBLE /\ stereoSet b.

(** HN=CFCl: the nitrogen (atom 0) has degree 2, the double bond (bond 0) is
    marked cis with respect to the hydrogen (atom 2) and the fluorine
    (atom 3). [flagged] tells whether the hydrogen carries the
    [isImplicit] property, as a hydrogen made by [addHs] does. *)
Definition ex_imine (flagged : bool) : Mol :=
  mkMol [atomOf 7; atomOf 6;
         (if flagged then setProp common_properties.isImplicit (PVInt 1) (atomOf 1)
          else atomOf 1);
         atomOf 9; atomOf 17]
        [mkBond 0 1 DOUBLE false STEREOCIS [2; 3] BD_NONE;
         bondOf 0 2 SINGLE; bondOf 1 3 SINGLE; bondOf 1 4 SINGLE]
        [].

(** ** Vocabulary of the round trip *)

(** The molecule [addOneH] hands to [setHydrogenCoords]. *)
Definition attachH {VM : ValenceModel} (implicitH : bool) (aidx : nat) (mol : Mol) : Mol :=
  let '(mol, newIdx) := addAtom (newAtom 1) mol in
  let mol := addBond aidx newIdx SINGLE mol in
  let mol :=
    if implicitH
    then updAtom newIdx (setProp common_properties.isImplicit (PVInt 1)) mol
    else mol in
  updatePropertyCache mol newIdx.

(** The end points of every bond are atoms of the molecule. *)
Definition bondsInRange (m : Mol) : Prop :=
  forall b, b ∈ bonds m -> beginAtomIdx b < getNumAtoms m /\ endAtomIdx b < getNumAtoms m.

(** A hydrogen as [addHs] makes it from an implicit one: flagged
    [isImplicit], without a query, with a heavy atom as its only
    neighbour. *)
Definition flaggedH (m : Mol) (p : nat) : Prop :=
  atomicNum (getAtomWithIdx m p) = 1 /\
  query (getAtomWithIdx m p) = None /\
  hasProp common_properties.isImplicit (getAtomWithIdx m p) = true /\
  exists q, getAtomNeighbors m p = [q] /\ 1 < atomicNum (getAtomWithIdx m q).

(** An atom after [addHs] has visited it: the no-implicit flag is set, the
    flag it had is remembered in [origNoImplicit], the stored
    implicit-hydrogen count is the one it had. *)
Definition processedHeavy (orig a : Atom) : Prop :=
  atomicNum a = atomicNum orig /\ implicitValence a = implicitValence orig /\
  noImplicit a = true /\ getOrigNoImplicit a = Some (noImplicit orig).

(** An atom after [removeHs] has visited it. *)
Definition restoredHeavy (orig a : Atom) : Prop :=
  atomicNum a = atomicNum orig /\ implicitValence a = implicitValence orig /\
  noImplicit a = noImplicit orig.

(** The molecules of claim C1: no hydrogen atom in the graph, no explicit
    hydrogen counts, and (as the valence model has it) no implicit
    hydrogens on dummy atoms. *)
Definition onlyImplicitHs (m : Mol) : Prop :=
  forall a, a ∈ atoms m ->
    atomicNum a <> 1 /\ numExplicitHs a = 0 /\ (atomicNum a = 0 -> getNumImplicitHs a = 0).

(** Water, with methane's carbon next to it, all hydrogens implicit; one
    3-D conformer. *)
Definition ex_water_methane : Mol :=
  mkMol [set_implicitValence 2 (atomOf 8); set_implicitValence 4 (atomOf 6)] []
        [mkConformer true [origin; mkPoint3D 3 0 0]].

(** The atoms from index [n] on are hydrogens made by [addHs]. *)
Definition tailFlagged (n : nat) (m : Mol) : Prop :=
  n <= getNumAtoms m /\ bondsInRange m /\
  forall p, n <= p < getNumAtoms m -> flaggedH m p.

(** A sample sanitization pass: it raises when an atom has more bonds and
    explicit hydrogens than its largest default valence allows (atoms
    without a default valence are not checked), and changes nothing. *)
Definition overValent (m : Mol) (i : nat) : bool :=
  match getValenceList (PeriodicTable := samplePeriodicTable)
          (atomicNum (getAtomWithIdx m i)) with
  | [] => false
  | v :: vs =>
      bool_decide (0 <= v)%Z
      && bool_decide (foldr Z.max v vs < Z.of_nat (sampleExplicitValence m i))%Z
  end.

Definition sampleSanitizer : Sanitizer :=
  {| sanitizeMol := fun m =>
       if existsb (overValent m) (seq 0 (getNumAtoms m))
       then (m, Some (MolSanitizeException "valence"))
       else (m, None) |}.

(** CF5H: a carbon with five fluorines and a hydrogen. *)
Definition ex_CF5H : Mol :=
  mkMol [atomOf 6; atomOf 9; atomOf 9; atomOf 9; atomOf 9; atomOf 9; atomOf 1]
        [bondOf 0 1 SINGLE; bondOf 0 2 SINGLE; bondOf 0 3 SINGLE; bondOf 0 4 SINGLE;
         bondOf 0 5 SINGLE; bondOf 0 6 SINGLE]
        [].

(* ===================================================================== *)
(** * The copy-returning removeHs                                         *)
(* ===================================================================== *)

(** Molecules live on the heap, at addresses. The input is a reference to
    a molecule on the heap; the result is the address of a new molecule,
    or an exception. *)
Inductive Outcome := Returned (res : nat) | Thrown (e : Exception).

Section RemoveHsCopy.
Context {PT : PeriodicTable} {VM : ValenceModel} {SAN : Sanitizer}.

(** [ROMol *removeHs(const ROMol &mol, ...)]: a copy is made with [new],
    [removeHs] works on the copy in place; a [MolSanitizeException] is
    caught, the copy deleted and the exception thrown on; any other
    exception passes through the [try] block as it is. [None] stands for
    a reference to no molecule. *)
Definition removeHsCopy (implicitOnly updateExplicitCount sanitize : bool)
    (molPtr : nat) (heap : gmap nat Mol) : option (gmap nat Mol * Outcome) :=
  mol ← heap !! molPtr;
  let res := fresh (dom heap) in
  let heap := <[res := mol]> heap in
  let '(mol', raised) := removeHs implicitOnly updateExplicitCount sanitize mol in
  let heap := <[res := mol']> heap in
  Some match raised with
       | Some (MolSanitizeException what) =>
           (delete res heap, Thrown (MolSanitizeException what))
       | Some e => (heap, Thrown e)
       | None => (heap, Returned res)
       end.

End RemoveHsCopy.

(* ===================================================================== *)
(** * Query hydrogens                                                     *)
(* ===================================================================== *)

(** Nodes of a query tree, and of a work list of trees: a bound for the
    number of turns of a loop that pops one node and pushes its children. *)
Fixpoint querySize (q : Query) : nat :=
  match q with
  | mkQuery _ _ _ cs _ => S (foldr (fun c n => querySize c + n) 0 cs)
  end.

Definition stackSize (childStack : list Query) : nat :=
  foldr (fun c n => querySize c + n) 0 childStack.

(** The [while] loop of [isQueryH]: the front of [childStack] is popped; an
    [AtomOr] node sets [hasOr] and an [AtomAtomicNum] node may set
    [hasHQuery], neither has its children pushed; the children of any
    other node go to the back of the list. The loop stops as soon as both
    flags are set. [None]: out of [fuel]. *)
Fixpoint scanChildStack (fuel : nat) (childStack : list Query)
    (hasHQuery hasOr : bool) : option (bool * bool) :=
  if hasHQuery && hasOr then Some (hasHQuery, hasOr)
  else match childStack with
       | [] => Some (hasHQuery, hasOr)
       | query :: childStack =>
         match fuel with
         | 0 => None
         | S fuel =>
           if bool_decide (getDescription query = "AtomOr") then
             scanChildStack fuel childStack hasHQuery true
           else if bool_decide (getDescription query = "AtomAtomicNum") then
             scanChildStack fuel childStack
               (if (getVal query =? 1) && negb (getNegation query)
                then true else hasHQuery) hasOr
           else scanChildStack fuel (childStack ++ getChildren query) hasHQuery hasOr
         end
       end.

Definition orWarning : string :=
  "WARNING: merging explicit H queries involved in ORs is not supported. This query will not be merged".

(** [isQueryH(atom)]: the answer, and what was written to [rdWarningLog].
    The atom is given by its molecule and index, as its degree is the
    molecule's. The work list holds at most the nodes below the root, so
    that many turns are allowed to the loop. *)
Definition isQueryH (mol : Mol) (idx : nat) : option (bool * list string) :=
  let atom := getAtomWithIdx mol idx in
  if (atomicNum atom =? 1) &&
     match query atom with
     | None => true
     | Some q => negb (getNegation q) && bool_decide (getDescription q = "AtomAtomicNum")
     end
  then Some (true, [])
  else if negb (getDegree mol idx =? 1) then Some (false, [])
  else match query atom with
       | None => Some (false, [])
       | Some q =>
         if getNegation q then Some (false, [])
         else
           let hasOr := bool_decide (getDescription q = "AtomOr") in
           '(hasHQuery, hasOr) ←
             scanChildStack (stackSize (getChildren q)) (getChildren q) false hasOr;
           if hasHQuery && hasOr then Some (false, [orWarning])
           else Some (hasHQuery, [])
       end.

(** ** What the scan can see *)

(** A node on the work list shows a hydrogen leaf (an OR) when it is one, or
    when one of its descendants is, on a path on which no node, this one
    included, is an [AtomOr] or an [AtomAtomicNum]: those are not opened. *)
Fixpoint seesH (q : Query) : bool :=
  match q with
  | mkQuery d neg v cs _ =>
    if bool_decide (d = "AtomOr") then false
    else if bool_decide (d = "AtomAtomicNum") then (v =? 1) && negb neg
    else existsb seesH cs
  end.

Fixpoint seesOr (q : Query) : bool :=
  match q with
  | mkQuery d _ _ cs _ =>
    if bool_decide (d = "AtomOr") then true
    else if bool_decide (d = "AtomAtomicNum") then false
    else existsb seesOr cs
  end.

(** All the nodes of a tree, the root first. *)
Fixpoint queryNodes (q : Query) : list Query :=
  match q with
  | mkQuery _ _ _ cs _ => q :: flat_map queryNodes cs
  end.

(** A non-negated atomic-number-equals-1 leaf. *)
Definition isHLeaf (q : Query) : bool :=
  bool_decide (getDescription q = "AtomAtomicNum") && (getVal q =? 1) &&
  negb (getNegation q).

Definition containsHLeaf (q : Query) : bool := existsb isHLeaf (queryNodes q).
Definition containsOr (q : Query) : bool :=
  existsb (fun n => bool_decide (getDescription n = "AtomOr")) (queryNodes q).

(* ===================================================================== *)
(** * mergeQueryHs                                                        *)
(* ===================================================================== *)

(** The molecules of recursive-structure queries are reached through the
    pointer their query node holds, and [mergeQueryHs] changes them in
    place: all molecules are on a heap. Next to it, the warning log. *)
Definition MergeState : Type := gmap nat Mol * list string.

(** Modelled from the spec: [makeAtomNumQuery(n)] is the leaf "atomic
    number equals n" (the query constructors are not among the sources). *)
Definition makeAtomNumQuery (what : nat) : Query :=
  mkQuery "AtomAtomicNum" false what [] None.

(** Modelled from the spec: [makeAtomHCountQuery(n)] is the leaf "has
    exactly n hydrogens". *)
Definition makeAtomHCountQuery (what : nat) : Query :=
  mkQuery "AtomHCount" false what [] None.

(** Modelled from the spec: [setNegation] sets the negation flag of a node
    and nothing else. *)
Definition setNegation (what : bool) (q : Query) : Query :=
  mkQuery (getDescription q) what (getVal q) (getChildren q) (getQueryMol q).

(** Modelled from the spec: [expandQuery(what)] (by default AND, keeping the
    order) puts a new AND node over the query of the atom and the new one.
    An atom without a query is not given to it: [mergeQueryHs] replaces
    such an atom by a query atom first. *)
Definition expandQuery (what : Query) (atom : Atom) : Atom :=
  match query atom with
  | Some q => set_query (Some (mkQuery "AtomAnd" false 0 [q; what] None)) atom
  | None => atom
  end.

(** Modelled from the spec: [new QueryAtom] is a default atom (atomic
    number 0) that can hold a query. *)
Definition newQueryAtom : Atom := newAtom 0.

(** Modelled from the spec: [setQuery] gives the atom the query. *)
Definition setQuery (q : Query) (atom : Atom) : Atom := set_query (Some q) atom.

(** Modelled from the spec: [updateProps(source)] copies the property
    dictionary of the source (Github #2062: the properties of a replaced
    atom are kept). *)
Definition updateProps (source : Atom) (atom : Atom) : Atom :=
  set_props (props source) atom.

(** Modelled from the spec: [replaceAtom] puts a copy of the new atom at the
    index and leaves the bonds alone. *)
Definition replaceAtom (idx : nat) (newAt : Atom) (mol : Mol) : Mol :=
  updAtom idx (fun _ => newAt) mol.

(** The hydrogen neighbours of [idx] that will be merged into it, in
    neighbour order: what the inner [while] pushes to [atomsToRemove]. *)
Definition eligibleHs (mergeUnmappedOnly : bool) (hatoms : list bool)
    (mol : Mol) (idx : nat) : list nat :=
  List.filter
    (fun nbr => (hatoms !!! nbr : bool) &&
                (negb mergeUnmappedOnly ||
                 negb (hasProp common_properties.molAtomMapNumber
                         (getAtomWithIdx mol nbr))))
    (getAtomNeighbors mol idx).

(** [for (i = 0; i < numHsToRemove; ++i)]: AND in a negated H-count query. *)
Definition addHCountQueries (numHsToRemove : nat) (atom : Atom) : Atom :=
  foldl (fun atom i => expandQuery (setNegation true (makeAtomHCountQuery i)) atom)
        atom (seq 0 numHsToRemove).

(** [if (numHsToRemove) { ... }] *)
Definition compensate (numHsToRemove currIdx : nat) (mol : Mol) : Mol :=
  if numHsToRemove =? 0 then mol
  else
    let atom := getAtomWithIdx mol currIdx in
    let mol :=
      if hasQuery atom then mol
      else
        let tmp := makeAtomNumQuery (atomicNum atom) in
        replaceAtom currIdx (updateProps atom (setQuery tmp newQueryAtom)) mol in
    updAtom currIdx (addHCountQueries numHsToRemove) mol.

(** The second [while] over a [childStack]: a [RecursiveStructure] node has
    its molecule merged, by [rec]; the children of any other node go to the
    back of the list. [None]: out of [fuel], or a node without a molecule. *)
Fixpoint recurseChildren (rec : nat -> MergeState -> option MergeState)
    (fuel : nat) (childStack : list Query) (st : MergeState) : option MergeState :=
  match childStack with
  | [] => Some st
  | qry :: childStack =>
    match fuel with
    | 0 => None
    | S fuel =>
      if bool_decide (getDescription qry = "RecursiveStructure") then
        rqm ← getQueryMol qry;
        st ← rec rqm st;
        recurseChildren rec fuel childStack st
      else recurseChildren rec fuel (childStack ++ getChildren qry) st
    end
  end.

(** [// recurse if needed] *)
Definition recurseQuery (rec : nat -> MergeState -> option MergeState)
    (q : Query) (st : MergeState) : option MergeState :=
  st ← (if bool_decide (getDescription q = "RecursiveStructure")
        then rqm ← getQueryMol q; rec rqm st
        else Some st);
  recurseChildren rec (stackSize (getChildren q)) (getChildren q) st.

(** [while (currIdx < stopIdx)], over the indices still to come. *)
Fixpoint mergeLoop (rec : nat -> MergeState -> option MergeState)
    (mergeUnmappedOnly : bool) (hatoms : list bool) (molPtr : nat)
    (idxs : list nat) (atomsToRemove : list nat) (st : MergeState)
    : option (list nat * MergeState) :=
  match idxs with
  | [] => Some (atomsToRemove, st)
  | currIdx :: idxs =>
    mol ← st.1 !! molPtr;
    if (hatoms !!! currIdx : bool) then
      mergeLoop rec mergeUnmappedOnly hatoms molPtr idxs atomsToRemove st
    else
      let hs := eligibleHs mergeUnmappedOnly hatoms mol currIdx in
      let mol := compensate (length hs) currIdx mol in
      let st : MergeState := (<[molPtr := mol]> st.1, st.2) in
      st ← match query (getAtomWithIdx mol currIdx) with
           | Some q => recurseQuery rec q st
           | None => Some st
           end;
      mergeLoop rec mergeUnmappedOnly hatoms molPtr idxs (atomsToRemove ++ hs) st
  end.

(** The last loop: [removeAtom(getAtomWithIdx(idx))] for each index in
    turn; [getAtomWithIdx] raises for an index out of range ([None]). *)
Fixpoint removeAtoms (idxs : list nat) (mol : Mol) : option Mol :=
  match idxs with
  | [] => Some mol
  | idx :: idxs =>
    if decide (idx < getNumAtoms mol) then removeAtoms idxs (removeAtom idx mol)
    else None
  end.

(** [void mergeQueryHs(RWMol &mol, bool mergeUnmappedOnly)]. [fuel] bounds
    the depth of the calls into the molecules of recursive queries. *)
Fixpoint mergeQueryHs (fuel : nat) (molPtr : nat) (mergeUnmappedOnly : bool)
    (st : MergeState) : option MergeState :=
  match fuel with
  | 0 => None
  | S fuel =>
    mol ← st.1 !! molPtr;
    flags ← mapM (isQueryH mol) (seq 0 (getNumAtoms mol));
    let hatoms := fst <$> flags in
    let st : MergeState := (st.1, st.2 ++ concat (snd <$> flags)) in
    '(atomsToRemove, st) ←
      mergeLoop (fun rqm => mergeQueryHs fuel rqm mergeUnmappedOnly)
        mergeUnmappedOnly hatoms molPtr (seq 0 (getNumAtoms mol)) [] st;
    mol ← st.1 !! molPtr;
    mol ← removeAtoms (reverse (merge_sort (≤) atomsToRemove)) mol;
    Some (<[molPtr := mol]> st.1, st.2)
  end.

(* ===================================================================== *)
(** * Vocabulary for the statements about query hydrogens                 *)
(* ===================================================================== *)

(** The simple case of [isQueryH]: a hydrogen atom without a query, or with
    a non-negated atomic-number query at the root. *)
Definition plainH (mol : Mol) (idx : nat) : bool :=
  let atom := getAtomWithIdx mol idx in
  (atomicNum atom =? 1) &&
  match query atom with
  | None => true
  | Some q => negb (getNegation q) && bool_decide (getDescription q = "AtomAtomicNum")
  end.

(** What the scan of the query [q] of an atom finds: the root is looked at
    for an OR only, its children are the first work list. *)
Definition scanSeesH (q : Query) : bool := existsb seesH (getChildren q).
Definition scanSeesOr (q : Query) : bool :=
  bool_decide (getDescription q = "AtomOr") || existsb seesOr (getChildren q).

(** The answer of [isQueryH] and its warnings. *)
Definition queryHAt (mol : Mol) (idx : nat) : bool :=
  match isQueryH mol idx with Some (b, _) => b | None => false end.
Definition warningsAt (mol : Mol) (idx : nat) : list string :=
  match isQueryH mol idx with Some (_, w) => w | None => [] end.

(** The eligible query-hydrogen neighbours of an atom, in neighbour order. *)
Definition mergedHs (mergeUnmappedOnly : bool) (mol : Mol) (idx : nat) : list nat :=
  List.filter
    (fun nbr => queryHAt mol nbr &&
                (negb mergeUnmappedOnly ||
                 negb (hasProp common_properties.molAtomMapNumber
                         (getAtomWithIdx mol nbr))))
    (getAtomNeighbors mol idx).

(** All the hydrogens that are merged, in the order of [atomsToRemove]. *)
Definition allMergedHs (mergeUnmappedOnly : bool) (mol : Mol) : list nat :=
  flat_map (fun i => if queryHAt mol i then [] else mergedHs mergeUnmappedOnly mol i)
           (seq 0 (getNumAtoms mol)).

(** The query of a heavy atom after [n] hydrogens were merged into it:
    [q ; !H0 ; !H1 ; ... ; !H(n-1)], each AND over the ones before. *)
Definition andNotHCounts (n : nat) (q : Query) : Query :=
  foldl (fun q i => mkQuery "AtomAnd" false 0
                      [q; mkQuery "AtomHCount" true i [] None] None)
        q (seq 0 n).

(** The atoms at the indices that are not in [removed], in their order. *)
Definition atomsWithout (removed : list nat) (mol : Mol) : list Atom :=
  getAtomWithIdx mol <$>
    List.filter (fun i => negb (bool_decide (i ∈ removed))) (seq 0 (getNumAtoms mol)).

(** No hydrogen atom has more than one bond. *)
Definition HsSinglyBonded (mol : Mol) : Prop :=
  forall i, i < getNumAtoms mol ->
    atomicNum (getAtomWithIdx mol i) = 1 -> getDegree mol i <= 1.

(** The molecules of recursive queries are owned by the query that points
    to them: with [rank] a height of the molecules, every
    [RecursiveStructure] node in a molecule at [p] points to a molecule on
    the heap that is lower than [p]. *)
Definition nestedOK (rank : nat -> nat) (heap : gmap nat Mol) (p : nat) (q : Query)
    : Prop :=
  forall node, node ∈ queryNodes q -> getDescription node = "RecursiveStructure" ->
    exists x, getQueryMol node = Some x /\ rank x < rank p /\ is_Some (heap !! x).

Definition molOK (rank : nat -> nat) (heap : gmap nat Mol) (p : nat) (mol : Mol)
    : Prop :=
  bondsInRange mol /\ HsSinglyBonded mol /\
  forall a q, a ∈ atoms mol -> query a = Some q -> nestedOK rank heap p q.

Definition heapOK (rank : nat -> nat) (heap : gmap nat Mol) : Prop :=
  forall p mol, heap !! p = Some mol -> molOK rank heap p mol.

Definition nestedStackOK (rank : nat -> nat) (heap : gmap nat Mol) (p : nat)
    (childStack : list Query) : Prop :=
  forall node, node ∈ flat_map queryNodes childStack ->
    getDescription node = "RecursiveStructure" ->
    exists x, getQueryMol node = Some x /\ rank x < rank p /\ is_Some (heap !! x).

Definition sameDom (heap heap' : gmap nat Mol) : Prop :=
  forall x, is_Some (heap' !! x) <-> is_Some (heap !! x).

(** What the calls into lower molecules do to the state: they return, the
    heap is still well formed and holds the same addresses, no molecule of
    height [bound] or more is changed, the log has grown. *)
Definition stepOK (rank : nat -> nat) (bound : nat) (st : MergeState)
    (res : option MergeState) : Prop :=
  exists st', res = Some st' /\ heapOK rank st'.1 /\ sameDom st.1 st'.1 /\
    (forall y, bound <= rank y -> st'.1 !! y = st.1 !! y) /\
    exists l, st'.2 = st.2 ++ l.

Definition recOK (rank : nat -> nat) (p : nat)
    (rec : nat -> MergeState -> option MergeState) : Prop :=
  forall x st, rank x < rank p -> heapOK rank st.1 -> is_Some (st.1 !! x) ->
    stepOK rank (S (rank x)) st (rec x st).

(** The same bonds, as many atoms, the same properties on them. *)
Definition sameSkeleton (mol mol' : Mol) : Prop :=
  bonds mol' = bonds mol /\ getNumAtoms mol' = getNumAtoms mol /\
  forall j, props (getAtomWithIdx mol' j) = props (getAtomWithIdx mol j).

(** The first loop of [mergeQueryHs] as it acts on the molecule itself:
    every atom that is not a query hydrogen is compensated for the
    hydrogens merged into it. *)
Definition compensateAll (mergeUnmappedOnly : bool) (mol : Mol) (idxs : list nat)
    (mcur : Mol) : Mol :=
  foldl (fun m i => if queryHAt mol i then m
                    else compensate (length (mergedHs mergeUnmappedOnly mol i)) i m)
        mcur idxs.

Definition compensated (mergeUnmappedOnly : bool) (mol : Mol) : Mol :=
  compensateAll mergeUnmappedOnly mol (seq 0 (getNumAtoms mol)) mol.

(** [compensate] as it acts on the atom. *)
Definition compensateAtom (numHsToRemove : nat) (atom : Atom) : Atom :=
  if numHsToRemove =? 0 then atom
  else addHCountQueries numHsToRemove
         (if hasQuery atom then atom
          else updateProps atom (setQuery (makeAtomNumQuery (atomicNum atom)) newQueryAtom)).

(** The query an atom starts from: its own, or one for its atomic number. *)
Definition baseQuery (atom : Atom) : Query :=
  default (makeAtomNumQuery (atomicNum atom)) (query atom).

(** ** Sample query molecules *)

Definition qAnd (cs : list Query) : Query := mkQuery "AtomAnd" false 0 cs None.
Definition qOr (cs : list Query) : Query := mkQuery "AtomOr" false 0 cs None.
Definition qDegree (n : nat) : Query := mkQuery "AtomExplicitDegree" false n [] None.
Definition qRecursive (rqm : nat) : Query := mkQuery "RecursiveStructure" false 0 [] (Some rqm).

(** [C([H])[H]]: a carbon and two hydrogens, none with a query. *)
Definition ex_CH2 : Mol :=
  mkMol [atomOf 6; atomOf 1; atomOf 1] [bondOf 0 1 SINGLE; bondOf 0 2 SINGLE] [].

(** [C[#1,#6]]: the second atom is a hydrogen or a carbon. *)
Definition ex_rootOr : Mol :=
  mkMol [atomOf 6; setQuery (qOr [makeAtomNumQuery 1; makeAtomNumQuery 6]) newQueryAtom]
        [bondOf 0 1 SINGLE] [].

(** [C[#1,#6;D1]]: the same with a degree query ANDed at low precedence, so
    that the OR is a child of the root. *)
Definition ex_nestedOr : Mol :=
  mkMol [atomOf 6;
         setQuery (qAnd [qOr [makeAtomNumQuery 1; makeAtomNumQuery 6]; qDegree 1])
                  newQueryAtom]
        [bondOf 0 1 SINGLE] [].

(** The OR of [ex_rootOr], negated at the root. *)
Definition ex_negatedOr : Mol :=
  mkMol [atomOf 6;
         setQuery (setNegation true (qOr [makeAtomNumQuery 1; makeAtomNumQuery 6]))
                  newQueryAtom]
        [bondOf 0 1 SINGLE] [].

(** [[C;$(C([H])[H])][H]]: a carbon with a recursive query, whose molecule
    is at address 1, and a hydrogen. *)
Definition ex_recursive : Mol :=
  mkMol [setQuery (qAnd [makeAtomNumQuery 6; qRecursive 1]) newQueryAtom; atomOf 1]
        [bondOf 0 1 SINGLE] [].

Definition ex_recursive_heap : gmap nat Mol := {[ 0 := ex_recursive; 1 := ex_CH2 ]}.
Definition ex_recursive_rank (x : nat) : nat := if x =? 0 then 1 else 0.

(** Atomic-number queries are leaves. *)
Definition leafAtomicNums (q : Query) : Prop :=
  forall node, node ∈ queryNodes q ->
    getDescription node = "AtomAtomicNum" -> getChildren node = [].

(* ===================================================================== *)
(** * Vocabulary for further statements about removeHs                    *)
(* ===================================================================== *)

(** An atom [removeHs] passes over: it is not a hydrogen, or has no bond,
    or carries a query, or, when only implicit hydrogens are asked for, is
    not flagged as one. *)
Definition passedOver (implicitOnly : bool) (m : Mol) (j : nat) : Prop :=
  atomicNum (getAtomWithIdx m j) <> 1 \/ getDegree m j = 0 \/
  hasQuery (getAtomWithIdx m j) = true \/
  (implicitOnly = true /\
   hasProp common_properties.isImplicit (getAtomWithIdx m j) = false).

(** A single bond other than the bond [bondIdx] of the hydrogen. *)
Definition otherSingle (m : Mol) (bondIdx k : nat) : bool :=
  negb (bool_decide (k = bondIdx)) && bool_decide (bondType (getBondWithIdx m k) = SINGLE).

(** ** Sample molecules for the placement statements *)

(** HCl with the hydrogen in the graph, one 3-D conformer. *)
Definition ex_HCl_bonded : Mol :=
  mkMol [atomOf 17; atomOf 1] [bondOf 0 1 SINGLE]
        [mkConformer true [mkPoint3D 1 2 3; origin]].

(** C(N)H as a chain N-C-H, the hybridization of the carbon not set, with
    the nitrogen at [pN] and the carbon at the origin of one conformer. *)
Definition ex_NCH (is3D : bool) (pN : Point3D) : Mol :=
  mkMol [atomOf 6; atomOf 7; atomOf 1] [bondOf 0 1 SINGLE; bondOf 0 2 SINGLE]
        [mkConformer is3D [origin; pN; origin]].

(** The unit vector along which an isolated heavy atom gets its hydrogen,
    and the length of the offset. *)
Definition degree1Dir (threeD : bool) : Point3D :=
  if threeD then mkPoint3D 0 0 1 else mkPoint3D 1 0 0.

(** [C[#1;D1]] with the atomic number of the query atom left at 0: the
    second atom is a hydrogen by its query only. *)
Definition ex_andH : Mol :=
  mkMol [atomOf 6; setQuery (qAnd [makeAtomNumQuery 1; qDegree 1]) newQueryAtom]
        [bondOf 0 1 SINGLE] [].

(** [C[H:1]]: a carbon and a hydrogen that carries the atom-map number 1. *)
Definition ex_CH_mapped : Mol :=
  mkMol [atomOf 6; setProp common_properties.molAtomMapNumber (PVInt 1) (atomOf 1)]
        [bondOf 0 1 SINGLE] [].

(** [[H][H]]: two hydrogens bonded to each other. *)
Definition ex_HH : Mol := mkMol [atomOf 1; atomOf 1] [bondOf 0 1 SINGLE] [].

(** Two carbons with a hydrogen (atom 2) bonded to both of them. *)
Definition ex_bridgingH : Mol :=
  mkMol [atomOf 6; atomOf 6; atomOf 1] [bondOf 0 2 SINGLE; bondOf 1 2 SINGLE] [].

(** The same with a second hydrogen (atom 3) on the first carbon, which
    carries an atom-map number. *)
Definition ex_bridgingH_mapped : Mol :=
  mkMol [atomOf 6; atomOf 6; atomOf 1;
         setProp common_properties.molAtomMapNumber (PVInt 1) (atomOf 1)]
        [bondOf 0 2 SINGLE; bondOf 1 2 SINGLE; bondOf 0 3 SINGLE] [].

(* ===================================================================== *)
(** * Vocabulary for further statements about addHs                       *)
(* ===================================================================== *)

(** [numAddHyds]: the number of hydrogens [addHs] counts before it adds
    any, to set space aside for them in the conformers. *)
Definition numAddHyds (explicitOnly : bool) (onlyOnAtoms : option (list nat)) (mol : Mol)
    : nat :=
  foldl (fun numAddHyds idx =>
           let atom := getAtomWithIdx mol idx in
           if onList onlyOnAtoms idx then
             let numAddHyds := numAddHyds + numExplicitHs atom in
             if explicitOnly then numAddHyds else numAddHyds + getNumImplicitHs atom
           else numAddHyds)
        0 (seq 0 (getNumAtoms mol)).

(** The hydrogens one atom stands for. *)
Definition hsToAdd (explicitOnly : bool) (atom : Atom) : nat :=
  numExplicitHs atom + (if explicitOnly then 0 else getNumImplicitHs atom).

(** The atoms that get a hydrogen, once for each hydrogen, in the order in
    which the hydrogens are added: atom by atom in index order. *)
Definition hydrogenOwners (explicitOnly : bool) (onlyOnAtoms : option (list nat))
    (mol : Mol) : list nat :=
  flat_map (fun idx =>
              if onList onlyOnAtoms idx
              then replicate (hsToAdd explicitOnly (getAtomWithIdx mol idx)) idx
              else [])
           (seq 0 (getNumAtoms mol)).

(** The bonds to the atoms [first], [first + 1], ...: the [j]-th one is a
    single bond from the [j]-th owner to atom [first + j]. *)
Definition hydrogenBonds (first : nat) (owners : list nat) : list Bond :=
  imap (fun j aidx => bondOf aidx (first + j) SINGLE) owners.

(** [m'] is [m] with one hydrogen appended for every entry of [owners]:
    the atoms from index [n] on that [m] has are as they were, the new
    atoms are hydrogens without a query, each bonded to its owner. *)
Definition hydrogensAdded (n : nat) (owners : list nat) (m m' : Mol) : Prop :=
  getNumAtoms m' = getNumAtoms m + length owners /\
  (forall h, n <= h < getNumAtoms m -> getAtomWithIdx m' h = getAtomWithIdx m h) /\
  (forall h, getNumAtoms m <= h < getNumAtoms m' ->
     atomicNum (getAtomWithIdx m' h) = 1 /\ query (getAtomWithIdx m' h) = None) /\
  bonds m' = bonds m ++ hydrogenBonds (getNumAtoms m) owners.

(** An atom after [addHs] has visited it: it has no explicit hydrogen
    count left; unless only explicit hydrogens were asked for, its
    no-implicit flag is set and the flag it had is kept in
    [origNoImplicit]. *)
Definition visitedAtom (explicitOnly : bool) (orig a : Atom) : Prop :=
  atomicNum a = atomicNum orig /\ numExplicitHs a = 0 /\
  if explicitOnly then noImplicit a = noImplicit orig
  else noImplicit a = true /\ getOrigNoImplicit a = Some (noImplicit orig).

(** A nitrogen with one explicit and two implicit hydrogens next to an
    oxygen with two implicit ones; no conformer. *)
Definition ex_NH3_water : Mol :=
  mkMol [set_numExplicitHs 1 (set_implicitValence 2 (atomOf 7));
         set_implicitValence 2 (atomOf 8)] [] [].

(* ===================================================================== *)
(** * AssignHsResidueInfo                                                 *)
(* ===================================================================== *)

Inductive AtomMonomerType := MT_UNKNOWN | PDBRESIDUE | MT_OTHER.

(** Modelled from the spec: the residue annotation of an atom (atom label,
    serial number, residue name, residue number, chain id) is kept by the
    surrounding library. The code reads an annotation through its getters
    and makes a new one with the constructor, whose ten arguments are the
    ones of the call. *)
Class MonomerInfoLibrary := {
  AtomPDBResidueInfo : Type;
  getMonomerType : AtomPDBResidueInfo -> AtomMonomerType;
  getSerialNumber : AtomPDBResidueInfo -> Z;
  getResidueName : AtomPDBResidueInfo -> string;
  getResidueNumber : AtomPDBResidueInfo -> Z;
  getChainId : AtomPDBResidueInfo -> string;
  getIsHeteroAtom : AtomPDBResidueInfo -> bool;
  newAtomPDBResidueInfo :
    string -> Z -> string -> string -> Z -> string -> string -> R -> R -> bool ->
    AtomPDBResidueInfo
}.

(** [++i] on an [int]: 32 bits, two's complement. *)
Definition incrInt (i : Z) : Z := ((i + 1 + 2 ^ 31) `mod` 2 ^ 32 - 2 ^ 31)%Z.

(** [while (h_label.length() < 3) h_label = h_label + " "]; the label has
    at least one character, so three turns are enough. *)
Fixpoint padLabel (turns : nat) (h_label : string) : string :=
  match turns with
  | 0 => h_label
  | S turns =>
      if String.length h_label <? 3 then padLabel turns (h_label +:+ " ") else h_label
  end.

(** The label of the hydrogen with the number [current_h_id]: the last
    three characters of the number, filled up with blanks, after an H, and
    the last of the four characters moved to the front. *)
Definition hydrogenLabel (current_h_id : Z) : string :=
  let h_label := pretty current_h_id in
  let h_label :=
    if 3 <? String.length h_label
    then String.substring (String.length h_label - 3) 3 h_label else h_label in
  let h_label := padLabel 3 h_label in
  let h_label := "H" +:+ h_label in
  String.substring 3 1 h_label +:+ String.substring 0 3 h_label.

Section AssignHsResidueInfo.
Context {MIL : MonomerInfoLibrary}.

(** [info && info->getMonomerType() == AtomMonomerInfo::PDBRESIDUE]; an
    atom without an annotation has the null pointer. *)
Definition isPDBResidue (info : option AtomPDBResidueInfo) : bool :=
  match info with
  | Some info => match getMonomerType info with PDBRESIDUE => true | _ => false end
  | None => false
  end.

(** The first loop: the largest serial number in use, or 0. The
    annotations are kept beside the molecule, by atom index. *)
Definition maxSerial (monomerInfo : gmap nat AtomPDBResidueInfo) (stopIdx : nat) : Z :=
  foldl (fun max_serial aidx =>
           match monomerInfo !! aidx with
           | Some info =>
               if isPDBResidue (Some info) && (max_serial <? getSerialNumber info)%Z
               then getSerialNumber info else max_serial
           | None => max_serial
           end)
        0%Z (seq 0 stopIdx).

(** The variables of the second loop. *)
Record LabelState : Type := mkLabelState {
  monomerInfo : gmap nat AtomPDBResidueInfo;
  max_serial : Z;
  current_info : option AtomPDBResidueInfo;
  current_h_id : Z
}.

(** [while (begin != end)] over the neighbours of an atom with the
    annotation [info]. [continue] goes back to the test without [++begin]:
    the same neighbour is looked at again. [fuel] bounds the number of
    turns; [None] is a loop that has not ended within it. *)
Fixpoint labelNeighbors (fuel : nat) (mol : Mol) (info : AtomPDBResidueInfo)
    (nbrs : list nat) (st : LabelState) : option LabelState :=
  match fuel with
  | 0 => None
  | S fuel =>
      match nbrs with
      | [] => Some st
      | nbr :: rest =>
          if atomicNum (getAtomWithIdx mol nbr) =? 1 then
            let st := mkLabelState (monomerInfo st) (max_serial st) (current_info st)
                        (incrInt (current_h_id st)) in
            if isPDBResidue (monomerInfo st !! nbr)
            then labelNeighbors fuel mol info nbrs st
            else
              let st :=
                match current_info st with
                | Some current =>
                    if negb (bool_decide (getResidueNumber current = getResidueNumber info))
                       || negb (bool_decide (getChainId current = getChainId info))
                    then mkLabelState (monomerInfo st) (max_serial st) (Some info) 1%Z
                    else st
                | None => mkLabelState (monomerInfo st) (max_serial st) (Some info) 1%Z
                end in
              let h_label := hydrogenLabel (current_h_id st) in
              let newInfo :=
                newAtomPDBResidueInfo h_label (max_serial st) EmptyString
                  (getResidueName info) (getResidueNumber info) (getChainId info)
                  EmptyString 1%R 0%R (getIsHeteroAtom info) in
              let st := mkLabelState (<[nbr := newInfo]> (monomerInfo st))
                          (incrInt (max_serial st)) (current_info st) (current_h_id st) in
              labelNeighbors fuel mol info rest st
          else labelNeighbors fuel mol info rest st
      end
  end.

(** The second loop, over the atoms [aidxs]. *)
Fixpoint labelAtoms (fuel : nat) (mol : Mol) (aidxs : list nat) (st : LabelState)
    : option LabelState :=
  match aidxs with
  | [] => Some st
  | aidx :: rest =>
      match monomerInfo st !! aidx with
      | Some info =>
          if isPDBResidue (Some info)
          then labelNeighbors fuel mol info (getAtomNeighbors mol aidx) st
                 ≫= labelAtoms fuel mol rest
          else labelAtoms fuel mol rest st
      | None => labelAtoms fuel mol rest st
      end
  end.

(** [AssignHsResidueInfo(mol)]: the annotations it leaves, from the ones
    it finds. *)
Definition AssignHsResidueInfo (fuel : nat) (mol : Mol)
    (monomerInfo0 : gmap nat AtomPDBResidueInfo) : option (gmap nat AtomPDBResidueInfo) :=
  let stopIdx := getNumAtoms mol in
  let max_serial := maxSerial monomerInfo0 stopIdx in
  monomerInfo <$>
    labelAtoms fuel mol (seq 0 stopIdx) (mkLabelState monomerInfo0 max_serial None 0%Z).

End AssignHsResidueInfo.

Module MolOps.
Section AddHs.
Context {GE : GeometryEngine} {PT : PeriodicTable} {VM : ValenceModel}
        {MIL : MonomerInfoLibrary}.

(** [MolOps::addHs(mol, explicitOnly, addCoords, onlyOnAtoms,
    addResidueInfo)] with its last argument: the body modelled by [addHs]
    above, and then, when [addResidueInfo] is set, the pass
    [AssignHsResidueInfo] over the molecule with its new hydrogens (line
    487). [monomerInfo] holds the residue annotations of the atoms of
    [mol] by index; the hydrogens that are added are new atoms and have
    none. [None] stands for a failed precondition, or for a pass that has
    not ended within [fuel]. *)
Definition addHs (fuel : nat) (explicitOnly addCoords : bool)
    (onlyOnAtoms : option (list nat)) (addResidueInfo : bool) (mol : Mol)
    (monomerInfo : gmap nat AtomPDBResidueInfo)
    : option (Mol * gmap nat AtomPDBResidueInfo) :=
  let monomerInfo :=
    filter (fun entry : nat * AtomPDBResidueInfo => entry.1 < getNumAtoms mol)
      monomerInfo in
  mol' ← addHs explicitOnly addCoords onlyOnAtoms mol;
  if addResidueInfo
  then (fun monomerInfo' => (mol', monomerInfo'))
         <$> AssignHsResidueInfo fuel mol' monomerInfo
  else Some (mol', monomerInfo).

End AddHs.
End MolOps.

(** A sample annotation library: the annotation is the record of what the
    constructor is given, and a PDB residue annotation. *)
Record SampleInfo : Type := mkSampleInfo {
  si_type : AtomMonomerType;
  si_name : string;
  si_serial : Z;
  si_residueName : string;
  si_residueNumber : Z;
  si_chainId : string;
  si_isHeteroAtom : bool
}.

Definition sampleMonomerInfo : MonomerInfoLibrary :=
  {| AtomPDBResidueInfo := SampleInfo;
     getMonomerType := si_type;
     getSerialNumber := si_serial;
     getResidueName := si_residueName;
     getResidueNumber := si_residueNumber;
     getChainId := si_chainId;
     getIsHeteroAtom := si_isHeteroAtom;
     newAtomPDBResidueInfo := fun name serial _ residueName residueNumber chainId _ _ _ het =>
       mkSampleInfo PDBRESIDUE name serial residueName residueNumber chainId het |}.

(** The annotation of the alpha carbon of alanine 1 in chain A. *)
Definition ex_CA_info : SampleInfo :=
  mkSampleInfo PDBRESIDUE " CA " 2 "ALA" 1 "A" false.

(** A carbon with two hydrogens, the carbon annotated. *)
Definition ex_CH2_infos : gmap nat SampleInfo := {[ 0 := ex_CA_info ]}.

(** The same with the first hydrogen annotated already. *)
Definition ex_CH2_infos_labelled : gmap nat SampleInfo :=
  {[ 0 := ex_CA_info; 1 := mkSampleInfo PDBRESIDUE " H1 " 3 "ALA" 1 "A" false ]}.

(** The atom [x] carries an annotation made for a hydrogen of the atom
    [p]: a label of a hydrogen number, a serial number, and the residue
    name, residue number, chain id and hetero flag of the annotation [ip]
    of [p]. *)
Definition labelledFor {MIL : MonomerInfoLibrary} (ip : AtomPDBResidueInfo)
    (info : option AtomPDBResidueInfo) : Prop :=
  exists id serial,
    info = Some (newAtomPDBResidueInfo (hydrogenLabel id) serial EmptyString
                   (getResidueName ip) (getResidueNumber ip) (getChainId ip)
                   EmptyString 1%R 0%R (getIsHeteroAtom ip)).

Definition labelledFrom {MIL : MonomerInfoLibrary} (mol : Mol)
    (monomerInfo : gmap nat AtomPDBResidueInfo) (x : nat) : Prop :=
  exists p ip,
    p < getNumAtoms mol /\ x ∈ getAtomNeighbors mol p /\
    monomerInfo !! p = Some ip /\ isPDBResidue (Some ip) = true /\
    labelledFor ip (monomerInfo !! x).

(** What [AssignHsResidueInfo] leaves of [ex_CH2_infos]: the first
    hydrogen has the serial number of the carbon. *)
Definition ex_CH2_infos_result : gmap nat SampleInfo :=
  {[ 0 := ex_CA_info;
     1 := mkSampleInfo PDBRESIDUE " H1 " 2 "ALA" 1 "A" false;
     2 := mkSampleInfo PDBRESIDUE " H2 " 3 "ALA" 1 "A" false ]}.

(** The hydrogens next to the atoms that have a PDB residue annotation,
    each with that atom, atom by atom in index order and in the order of
    the neighbours. *)
Definition annotatedHydrogens {MIL : MonomerInfoLibrary} (mol : Mol)
    (monomerInfo : gmap nat AtomPDBResidueInfo) (stopIdx : nat) : list (nat * nat) :=
  flat_map (fun aidx =>
              if isPDBResidue (monomerInfo !! aidx)
              then (fun nbr => (aidx, nbr))
                     <$> List.filter (fun nbr => atomicNum (getAtomWithIdx mol nbr) =? 1)
                           (getAtomNeighbors mol aidx)
              else [])
           (seq 0 stopIdx).

(** A carbon (atom 0) with three carbon neighbours and a hydrogen (atom
    4); a 2-D conformer with the neighbours at (1, 0), (0, 1) and (-3, -4),
    and a 3-D conformer with them at (1, 0, 0), (0, 1, 0) and (0, 0, 1). *)
Definition ex_CC3H : Mol :=
  mkMol [atomOf 6; atomOf 6; atomOf 6; atomOf 6; atomOf 1]
        [bondOf 0 1 SINGLE; bondOf 0 2 SINGLE; bondOf 0 3 SINGLE; bondOf 0 4 SINGLE]
        [mkConformer false
           [origin; mkPoint3D 1 0 0; mkPoint3D 0 1 0; mkPoint3D (-3) (-4) 0; origin];
         mkConformer true
           [origin; mkPoint3D 1 0 0; mkPoint3D 0 1 0; mkPoint3D 0 0 1; origin]].

(** The carbon of [ex_CH_2D] with its neighbours, in a 3-D conformer. *)
Definition ex_CH_3D : Mol :=
  mkMol [atomOf 6; atomOf 6; atomOf 6; atomOf 1]
        [bondOf 0 1 SINGLE; bondOf 0 2 SINGLE; bondOf 0 3 SINGLE]
        [mkConformer true
           [origin; mkPoint3D (-3) (-4) 0; mkPoint3D (-3) 4 0; origin]].

(* ===================================================================== *)
(** * Facts about points and conformers                                   *)
(* ===================================================================== *)

Lemma getAtomPos_setAtomPos (i : nat) (p : Point3D) (c : Conformer) :
  getAtomPos (setAtomPos i p c) i = p.
Proof.
  unfold getAtomPos, setAtomPos; simpl. case_decide as Hlt.
  - apply list_lookup_total_correct. by apply list_lookup_insert_eq.
  - apply list_lookup_total_correct.
    rewrite lookup_app_r by lia. rewrite lookup_app_r; rewrite length_replicate; [|lia].
    by replace (i - length (positions c) - (i - length (positions c))) with 0 by lia.
Qed.

Lemma getAtomPos_setAtomPos_ne (i j : nat) (p : Point3D) (c : Conformer) :
  j < length (positions c) -> i <> j ->
  getAtomPos (setAtomPos i p c) j = getAtomPos c j.
Proof.
  intros Hj Hne. unfold getAtomPos, setAtomPos; simpl.
  rewrite !list_lookup_total_alt. case_decide.
  - by rewrite list_lookup_insert_ne.
  - by rewrite lookup_app_l.
Qed.

Lemma is3D_setAtomPos (i : nat) (p : Point3D) (c : Conformer) :
  is3D (setAtomPos i p c) = is3D c.
Proof. reflexivity. Qed.

Lemma Point3D_eq (p q : Point3D) : x p = x q -> y p = y q -> z p = z q -> p = q.
Proof. destruct p, q; simpl; intros; subst; reflexivity. Qed.

Lemma plus_minus_cancel (p d : Point3D) : ((p + d) - p)%P3 = d.
Proof. apply Point3D_eq; simpl; ring. Qed.

Lemma lengthSq_nonneg (p : Point3D) : (0 <= lengthSq p)%R.
Proof. unfold lengthSq. nra. Qed.

(** A vector that is not the zero vector has a unit-length normalization. *)
Lemma lengthSq_normalize (p : Point3D) :
  lengthSq p <> 0%R -> lengthSq (normalize p) = 1%R.
Proof.
  intros Hne. pose proof (lengthSq_nonneg p) as Hge.
  assert (Hs : (sqrt (lengthSq p) * sqrt (lengthSq p) = lengthSq p)%R) by (by apply sqrt_sqrt).
  assert (Hpos : sqrt (lengthSq p) <> 0%R).
  { intros H0. rewrite H0 in Hs. lra. }
  unfold normalize, RDGeom.length. unfold lengthSq at 1; simpl.
  set (L := sqrt (lengthSq p)) in *.
  transitivity ((x p * x p + y p * y p + z p * z p) / (L * L))%R.
  - field. exact Hpos.
  - rewrite Hs. unfold lengthSq. field. exact Hne.
Qed.

(** The conformer loop visits the conformers in order: the [k]th result is
    the body applied to the [k]th conformer, at some value of the locals. *)
Lemma forConformers_lookup body st cs cs' :
  forConformers body st cs = Some cs' ->
  forall k c, cs !! k = Some c ->
    exists stk stk' c', body stk c = Some (stk', c') /\ cs' !! k = Some c'.
Proof.
  revert st cs'. induction cs as [|c0 cs IH]; intros st cs' Hrun k c Hk; [done|].
  simpl in Hrun. destruct (body st c0) as [[st1 c1]|] eqn:Hb; [|done].
  destruct (forConformers body st1 cs) as [r|] eqn:Hr; [|done].
  simpl in Hrun. injection Hrun as <-.
  destruct k as [|k]; simpl in *.
  - injection Hk as <-. eauto.
  - eapply IH; eauto.
Qed.

Lemma forConformers_length body st cs cs' :
  forConformers body st cs = Some cs' -> length cs' = length cs.
Proof.
  revert st cs'. induction cs as [|c0 cs IH]; intros st cs' Hrun; simpl in *.
  - by injection Hrun as <-.
  - destruct (body st c0) as [[st1 c1]|]; [|done].
    destruct (forConformers body st1 cs) as [r|] eqn:Hr; [|done].
    simpl in Hrun. injection Hrun as <-. simpl. f_equal. eauto.
Qed.

(** A body that never raises gives a result for every list of conformers. *)
Lemma forConformers_total body :
  (forall st c, is_Some (body st c)) ->
  forall cs st, is_Some (forConformers body st cs).
Proof.
  intros Hb. induction cs as [|c cs IH]; intros st; simpl; [eauto|].
  destruct (Hb st c) as [[st1 c1] ->]. destruct (IH st1) as [r ->]. simpl. eauto.
Qed.

(** A body that ignores the locals is a map over the conformers. *)
Lemma forConformers_map (f : Conformer -> Conformer) st cs :
  forConformers (fun st c => Some (st, f c)) st cs = Some (f <$> cs).
Proof.
  induction cs as [|c cs IH]; simpl; [done|]. by rewrite IH.
Qed.

(* ===================================================================== *)
(** * setHydrogenCoords: placements                                      *)
(* ===================================================================== *)

Section PlacementFacts.
Context {GE : GeometryEngine} {PT : PeriodicTable}.

Lemma setHydrogenCoords_unfold mol hydIdx heavyIdx :
  setHydrogenCoords_pre mol hydIdx heavyIdx ->
  setHydrogenCoords mol hydIdx heavyIdx =
    let heavyAtom := getAtomWithIdx mol heavyIdx in
    let bondLength := (getRb0 1 + getRb0 (atomicNum heavyAtom))%R in
    let run body := (fun cs => set_confs cs mol) <$> forConformers body initLocals (confs mol) in
    match getDegree mol heavyIdx with
    | 1 => run (placeDegree1 hydIdx heavyIdx bondLength)
    | 2 =>
        match getAtomNeighborNot mol heavyIdx hydIdx with
        | None => None
        | Some nbr1 => run (placeDegree2 mol hydIdx heavyIdx nbr1 bondLength)
        end
    | 3 =>
        match otherNeighbors mol hydIdx heavyIdx with
        | nbr1 :: nbr2 :: rest =>
            run (placeDegree3 mol hydIdx heavyIdx nbr1 (List.last rest nbr2) bondLength)
        | _ => None
        end
    | 4 =>
        match threeNeighbors mol hydIdx heavyIdx with
        | Some (nbr1, nbr2, nbr3) =>
            run (placeDegree4 mol hydIdx heavyIdx nbr1 nbr2 nbr3 bondLength)
        | None => None
        end
    | _ =>
        run (fun st c =>
               Some (st, setAtomPos hydIdx (origin + dirVect initLocals * bondLength)%P3 c))
    end.
Proof.
  intros (Hne & Hhyd & Hdeg & [b Hb] & Hheavy). unfold setHydrogenCoords.
  rewrite bool_decide_eq_false_2 by done.
  rewrite (bool_decide_eq_true_2 (hydIdx < _)) by done.
  rewrite (bool_decide_eq_true_2 (getDegree _ _ = 1)) by done.
  rewrite Hb. rewrite (bool_decide_eq_true_2 (heavyIdx < _)) by done.
  reflexivity.
Qed.

(** C10. A heavy atom of degree five or more: the hydrogen gets one and the
    same position in every conformer, the origin, whatever the position of
    the heavy atom in that conformer; nothing else changes. *)
Theorem setHydrogenCoords_degree_ge5 (mol : Mol) (hydIdx heavyIdx : nat) :
  setHydrogenCoords_pre mol hydIdx heavyIdx ->
  5 <= getDegree mol heavyIdx ->
  exists mol',
    setHydrogenCoords mol hydIdx heavyIdx = Some mol' /\
    atoms mol' = atoms mol /\ bonds mol' = bonds mol /\
    confs mol' = setAtomPos hydIdx origin <$> confs mol /\
    (forall c', c' ∈ confs mol' -> getAtomPos c' hydIdx = origin).
Proof.
  intros Hpre Hdeg. rewrite setHydrogenCoords_unfold by done. cbv zeta.
  destruct (getDegree mol heavyIdx) as [|[|[|[|[|d]]]]]; try lia.
  set (bl := (getRb0 1 + getRb0 (atomicNum (getAtomWithIdx mol heavyIdx)))%R).
  assert (Ho : (origin + dirVect initLocals * bl)%P3 = origin).
  { apply Point3D_eq; simpl; ring. }
  rewrite Ho, forConformers_map. simpl.
  eexists; split; [reflexivity|]. repeat split.
  intros c' Hc'. simpl in Hc'. apply list_elem_of_fmap in Hc' as (c & -> & _).
  apply getAtomPos_setAtomPos.
Qed.

End PlacementFacts.

(** C10 at PF4H: the phosphorus sits at (1, 2, 3), the hydrogen is put at
    the origin. *)
Lemma setHydrogenCoords_degree_ge5_witness :
  exists mol',
    setHydrogenCoords (GE := sampleGeometry) (PT := samplePeriodicTable) ex_PF4H 5 0 = Some mol' /\
    atoms mol' = atoms ex_PF4H /\ bonds mol' = bonds ex_PF4H /\
    confs mol' = setAtomPos 5 origin <$> confs ex_PF4H /\
    (forall c', c' ∈ confs mol' -> getAtomPos c' 5 = origin).
Proof.
  apply (setHydrogenCoords_degree_ge5 (GE := sampleGeometry) (PT := samplePeriodicTable)
           ex_PF4H 5 0).
  - unfold setHydrogenCoords_pre. split; [lia|]. split; [cbv; lia|].
    split; [reflexivity|]. split; [vm_compute; eauto|cbv; lia].
  - assert (H : getDegree ex_PF4H 0 = 5) by reflexivity. rewrite H. lia.
Defined.

(* ===================================================================== *)
(** * Degree three                                                        *)
(* ===================================================================== *)

Lemma filter_length_le_impl {A} (P Q : A -> bool) (l : list A) :
  (forall a, a ∈ l -> P a = true -> Q a = true) ->
  length (List.filter P l) <= length (List.filter Q l).
Proof.
  induction l as [|a l IH]; intros HPQ; simpl; [lia|].
  assert (IH' : length (List.filter P l) <= length (List.filter Q l)).
  { apply IH. intros b Hb. apply HPQ. by right. }
  destruct (P a) eqn:HP.
  - rewrite (HPQ a) by (done || by left). simpl. lia.
  - destruct (Q a); simpl; lia.
Qed.

Lemma filter_length_split {A} (P : A -> bool) (l : list A) :
  length (List.filter P l) + length (List.filter (fun a => negb (P a)) l) = length l.
Proof.
  induction l as [|a l IH]; simpl; [done|]. destruct (P a); simpl; lia.
Qed.

Lemma filter_fmap {A B} (f : A -> B) (P : B -> bool) (l : list A) :
  List.filter P (f <$> l) = f <$> List.filter (fun a => P (f a)) l.
Proof.
  induction l as [|a l IH]; csimpl; [done|].
  destruct (P (f a)); csimpl; by rewrite IH.
Qed.

Lemma filter_filter {A} (P Q : A -> bool) (l : list A) :
  List.filter P (List.filter Q l) = List.filter (fun a => Q a && P a) l.
Proof.
  induction l as [|a l IH]; simpl; [done|].
  destruct (Q a); simpl; [destruct (P a)|]; by rewrite IH.
Qed.

Lemma elem_of_getAtomBonds mol i k :
  k ∈ getAtomBonds mol i <-> k < getNumBonds mol /\ touches i (getBondWithIdx mol k) = true.
Proof.
  unfold getAtomBonds. rewrite list_elem_of_In, List.filter_In, <- list_elem_of_In, elem_of_seq.
  intuition lia.
Qed.

Lemma touches_other i b : touches i b = true -> touches (getOtherAtomIdx b i) b = true.
Proof.
  unfold touches, getOtherAtomIdx. intros H.
  destruct (bool_decide (beginAtomIdx b = i)) eqn:Hb; simpl in *.
  - rewrite (bool_decide_eq_true_2 (endAtomIdx b = endAtomIdx b)) by done. apply orb_true_r.
  - by rewrite (bool_decide_eq_true_2 (beginAtomIdx b = beginAtomIdx b)).
Qed.

(** The heavy atom has at most as many bonds to the hydrogen as the
    hydrogen has bonds. *)
Lemma otherNeighbors_length mol hydIdx heavyIdx :
  getDegree mol heavyIdx <= length (otherNeighbors mol hydIdx heavyIdx) + getDegree mol hydIdx.
Proof.
  unfold otherNeighbors, getAtomNeighbors, getDegree.
  set (other := fun k => getOtherAtomIdx (getBondWithIdx mol k) heavyIdx).
  rewrite <- (length_fmap other (getAtomBonds mol heavyIdx)).
  rewrite <- (filter_length_split (fun n => negb (bool_decide (n = hydIdx)))
                (other <$> getAtomBonds mol heavyIdx)).
  enough (length (List.filter (fun a => negb (negb (bool_decide (a = hydIdx))))
                    (other <$> getAtomBonds mol heavyIdx))
          <= length (getAtomBonds mol hydIdx)) by lia.
  rewrite filter_fmap, length_fmap. unfold getAtomBonds at 1. rewrite filter_filter.
  apply filter_length_le_impl. intros k _ Hk.
  apply andb_true_iff in Hk as [Ht Ho]. rewrite negb_involutive in Ho.
  apply bool_decide_eq_true in Ho. rewrite <- Ho. unfold other. by apply touches_other.
Qed.

Section Degree3.
Context {GE : GeometryEngine} {PT : PeriodicTable}.

(** What the two-neighbour branch does with a 2-D conformer whose
    neighbour vectors are not degenerate. *)
Lemma placeDegree3_2D mol hydIdx heavyIdx nbr1 nbr2 bl st c :
  is3D c = false ->
  degenerate (getAtomPos c heavyIdx - getAtomPos c nbr1)%P3 = false ->
  degenerate (getAtomPos c heavyIdx - getAtomPos c nbr2)%P3 = false ->
  exists st',
    placeDegree3 mol hydIdx heavyIdx nbr1 nbr2 bl st c =
      Some (st', setAtomPos hydIdx
              (getAtomPos c heavyIdx +
               normalize (normalize (getAtomPos c heavyIdx - getAtomPos c nbr1)
                          + normalize (getAtomPos c heavyIdx - getAtomPos c nbr2)))%P3 c).
Proof.
  intros H2d Hd1 Hd2. unfold placeDegree3. rewrite Hd1, Hd2, H2d. simpl. eauto.
Qed.

(** Two other neighbours: the call succeeds, and a 2-D conformer with
    non-degenerate neighbour vectors gets the hydrogen at the heavy atom
    plus the normalized sum of the two unit vectors. *)
Lemma setHydrogenCoords_degree3_2D (mol : Mol) (hydIdx heavyIdx : nat) :
  setHydrogenCoords_pre mol hydIdx heavyIdx ->
  getDegree mol heavyIdx = 3 ->
  exists mol' nbr1 nbr2 rest,
    setHydrogenCoords mol hydIdx heavyIdx = Some mol' /\
    otherNeighbors mol hydIdx heavyIdx = nbr1 :: nbr2 :: rest /\
    atoms mol' = atoms mol /\ bonds mol' = bonds mol /\
    forall k c,
      confs mol !! k = Some c ->
      is3D c = false ->
      degenerate (getAtomPos c heavyIdx - getAtomPos c nbr1)%P3 = false ->
      degenerate (getAtomPos c heavyIdx - getAtomPos c (List.last rest nbr2))%P3 = false ->
      confs mol' !! k =
        Some (setAtomPos hydIdx
                (getAtomPos c heavyIdx +
                 normalize (normalize (getAtomPos c heavyIdx - getAtomPos c nbr1)
                            + normalize (getAtomPos c heavyIdx
                                         - getAtomPos c (List.last rest nbr2))))%P3 c).
Proof.
  intros Hpre Hdeg. rewrite setHydrogenCoords_unfold by done. cbv zeta. rewrite Hdeg.
  pose proof (otherNeighbors_length mol hydIdx heavyIdx) as Hlen.
  destruct Hpre as (_ & _ & Hh & _). rewrite Hh, Hdeg in Hlen.
  destruct (otherNeighbors mol hydIdx heavyIdx) as [|nbr1 [|nbr2 rest]] eqn:Ho;
    simpl in Hlen; try lia.
  set (bl := (getRb0 1 + getRb0 (atomicNum (getAtomWithIdx mol heavyIdx)))%R).
  set (body := placeDegree3 mol hydIdx heavyIdx nbr1 (List.last rest nbr2) bl).
  destruct (forConformers_total body) with (cs := confs mol) (st := initLocals) as [cs' Hrun].
  { intros st c. unfold body, placeDegree3.
    repeat (case_match; simpl; eauto). }
  rewrite Hrun. simpl. exists (set_confs cs' mol), nbr1, nbr2, rest.
  do 4 (split; [reflexivity|]). intros k c Hk H2d Hd1 Hd2.
  destruct (forConformers_lookup _ _ _ _ Hrun k c Hk) as (stk & stk' & c' & Hbody & Hk').
  destruct (placeDegree3_2D mol hydIdx heavyIdx nbr1 (List.last rest nbr2) bl stk c H2d Hd1 Hd2)
    as [st' Hplace].
  unfold body in Hbody. rewrite Hplace in Hbody.
  injection Hbody as _ Hc. simpl. by rewrite Hk', <- Hc.
Qed.

(** C7, as the code has it. With two other neighbours and a 2-D conformer,
    the hydrogen is put at the heavy atom plus the NORMALIZED sum of the two
    unit vectors that point away from the neighbours: the sum is normalized
    before the 2-D/3-D split, and what the 2-D path leaves out is the
    scaling by the bond length. The offset has unit length whenever the sum
    of the two unit vectors is not the zero vector. *)
Theorem setHydrogenCoords_degree3_2D_normalized (mol : Mol) (hydIdx heavyIdx : nat) :
  setHydrogenCoords_pre mol hydIdx heavyIdx ->
  getDegree mol heavyIdx = 3 ->
  exists mol' nbr1 nbr2 rest,
    setHydrogenCoords mol hydIdx heavyIdx = Some mol' /\
    otherNeighbors mol hydIdx heavyIdx = nbr1 :: nbr2 :: rest /\
    atoms mol' = atoms mol /\ bonds mol' = bonds mol /\
    forall k c,
      confs mol !! k = Some c ->
      is3D c = false ->
      let heavyPos := getAtomPos c heavyIdx in
      let u1 := normalize (heavyPos - getAtomPos c nbr1)%P3 in
      let u2 := normalize (heavyPos - getAtomPos c (List.last rest nbr2))%P3 in
      degenerate (heavyPos - getAtomPos c nbr1)%P3 = false ->
      degenerate (heavyPos - getAtomPos c (List.last rest nbr2))%P3 = false ->
      exists c',
        confs mol' !! k = Some c' /\
        (getAtomPos c' hydIdx - heavyPos)%P3 = normalize (u1 + u2)%P3 /\
        (lengthSq (u1 + u2)%P3 <> 0%R ->
         lengthSq (getAtomPos c' hydIdx - heavyPos)%P3 = 1%R).
Proof.
  intros Hpre Hdeg.
  destruct (setHydrogenCoords_degree3_2D mol hydIdx heavyIdx Hpre Hdeg)
    as (mol' & nbr1 & nbr2 & rest & Hrun & Ho & Ha & Hb & Hconf).
  exists mol', nbr1, nbr2, rest. do 4 (split; [assumption|]).
  intros k c Hk H2d heavyPos u1 u2 Hd1 Hd2.
  eexists. split; [by apply Hconf|].
  rewrite getAtomPos_setAtomPos, plus_minus_cancel.
  split; [reflexivity|]. apply lengthSq_normalize.
Qed.

End Degree3.

(** ** The two-neighbour example, by hand *)

Lemma normalize_of_length (p : Point3D) (L : R) :
  (0 <= L)%R -> lengthSq p = (L * L)%R ->
  normalize p = mkPoint3D (x p / L) (y p / L) (z p / L).
Proof.
  intros HL Hsq. unfold normalize, RDGeom.length. rewrite Hsq, sqrt_square by done. done.
Qed.

Lemma degenerate_false (p : Point3D) :
  (1 / 10000 <= lengthSq p)%R -> degenerate p = false.
Proof.
  intros H. unfold degenerate. destruct (Rlt_dec _ _) as [Hlt|]; [|done].
  rewrite Rabs_right in Hlt by lra. lra.
Qed.

Lemma ex_CH_2D_pre : setHydrogenCoords_pre ex_CH_2D 3 0.
Proof.
  unfold setHydrogenCoords_pre. split; [lia|]. split; [cbv; lia|].
  split; [reflexivity|]. split; [vm_compute; eauto|cbv; lia].
Qed.

Lemma ex_CH_2D_u1 :
  normalize (origin - mkPoint3D (-3) (-4) 0)%P3 = mkPoint3D (3 / 5) (4 / 5) 0.
Proof.
  rewrite (normalize_of_length _ 5); [|lra|unfold lengthSq; simpl; lra].
  apply Point3D_eq; simpl; lra.
Qed.

Lemma ex_CH_2D_u2 :
  normalize (origin - mkPoint3D (-3) 4 0)%P3 = mkPoint3D (3 / 5) (-4 / 5) 0.
Proof.
  rewrite (normalize_of_length _ 5); [|lra|unfold lengthSq; simpl; lra].
  apply Point3D_eq; simpl; lra.
Qed.

Lemma ex_CH_2D_sum :
  (mkPoint3D (3 / 5) (4 / 5) 0 + mkPoint3D (3 / 5) (-4 / 5) 0)%P3 = mkPoint3D (6 / 5) 0 0.
Proof. apply Point3D_eq; simpl; lra. Qed.

Lemma ex_CH_2D_dir : normalize (mkPoint3D (6 / 5) 0 0) = mkPoint3D 1 0 0.
Proof.
  rewrite (normalize_of_length _ (6 / 5)); [|lra|unfold lengthSq; simpl; lra].
  apply Point3D_eq; simpl; lra.
Qed.

(** C7 as stated fails. At the two-neighbour example the un-normalized sum
    of the two unit vectors is (6/5, 0, 0); the code puts the hydrogen at
    offset (1, 0, 0) from the heavy atom, which has unit length. *)
Lemma setHydrogenCoords_degree3_2D_counterexample :
  exists mol' c',
    setHydrogenCoords (GE := sampleGeometry) (PT := samplePeriodicTable) ex_CH_2D 3 0
      = Some mol' /\
    confs mol' = [c'] /\
    let u1 := normalize (getAtomPos c' 0 - getAtomPos c' 1)%P3 in
    let u2 := normalize (getAtomPos c' 0 - getAtomPos c' 2)%P3 in
    (u1 + u2)%P3 = mkPoint3D (6 / 5) 0 0 /\
    (getAtomPos c' 3 - getAtomPos c' 0)%P3 = mkPoint3D 1 0 0 /\
    (getAtomPos c' 3 - getAtomPos c' 0)%P3 <> (u1 + u2)%P3 /\
    lengthSq (getAtomPos c' 3 - getAtomPos c' 0)%P3 = 1%R.
Proof.
  destruct (setHydrogenCoords_degree3_2D (GE := sampleGeometry) (PT := samplePeriodicTable)
              ex_CH_2D 3 0 ex_CH_2D_pre eq_refl)
    as (mol' & nbr1 & nbr2 & rest & Hrun & Ho & _ & _ & Hconf).
  assert (Hn : nbr1 = 1 /\ nbr2 = 2 /\ rest = []).
  { assert (Ho' : otherNeighbors ex_CH_2D 3 0 = [1; 2]) by reflexivity.
    rewrite Ho' in Ho. by simplify_eq. }
  destruct Hn as (-> & -> & ->). simpl in Hconf.
  set (c := mkConformer false [origin; mkPoint3D (-3) (-4) 0; mkPoint3D (-3) 4 0; origin]).
  specialize (Hconf 0 c eq_refl eq_refl).
  assert (Hp0 : getAtomPos c 0 = origin) by reflexivity.
  assert (Hp1 : getAtomPos c 1 = mkPoint3D (-3) (-4) 0) by reflexivity.
  assert (Hp2 : getAtomPos c 2 = mkPoint3D (-3) 4 0) by reflexivity.
  rewrite Hp0, Hp1, Hp2 in Hconf.
  rewrite ex_CH_2D_u1, ex_CH_2D_u2, ex_CH_2D_sum, ex_CH_2D_dir in Hconf.
  assert (Hd1 : degenerate (origin - mkPoint3D (-3) (-4) 0)%P3 = false).
  { apply degenerate_false. unfold lengthSq; simpl; lra. }
  assert (Hd2 : degenerate (origin - mkPoint3D (-3) 4 0)%P3 = false).
  { apply degenerate_false. unfold lengthSq; simpl; lra. }
  specialize (Hconf Hd1 Hd2).
  assert (Hl : length (confs mol') = 1).
  { rewrite setHydrogenCoords_unfold in Hrun by exact ex_CH_2D_pre. cbv zeta in Hrun.
    change (getDegree ex_CH_2D 0) with 3 in Hrun. rewrite Ho in Hrun.
    apply fmap_Some in Hrun as (cs & Hcs & ->). simpl.
    by rewrite (forConformers_length _ _ _ _ Hcs). }
  destruct (confs mol') as [|c' [|? ?]] eqn:Hc'; simpl in Hl; try lia.
  simpl in Hconf. injection Hconf as Hconf.
  exists mol', c'. split; [exact Hrun|]. split; [exact Hc'|]. cbv zeta.
  assert (Hq0 : getAtomPos c' 0 = origin).
  { rewrite Hconf. rewrite getAtomPos_setAtomPos_ne; [done|simpl; lia|lia]. }
  assert (Hq1 : getAtomPos c' 1 = mkPoint3D (-3) (-4) 0).
  { rewrite Hconf. rewrite getAtomPos_setAtomPos_ne; [done|simpl; lia|lia]. }
  assert (Hq2 : getAtomPos c' 2 = mkPoint3D (-3) 4 0).
  { rewrite Hconf. rewrite getAtomPos_setAtomPos_ne; [done|simpl; lia|lia]. }
  assert (Hq3 : getAtomPos c' 3 = (origin + mkPoint3D 1 0 0)%P3).
  { rewrite Hconf. apply getAtomPos_setAtomPos. }
  rewrite Hq0, Hq1, Hq2, Hq3, ex_CH_2D_u1, ex_CH_2D_u2, ex_CH_2D_sum, plus_minus_cancel.
  split; [done|]. split; [done|]. split.
  - intros Heq. apply (f_equal x) in Heq. simpl in Heq. lra.
  - unfold lengthSq. simpl. lra.
Qed.

(** C7 at the two-neighbour example. *)
Lemma setHydrogenCoords_degree3_2D_normalized_witness :
  setHydrogenCoords_pre ex_CH_2D 3 0 /\ getDegree ex_CH_2D 0 = 3 /\
  exists mol' nbr1 nbr2 rest,
    setHydrogenCoords (GE := sampleGeometry) (PT := samplePeriodicTable) ex_CH_2D 3 0
      = Some mol' /\
    otherNeighbors ex_CH_2D 3 0 = nbr1 :: nbr2 :: rest /\
    atoms mol' = atoms ex_CH_2D /\ bonds mol' = bonds ex_CH_2D /\
    forall k c,
      confs ex_CH_2D !! k = Some c ->
      is3D c = false ->
      let heavyPos := getAtomPos c 0 in
      let u1 := normalize (heavyPos - getAtomPos c nbr1)%P3 in
      let u2 := normalize (heavyPos - getAtomPos c (List.last rest nbr2))%P3 in
      degenerate (heavyPos - getAtomPos c nbr1)%P3 = false ->
      degenerate (heavyPos - getAtomPos c (List.last rest nbr2))%P3 = false ->
      exists c',
        confs mol' !! k = Some c' /\
        (getAtomPos c' 3 - heavyPos)%P3 = normalize (u1 + u2)%P3 /\
        (lengthSq (u1 + u2)%P3 <> 0%R ->
         lengthSq (getAtomPos c' 3 - heavyPos)%P3 = 1%R).
Proof.
  assert (Hpre : setHydrogenCoords_pre ex_CH_2D 3 0).
  { unfold setHydrogenCoords_pre. split; [lia|]. split; [cbv; lia|].
    split; [reflexivity|]. split; [vm_compute; eauto|cbv; lia]. }
  split; [exact Hpre|]. split; [reflexivity|].
  apply (setHydrogenCoords_degree3_2D_normalized (GE := sampleGeometry)
           (PT := samplePeriodicTable) ex_CH_2D 3 0 Hpre eq_refl).
Defined.

(* ===================================================================== *)
(** * Degree one: addHs on an isolated heavy atom                         *)
(* ===================================================================== *)

(** C8 fails on the code when the conformers are not all of one kind.
    [dirVect] is declared before the loop over the conformers and only one
    coordinate of it is set in each turn, so after a 3-D conformer has set
    [z] to 1 a following 2-D conformer works with (1, 0, 1): the hydrogen of
    HCl is put at (1, 0, 1) in the 2-D conformer, not at (1, 0, 0). *)
Theorem addHs_degree1_mixed_conformers :
  exists mol' c3 c2,
    addHs (GE := sampleGeometry) (PT := samplePeriodicTable) (VM := sampleValence)
          false true None ex_HCl = Some mol' /\
    getNumAtoms mol' = 2 /\ getDegree mol' 0 = 1 /\
    confs mol' = [c3; c2] /\
    is3D c3 = true /\ is3D c2 = false /\
    getAtomPos c2 0 = origin /\
    getAtomPos c2 1 = mkPoint3D 1 0 1 /\
    getAtomPos c2 1 <> (getAtomPos c2 0 + mkPoint3D 1 0 0)%P3.
Proof.
  eexists _, _, _. split; [reflexivity|].
  split; [reflexivity|]. split; [reflexivity|]. split; [reflexivity|].
  split; [reflexivity|]. split; [reflexivity|]. split; [reflexivity|].
  assert (Hp : (origin + set_x 1 (set_z 1 (mkPoint3D 0 0 0)) * 1)%P3 = mkPoint3D 1 0 1).
  { apply Point3D_eq; simpl; ring. }
  split.
  - exact Hp.
  - intros Heq.
    change ((origin + set_x 1 (set_z 1 (mkPoint3D 0 0 0)) * 1)%P3
            = (origin + mkPoint3D 1 0 0)%P3) in Heq.
    apply (f_equal z) in Heq. simpl in Heq. lra.
Qed.

(* ===================================================================== *)
(** * Frame facts of the graph operations                                 *)
(* ===================================================================== *)

Lemma bonds_updAtom i f m : bonds (updAtom i f m) = bonds m.
Proof. reflexivity. Qed.
Lemma atoms_updBond k f m : atoms (updBond k f m) = atoms m.
Proof. reflexivity. Qed.
Lemma getNumAtoms_updAtom i f m : getNumAtoms (updAtom i f m) = getNumAtoms m.
Proof. unfold getNumAtoms, updAtom; simpl. apply length_alter. Qed.
Lemma getNumAtoms_updBond k f m : getNumAtoms (updBond k f m) = getNumAtoms m.
Proof. reflexivity. Qed.
Lemma getNumBonds_updBond k f m : getNumBonds (updBond k f m) = getNumBonds m.
Proof. unfold getNumBonds, updBond; simpl. apply length_alter. Qed.

Lemma getAtomWithIdx_updAtom i f m j :
  getAtomWithIdx (updAtom i f m) j =
    if decide (i = j /\ i < getNumAtoms m) then f (getAtomWithIdx m i) else getAtomWithIdx m j.
Proof. unfold getAtomWithIdx, updAtom, getNumAtoms; simpl. apply list_lookup_total_alter. Qed.

Lemma getAtomWithIdx_updAtom_eq i f m :
  i < getNumAtoms m -> getAtomWithIdx (updAtom i f m) i = f (getAtomWithIdx m i).
Proof. intros. rewrite getAtomWithIdx_updAtom. by rewrite decide_True. Qed.

Lemma getAtomWithIdx_updAtom_ne i f m j :
  i <> j -> getAtomWithIdx (updAtom i f m) j = getAtomWithIdx m j.
Proof. intros. rewrite getAtomWithIdx_updAtom. rewrite decide_False; [done|tauto]. Qed.

Lemma getBondWithIdx_updBond k f m j :
  getBondWithIdx (updBond k f m) j =
    if decide (k = j /\ k < getNumBonds m) then f (getBondWithIdx m k) else getBondWithIdx m j.
Proof. unfold getBondWithIdx, updBond, getNumBonds; simpl. apply list_lookup_total_alter. Qed.

(** Two molecules with the same bonds have the same graph. *)
Lemma getAtomBonds_ext m m' i : bonds m = bonds m' -> getAtomBonds m i = getAtomBonds m' i.
Proof. intros H. unfold getAtomBonds, getNumBonds, getBondWithIdx. by rewrite H. Qed.
Lemma getDegree_ext m m' i : bonds m = bonds m' -> getDegree m i = getDegree m' i.
Proof. intros H. unfold getDegree. by rewrite (getAtomBonds_ext m m' i H). Qed.
Lemma getAtomNeighbors_ext m m' i :
  bonds m = bonds m' -> getAtomNeighbors m i = getAtomNeighbors m' i.
Proof.
  intros H. unfold getAtomNeighbors, getBondWithIdx. by rewrite (getAtomBonds_ext m m' i H), H.
Qed.
Lemma getBondBetweenAtoms_ext m m' i j :
  bonds m = bonds m' -> getBondBetweenAtoms m i j = getBondBetweenAtoms m' i j.
Proof. intros H. unfold getBondBetweenAtoms. by rewrite H. Qed.

(* ===================================================================== *)
(** * Swap counts and inversions                                          *)
(* ===================================================================== *)

Lemma replaceFirst_not_in old new l : old ∉ l -> replaceFirst old new l = l.
Proof.
  induction l as [|a l IH]; intros Hn; simpl; [done|].
  rewrite bool_decide_eq_false_2 by (intros ->; apply Hn; by left).
  f_equal. apply IH. intros H. apply Hn. by right.
Qed.



Lemma filter_all {A} (P : A -> bool) (l : list A) :
  (forall a, a ∈ l -> P a = true) -> List.filter P l = l.
Proof.
  induction l as [|a l IH]; intros H; simpl; [done|].
  rewrite (H a) by by left. f_equal. apply IH. intros b Hb. apply H. by right.
Qed.

Lemma filter_none {A} (P : A -> bool) (l : list A) :
  (forall a, a ∈ l -> P a = false) -> List.filter P l = [].
Proof.
  induction l as [|a l IH]; intros H; simpl; [done|].
  rewrite (H a) by by left. apply IH. intros b Hb. apply H. by right.
Qed.




Lemma StronglySorted_filter (P : nat -> bool) (l : list nat) :
  StronglySorted lt l -> StronglySorted lt (List.filter P l).
Proof.
  induction 1 as [|a l Hs IH Ha]; simpl; [constructor|].
  destruct (P a); [|done]. constructor; [done|].
  rewrite Forall_forall in *. intros b Hb. apply Ha.
  apply list_elem_of_In in Hb. apply List.filter_In in Hb as [Hb _]. by apply list_elem_of_In.
Qed.

Lemma StronglySorted_seq (s n : nat) : StronglySorted lt (seq s n).
Proof.
  revert s. induction n as [|n IH]; intros s; simpl; constructor; [apply IH|].
  rewrite Forall_forall. intros b Hb. apply elem_of_seq in Hb. lia.
Qed.

(** The bonds of an atom come in ascending order of their indices. *)
Lemma getAtomBonds_sorted mol i : StronglySorted lt (getAtomBonds mol i).
Proof. apply StronglySorted_filter, StronglySorted_seq. Qed.



(* ===================================================================== *)
(** * The graph queries, by the list of bonds                             *)
(* ===================================================================== *)

Lemma filter_seq_lookup {A} `{!Inhabited A} (P : A -> bool) (pre l : list A) :
  (fun k => (pre ++ l) !!! k)
    <$> List.filter (fun k => P ((pre ++ l) !!! k)) (seq (length pre) (length l))
  = List.filter P l.
Proof.
  revert pre. induction l as [|a l IH]; intros pre; [done|].
  assert (Ha : (pre ++ a :: l) !!! length pre = a).
  { apply list_lookup_total_correct. by rewrite list_lookup_middle. }
  simpl. rewrite Ha. specialize (IH (pre ++ [a])).
  rewrite <- app_assoc, length_app in IH. simpl in IH.
  replace (length pre + 1) with (S (length pre)) in IH by lia.
  destruct (P a); csimpl; [rewrite Ha; f_equal|]; exact IH.
Qed.

Lemma getAtomBonds_bonds m i :
  getBondWithIdx m <$> getAtomBonds m i = List.filter (touches i) (bonds m).
Proof. apply (filter_seq_lookup (touches i) [] (bonds m)). Qed.

Lemma getDegree_bonds m i : getDegree m i = length (List.filter (touches i) (bonds m)).
Proof. unfold getDegree. by rewrite <- getAtomBonds_bonds, length_fmap. Qed.

Lemma getAtomNeighbors_bonds m i :
  getAtomNeighbors m i = (fun b => getOtherAtomIdx b i) <$> List.filter (touches i) (bonds m).
Proof.
  unfold getAtomNeighbors. rewrite <- getAtomBonds_bonds, <- list_fmap_compose. done.
Qed.

Lemma touches_endpoints i b b' : endpoints b' = endpoints b -> touches i b' = touches i b.
Proof. unfold endpoints, touches. intros [= -> ->]. done. Qed.

Lemma getOtherAtomIdx_endpoints i b b' :
  endpoints b' = endpoints b -> getOtherAtomIdx b' i = getOtherAtomIdx b i.
Proof. unfold endpoints, getOtherAtomIdx. intros [= -> ->]. done. Qed.

Lemma joins_endpoints i j b b' : endpoints b' = endpoints b -> joins i j b' = joins i j b.
Proof. unfold endpoints, joins. intros [= -> ->]. done. Qed.

(** Molecules whose bonds have the same end points have the same graph. *)
Section SameGraph.
Context (m m' : Mol).
Hypothesis Hlen : getNumBonds m' = getNumBonds m.
Hypothesis Hend : forall k, endpoints (getBondWithIdx m' k) = endpoints (getBondWithIdx m k).

Lemma getAtomBonds_same i : getAtomBonds m' i = getAtomBonds m i.
Proof.
  unfold getAtomBonds. rewrite Hlen. apply List.filter_ext. intros k.
  by apply touches_endpoints.
Qed.

Lemma getDegree_same i : getDegree m' i = getDegree m i.
Proof. unfold getDegree. by rewrite getAtomBonds_same. Qed.

Lemma getAtomNeighbors_same i : getAtomNeighbors m' i = getAtomNeighbors m i.
Proof.
  unfold getAtomNeighbors. rewrite getAtomBonds_same. apply list_fmap_ext.
  intros _ k _. by apply getOtherAtomIdx_endpoints.
Qed.

Lemma endpoints_bonds_same : endpoints <$> bonds m' = endpoints <$> bonds m.
Proof.
  apply list_eq_same_length with (n := getNumBonds m).
  - by rewrite length_fmap.
  - by rewrite length_fmap.
  - intros k e e' Hk. rewrite !list_lookup_fmap. intros He He'.
    unfold getNumBonds in *.
    destruct (lookup_lt_is_Some_2 (bonds m) k Hk) as [b Hb].
    destruct (lookup_lt_is_Some_2 (bonds m') k ltac:(lia)) as [b' Hb'].
    rewrite Hb' in He. rewrite Hb in He'. simpl in *. simplify_eq.
    specialize (Hend k). unfold getBondWithIdx in Hend.
    by rewrite (list_lookup_total_correct _ _ _ Hb), (list_lookup_total_correct _ _ _ Hb') in Hend.
Qed.

Lemma getBondBetweenAtoms_same i j :
  getBondBetweenAtoms m' i j = getBondBetweenAtoms m i j.
Proof.
  unfold getBondBetweenAtoms.
  assert (H : forall (l l' : list Bond),
             endpoints <$> l' = endpoints <$> l ->
             fst <$> list_find (fun b => joins i j b = true) l'
             = fst <$> list_find (fun b => joins i j b = true) l).
  { induction l as [|b l IH]; intros [|b' l'] Heq; try done. csimpl in Heq.
    assert (Hb : endpoints b' = endpoints b) by congruence.
    assert (Hl : endpoints <$> l' = endpoints <$> l) by congruence. csimpl.
    rewrite (joins_endpoints i j b b' Hb). case_decide; [done|].
    rewrite <- !option_fmap_compose. specialize (IH l' Hl).
    destruct (list_find _ l') as [[? ?]|], (list_find _ l) as [[? ?]|]; simpl in *;
      simplify_eq; done. }
  apply H, endpoints_bonds_same.
Qed.

End SameGraph.

(* ===================================================================== *)
(** * What the fix-ups before the removal keep                            *)
(* ===================================================================== *)

Lemma atomKept_refl a : atomKept a a.
Proof. unfold atomKept. naive_solver. Qed.

Lemma atomKept_trans a b c : atomKept a b -> atomKept b c -> atomKept a c.
Proof.
  unfold atomKept. intros (?&?&?&?&?&?&?&Hp) (?&?&?&?&?&?&?&Hp').
  repeat split; try congruence. intros key Hk. rewrite Hp', Hp; done.
Qed.

Lemma bondKept_refl b : bondKept b b.
Proof. unfold bondKept. naive_solver. Qed.

Lemma bondKept_trans a b c : bondKept a b -> bondKept b c -> bondKept a c.
Proof.
  unfold bondKept. intros (?&?&?&?) (?&?&?&?). repeat split; try congruence; tauto.
Qed.

Lemma molKept_refl m : molKept m m.
Proof.
  unfold molKept. repeat split; auto using atomKept_refl, bondKept_refl;
    try apply atomKept_refl; apply bondKept_refl.
Qed.

Lemma molKept_trans m1 m2 m3 : molKept m1 m2 -> molKept m2 m3 -> molKept m1 m3.
Proof.
  intros (?&?&Ha&Hb&?) (?&?&Ha'&Hb'&?). unfold molKept.
  split; [congruence|]. split; [congruence|].
  split; [intros j; eapply atomKept_trans; eauto|].
  split; [intros k; eapply bondKept_trans; eauto|congruence].
Qed.

Lemma molKept_updAtom i f m :
  atomKept (getAtomWithIdx m i) (f (getAtomWithIdx m i)) -> molKept m (updAtom i f m).
Proof.
  intros Hf. unfold molKept. split; [apply getNumAtoms_updAtom|]. split; [done|].
  split; [|split; [intros k; apply bondKept_refl|done]].
  intros j. rewrite getAtomWithIdx_updAtom. case_decide as Hd.
  - destruct Hd as [-> _]. done.
  - apply atomKept_refl.
Qed.

Lemma molKept_updBond k f m :
  bondKept (getBondWithIdx m k) (f (getBondWithIdx m k)) -> molKept m (updBond k f m).
Proof.
  intros Hf. unfold molKept. split; [done|]. split; [apply getNumBonds_updBond|].
  split; [intros j; apply atomKept_refl|]. split; [|done].
  intros j. rewrite getBondWithIdx_updBond. case_decide as Hd.
  - destruct Hd as [-> _]. done.
  - apply bondKept_refl.
Qed.

Lemma atomKept_set_numExplicitHs v a : atomKept a (set_numExplicitHs v a).
Proof. unfold atomKept. naive_solver. Qed.

Lemma atomKept_invertChirality a : atomKept a (invertChirality a).
Proof. unfold atomKept, invertChirality. destruct (chiralTag a); naive_solver. Qed.

Lemma atomKept_setProp_UnknownStereo v a :
  atomKept a (setProp common_properties._UnknownStereo v a).
Proof.
  unfold atomKept, setProp. simpl. repeat split; try done.
  intros key Hk. by rewrite lookup_insert_ne.
Qed.

Lemma bondKept_set_bondDir v b : bondKept b (set_bondDir v b).
Proof. unfold bondKept. naive_solver. Qed.

Lemma stereoSet_invertCisTrans b :
  stereoSet b -> stereoRank STEREOANY < stereoRank (invertCisTrans (stereo b)).1.
Proof. unfold stereoSet. destruct (stereo b); simpl; lia. Qed.

Lemma molKept_adjustStereoAtomsLoop m atomIdx heavyIdx ks :
  molKept m (adjustStereoAtomsLoop m atomIdx heavyIdx ks).1.
Proof.
  induction ks as [|k ks IH]; simpl; [apply molKept_refl|].
  destruct (bool_decide (bondType _ = DOUBLE) && _) eqn:Hc; [|done].
  apply andb_true_iff in Hc as [_ Hs]. apply bool_decide_eq_true in Hs.
  destruct (findIndex _ _); [|done]. destruct (List.find _ _); [|done].
  pose proof (stereoSet_invertCisTrans (getBondWithIdx m k) Hs) as Hinv.
  destruct (invertCisTrans _) as [st made] eqn:Hi. simpl in *.
  apply molKept_updBond. unfold bondKept, stereoSet. simpl. tauto.
Qed.

Lemma molKept_adjustStereoAtomsIfRequired m atomIdx heavyIdx :
  molKept m (adjustStereoAtomsIfRequired m atomIdx heavyIdx).1.
Proof.
  unfold adjustStereoAtomsIfRequired. case_bool_decide; [apply molKept_refl|].
  destruct (getBondBetweenAtoms _ _ _); [|apply molKept_refl].
  apply molKept_adjustStereoAtomsLoop.
Qed.

Section Kept.
Context {PT : PeriodicTable} {VM : ValenceModel}.

Lemma molKept_bumpExplicitCount upd heavyIdx m :
  molKept m (bumpExplicitCount upd heavyIdx m).
Proof.
  unfold bumpExplicitCount.
  repeat case_match; try apply molKept_refl;
    apply molKept_updAtom, atomKept_set_numExplicitHs.
Qed.

Lemma molKept_fixChirality heavyIdx bondIdx m :
  molKept m (fixChirality heavyIdx bondIdx m).
Proof.
  unfold fixChirality.
  repeat case_match; try apply molKept_refl;
    apply molKept_updAtom, atomKept_invertChirality.
Qed.

Lemma molKept_fixBondDirs idx heavyIdx bondIdx m :
  molKept m (fixBondDirs idx heavyIdx bondIdx m).
Proof.
  unfold fixBondDirs.
  destruct (_ && _); [apply molKept_updAtom, atomKept_setProp_UnknownStereo|].
  destruct (_ || _); [|apply molKept_adjustStereoAtomsIfRequired].
  destruct (scanDirs _ _ _ _ _) as [foundADir oBond].
  eapply molKept_trans; [|apply molKept_adjustStereoAtomsIfRequired].
  destruct oBond as [ob|]; [|apply molKept_refl].
  destruct (negb foundADir); [|apply molKept_refl].
  destruct (_ && _); apply molKept_updBond, bondKept_set_bondDir.
Qed.

Lemma molKept_preRemoval upd m idx heavyIdx bondIdx :
  molKept m (preRemoval upd m idx heavyIdx bondIdx).
Proof.
  unfold preRemoval.
  eapply molKept_trans; [apply molKept_bumpExplicitCount|].
  eapply molKept_trans; [apply molKept_fixChirality|].
  apply molKept_fixBondDirs.
Qed.

End Kept.

(** Kept molecules have the same graph. *)
Lemma molKept_endpoints m m' k :
  molKept m m' -> endpoints (getBondWithIdx m' k) = endpoints (getBondWithIdx m k).
Proof. intros (_&_&_&Hb&_). apply Hb. Qed.


Lemma molKept_getDegree m m' i : molKept m m' -> getDegree m' i = getDegree m i.
Proof.
  intros Hk. apply getDegree_same; [apply Hk|]. intros k. by apply molKept_endpoints.
Qed.

Lemma molKept_getAtomNeighbors m m' i :
  molKept m m' -> getAtomNeighbors m' i = getAtomNeighbors m i.
Proof.
  intros Hk. apply getAtomNeighbors_same; [apply Hk|]. intros k. by apply molKept_endpoints.
Qed.

(* ===================================================================== *)
(** * Removing a vertex                                                   *)
(* ===================================================================== *)

Lemma getAtomWithIdx_removeAtom h m p :
  p <> h -> getAtomWithIdx (removeAtom h m) (shiftIdx h p) = getAtomWithIdx m p.
Proof.
  intros Hne. unfold getAtomWithIdx, removeAtom, shiftIdx; simpl.
  rewrite list_lookup_total_delete. repeat case_decide; try lia; try done.
  f_equal. lia.
Qed.

Lemma getNumAtoms_removeAtom h m :
  h < getNumAtoms m -> getNumAtoms (removeAtom h m) = getNumAtoms m - 1.
Proof.
  intros Hh. unfold getNumAtoms, removeAtom; simpl. apply length_delete.
  by apply lookup_lt_is_Some_2.
Qed.

Lemma atoms_adjustStereoAtomsLoop m atomIdx heavyIdx ks :
  atoms (adjustStereoAtomsLoop m atomIdx heavyIdx ks).1 = atoms m.
Proof.
  induction ks as [|k ks IH]; simpl; [done|].
  repeat (case_match; simpl; try done).
Qed.

Lemma atoms_adjustStereoAtomsIfRequired m atomIdx heavyIdx :
  atoms (adjustStereoAtomsIfRequired m atomIdx heavyIdx).1 = atoms m.
Proof.
  unfold adjustStereoAtomsIfRequired. repeat (case_match; simpl; try done).
  apply atoms_adjustStereoAtomsLoop.
Qed.




Lemma StronglySorted_lt_NoDup (l : list nat) : StronglySorted lt l -> NoDup l.
Proof.
  induction 1 as [|a l Hs IHs Ha]; [constructor|].
  apply NoDup_cons. split; [|done]. rewrite Forall_forall in Ha.
  intros Hin. specialize (Ha a Hin). lia.
Qed.

(* ===================================================================== *)
(** * removeHs: the chiral tag of the heavy neighbour                     *)
(* ===================================================================== *)

Section ChiralParity.
Context {PT : PeriodicTable} {VM : ValenceModel}.

Lemma removeHydrogen_unfold upd mol idx bondIdx rest :
  getAtomBonds mol idx = bondIdx :: rest ->
  removeHydrogen upd mol idx =
    removeAtom idx
      (preRemoval upd mol idx (getOtherAtomIdx (getBondWithIdx mol bondIdx) idx) bondIdx).
Proof. intros H. unfold removeHydrogen, preRemoval. by rewrite H. Qed.







End ChiralParity.


(* ===================================================================== *)
(** * adjustStereoAtomsIfRequired                                         *)
(* ===================================================================== *)

Lemma findIndex_elem_of n l pos : findIndex n l = Some pos -> n ∈ l.
Proof.
  unfold findIndex. intros H. apply fmap_Some in H as ([i x] & Hf & ->).
  apply list_find_Some in Hf as (Hl & -> & _). by eapply list_elem_of_lookup_2.
Qed.

Lemma findIndex_None n l : findIndex n l = None -> n ∉ l.
Proof.
  unfold findIndex. intros H. apply fmap_None in H. apply list_find_None in H.
  rewrite Forall_forall in H. intros Hin. by apply (H n Hin).
Qed.

Lemma adjustStereoAtomsLoop_skip mol a h ks :
  (forall k, k ∈ ks -> ~ namesInStereo a (getBondWithIdx mol k)) ->
  adjustStereoAtomsLoop mol a h ks = (mol, false).
Proof.
  induction ks as [|k ks IH]; intros Hno; simpl; [done|].
  assert (IH' : adjustStereoAtomsLoop mol a h ks = (mol, false)).
  { apply IH. intros k' Hk'. apply Hno. by right. }
  destruct (bool_decide (bondType _ = DOUBLE) && _) eqn:Hc; [|done].
  apply andb_true_iff in Hc as [Hd Hs].
  apply bool_decide_eq_true in Hd. apply bool_decide_eq_true in Hs.
  destruct (findIndex _ _) eqn:Hf; [|done].
  exfalso. apply (Hno k); [by left|]. split; [done|]. split; [done|].
  by eapply findIndex_elem_of.
Qed.

(** The loop changes the first double bond with a set descriptor that
    names the atom and for which a substitute exists. *)
Lemma adjustStereoAtomsLoop_first mol a h pre k post pos nbr :
  (forall k', k' ∈ pre -> ~ namesInStereo a (getBondWithIdx mol k')) ->
  bondType (getBondWithIdx mol k) = DOUBLE ->
  stereoSet (getBondWithIdx mol k) ->
  findIndex a (stereoAtoms (getBondWithIdx mol k)) = Some pos ->
  substitute mol a h k = Some nbr ->
  adjustStereoAtomsLoop mol a h (pre ++ k :: post) =
    (updBond k (fun b => set_stereo (invertCisTrans (stereo (getBondWithIdx mol k))).1
                           (set_stereoAtoms (<[pos := nbr]> (stereoAtoms b)) b)) mol,
     (invertCisTrans (stereo (getBondWithIdx mol k))).2).
Proof.
  intros Hpre Hd Hs Hf Hsub. induction pre as [|k' pre IH]; simpl.
  - rewrite (bool_decide_eq_true_2 _ Hd). unfold stereoSet in Hs.
    rewrite (bool_decide_eq_true_2 _ Hs). simpl. rewrite Hf.
    unfold substitute in Hsub. rewrite Hsub.
    by destruct (invertCisTrans _).
  - assert (IH' := IH (fun k0 Hk0 => Hpre k0 (list_elem_of_further _ _ _ Hk0))).
    destruct (bool_decide (bondType _ = DOUBLE) && _) eqn:Hc; [|done].
    apply andb_true_iff in Hc as [Hd' Hs'].
    apply bool_decide_eq_true in Hd'. apply bool_decide_eq_true in Hs'.
    destruct (findIndex a (stereoAtoms (getBondWithIdx mol k'))) eqn:Hf'; [|done].
    exfalso. apply (Hpre k'); [by left|]. split; [done|]. split; [done|].
    by eapply findIndex_elem_of.
Qed.

Lemma sameButDir_refl b : sameButDir b b.
Proof. by unfold sameButDir. Qed.

Lemma molSameButDir_refl m : molSameButDir m m.
Proof. split; [done|]. intros k. apply sameButDir_refl. Qed.

Lemma molSameButDir_set_bondDir m ob d : molSameButDir m (updBond ob (set_bondDir d) m).
Proof.
  split; [apply getNumBonds_updBond|]. intros k. rewrite getBondWithIdx_updBond.
  case_decide as Hc; [|apply sameButDir_refl]. destruct Hc as [-> _]. by unfold sameButDir.
Qed.

Section SameButDir.
Context (m m' : Mol) (Hsame : molSameButDir m m').

Lemma sameButDir_getAtomBonds i : getAtomBonds m' i = getAtomBonds m i.
Proof. apply getAtomBonds_same; [apply Hsame|]. intros k. apply Hsame. Qed.

Lemma sameButDir_getDegree i : getDegree m' i = getDegree m i.
Proof. apply getDegree_same; [apply Hsame|]. intros k. apply Hsame. Qed.

Lemma sameButDir_getAtomNeighbors i : getAtomNeighbors m' i = getAtomNeighbors m i.
Proof. apply getAtomNeighbors_same; [apply Hsame|]. intros k. apply Hsame. Qed.

Lemma sameButDir_getBondBetweenAtoms i j :
  getBondBetweenAtoms m' i j = getBondBetweenAtoms m i j.
Proof. apply getBondBetweenAtoms_same; [apply Hsame|]. intros k. apply Hsame. Qed.

Lemma sameButDir_substitute a h k : substitute m' a h k = substitute m a h k.
Proof.
  unfold substitute. rewrite sameButDir_getAtomNeighbors.
  rewrite (getOtherAtomIdx_endpoints h (getBondWithIdx m k) (getBondWithIdx m' k)); [done|].
  apply Hsame.
Qed.

Lemma sameButDir_namesInStereo a k :
  namesInStereo a (getBondWithIdx m' k) <-> namesInStereo a (getBondWithIdx m k).
Proof.
  destruct Hsame as [_ Hk]. destruct (Hk k) as (_ & Ht & Hs & Ha).
  unfold namesInStereo, stereoSet. by rewrite Ht, Hs, Ha.
Qed.

End SameButDir.

Lemma sameButDir_trans a b c : sameButDir a b -> sameButDir b c -> sameButDir a c.
Proof. unfold sameButDir. intros (?&?&?&?) (?&?&?&?). repeat split; congruence. Qed.

Lemma molSameButDir_trans m1 m2 m3 :
  molSameButDir m1 m2 -> molSameButDir m2 m3 -> molSameButDir m1 m3.
Proof.
  intros [H1 H2] [H3 H4]. split; [congruence|].
  intros k. eapply sameButDir_trans; eauto.
Qed.

Lemma molSameButDir_bonds m m' : bonds m' = bonds m -> molSameButDir m m'.
Proof.
  intros H. unfold molSameButDir, getNumBonds, getBondWithIdx. rewrite H.
  split; [done|]. intros k. apply sameButDir_refl.
Qed.

Lemma adjustStereoAtomsIfRequired_degree2 m m' a h :
  molSameButDir m m' -> getDegree m h = 2 ->
  (adjustStereoAtomsIfRequired m' a h).1 = m'.
Proof.
  intros Hs Hd. unfold adjustStereoAtomsIfRequired.
  rewrite (sameButDir_getDegree m m' Hs), Hd. by rewrite bool_decide_eq_true_2.
Qed.

Lemma elem_of_app_middle {A} (pre post : list A) k : k ∈ pre ++ k :: post.
Proof. apply elem_of_app. right. by left. Qed.

(** The effect of [adjustStereoAtomsIfRequired] on the stereo descriptor
    and the stereo atoms of every bond. *)
Lemma adjustStereoAtomsIfRequired_effect m m' a h pre k post pos nbr :
  molSameButDir m m' ->
  getDegree m h <> 2 ->
  is_Some (getBondBetweenAtoms m a h) ->
  getAtomBonds m h = pre ++ k :: post ->
  (forall k', k' ∈ pre -> ~ namesInStereo a (getBondWithIdx m k')) ->
  bondType (getBondWithIdx m k) = DOUBLE ->
  stereoSet (getBondWithIdx m k) ->
  findIndex a (stereoAtoms (getBondWithIdx m k)) = Some pos ->
  substitute m a h k = Some nbr ->
  let r := (adjustStereoAtomsIfRequired m' a h).1 in
  stereoAtoms (getBondWithIdx r k) = <[pos := nbr]> (stereoAtoms (getBondWithIdx m k)) /\
  stereo (getBondWithIdx r k) = (invertCisTrans (stereo (getBondWithIdx m k))).1 /\
  forall k', k' <> k ->
    stereo (getBondWithIdx r k') = stereo (getBondWithIdx m k') /\
    stereoAtoms (getBondWithIdx r k') = stereoAtoms (getBondWithIdx m k').
Proof.
  intros Hs Hdeg [kb Hkb] Hbonds Hpre Hd Hset Hf Hsub r.
  assert (Hk : k < getNumBonds m').
  { destruct Hs as [-> _]. apply (elem_of_getAtomBonds m h k). rewrite Hbonds.
    apply elem_of_app_middle. }
  pose proof Hs as [_ Hfields].
  destruct (Hfields k) as (_ & Ht & Hst & Hsa).
  assert (Hr : r = updBond k
                 (fun b => set_stereo (invertCisTrans (stereo (getBondWithIdx m' k))).1
                             (set_stereoAtoms (<[pos := nbr]> (stereoAtoms b)) b)) m').
  { subst r. unfold adjustStereoAtomsIfRequired.
    rewrite (sameButDir_getDegree m m' Hs), bool_decide_eq_false_2 by done.
    rewrite (sameButDir_getBondBetweenAtoms m m' Hs), Hkb.
    rewrite (sameButDir_getAtomBonds m m' Hs), Hbonds.
    rewrite (adjustStereoAtomsLoop_first m' a h pre k post pos nbr); [done|..].
    - intros k' Hk'. rewrite (sameButDir_namesInStereo m m' Hs). by apply Hpre.
    - by rewrite Ht.
    - unfold stereoSet. by rewrite Hst.
    - by rewrite Hsa.
    - by rewrite (sameButDir_substitute m m' Hs). }
  rewrite Hr. split; [|split].
  - rewrite getBondWithIdx_updBond, decide_True by done. simpl. by rewrite Hsa.
  - rewrite getBondWithIdx_updBond, decide_True by done. simpl. by rewrite Hst.
  - intros k' Hne. rewrite getBondWithIdx_updBond, decide_False by (intros [? _]; congruence).
    destruct (Hfields k') as (_ & _ & -> & ->). done.
Qed.

Lemma getBondBetweenAtoms_head mol idx bondIdx rest :
  getAtomBonds mol idx = bondIdx :: rest ->
  is_Some (getBondBetweenAtoms mol idx (getOtherAtomIdx (getBondWithIdx mol bondIdx) idx)).
Proof.
  intros H. assert (Hin : bondIdx ∈ getAtomBonds mol idx) by (rewrite H; by left).
  apply elem_of_getAtomBonds in Hin as [Hlt Ht].
  unfold getBondBetweenAtoms. apply fmap_is_Some.
  apply (list_find_elem_of _ _ (getBondWithIdx mol bondIdx)).
  - unfold getBondWithIdx. apply list_elem_of_lookup_total_2. exact Hlt.
  - unfold joins, getOtherAtomIdx, touches in *.
    repeat case_bool_decide; simpl in *; try done; congruence.
Qed.

Section StereoAtoms.
Context {PT : PeriodicTable} {VM : ValenceModel}.

Lemma bonds_bumpExplicitCount upd h m : bonds (bumpExplicitCount upd h m) = bonds m.
Proof. unfold bumpExplicitCount. by repeat case_match. Qed.

Lemma bonds_fixChirality h b m : bonds (fixChirality h b m) = bonds m.
Proof. unfold fixChirality. by repeat case_match. Qed.

(** The molecule that [fixBondDirs] hands to
    [adjustStereoAtomsIfRequired]. *)
Lemma fixBondDirs_cases idx heavyIdx bondIdx m :
  (wavyFrom m bondIdx heavyIdx /\ bonds (fixBondDirs idx heavyIdx bondIdx m) = bonds m) \/
  (~ wavyFrom m bondIdx heavyIdx /\
   exists m', molSameButDir m m' /\
              fixBondDirs idx heavyIdx bondIdx m = (adjustStereoAtomsIfRequired m' idx heavyIdx).1).
Proof.
  unfold fixBondDirs, wavyFrom.
  destruct (bool_decide (bondDir (getBondWithIdx m bondIdx) = BD_UNKNOWN)
            && bool_decide (beginAtomIdx (getBondWithIdx m bondIdx) = heavyIdx)) eqn:Hw.
  - left. apply andb_true_iff in Hw as [H1 H2].
    apply bool_decide_eq_true in H1. apply bool_decide_eq_true in H2. done.
  - right. split.
    { intros [H1 H2]. rewrite !bool_decide_eq_true_2 in Hw by done. done. }
    destruct (bool_decide (bondDir (getBondWithIdx m bondIdx) = ENDDOWNRIGHT)
              || bool_decide (bondDir (getBondWithIdx m bondIdx) = ENDUPRIGHT)).
    + destruct (scanDirs _ _ _ _ _) as [foundADir oBond].
      destruct oBond as [ob|]; [|exists m; split; [apply molSameButDir_refl|done]].
      destruct (negb foundADir); [|exists m; split; [apply molSameButDir_refl|done]].
      destruct (bool_decide (beginAtomIdx (getBondWithIdx m ob) = heavyIdx)
                && bool_decide (beginAtomIdx (getBondWithIdx m bondIdx) = heavyIdx));
        eexists; (split; [apply molSameButDir_set_bondDir|reflexivity]).
    + exists m. split; [apply molSameButDir_refl|done].
Qed.

(** C3, as the code has it. [removeHs] is about to remove the hydrogen
    [idx], bonded by [bondIdx] to the heavy atom; [m3] is the molecule just
    before the vertex is deleted.
    - If the heavy atom has degree 2, or the hydrogen's bond is a wavy bond
      that begins at the heavy atom, no stereo descriptor and no stereo-atom
      list is changed.
    - Otherwise, at the first double bond [k] of the heavy atom with a set
      descriptor whose stereo atoms name the hydrogen: the first neighbour
      of the heavy atom that is neither the other end of [k] nor the
      hydrogen takes the first slot that names the hydrogen, cis and trans
      are swapped, E and Z are left as they are; no other bond changes its
      descriptor or stereo atoms. *)
Theorem removeHs_stereo_atom_substitution (upd : bool) (mol : Mol) (idx bondIdx : nat)
    (rest : list nat) :
  getAtomBonds mol idx = bondIdx :: rest ->
  let heavyIdx := getOtherAtomIdx (getBondWithIdx mol bondIdx) idx in
  let m3 := preRemoval upd mol idx heavyIdx bondIdx in
  removeHydrogen upd mol idx = removeAtom idx m3 /\
  (getDegree mol heavyIdx = 2 \/ wavyFrom mol bondIdx heavyIdx ->
   forall k, stereo (getBondWithIdx m3 k) = stereo (getBondWithIdx mol k) /\
             stereoAtoms (getBondWithIdx m3 k) = stereoAtoms (getBondWithIdx mol k)) /\
  (getDegree mol heavyIdx <> 2 -> ~ wavyFrom mol bondIdx heavyIdx ->
   forall pre k post pos nbr,
     getAtomBonds mol heavyIdx = pre ++ k :: post ->
     (forall k', k' ∈ pre -> ~ namesInStereo idx (getBondWithIdx mol k')) ->
     bondType (getBondWithIdx mol k) = DOUBLE ->
     stereoSet (getBondWithIdx mol k) ->
     findIndex idx (stereoAtoms (getBondWithIdx mol k)) = Some pos ->
     substitute mol idx heavyIdx k = Some nbr ->
     stereoAtoms (getBondWithIdx m3 k) = <[pos := nbr]> (stereoAtoms (getBondWithIdx mol k)) /\
     stereo (getBondWithIdx m3 k) =
       match stereo (getBondWithIdx mol k) with
       | STEREOCIS => STEREOTRANS
       | STEREOTRANS => STEREOCIS
       | other => other
       end /\
     forall k', k' <> k ->
       stereo (getBondWithIdx m3 k') = stereo (getBondWithIdx mol k') /\
       stereoAtoms (getBondWithIdx m3 k') = stereoAtoms (getBondWithIdx mol k')).
Proof.
  intros Hbonds heavyIdx m3.
  split; [by apply (removeHydrogen_unfold upd mol idx bondIdx rest)|].
  set (m2 := fixChirality heavyIdx bondIdx (bumpExplicitCount upd heavyIdx mol)).
  assert (Hb2 : bonds m2 = bonds mol)
    by (unfold m2; by rewrite bonds_fixChirality, bonds_bumpExplicitCount).
  assert (Hs2 : molSameButDir mol m2) by by apply molSameButDir_bonds.
  assert (Hbond2 : forall k, getBondWithIdx m2 k = getBondWithIdx mol k)
    by (intros k; unfold getBondWithIdx; by rewrite Hb2).
  assert (Hw2 : wavyFrom m2 bondIdx heavyIdx <-> wavyFrom mol bondIdx heavyIdx)
    by (unfold wavyFrom; by rewrite Hbond2).
  change m3 with (fixBondDirs idx heavyIdx bondIdx m2).
  destruct (fixBondDirs_cases idx heavyIdx bondIdx m2)
    as [[Hw Hbw]|[Hnw (m' & Hs' & Hfix)]].
  - split.
    + intros _ k. unfold getBondWithIdx. by rewrite Hbw, Hb2.
    + intros _ Hnot. exfalso. by apply Hnot, Hw2.
  - pose proof (molSameButDir_trans _ _ _ Hs2 Hs') as Hs.
    split.
    + intros [Hd|Hw]; [|exfalso; by apply Hnw, Hw2].
      intros k. rewrite Hfix, (adjustStereoAtomsIfRequired_degree2 mol m' idx heavyIdx Hs Hd).
      destruct Hs as [_ Hf]. destruct (Hf k) as (_ & _ & -> & ->). done.
    + intros Hd _ pre k post pos nbr Hhb Hpre Ht Hset Hfi Hsub. rewrite Hfix.
      pose proof (adjustStereoAtomsIfRequired_effect mol m' idx heavyIdx pre k post pos nbr
                    Hs Hd (getBondBetweenAtoms_head mol idx bondIdx rest Hbonds)
                    Hhb Hpre Ht Hset Hfi Hsub) as (H1 & H2 & H3).
      split; [exact H1|]. split; [|exact H3].
      rewrite H2. by destruct (stereo (getBondWithIdx mol k)).
Qed.

End StereoAtoms.

(** C3 at fluoroethene with a plain bond to the hydrogen: the fluorine
    (atom 3) takes the hydrogen's slot and cis becomes trans. *)
Lemma removeHs_stereo_atom_substitution_witness :
  getAtomBonds (ex_fluoroethene BD_NONE) 2 = [1] /\
  let m3 := preRemoval (PT := samplePeriodicTable) (VM := sampleValence)
              false (ex_fluoroethene BD_NONE) 2 0 1 in
  stereoAtoms (getBondWithIdx m3 0) = [3; 4] /\
  stereo (getBondWithIdx m3 0) = STEREOTRANS.
Proof.
  split; [reflexivity|].
  destruct (removeHs_stereo_atom_substitution (PT := samplePeriodicTable) (VM := sampleValence)
              false (ex_fluoroethene BD_NONE) 2 1 [] eq_refl) as (_ & _ & H).
  assert (Hd : getDegree (ex_fluoroethene BD_NONE)
                 (getOtherAtomIdx (getBondWithIdx (ex_fluoroethene BD_NONE) 1) 2) <> 2)
    by (cbv; lia).
  assert (Hw : ~ wavyFrom (ex_fluoroethene BD_NONE) 1
                   (getOtherAtomIdx (getBondWithIdx (ex_fluoroethene BD_NONE) 1) 2))
    by (intros [Hdir _]; cbv in Hdir; discriminate).
  destruct (H Hd Hw [] 0 [1; 2] 0 3) as (Ha & Hs & _).
  - reflexivity.
  - intros k' Hk'. by apply elem_of_nil in Hk'.
  - reflexivity.
  - cbv. lia.
  - reflexivity.
  - reflexivity.
  - split; [exact Ha|exact Hs].
Defined.

(** C3 as stated fails for a hydrogen on a wavy bond that begins at the
    heavy atom. In fluoroethene the hydrogen (atom 2) is named by the cis
    double bond, the carbon has degree 3 and a fluorine to substitute;
    [removeHs] removes the hydrogen, yet just before the vertex is deleted
    the slot still names the hydrogen and the descriptor is still cis, and
    it is still cis in the result. *)
Lemma removeHs_stereo_atom_counterexample :
  let mol := ex_fluoroethene BD_UNKNOWN in
  (removeHsTrace (PT := samplePeriodicTable) (VM := sampleValence) false false mol).2 = [2] /\
  getAtomBonds mol 2 = [1] /\
  getOtherAtomIdx (getBondWithIdx mol 1) 2 = 0 /\
  getDegree mol 0 = 3 /\
  namesInStereo 2 (getBondWithIdx mol 0) /\
  substitute mol 2 0 0 = Some 3 /\
  (let m3 := preRemoval (PT := samplePeriodicTable) (VM := sampleValence) false mol 2 0 1 in
   stereoAtoms (getBondWithIdx m3 0) = [2; 4] /\
   stereo (getBondWithIdx m3 0) = STEREOCIS) /\
  stereo (getBondWithIdx
            (removeHsTrace (PT := samplePeriodicTable) (VM := sampleValence)
               false false mol).1 0) = STEREOCIS.
Proof.
  cbv zeta. split; [reflexivity|]. split; [reflexivity|]. split; [reflexivity|].
  split; [reflexivity|]. split.
  { split; [reflexivity|]. split; [cbv; lia|]. simpl. by left. }
  split; [reflexivity|]. split; [split; reflexivity|reflexivity].
Qed.

(* ===================================================================== *)
(** * removeHs: the loop                                                  *)
(* ===================================================================== *)

Lemma atomAlike_refl a : atomAlike a a.
Proof. by unfold atomAlike. Qed.

Lemma atomAlike_trans a b c : atomAlike a b -> atomAlike b c -> atomAlike a c.
Proof. unfold atomAlike. intros (?&?&?&?) (?&?&?&?). repeat split; congruence. Qed.

Lemma molAlike_refl m : molAlike m m.
Proof.
  split; [done|]. split; [done|]. split; intros; [apply atomAlike_refl|apply bondKept_refl].
Qed.

Lemma molAlike_trans m1 m2 m3 : molAlike m1 m2 -> molAlike m2 m3 -> molAlike m1 m3.
Proof.
  intros (?&?&Ha&Hb) (?&?&Ha'&Hb'). split; [congruence|]. split; [congruence|].
  split; [intros j; eapply atomAlike_trans; eauto|intros k; eapply bondKept_trans; eauto].
Qed.

Lemma atomKept_atomAlike a a' : atomKept a a' -> atomAlike a a'.
Proof.
  intros (?&?&?&?&?&?&?&Hp). repeat split; try done. apply Hp. done.
Qed.

Lemma molKept_molAlike m m' : molKept m m' -> molAlike m m'.
Proof.
  intros (?&?&Ha&Hb&_). split; [done|]. split; [done|].
  split; [intros j; apply atomKept_atomAlike, Ha|done].
Qed.

Lemma molAlike_updAtom i f m :
  atomAlike (getAtomWithIdx m i) (f (getAtomWithIdx m i)) -> molAlike m (updAtom i f m).
Proof.
  intros Hf. split; [apply getNumAtoms_updAtom|]. split; [done|].
  split; [|intros k; apply bondKept_refl].
  intros j. rewrite getAtomWithIdx_updAtom. case_decide as Hd.
  - destruct Hd as [-> _]. done.
  - apply atomAlike_refl.
Qed.

Lemma molAlike_getAtomBonds m m' i : molAlike m m' -> getAtomBonds m' i = getAtomBonds m i.
Proof.
  intros (_&Hn&_&Hb). apply getAtomBonds_same; [done|]. intros k. apply Hb.
Qed.

Lemma molAlike_getDegree m m' i : molAlike m m' -> getDegree m' i = getDegree m i.
Proof. intros H. unfold getDegree. by rewrite (molAlike_getAtomBonds m m' i H). Qed.

Lemma molAlike_getAtomNeighbors m m' i :
  molAlike m m' -> getAtomNeighbors m' i = getAtomNeighbors m i.
Proof.
  intros (_&Hn&_&Hb). apply getAtomNeighbors_same; [done|]. intros k. apply Hb.
Qed.

Lemma molAlike_atomicNum m m' j :
  molAlike m m' -> atomicNum (getAtomWithIdx m' j) = atomicNum (getAtomWithIdx m j).
Proof. intros (_&_&Ha&_). apply Ha. Qed.

Lemma molAlike_isotope m m' j :
  molAlike m m' -> isotope (getAtomWithIdx m' j) = isotope (getAtomWithIdx m j).
Proof. intros (_&_&Ha&_). apply Ha. Qed.

Lemma molAlike_hasQuery m m' j :
  molAlike m m' -> hasQuery (getAtomWithIdx m' j) = hasQuery (getAtomWithIdx m j).
Proof. intros (_&_&Ha&_). destruct (Ha j) as (_&_&Hq&_). unfold hasQuery. by rewrite Hq. Qed.

Lemma molAlike_isImplicit m m' j :
  molAlike m m' ->
  hasProp common_properties.isImplicit (getAtomWithIdx m' j)
  = hasProp common_properties.isImplicit (getAtomWithIdx m j).
Proof. intros (_&_&Ha&_). destruct (Ha j) as (_&_&_&Hp). unfold hasProp. by rewrite Hp. Qed.

Section LoopSteps.
Context {PT : PeriodicTable} {VM : ValenceModel}.

Lemma molAlike_updatePropertyCache m i : molAlike m (updatePropertyCache m i).
Proof.
  unfold updatePropertyCache. apply molAlike_updAtom.
  destruct (noImplicit _); [apply atomAlike_refl|]. by unfold atomAlike.
Qed.

Lemma molAlike_restoreNoImplicit m i : molAlike m (restoreNoImplicit m i).
Proof.
  unfold restoreNoImplicit. destruct (getOrigNoImplicit _); [|apply molAlike_refl].
  apply molAlike_updAtom. unfold atomAlike, clearProp. simpl.
  repeat split; try done. by rewrite lookup_delete_ne.
Qed.

Lemma molAlike_updateHeavyCaches m : molAlike m (updateHeavyCaches m).
Proof.
  unfold updateHeavyCaches. generalize (seq 0 (getNumAtoms m)). intros l.
  assert (H : forall m0, molAlike m m0 ->
            molAlike m (foldl (fun m1 i =>
                          if bool_decide (atomicNum (getAtomWithIdx m1 i) = 1) then m1
                          else updatePropertyCache m1 i) m0 l)).
  { induction l as [|i l IH]; intros m0 H0; simpl; [done|].
    apply IH. case_bool_decide; [done|].
    eapply molAlike_trans; [exact H0|apply molAlike_updatePropertyCache]. }
  apply H, molAlike_refl.
Qed.

Lemma molAlike_preRemoval upd m idx heavyIdx bondIdx :
  molAlike m (preRemoval upd m idx heavyIdx bondIdx).
Proof. apply molKept_molAlike, molKept_preRemoval. Qed.

(** The CHECK_INVARIANT of the removal block holds: an atom that is to be
    removed has a bond. *)
Lemma removeIt_has_bond implicitOnly m idx :
  removeIt implicitOnly m idx = true -> getAtomBonds m idx <> [].
Proof.
  unfold removeIt. case_bool_decide as Hd; [done|]. intros _ H.
  apply Hd. unfold getDegree. by rewrite H.
Qed.

(** Each index the loop removes is at or after the original index it
    starts from. *)
Lemma removeHsLoop_trace_ge n implicitOnly upd m curr orig j :
  j ∈ (removeHsLoop n implicitOnly upd m curr orig).2 -> orig <= j.
Proof.
  revert m curr orig. induction n as [|n IH]; intros m curr orig; simpl.
  - intros H. by apply elem_of_nil in H.
  - case_bool_decide; [|intros H0; by apply elem_of_nil in H0].
    case_bool_decide.
    + destruct (removeIt implicitOnly m curr).
      * destruct (removeHsLoop n _ _ _ _ _) as [m' removed] eqn:Hl. simpl.
        intros Hj. apply elem_of_cons in Hj as [->|Hj]; [lia|].
        specialize (IH (removeHydrogen upd m curr) curr (S orig)).
        rewrite Hl in IH. simpl in IH. specialize (IH Hj). lia.
      * intros Hj. specialize (IH _ _ _ Hj). lia.
    + intros Hj. specialize (IH _ _ _ Hj). lia.
Qed.

(** A property of a hydrogen that rules out its removal and that survives
    every step of the loop keeps the hydrogen in the molecule. *)
Lemma removeHsLoop_keeps (P : Mol -> nat -> Prop) (implicitOnly upd : bool) :
  (forall m p, P m p -> removeIt implicitOnly m p = false) ->
  (forall m m' p, molAlike m m' -> P m p -> P m' p) ->
  (forall m h p, P m p -> p <> h -> atomicNum (getAtomWithIdx m h) = 1 ->
                 P (removeAtom h m) (shiftIdx h p)) ->
  (forall m p, P m p -> atomicNum (getAtomWithIdx m p) = 1) ->
  forall n m curr orig k,
    P m (curr + k) -> orig + k ∉ (removeHsLoop n implicitOnly upd m curr orig).2.
Proof.
  intros Hkeep Halike Hrem Hhyd. induction n as [|n IH]; intros m curr orig k HP; simpl.
  - apply not_elem_of_nil.
  - case_bool_decide as Hlt; [|apply not_elem_of_nil].
    case_bool_decide as Hat.
    + destruct (removeIt implicitOnly m curr) eqn:Hr.
      * destruct k as [|k].
        { rewrite Nat.add_0_r in HP. rewrite (Hkeep m curr HP) in Hr. done. }
        destruct (removeHsLoop n _ _ _ _ _) as [m' removed] eqn:Hl. simpl.
        intros Hin. apply elem_of_cons in Hin as [Heq|Hin]; [lia|].
        specialize (IH (removeHydrogen upd m curr) curr (S orig) k).
        rewrite Hl in IH. simpl in IH.
        replace (orig + S k) with (S (orig + k)) in Hin by lia.
        apply IH; [|exact Hin].
        destruct (getAtomBonds m curr) as [|bondIdx rest] eqn:Hb;
          [by apply removeIt_has_bond in Hr|].
        rewrite (removeHydrogen_unfold upd m curr bondIdx rest Hb).
        replace (curr + k) with (shiftIdx curr (curr + S k))
          by (unfold shiftIdx; rewrite decide_True; lia).
        apply Hrem; [|lia|].
        -- eapply Halike; [apply molAlike_preRemoval|done].
        -- rewrite (molAlike_atomicNum m _ curr); [done|apply molAlike_preRemoval].
      * destruct k as [|k].
        { intros Hin. apply removeHsLoop_trace_ge in Hin. lia. }
        replace (orig + S k) with (S orig + k) by lia. apply IH.
        by replace (S curr + k) with (curr + S k) by lia.
    + destruct k as [|k].
      { rewrite Nat.add_0_r in HP. apply Hhyd in HP. done. }
      replace (orig + S k) with (S orig + k) by lia. apply IH.
      replace (S curr + k) with (curr + S k) by lia.
      eapply Halike; [apply molAlike_restoreNoImplicit|done].
Qed.

End LoopSteps.

(* ===================================================================== *)
(** * The graph after the removal of a vertex                             *)
(* ===================================================================== *)

Lemma shiftIdx_inj h a b :
  a <> h -> b <> h -> shiftIdx h a = shiftIdx h b -> a = b.
Proof. unfold shiftIdx. intros. repeat case_decide; lia. Qed.

Lemma touches_false h b :
  touches h b = false <-> beginAtomIdx b <> h /\ endAtomIdx b <> h.
Proof.
  unfold touches. rewrite orb_false_iff, !bool_decide_eq_false. done.
Qed.

Lemma touches_renumberBond h p b :
  p <> h -> touches h b = false ->
  touches (shiftIdx h p) (renumberBond h b) = touches p b.
Proof.
  intros Hp [Hb He]%touches_false. unfold touches, renumberBond; simpl.
  f_equal; apply bool_decide_ext; split; intros H; try (by rewrite H);
    by apply shiftIdx_inj in H.
Qed.

Lemma getOtherAtomIdx_renumberBond h p b :
  p <> h -> touches h b = false ->
  getOtherAtomIdx (renumberBond h b) (shiftIdx h p) = shiftIdx h (getOtherAtomIdx b p).
Proof.
  intros Hp [Hb He]%touches_false. unfold getOtherAtomIdx, renumberBond; simpl.
  rewrite (bool_decide_ext (shiftIdx h (beginAtomIdx b) = shiftIdx h p) (beginAtomIdx b = p)).
  - by case_bool_decide.
  - split; intros H; [by apply shiftIdx_inj in H|by rewrite H].
Qed.

Lemma filter_ext_elem {A} (P Q : A -> bool) (l : list A) :
  (forall a, a ∈ l -> P a = Q a) -> List.filter P l = List.filter Q l.
Proof.
  intros H. apply List.filter_ext_in. intros a Ha. apply H. by apply list_elem_of_In.
Qed.

Lemma elem_of_filter {A} (P : A -> bool) (l : list A) a :
  a ∈ List.filter P l <-> a ∈ l /\ P a = true.
Proof. by rewrite !list_elem_of_In, List.filter_In. Qed.

Lemma filter_touches_removeAtom h m p :
  p <> h ->
  List.filter (touches (shiftIdx h p)) (bonds (removeAtom h m)) =
  renumberBond h <$> List.filter (touches p)
                       (List.filter (fun b => negb (touches h b)) (bonds m)).
Proof.
  intros Hp. unfold removeAtom; simpl. rewrite filter_fmap. f_equal.
  apply filter_ext_elem. intros b [_ Hb]%elem_of_filter.
  apply touches_renumberBond; [done|]. by apply negb_true_iff.
Qed.

Lemma touches_other_ne h p b :
  p <> h -> touches p b = true ->
  negb (touches h b) = negb (bool_decide (getOtherAtomIdx b p = h)).
Proof.
  intros Hp Ht. unfold touches, getOtherAtomIdx in *. f_equal.
  repeat case_bool_decide; simpl in *; try done; congruence.
Qed.

(** The neighbours of an atom after the removal of the vertex [h]: those
    that are not [h], renumbered. *)
Lemma getAtomNeighbors_removeAtom h m p :
  p <> h ->
  getAtomNeighbors (removeAtom h m) (shiftIdx h p) =
  shiftIdx h <$> List.filter (fun n => negb (bool_decide (n = h))) (getAtomNeighbors m p).
Proof.
  intros Hp. rewrite !getAtomNeighbors_bonds, filter_touches_removeAtom by done.
  rewrite filter_fmap, <- !list_fmap_compose.
  rewrite !filter_filter.
  rewrite (filter_ext_elem
             (fun b => negb (touches h b) && touches p b)
             (fun b => touches p b && negb (bool_decide (getOtherAtomIdx b p = h)))).
  - apply list_fmap_ext. intros i b Hb. simpl.
    apply list_elem_of_lookup_2, elem_of_filter in Hb as [_ Hb].
    apply andb_true_iff in Hb as [Ht Ho]. rewrite <- (touches_other_ne h p b) in Ho by done.
    apply getOtherAtomIdx_renumberBond; [done|]. by apply negb_true_iff.
  - intros b _. destruct (touches p b) eqn:Ht; simpl.
    + rewrite andb_true_r. by apply touches_other_ne.
    + apply andb_false_r.
Qed.

Lemma getDegree_neighbors m i : getDegree m i = length (getAtomNeighbors m i).
Proof. unfold getDegree, getAtomNeighbors. by rewrite length_fmap. Qed.

Lemma elem_of_getAtomNeighbors_removeAtom h m p b :
  p <> h -> b ∈ List.filter (touches p) (bonds m) -> touches h b = false ->
  renumberBond h b ∈ List.filter (touches (shiftIdx h p)) (bonds (removeAtom h m)).
Proof.
  intros Hp [Hb Ht]%elem_of_filter Hh. rewrite filter_touches_removeAtom by done.
  apply list_elem_of_fmap. exists b. split; [done|].
  apply elem_of_filter. split; [|done]. apply elem_of_filter. split; [done|].
  by rewrite Hh.
Qed.

Lemma other_elem_of_neighbors m p b :
  b ∈ List.filter (touches p) (bonds m) -> getOtherAtomIdx b p ∈ getAtomNeighbors m p.
Proof.
  intros Hb. rewrite getAtomNeighbors_bonds. apply list_elem_of_fmap. eauto.
Qed.

(** A bond of an alike molecule at the same atom, with the same type and
    as much of a stereo descriptor. *)
Lemma molAlike_bond m m' n b :
  molAlike m m' -> b ∈ List.filter (touches n) (bonds m) ->
  exists b', b' ∈ List.filter (touches n) (bonds m') /\ bondKept b b'.
Proof.
  intros (_ & Hn & _ & Hk) [Hb Ht]%elem_of_filter.
  apply list_elem_of_lookup_total in Hb as (k & Hlt & Hbk).
  exists (getBondWithIdx m' k). specialize (Hk k). unfold getBondWithIdx in Hk at 1.
  rewrite Hbk in Hk. split; [|done]. apply elem_of_filter. split.
  - unfold getBondWithIdx. apply list_elem_of_lookup_total_2. unfold getNumBonds in Hn. lia.
  - destruct Hk as (He & _). by rewrite (touches_endpoints n b _ He).
Qed.

(* ===================================================================== *)
(** * removeHs: the hydrogens that stay                                   *)
(* ===================================================================== *)

Section Stay.
Context {PT : PeriodicTable} {VM : ValenceModel}.

(** ** (i) hydrogens without bonds *)

Lemma unbondedH_removeIt implicitOnly m p :
  unbondedH m p -> removeIt implicitOnly m p = false.
Proof. intros [_ Hd]. unfold removeIt. by rewrite bool_decide_eq_true_2. Qed.

Lemma unbondedH_alike m m' p : molAlike m m' -> unbondedH m p -> unbondedH m' p.
Proof.
  intros Ha [H1 Hd]. split.
  - by rewrite (molAlike_atomicNum m m' p).
  - by rewrite (molAlike_getDegree m m' p).
Qed.

Lemma unbondedH_removeAtom m h p :
  unbondedH m p -> p <> h -> unbondedH (removeAtom h m) (shiftIdx h p).
Proof.
  intros [H1 Hd] Hne. split.
  - by rewrite getAtomWithIdx_removeAtom.
  - rewrite getDegree_neighbors in *. rewrite getAtomNeighbors_removeAtom by done.
    destruct (getAtomNeighbors m p); [done|simpl in Hd; lia].
Qed.

(** ** (ii) labelled hydrogens *)

Lemma labelledH_removeIt implicitOnly m p :
  labelledH m p -> removeIt implicitOnly m p = false.
Proof.
  intros (_ & Hf & Hi). unfold removeIt. rewrite Hf.
  rewrite (bool_decide_eq_false_2 (isotope _ = 0)) by lia.
  rewrite andb_false_r. simpl. by repeat case_match.
Qed.

Lemma labelledH_alike m m' p : molAlike m m' -> labelledH m p -> labelledH m' p.
Proof.
  intros Ha (H1 & Hf & Hi). split; [by rewrite (molAlike_atomicNum m m' p)|].
  split; [by rewrite (molAlike_isImplicit m m' p)|by rewrite (molAlike_isotope m m' p)].
Qed.

Lemma labelledH_removeAtom m h p :
  labelledH m p -> p <> h -> labelledH (removeAtom h m) (shiftIdx h p).
Proof. intros H Hne. unfold labelledH. by rewrite getAtomWithIdx_removeAtom. Qed.

(** ** (iii) implicit hydrogens on a dummy atom *)

Lemma dummyBoundH_removeIt implicitOnly m p :
  dummyBoundH m p -> removeIt implicitOnly m p = false.
Proof.
  intros (_ & Hf & d & Hn & Hd). unfold removeIt.
  assert (Hdeg : getDegree m p = 1) by (by rewrite getDegree_neighbors, Hn).
  rewrite Hdeg, Hf, Hn. simpl. destruct (hasQuery _); simpl; [done|].
  rewrite bool_decide_eq_true_2 by lia. done.
Qed.

Lemma dummyBoundH_alike m m' p : molAlike m m' -> dummyBoundH m p -> dummyBoundH m' p.
Proof.
  intros Ha (H1 & Hf & d & Hn & Hd). split; [by rewrite (molAlike_atomicNum m m' p)|].
  split; [by rewrite (molAlike_isImplicit m m' p)|].
  exists d. split; [by rewrite (molAlike_getAtomNeighbors m m' p)|].
  by rewrite (molAlike_atomicNum m m' d).
Qed.

Lemma dummyBoundH_removeAtom m h p :
  dummyBoundH m p -> p <> h -> atomicNum (getAtomWithIdx m h) = 1 ->
  dummyBoundH (removeAtom h m) (shiftIdx h p).
Proof.
  intros (H1 & Hf & d & Hn & Hd) Hne Hh.
  assert (Hdh : d <> h) by (intros ->; congruence).
  split; [by rewrite getAtomWithIdx_removeAtom|].
  split; [by rewrite getAtomWithIdx_removeAtom|].
  exists (shiftIdx h d). split.
  - rewrite getAtomNeighbors_removeAtom, Hn by done. simpl.
    by rewrite bool_decide_eq_false_2.
  - by rewrite getAtomWithIdx_removeAtom.
Qed.

(** ** (iv) the only substituent at one end of a stereo double bond *)

Lemma stereoRefH_removeIt implicitOnly m p :
  stereoRefH false m p -> removeIt implicitOnly m p = false.
Proof.
  intros (_ & Hf & nbr & Hn & Hheavy & Hd2 & _ & b & Hb & Hdbl & Hset). unfold removeIt.
  assert (Hdeg : getDegree m p = 1) by (by rewrite getDegree_neighbors, Hn).
  rewrite Hdeg, Hf, Hn. simpl. destruct (hasQuery _); simpl; [done|].
  destruct (negb implicitOnly && _); simpl; [|done].
  rewrite (bool_decide_eq_true_2 (1 < _)) by done.
  rewrite (bool_decide_eq_true_2 (getDegree m nbr = 2)) by done.
  match goal with
  | |- negb (existsb ?f ?l) = false => assert (He : existsb f l = true); [|by rewrite He]
  end.
  rewrite <- getAtomBonds_bonds in Hb. apply list_elem_of_fmap in Hb as (k & -> & Hk).
  apply List.existsb_exists. exists k. split; [by apply list_elem_of_In|].
  simpl. rewrite (bool_decide_eq_true_2 _ Hdbl). unfold stereoSet in Hset. simpl in Hset.
  by rewrite (bool_decide_eq_true_2 _ Hset).
Qed.

Lemma stereoRefH_alike flagged m m' p :
  molAlike m m' -> stereoRefH flagged m p -> stereoRefH flagged m' p.
Proof.
  intros Ha (H1 & Hf & nbr & Hn & Hheavy & Hd2 & Hothers & b & Hb & Hdbl & Hset).
  split; [by rewrite (molAlike_atomicNum m m' p)|].
  split; [by rewrite (molAlike_isImplicit m m' p)|].
  exists nbr. split; [by rewrite (molAlike_getAtomNeighbors m m' p)|].
  split; [by rewrite (molAlike_atomicNum m m' nbr)|].
  split; [by rewrite (molAlike_getDegree m m' nbr)|]. split.
  - intros n Hin. rewrite (molAlike_getAtomNeighbors m m' nbr Ha) in Hin.
    rewrite (molAlike_atomicNum m m' n Ha). by apply Hothers.
  - destruct (molAlike_bond m m' nbr b Ha Hb) as (b' & Hb' & _ & Ht & _ & Hs).
    exists b'. split; [done|]. split; [congruence|tauto].
Qed.

Lemma stereoRefH_removeAtom flagged m h p :
  stereoRefH flagged m p -> p <> h -> atomicNum (getAtomWithIdx m h) = 1 ->
  stereoRefH flagged (removeAtom h m) (shiftIdx h p).
Proof.
  intros (H1 & Hf & nbr & Hn & Hheavy & Hd2 & Hothers & b & Hb & Hdbl & Hset) Hne Hh.
  assert (Hnh : nbr <> h) by (intros ->; lia).
  assert (Hkeep : List.filter (fun n => negb (bool_decide (n = h))) (getAtomNeighbors m nbr)
                  = getAtomNeighbors m nbr).
  { apply filter_all. intros n Hin. rewrite bool_decide_eq_false_2; [done|].
    intros ->. destruct (Hothers h Hin); congruence. }
  split; [by rewrite getAtomWithIdx_removeAtom|].
  split; [by rewrite getAtomWithIdx_removeAtom|].
  exists (shiftIdx h nbr). split.
  { rewrite getAtomNeighbors_removeAtom, Hn by done. simpl.
    by rewrite bool_decide_eq_false_2. }
  split; [by rewrite getAtomWithIdx_removeAtom|]. split.
  { rewrite getDegree_neighbors, getAtomNeighbors_removeAtom, Hkeep, length_fmap by done.
    by rewrite <- getDegree_neighbors. }
  split.
  { intros n Hin. rewrite getAtomNeighbors_removeAtom, Hkeep in Hin by done.
    apply list_elem_of_fmap in Hin as (n0 & -> & Hn0).
    assert (Hn0h : n0 <> h) by (intros ->; destruct (Hothers h Hn0); congruence).
    destruct (Hothers n0 Hn0) as [->|Hnot]; [by left|right].
    by rewrite getAtomWithIdx_removeAtom. }
  exists (renumberBond h b). split; [|done].
  apply elem_of_getAtomNeighbors_removeAtom; [done..|].
  pose proof (other_elem_of_neighbors m nbr b Hb) as Ho.
  apply elem_of_filter in Hb as [_ Ht].
  apply negb_true_iff. rewrite (touches_other_ne h nbr b Hnh Ht).
  rewrite bool_decide_eq_false_2; [done|]. intros Heq. rewrite Heq in Ho.
  destruct (Hothers h Ho); congruence.
Qed.

End Stay.

Section StayTheorem.
Context {PT : PeriodicTable} {VM : ValenceModel}.

(** C4, as the code has it. [removeHs] does not remove
    (i) a hydrogen without bonds,
    (ii) a hydrogen with isotope > 0 that is not flagged implicit,
    (iii) a hydrogen flagged implicit whose only neighbour is a dummy atom,
    (iv) a hydrogen NOT flagged implicit that is the only substituent at a
         degree-2 heavy atom with a double bond carrying a set stereo
         descriptor (the other neighbour of the heavy atom not being a
         hydrogen).
    This holds for either value of [implicitOnly]. *)
Theorem removeHs_keeps (implicitOnly upd : bool) (m : Mol) (j : nat) :
  unbondedH m j \/ labelledH m j \/ dummyBoundH m j \/ stereoRefH false m j ->
  j ∉ (removeHsTrace implicitOnly upd m).2.
Proof.
  intros H. unfold removeHsTrace.
  pose proof (molAlike_updateHeavyCaches m) as Ha.
  set (m0 := updateHeavyCaches m) in *.
  change j with (0 + j) at 1.
  destruct H as [H|[H|[H|H]]].
  - apply (removeHsLoop_keeps unbondedH implicitOnly upd).
    + intros. by apply unbondedH_removeIt.
    + intros. by eapply unbondedH_alike.
    + intros. by apply unbondedH_removeAtom.
    + by intros ?? [? _].
    + simpl. by eapply unbondedH_alike.
  - apply (removeHsLoop_keeps labelledH implicitOnly upd).
    + intros. by apply labelledH_removeIt.
    + intros. by eapply labelledH_alike.
    + intros. by apply labelledH_removeAtom.
    + by intros ?? [? _].
    + simpl. by eapply labelledH_alike.
  - apply (removeHsLoop_keeps dummyBoundH implicitOnly upd).
    + intros. by apply dummyBoundH_removeIt.
    + intros. by eapply dummyBoundH_alike.
    + intros. by apply dummyBoundH_removeAtom.
    + by intros ?? [? _].
    + simpl. by eapply dummyBoundH_alike.
  - apply (removeHsLoop_keeps (stereoRefH false) implicitOnly upd).
    + intros. by apply stereoRefH_removeIt.
    + intros. by eapply stereoRefH_alike.
    + intros. by apply stereoRefH_removeAtom.
    + by intros ?? [? _].
    + simpl. by eapply stereoRefH_alike.
Qed.

End StayTheorem.

Lemma ex_imine_stereoRefH flagged : stereoRefH flagged (ex_imine flagged) 2.
Proof.
  split; [by destruct flagged|]. split; [by destruct flagged|].
  exists 0. split; [reflexivity|]. split; [cbv; lia|]. split; [reflexivity|]. split.
  - intros n Hn. change (getAtomNeighbors (ex_imine flagged) 0) with [1; 2] in Hn.
    apply elem_of_cons in Hn as [->|Hn]; [right; cbv; lia|].
    apply elem_of_cons in Hn as [->|Hn]; [by left|by apply elem_of_nil in Hn].
  - exists (mkBond 0 1 DOUBLE false STEREOCIS [2; 3] BD_NONE).
    split; [simpl; by left|]. split; [done|]. cbv. lia.
Qed.

(** C4 at HN=CFCl with a hydrogen that is not flagged implicit: it stays. *)
Lemma removeHs_keeps_witness :
  stereoRefH false (ex_imine false) 2 /\
  2 ∉ (removeHsTrace (PT := samplePeriodicTable) (VM := sampleValence)
         false false (ex_imine false)).2.
Proof.
  split; [apply ex_imine_stereoRefH|].
  apply (removeHs_keeps (PT := samplePeriodicTable) (VM := sampleValence)
           false false (ex_imine false) 2).
  right; right; right. apply ex_imine_stereoRefH.
Defined.

(** C4 (iv) as stated fails for a hydrogen that is flagged implicit: in
    HN=CFCl the hydrogen is a stereo atom of the double bond and the only
    substituent of the degree-2 nitrogen, and [removeHs] removes it. *)
Lemma removeHs_keeps_counterexample :
  stereoRefH true (ex_imine true) 2 /\
  2 ∈ stereoAtoms (getBondWithIdx (ex_imine true) 0) /\
  (removeHsTrace (PT := samplePeriodicTable) (VM := sampleValence)
     false false (ex_imine true)).2 = [2] /\
  getNumAtoms (removeHsTrace (PT := samplePeriodicTable) (VM := sampleValence)
                 false false (ex_imine true)).1 = 4.
Proof.
  split; [apply ex_imine_stereoRefH|]. split; [simpl; by left|].
  split; reflexivity.
Qed.

(* ===================================================================== *)
(** * setHydrogenCoords never raises when its PRECONDITIONs hold          *)
(* ===================================================================== *)

Lemma find_filter_head {A} (P : A -> bool) (l : list A) :
  List.find P l = head (List.filter P l).
Proof. induction l as [|a l IH]; simpl; [done|]. by destruct (P a). Qed.

Lemma find_is_Some {A} (P : A -> bool) (l : list A) a :
  a ∈ l -> P a = true -> is_Some (List.find P l).
Proof.
  intros Ha HP. destruct (List.find P l) eqn:Hf; [eauto|].
  pose proof (List.find_none P l Hf a) as Hn. rewrite Hn in HP; [done|].
  by apply list_elem_of_In.
Qed.

Lemma elem_of_getAtomNeighbors m i n :
  n ∈ getAtomNeighbors m i <->
  exists k, k ∈ getAtomBonds m i /\ n = getOtherAtomIdx (getBondWithIdx m k) i.
Proof.
  unfold getAtomNeighbors. rewrite list_elem_of_fmap.
  split; intros (k & H1 & H2); exists k; done.
Qed.

Lemma getBondBetweenAtoms_is_Some m i j k :
  k < getNumBonds m -> joins i j (getBondWithIdx m k) = true ->
  is_Some (getBondBetweenAtoms m i j).
Proof.
  intros Hk Hj. unfold getBondBetweenAtoms. apply fmap_is_Some.
  apply (list_find_elem_of _ _ (getBondWithIdx m k)); [|done].
  unfold getBondWithIdx. by apply list_elem_of_lookup_total_2.
Qed.

Lemma getBondBetweenAtoms_Some m i j k :
  getBondBetweenAtoms m i j = Some k ->
  k < getNumBonds m /\ joins i j (getBondWithIdx m k) = true.
Proof.
  unfold getBondBetweenAtoms. intros H. apply fmap_Some in H as ([k' b] & Hf & ->).
  apply list_find_Some in Hf as (Hl & Hj & _). simpl. split.
  - by eapply lookup_lt_Some.
  - unfold getBondWithIdx. by rewrite (list_lookup_total_correct _ _ _ Hl).
Qed.

Lemma joins_touches i j b : joins i j b = true -> touches i b = true /\ touches j b = true.
Proof.
  unfold joins, touches. repeat case_bool_decide; simpl; naive_solver.
Qed.

Lemma joins_other i j b : i <> j -> joins i j b = true -> getOtherAtomIdx b i = j.
Proof.
  unfold joins, getOtherAtomIdx. repeat case_bool_decide; simpl; try done; congruence.
Qed.

Lemma neighbor_joins m i n :
  n ∈ getAtomNeighbors m i -> is_Some (getBondBetweenAtoms m i n).
Proof.
  intros (k & Hk & ->)%elem_of_getAtomNeighbors.
  apply elem_of_getAtomBonds in Hk as [Hlt Ht].
  apply (getBondBetweenAtoms_is_Some m _ _ k Hlt).
  unfold joins, getOtherAtomIdx, touches in *.
  repeat case_bool_decide; simpl in *; try done; congruence.
Qed.

Lemma getBondBetweenAtoms_sym m i j :
  getBondBetweenAtoms m i j = getBondBetweenAtoms m j i.
Proof.
  unfold getBondBetweenAtoms. f_equal. apply list_find_ext. intros b.
  unfold joins. by rewrite orb_comm.
Qed.

Section Totality.
Context {GE : GeometryEngine} {PT : PeriodicTable}.

(** Whatever [setHydrogenCoords] returns has the atoms and bonds it was
    given: only conformers change. *)
Lemma setHydrogenCoords_frame mol hydIdx heavyIdx mol' :
  setHydrogenCoords mol hydIdx heavyIdx = Some mol' ->
  atoms mol' = atoms mol /\ bonds mol' = bonds mol /\
  length (confs mol') = length (confs mol).
Proof.
  unfold setHydrogenCoords. intros H.
  repeat (case_match; try done);
    apply fmap_Some in H as (cs & Hcs & ->); simpl;
    by rewrite (forConformers_length _ _ _ _ Hcs).
Qed.

Lemma placeDegree1_total hydIdx heavyIdx bl st c :
  is_Some (placeDegree1 hydIdx heavyIdx bl st c).
Proof. unfold placeDegree1. eauto. Qed.

Lemma placeDegree3_total mol hydIdx heavyIdx n1 n2 bl st c :
  is_Some (placeDegree3 mol hydIdx heavyIdx n1 n2 bl st c).
Proof. unfold placeDegree3. repeat (case_match; simpl; eauto). Qed.

Lemma placeDegree4_total mol hydIdx heavyIdx n1 n2 n3 bl st c :
  is_Some (placeDegree4 mol hydIdx heavyIdx n1 n2 n3 bl st c).
Proof. unfold placeDegree4. repeat (case_match; simpl; eauto). Qed.

(** An atom all of whose neighbours are [heavyIdx] shares all its bonds
    with [heavyIdx]. *)
Lemma bonds_included mol nbr heavyIdx :
  (forall n, n ∈ getAtomNeighbors mol nbr -> n = heavyIdx) ->
  forall k, k ∈ getAtomBonds mol nbr -> k ∈ getAtomBonds mol heavyIdx.
Proof.
  intros Hall k Hk. pose proof Hk as [Hlt Ht]%elem_of_getAtomBonds.
  apply elem_of_getAtomBonds. split; [done|].
  rewrite <- (Hall (getOtherAtomIdx (getBondWithIdx mol k) nbr)).
  - by apply touches_other.
  - apply elem_of_getAtomNeighbors. eauto.
Qed.

(** The SP2 branch asks for a neighbour of [nbr1] other than the heavy
    atom; there is one whenever [nbr1] has more than one bond. *)
Lemma second_neighbor_exists mol hydIdx heavyIdx nbr1 :
  setHydrogenCoords_pre mol hydIdx heavyIdx ->
  getDegree mol heavyIdx = 2 ->
  nbr1 ∈ getAtomNeighbors mol heavyIdx -> nbr1 <> hydIdx ->
  1 < getDegree mol nbr1 ->
  is_Some (getAtomNeighborNot mol nbr1 heavyIdx).
Proof.
  intros (Hne & _ & Hdh & [kb Hkb] & _) Hd2 Hn1 Hn1h Hd1.
  unfold getAtomNeighborNot. rewrite decide_True by done.
  destruct (List.find _ _) eqn:Hf; [eauto|exfalso].
  assert (Hall : forall n, n ∈ getAtomNeighbors mol nbr1 -> n = heavyIdx).
  { intros n Hn. pose proof (List.find_none _ _ Hf n) as Hx. simpl in Hx.
    apply negb_false_iff in Hx; [by apply bool_decide_eq_true in Hx|by apply list_elem_of_In]. }
  pose proof (bonds_included mol nbr1 heavyIdx Hall) as Hincl.
  assert (Hperm : getAtomBonds mol nbr1 ≡ₚ getAtomBonds mol heavyIdx).
  { apply submseteq_length_Permutation.
    - apply NoDup_submseteq; [apply StronglySorted_lt_NoDup, getAtomBonds_sorted|done].
    - unfold getDegree in *. lia. }
  apply getBondBetweenAtoms_Some in Hkb as [Hkl Hj].
  pose proof (joins_touches _ _ _ Hj) as [Hth Thy].
  assert (Hkn : kb ∈ getAtomBonds mol nbr1).
  { rewrite Hperm. by apply elem_of_getAtomBonds. }
  apply elem_of_getAtomBonds in Hkn as [_ Htn].
  assert (Heq : nbr1 = heavyIdx).
  { unfold joins, touches in *. repeat case_bool_decide; simpl in *; try done; congruence. }
  subst nbr1. assert (Hin : hydIdx ∈ getAtomNeighbors mol heavyIdx).
  { apply elem_of_getAtomNeighbors. exists kb. split; [by apply elem_of_getAtomBonds|].
    symmetry. by apply joins_other. }
  apply Hall in Hin. congruence.
Qed.

Lemma placeDegree2_total mol hydIdx heavyIdx nbr1 bl st c :
  setHydrogenCoords_pre mol hydIdx heavyIdx ->
  getDegree mol heavyIdx = 2 ->
  nbr1 ∈ getAtomNeighbors mol heavyIdx -> nbr1 <> hydIdx ->
  is_Some (placeDegree2 mol hydIdx heavyIdx nbr1 bl st c).
Proof.
  intros Hpre Hd2 Hn1 Hn1h. unfold placeDegree2.
  destruct (degenerate _); [eauto|].
  destruct (hybridization _); eauto.
  destruct (decide (1 < getDegree mol nbr1)) as [Hd1|]; [|eauto].
  destruct (neighbor_joins mol heavyIdx nbr1 Hn1) as [kb ->].
  destruct (_ || _); [|eauto].
  destruct (second_neighbor_exists mol hydIdx heavyIdx nbr1 Hpre Hd2 Hn1 Hn1h Hd1) as [n2 ->].
  eauto.
Qed.

Lemma elem_of_otherNeighbors mol hydIdx heavyIdx n :
  n ∈ otherNeighbors mol hydIdx heavyIdx <->
  n ∈ getAtomNeighbors mol heavyIdx /\ n <> hydIdx.
Proof.
  unfold otherNeighbors. rewrite elem_of_filter, negb_true_iff, bool_decide_eq_false. done.
Qed.

(** §4.2, failure semantics: the placement never raises when the caller
    has met the PRECONDITIONs. *)
Lemma setHydrogenCoords_total mol hydIdx heavyIdx :
  setHydrogenCoords_pre mol hydIdx heavyIdx ->
  is_Some (setHydrogenCoords mol hydIdx heavyIdx).
Proof.
  intros Hpre. rewrite setHydrogenCoords_unfold by done. cbv zeta.
  pose proof (otherNeighbors_length mol hydIdx heavyIdx) as Hlen.
  pose proof Hpre as (_ & _ & Hh & _). rewrite Hh in Hlen.
  destruct (getDegree mol heavyIdx) as [|[|[|[|[|d]]]]] eqn:Hdeg.
  - rewrite forConformers_map. simpl. eauto.
  - apply fmap_is_Some, forConformers_total. intros. apply placeDegree1_total.
  - unfold getAtomNeighborNot. rewrite decide_True by lia.
    fold (otherNeighbors mol hydIdx heavyIdx) in *.
    change (List.find _ (getAtomNeighbors mol heavyIdx))
      with (List.find (fun n => negb (bool_decide (n = hydIdx)))
              (getAtomNeighbors mol heavyIdx)).
    rewrite find_filter_head. fold (otherNeighbors mol hydIdx heavyIdx).
    destruct (otherNeighbors mol hydIdx heavyIdx) as [|nbr1 rest] eqn:Ho;
      simpl in Hlen; [lia|]. simpl.
    assert (Hin : nbr1 ∈ otherNeighbors mol hydIdx heavyIdx) by (rewrite Ho; by left).
    apply elem_of_otherNeighbors in Hin as [Hin Hne].
    apply fmap_is_Some, forConformers_total. intros. by apply placeDegree2_total.
  - destruct (otherNeighbors mol hydIdx heavyIdx) as [|nbr1 [|nbr2 rest]];
      simpl in Hlen; try lia.
    apply fmap_is_Some, forConformers_total. intros. apply placeDegree3_total.
  - assert (H3 : exists a b c r, otherNeighbors mol hydIdx heavyIdx = a :: b :: c :: r).
    { destruct (otherNeighbors mol hydIdx heavyIdx) as [|a [|b [|c r]]];
        simpl in Hlen; try lia. eauto 6. }
    destruct H3 as (a & b & c & r & Ho).
    assert (Ht : is_Some (threeNeighbors mol hydIdx heavyIdx)).
    { unfold threeNeighbors. rewrite Ho. destruct (hasProp _ _); [|eauto].
      match goal with
      | |- context [merge_sort pair_le ?l] =>
          pose proof (Permutation_length (merge_sort_Permutation pair_le l)) as Hl;
          destruct (merge_sort pair_le l) as [|x [|y [|z w]]]; simpl in Hl; try done; eauto
      end. }
    destruct Ht as [[[n1 n2] n3] ->].
    apply fmap_is_Some, forConformers_total. intros. apply placeDegree4_total.
  - rewrite forConformers_map. simpl. eauto.
Qed.

End Totality.

(* ===================================================================== *)
(** * addHs: what one new hydrogen does to the molecule                   *)
(* ===================================================================== *)

Lemma alter_snoc {A} (f : A -> A) (l : list A) (a : A) :
  alter f (length l) (l ++ [a]) = l ++ [f a].
Proof. induction l as [|x l IH]; [done|]. by f_equal/=. Qed.

Lemma alter_app_below {A} (f : A -> A) (l l' : list A) i :
  i < length l -> alter f i (l ++ l') = alter f i l ++ l'.
Proof.
  revert i. induction l as [|x l IH]; intros [|i] Hi; simpl in *; try lia; [done|].
  f_equal/=. apply IH. lia.
Qed.

Lemma getAtomNeighbors_addBond i j t m p :
  getAtomNeighbors (addBond i j t m) p =
  getAtomNeighbors m p ++
    (if touches p (mkBond i j t false STEREONONE [] BD_NONE)
     then [getOtherAtomIdx (mkBond i j t false STEREONONE [] BD_NONE) p] else []).
Proof.
  rewrite !getAtomNeighbors_bonds. unfold addBond; simpl.
  rewrite List.filter_app, fmap_app. f_equal. simpl. by destruct (touches p _).
Qed.

Lemma getAtomNeighbors_fresh m p :
  bondsInRange m -> getNumAtoms m <= p -> getAtomNeighbors m p = [].
Proof.
  intros Hr Hp. rewrite getAtomNeighbors_bonds. rewrite filter_none; [done|].
  intros b Hb. destruct (Hr b Hb) as [H1 H2]. apply touches_false. lia.
Qed.

Lemma getAtomNeighbors_atoms m m' p :
  bonds m' = bonds m -> getAtomNeighbors m' p = getAtomNeighbors m p.
Proof. intros H. by rewrite !getAtomNeighbors_bonds, H. Qed.

Lemma getAtomWithIdx_app_l m m' l p :
  atoms m' = atoms m ++ l -> p < getNumAtoms m -> getAtomWithIdx m' p = getAtomWithIdx m p.
Proof.
  intros H Hp. unfold getAtomWithIdx. rewrite H.
  rewrite !list_lookup_total_alt, lookup_app_l; done.
Qed.

Section AddOneH.
Context {GE : GeometryEngine} {PT : PeriodicTable} {VM : ValenceModel}.

Lemma addOneH_attachH implicitH addCoords aidx mol :
  addOneH implicitH addCoords aidx mol =
  if addCoords then setHydrogenCoords (attachH implicitH aidx mol) (getNumAtoms mol) aidx
  else Some (attachH implicitH aidx mol).
Proof. reflexivity. Qed.

Lemma attachH_atoms implicitH aidx mol :
  exists h, atoms (attachH implicitH aidx mol) = atoms mol ++ [h] /\
            atomicNum h = 1 /\ query h = None /\
            hasProp common_properties.isImplicit h = implicitH.
Proof.
  unfold attachH, addAtom, updatePropertyCache, updAtom, addBond, set_atoms, set_bonds,
    getNumAtoms.
  destruct implicitH; cbn [atoms bonds confs fst snd].
  - rewrite !alter_snoc. eexists. split; [reflexivity|].
    by destruct (noImplicit _).
  - rewrite !alter_snoc. eexists. split; [reflexivity|].
    by destruct (noImplicit _).
Qed.

Lemma attachH_bonds implicitH aidx mol :
  bonds (attachH implicitH aidx mol) = bonds mol ++ [bondOf aidx (getNumAtoms mol) SINGLE].
Proof. unfold attachH. by destruct implicitH. Qed.

Lemma attachH_getNumAtoms implicitH aidx mol :
  getNumAtoms (attachH implicitH aidx mol) = S (getNumAtoms mol).
Proof.
  destruct (attachH_atoms implicitH aidx mol) as (h & Ha & _).
  unfold getNumAtoms. rewrite Ha, length_app. simpl. lia.
Qed.

Lemma attachH_bondsInRange implicitH aidx mol :
  bondsInRange mol -> aidx < getNumAtoms mol -> bondsInRange (attachH implicitH aidx mol).
Proof.
  intros Hr Ha b Hb. rewrite attachH_getNumAtoms. rewrite attachH_bonds in Hb.
  apply elem_of_app in Hb as [Hb|Hb].
  - destruct (Hr b Hb). lia.
  - apply list_elem_of_singleton in Hb as ->. simpl. lia.
Qed.

Lemma attachH_neighbors_new implicitH aidx mol :
  bondsInRange mol -> aidx < getNumAtoms mol ->
  getAtomNeighbors (attachH implicitH aidx mol) (getNumAtoms mol) = [aidx].
Proof.
  intros Hr Ha. rewrite getAtomNeighbors_bonds, attachH_bonds, List.filter_app, fmap_app.
  rewrite <- getAtomNeighbors_bonds, getAtomNeighbors_fresh by (done || lia).
  simpl. unfold touches, getOtherAtomIdx; simpl.
  rewrite (bool_decide_eq_false_2 (aidx = getNumAtoms mol)) by lia.
  rewrite (bool_decide_eq_true_2 (getNumAtoms mol = getNumAtoms mol)) by done.
  simpl. by rewrite (bool_decide_eq_false_2 (aidx = getNumAtoms mol)) by lia.
Qed.

Lemma attachH_neighbors_old implicitH aidx mol p :
  p <> aidx -> p <> getNumAtoms mol ->
  getAtomNeighbors (attachH implicitH aidx mol) p = getAtomNeighbors mol p.
Proof.
  intros H1 H2. rewrite !getAtomNeighbors_bonds, attachH_bonds, List.filter_app, fmap_app.
  simpl. unfold touches; simpl.
  rewrite (bool_decide_eq_false_2 (aidx = p)) by done.
  rewrite (bool_decide_eq_false_2 (getNumAtoms mol = p)) by done. simpl.
  by rewrite app_nil_r.
Qed.

Lemma attachH_pre implicitH aidx mol :
  bondsInRange mol -> aidx < getNumAtoms mol ->
  setHydrogenCoords_pre (attachH implicitH aidx mol) (getNumAtoms mol) aidx.
Proof.
  intros Hr Ha. unfold setHydrogenCoords_pre. rewrite attachH_getNumAtoms.
  split; [lia|]. split; [lia|]. split.
  { by rewrite getDegree_neighbors, attachH_neighbors_new. }
  split; [|lia].
  apply (getBondBetweenAtoms_is_Some _ _ _ (getNumBonds mol)).
  - unfold getNumBonds. rewrite attachH_bonds, length_app. simpl. lia.
  - unfold getBondWithIdx. rewrite attachH_bonds.
    rewrite (list_lookup_total_correct _ _ (bondOf aidx (getNumAtoms mol) SINGLE)).
    + unfold joins; simpl. rewrite !bool_decide_eq_true_2 by done. done.
    + unfold getNumBonds. by rewrite list_lookup_middle.
Qed.

(** One turn of the hydrogen loops: the call succeeds, appends one
    hydrogen bonded to [aidx], and leaves every other atom and bond. *)
Lemma addOneH_spec implicitH addCoords aidx mol :
  bondsInRange mol -> aidx < getNumAtoms mol ->
  exists mol' h,
    addOneH implicitH addCoords aidx mol = Some mol' /\
    atoms mol' = atoms mol ++ [h] /\
    atomicNum h = 1 /\ query h = None /\
    hasProp common_properties.isImplicit h = implicitH /\
    bonds mol' = bonds mol ++ [bondOf aidx (getNumAtoms mol) SINGLE] /\
    bondsInRange mol'.
Proof.
  intros Hr Ha. rewrite addOneH_attachH.
  destruct (attachH_atoms implicitH aidx mol) as (h & Hat & H1 & Hq & Hf).
  pose proof (attachH_bonds implicitH aidx mol) as Hb.
  pose proof (attachH_bondsInRange implicitH aidx mol Hr Ha) as Hr'.
  destruct addCoords.
  - destruct (setHydrogenCoords_total _ _ _ (attachH_pre implicitH aidx mol Hr Ha))
      as [mol' Hrun].
    destruct (setHydrogenCoords_frame _ _ _ _ Hrun) as (Ha' & Hb' & _).
    exists mol', h. rewrite Hrun, Ha', Hb'.
    do 6 (split; [done|]).
    intros b0 Hin. rewrite Hb' in Hin. unfold getNumAtoms. rewrite Ha'. by apply Hr'.
  - exists (attachH implicitH aidx mol), h. by do 6 (split; [done|]).
Qed.

End AddOneH.

(* ===================================================================== *)
(** * addHs on a molecule with implicit hydrogens only                    *)
(* ===================================================================== *)

Lemma neighbors_snoc_old m m' aidx q p :
  bonds m' = bonds m ++ [bondOf aidx q SINGLE] -> p <> aidx -> p <> q ->
  getAtomNeighbors m' p = getAtomNeighbors m p.
Proof.
  intros Hb H1 H2. rewrite !getAtomNeighbors_bonds, Hb, List.filter_app, fmap_app.
  simpl. unfold touches; simpl.
  rewrite (bool_decide_eq_false_2 (aidx = p)) by done.
  rewrite (bool_decide_eq_false_2 (q = p)) by done. simpl.
  by rewrite app_nil_r.
Qed.

Lemma neighbors_snoc_new m m' aidx :
  bonds m' = bonds m ++ [bondOf aidx (getNumAtoms m) SINGLE] ->
  bondsInRange m -> aidx < getNumAtoms m ->
  getAtomNeighbors m' (getNumAtoms m) = [aidx].
Proof.
  intros Hb Hr Ha. rewrite getAtomNeighbors_bonds, Hb, List.filter_app, fmap_app.
  rewrite <- getAtomNeighbors_bonds, getAtomNeighbors_fresh by (done || lia).
  simpl. unfold touches, getOtherAtomIdx; simpl.
  rewrite (bool_decide_eq_false_2 (aidx = getNumAtoms m)) by lia.
  rewrite (bool_decide_eq_true_2 (getNumAtoms m = getNumAtoms m)) by done.
  simpl. by rewrite (bool_decide_eq_false_2 (aidx = getNumAtoms m)) by lia.
Qed.

Lemma neighbors_in_range m p q :
  bondsInRange m -> q ∈ getAtomNeighbors m p -> q < getNumAtoms m.
Proof.
  intros Hr. rewrite getAtomNeighbors_bonds. intros (b & -> & Hb)%list_elem_of_fmap.
  apply elem_of_filter in Hb as [Hb _]. destruct (Hr b Hb).
  unfold getOtherAtomIdx. by case_bool_decide.
Qed.

Lemma flaggedH_ext m m' p :
  getAtomWithIdx m' p = getAtomWithIdx m p ->
  getAtomNeighbors m' p = getAtomNeighbors m p ->
  (forall q, q ∈ getAtomNeighbors m p ->
             atomicNum (getAtomWithIdx m' q) = atomicNum (getAtomWithIdx m q)) ->
  flaggedH m p -> flaggedH m' p.
Proof.
  intros Ha Hn Hq (H1 & H2 & H3 & q & Hnq & Hh). unfold flaggedH. rewrite Ha, Hn.
  do 3 (split; [done|]). exists q. split; [done|]. rewrite Hq; [done|].
  rewrite Hnq. by left.
Qed.

Lemma tailFlagged_updAtom n aidx f m :
  aidx < n -> (forall a, atomicNum (f a) = atomicNum a) ->
  tailFlagged n m -> tailFlagged n (updAtom aidx f m).
Proof.
  intros Ha Hf (Hn & Hr & Hfl). split; [by rewrite getNumAtoms_updAtom|].
  split; [intros b Hb; rewrite getNumAtoms_updAtom; by apply Hr|].
  intros p Hp. rewrite getNumAtoms_updAtom in Hp.
  apply (flaggedH_ext m); [| |intros q _|by apply Hfl].
  - apply getAtomWithIdx_updAtom_ne. lia.
  - by apply getAtomNeighbors_atoms.
  - rewrite getAtomWithIdx_updAtom. case_decide as Hd; [|done].
    destruct Hd as [-> _]. apply Hf.
Qed.

Section AddHsFacts.
Context {GE : GeometryEngine} {PT : PeriodicTable} {VM : ValenceModel}.

Lemma addOneH_tail n aidx addCoords m :
  tailFlagged n m -> aidx < n -> 1 < atomicNum (getAtomWithIdx m aidx) ->
  exists m',
    addOneH true addCoords aidx m = Some m' /\
    tailFlagged n m' /\
    (forall i, i < getNumAtoms m -> getAtomWithIdx m' i = getAtomWithIdx m i) /\
    getNumAtoms m' = S (getNumAtoms m).
Proof.
  intros (Hn & Hr & Hfl) Ha Hheavy.
  destruct (addOneH_spec true addCoords aidx m Hr ltac:(lia))
    as (m' & h & Hrun & Hat & H1 & Hq & Hf & Hb & Hr').
  assert (Hnum : getNumAtoms m' = S (getNumAtoms m)).
  { unfold getNumAtoms. rewrite Hat, length_app. simpl. lia. }
  assert (Hold : forall i, i < getNumAtoms m -> getAtomWithIdx m' i = getAtomWithIdx m i).
  { intros i Hi. by eapply getAtomWithIdx_app_l. }
  exists m'. split; [done|]. split; [|done].
  split; [lia|]. split; [done|].
  intros p Hp. destruct (decide (p = getNumAtoms m)) as [->|Hne].
  - assert (Hh : getAtomWithIdx m' (getNumAtoms m) = h).
    { unfold getAtomWithIdx. rewrite Hat. apply list_lookup_total_correct.
      unfold getNumAtoms. by rewrite list_lookup_middle. }
    unfold flaggedH. rewrite Hh. do 3 (split; [done|]).
    exists aidx. split; [by apply neighbors_snoc_new; [done|done|lia]|].
    rewrite Hold by lia. done.
  - apply (flaggedH_ext m); [apply Hold; lia| |intros q0 Hq0|apply Hfl; lia].
    + apply (neighbors_snoc_old m m' aidx (getNumAtoms m)); [done|lia|done].
    + rewrite Hold; [done|]. by eapply neighbors_in_range.
Qed.

End AddHsFacts.

Section AddHsLoopFacts.
Context {GE : GeometryEngine} {PT : PeriodicTable} {VM : ValenceModel}.

(** The loop over the implicit hydrogens of one atom: the bound it reads at
    every turn stays the same, the budget is enough, and every turn appends
    one flagged hydrogen. *)
Lemma addImplicitHs_spec n aidx addCoords :
  forall budget i m,
    tailFlagged n m -> aidx < n ->
    (i < getNumImplicitHs (getAtomWithIdx m aidx) -> 1 < atomicNum (getAtomWithIdx m aidx)) ->
    getNumImplicitHs (getAtomWithIdx m aidx) - i <= budget ->
    exists m',
      addImplicitHs budget i addCoords aidx m = Some m' /\
      tailFlagged n m' /\
      (forall j, j < getNumAtoms m -> getAtomWithIdx m' j = getAtomWithIdx m j) /\
      getNumAtoms m <= getNumAtoms m'.
Proof.
  induction budget as [|b IH]; intros i m Ht Ha Hheavy Hb.
  - exists m. simpl. rewrite bool_decide_eq_false_2 by lia.
    split; [done|]. split; [done|]. split; [done|lia].
  - simpl. case_bool_decide as Hi;
      [|exists m; split; [done|]; split; [done|]; split; [done|lia]].
    destruct (addOneH_tail n aidx addCoords m Ht Ha (Hheavy Hi))
      as (m1 & Hrun & Ht1 & Hold1 & Hn1).
    assert (Hn : n <= getNumAtoms m) by apply Ht.
    assert (Hsame : getAtomWithIdx m1 aidx = getAtomWithIdx m aidx) by (apply Hold1; lia).
    destruct (IH (S i) m1 Ht1 Ha) as (m' & Hrun' & Ht' & Hold' & Hn').
    { rewrite Hsame. intros _. by apply Hheavy. }
    { rewrite Hsame. lia. }
    exists m'. rewrite Hrun. simpl. split; [done|]. split; [done|]. split; [|lia].
    intros j Hj. rewrite Hold' by lia. by apply Hold1.
Qed.

(** The body of the loop over the atoms, for an atom without explicit
    hydrogen count that is neither a hydrogen nor a dummy atom with
    implicit hydrogens. *)
Lemma addHsAt_spec n addCoords aidx m :
  tailFlagged n m -> aidx < n ->
  atomicNum (getAtomWithIdx m aidx) <> 1 ->
  numExplicitHs (getAtomWithIdx m aidx) = 0 ->
  (atomicNum (getAtomWithIdx m aidx) = 0 -> getNumImplicitHs (getAtomWithIdx m aidx) = 0) ->
  exists m',
    addHsAt false addCoords aidx m = Some m' /\
    tailFlagged n m' /\
    processedHeavy (getAtomWithIdx m aidx) (getAtomWithIdx m' aidx) /\
    (forall j, j < getNumAtoms m -> j <> aidx -> getAtomWithIdx m' j = getAtomWithIdx m j) /\
    getNumAtoms m <= getNumAtoms m'.
Proof.
  intros Ht Ha HnotH Hexp Hdummy. unfold addHsAt.
  assert (Hn : n <= getNumAtoms m) by apply Ht.
  set (a := getAtomWithIdx m aidx) in *.
  set (ma := updAtom aidx (fun a0 => set_props (clearComputedProps (props a0)) a0) m).
  assert (Hta : tailFlagged n ma) by (by apply tailFlagged_updAtom).
  assert (Haa : getAtomWithIdx ma aidx = set_props (clearComputedProps (props a)) a).
  { unfold ma. rewrite getAtomWithIdx_updAtom_eq by lia. done. }
  rewrite Haa. simpl. rewrite Hexp. simpl.
  set (mb := updAtom aidx (set_numExplicitHs 0) ma).
  assert (Htb : tailFlagged n mb) by (by apply tailFlagged_updAtom).
  assert (Hnb : getNumAtoms mb = getNumAtoms m)
    by (unfold mb, ma; by rewrite !getNumAtoms_updAtom).
  assert (Hab : getAtomWithIdx mb aidx
                = set_numExplicitHs 0 (set_props (clearComputedProps (props a)) a)).
  { unfold mb. rewrite getAtomWithIdx_updAtom_eq, Haa; [done|].
    unfold ma. rewrite getNumAtoms_updAtom. lia. }
  assert (Hc : getNumImplicitHs (getAtomWithIdx mb aidx) = getNumImplicitHs a)
    by (by rewrite Hab).
  assert (Hz : atomicNum (getAtomWithIdx mb aidx) = atomicNum a) by (by rewrite Hab).
  destruct (addImplicitHs_spec n aidx addCoords
              (getNumImplicitHs (getAtomWithIdx mb aidx)) 0 mb Htb Ha)
    as (mc & Hrun & Htc & Holdc & Hnc).
  { rewrite Hc, Hz. intros Hpos.
    destruct (decide (atomicNum a = 0)) as [H0|H0]; [rewrite (Hdummy H0) in Hpos; lia|lia]. }
  { lia. }
  rewrite Hrun. simpl.
  assert (Hac : getAtomWithIdx mc aidx = getAtomWithIdx mb aidx) by (apply Holdc; lia).
  set (md := updAtom aidx (fun a0 => setProp common_properties.origNoImplicit
                                       (PVBool (noImplicit a0)) a0) mc).
  set (me := updAtom aidx (set_noImplicit true) md).
  assert (Hnd : getNumAtoms md = getNumAtoms mc) by apply getNumAtoms_updAtom.
  assert (Hne : getNumAtoms me = getNumAtoms mc)
    by (unfold me; by rewrite getNumAtoms_updAtom).
  assert (Hae : getAtomWithIdx me aidx
                = set_noImplicit true
                    (setProp common_properties.origNoImplicit (PVBool (noImplicit a))
                       (set_numExplicitHs 0 (set_props (clearComputedProps (props a)) a)))).
  { unfold me, md. rewrite !getAtomWithIdx_updAtom_eq by (rewrite ?getNumAtoms_updAtom; lia).
    by rewrite Hac, Hab. }
  eexists. split; [reflexivity|].
  assert (Hf : getAtomWithIdx (updatePropertyCache me aidx) aidx = getAtomWithIdx me aidx).
  { unfold updatePropertyCache. rewrite getAtomWithIdx_updAtom_eq by lia.
    by rewrite Hae. }
  split; [|split; [|split]].
  - unfold updatePropertyCache. apply tailFlagged_updAtom; [done| |].
    { intros a0. by destruct (noImplicit a0). }
    unfold me, md. by do 2 (apply tailFlagged_updAtom; [done|done|]).
  - rewrite Hf, Hae. unfold processedHeavy, getOrigNoImplicit, setProp. simpl.
    by rewrite lookup_insert_eq.
  - intros j Hj Hja. unfold updatePropertyCache, me, md.
    rewrite !getAtomWithIdx_updAtom_ne by done. rewrite Holdc by lia.
    unfold mb, ma. by rewrite !getAtomWithIdx_updAtom_ne.
  - unfold updatePropertyCache. rewrite getNumAtoms_updAtom. lia.
Qed.

(** The loop over the atoms, from atom [c] on. *)
Lemma addHsLoop_spec (orig : nat -> Atom) n addCoords :
  (forall i, i < n ->
     atomicNum (orig i) <> 1 /\ numExplicitHs (orig i) = 0 /\
     (atomicNum (orig i) = 0 -> getNumImplicitHs (orig i) = 0)) ->
  forall k c m,
    c + k = n ->
    tailFlagged n m ->
    (forall i, i < c -> processedHeavy (orig i) (getAtomWithIdx m i)) ->
    (forall i, c <= i < n -> getAtomWithIdx m i = orig i) ->
    exists m',
      addHsLoop false addCoords None (seq c k) m = Some m' /\
      tailFlagged n m' /\
      (forall i, i < n -> processedHeavy (orig i) (getAtomWithIdx m' i)).
Proof.
  intros Horig. induction k as [|k IH]; intros c m Hck Ht Hdone Htodo; simpl.
  - exists m. split; [done|]. split; [done|]. intros i Hi. apply Hdone. lia.
  - assert (Hn : n <= getNumAtoms m) by apply Ht.
    destruct (Horig c ltac:(lia)) as (H1 & H2 & H3).
    destruct (addHsAt_spec n addCoords c m Ht ltac:(lia)) as (m1 & Hrun & Ht1 & Hp & Hold & Hn1).
    { rewrite Htodo by lia. done. }
    { rewrite Htodo by lia. done. }
    { rewrite Htodo by lia. done. }
    rewrite Hrun. simpl.
    apply (IH (S c) m1); [lia|done| |].
    + intros i Hi. destruct (decide (i = c)) as [->|Hne].
      * rewrite <- (Htodo c) by lia. done.
      * rewrite Hold by lia. apply Hdone. lia.
    + intros i Hi. rewrite Hold by lia. apply Htodo. lia.
Qed.

(** What [mol.clearComputedProps(false)] leaves as it is: everything but
    the property dictionaries of the atoms. *)
Lemma getNumAtoms_clearMolComputedProps m :
  getNumAtoms (clearMolComputedProps m) = getNumAtoms m.
Proof. unfold getNumAtoms, clearMolComputedProps. simpl. apply length_fmap. Qed.

Lemma bonds_clearMolComputedProps m : bonds (clearMolComputedProps m) = bonds m.
Proof. reflexivity. Qed.

Lemma getAtomWithIdx_clearMolComputedProps m i :
  i < getNumAtoms m ->
  getAtomWithIdx (clearMolComputedProps m) i
  = set_props (clearComputedProps (props (getAtomWithIdx m i))) (getAtomWithIdx m i).
Proof.
  intros Hi. unfold getAtomWithIdx, clearMolComputedProps. simpl.
  apply list_lookup_total_correct. rewrite list_lookup_fmap.
  destruct (lookup_lt_is_Some_2 (atoms m) i Hi) as [a Ha].
  by rewrite Ha, (list_lookup_total_correct _ _ _ Ha).
Qed.

Lemma bondsInRange_clearMolComputedProps m :
  bondsInRange m -> bondsInRange (clearMolComputedProps m).
Proof. intros Hr b Hb. rewrite getNumAtoms_clearMolComputedProps. by apply Hr. Qed.

(** [addHs] on a molecule whose hydrogens are all implicit: the call
    succeeds; the atoms it was given are visited, and behind them come the
    new hydrogens. *)
Lemma addHs_spec addCoords m :
  bondsInRange m -> onlyImplicitHs m ->
  exists m1,
    addHs false addCoords None m = Some m1 /\
    tailFlagged (getNumAtoms m) m1 /\
    (forall i, i < getNumAtoms m ->
       processedHeavy (getAtomWithIdx m i) (getAtomWithIdx m1 i)).
Proof.
  intros Hr Honly. unfold addHs. cbv zeta.
  set (m0 := clearMolComputedProps m).
  assert (Hn0 : getNumAtoms m0 = getNumAtoms m) by apply getNumAtoms_clearMolComputedProps.
  assert (Hat : forall i, i < getNumAtoms m ->
            getAtomWithIdx m0 i
            = set_props (clearComputedProps (props (getAtomWithIdx m i)))
                (getAtomWithIdx m i)).
  { intros i Hi. by apply getAtomWithIdx_clearMolComputedProps. }
  destruct (addHsLoop_spec (getAtomWithIdx m0) (getNumAtoms m) addCoords)
    with (k := getNumAtoms m) (c := 0) (m := m0) as (m1 & Hrun & Ht & Hproc); try done.
  - intros i Hi. rewrite (Hat i Hi).
    apply (Honly (getAtomWithIdx m i)).
    unfold getAtomWithIdx. by apply list_elem_of_lookup_total_2.
  - split; [lia|]. split; [by apply bondsInRange_clearMolComputedProps|].
    intros p Hp. lia.
  - intros i Hi. lia.
  - exists m1. rewrite Hn0. split; [done|]. split; [done|].
    intros i Hi. specialize (Hproc i Hi). rewrite (Hat i Hi) in Hproc. exact Hproc.
Qed.

End AddHsLoopFacts.

(* ===================================================================== *)
(** * removeHs after addHs                                                *)
(* ===================================================================== *)

Lemma flaggedH_alike m m' p : molAlike m m' -> flaggedH m p -> flaggedH m' p.
Proof.
  intros Ha (H1 & Hq & Hf & q & Hn & Hh).
  split; [by rewrite (molAlike_atomicNum m m' p)|]. split.
  { destruct Ha as (_ & _ & Hat & _). destruct (Hat p) as (_ & _ & -> & _). done. }
  split; [by rewrite (molAlike_isImplicit m m' p)|].
  exists q. split; [by rewrite (molAlike_getAtomNeighbors m m' p)|].
  by rewrite (molAlike_atomicNum m m' q).
Qed.

Lemma flaggedH_removeAtom m h p :
  flaggedH m p -> p <> h -> atomicNum (getAtomWithIdx m h) = 1 ->
  flaggedH (removeAtom h m) (shiftIdx h p).
Proof.
  intros (H1 & Hq & Hf & q & Hn & Hh) Hne Hhyd.
  assert (Hqh : q <> h) by (intros ->; lia).
  unfold flaggedH. rewrite !getAtomWithIdx_removeAtom by done.
  do 3 (split; [done|]). exists (shiftIdx h q). split.
  - rewrite getAtomNeighbors_removeAtom, Hn by done. simpl.
    by rewrite bool_decide_eq_false_2.
  - by rewrite getAtomWithIdx_removeAtom.
Qed.

Section RoundTrip.
Context {GE : GeometryEngine} {PT : PeriodicTable} {VM : ValenceModel} {SAN : Sanitizer}.

Lemma flaggedH_removeIt implicitOnly m p :
  flaggedH m p -> removeIt implicitOnly m p = true.
Proof.
  intros (_ & Hq & Hf & q & Hn & Hh). unfold removeIt.
  assert (Hdeg : getDegree m p = 1) by (by rewrite getDegree_neighbors, Hn).
  rewrite Hdeg, Hf, Hn. unfold hasQuery. rewrite Hq. simpl.
  by rewrite bool_decide_eq_false_2 by lia.
Qed.

Lemma processedHeavy_updatePropertyCache o m i j :
  processedHeavy o (getAtomWithIdx m j) ->
  processedHeavy o (getAtomWithIdx (updatePropertyCache m i) j).
Proof.
  intros Hp. unfold updatePropertyCache. rewrite getAtomWithIdx_updAtom.
  case_decide as Hd; [|done]. destruct Hd as [-> _].
  pose proof Hp as (_ & _ & Hni & _). by rewrite Hni.
Qed.

Lemma processedHeavy_updateHeavyCaches o m j :
  processedHeavy o (getAtomWithIdx m j) ->
  processedHeavy o (getAtomWithIdx (updateHeavyCaches m) j).
Proof.
  unfold updateHeavyCaches. generalize (seq 0 (getNumAtoms m)). intros l. revert m.
  induction l as [|i l IH]; intros m Hp; simpl; [done|].
  apply IH. case_bool_decide; [done|]. by apply processedHeavy_updatePropertyCache.
Qed.

(** The first [n] atoms are heavy atoms that [addHs] has visited: the loop
    restores their no-implicit flag, one after the other, and removes
    nothing. *)
Lemma removeHsLoop_phase1 (orig : nat -> Atom) n k upd :
  (forall i, i < n -> atomicNum (orig i) <> 1) ->
  forall c' c m,
    c + c' = n -> getNumAtoms m = n + k ->
    (forall i, i < c -> restoredHeavy (orig i) (getAtomWithIdx m i)) ->
    (forall i, c <= i < n -> processedHeavy (orig i) (getAtomWithIdx m i)) ->
    (forall p, n <= p < n + k -> flaggedH m p) ->
    exists m',
      removeHsLoop (c' + k) true upd m c c = removeHsLoop k true upd m' n n /\
      getNumAtoms m' = n + k /\
      (forall i, i < n -> restoredHeavy (orig i) (getAtomWithIdx m' i)) /\
      (forall p, n <= p < n + k -> flaggedH m' p).
Proof.
  intros Hheavy. induction c' as [|c' IH]; intros c m Hc Hnum Hdone Htodo Hfl.
  - assert (c = n) by lia. subst c. exists m. split; [done|]. split; [done|].
    split; [|done]. intros i Hi. by apply Hdone.
  - simpl. rewrite bool_decide_eq_true_2 by lia.
    destruct (Htodo c ltac:(lia)) as (Hz & Hv & Hni & Ho).
    rewrite bool_decide_eq_false_2 by (rewrite Hz; apply Hheavy; lia).
    assert (Hr : restoreNoImplicit m c =
                 updAtom c (fun a => clearProp common_properties.origNoImplicit
                                       (set_noImplicit (noImplicit (orig c)) a)) m).
    { unfold restoreNoImplicit. by rewrite Ho. }
    destruct (IH (S c) (restoreNoImplicit m c)) as (m' & Hrun & Hn' & Hd' & Hf').
    + lia.
    + rewrite Hr. by rewrite getNumAtoms_updAtom.
    + intros i Hi. rewrite Hr. destruct (decide (i = c)) as [->|Hne].
      * rewrite getAtomWithIdx_updAtom_eq by lia. by unfold restoredHeavy.
      * rewrite getAtomWithIdx_updAtom_ne by done. apply Hdone. lia.
    + intros i Hi. rewrite Hr, getAtomWithIdx_updAtom_ne by lia. apply Htodo. lia.
    + intros p Hp. eapply flaggedH_alike; [apply molAlike_restoreNoImplicit|by apply Hfl].
    + exists m'. by rewrite Hrun.
Qed.

(** Behind them come [k] flagged hydrogens: the loop removes them all, and
    the heavy atoms keep their no-implicit flag and their stored count. *)
Lemma removeHsLoop_phase2 (orig : nat -> Atom) n upd :
  forall k m o,
    getNumAtoms m = n + k ->
    (forall i, i < n -> restoredHeavy (orig i) (getAtomWithIdx m i)) ->
    (forall p, n <= p < n + k -> flaggedH m p) ->
    getNumAtoms (removeHsLoop k true upd m n o).1 = n /\
    (forall i, i < n ->
       restoredHeavy (orig i) (getAtomWithIdx (removeHsLoop k true upd m n o).1 i)) /\
    (removeHsLoop k true upd m n o).2 = seq o k.
Proof.
  induction k as [|k IH]; intros m o Hnum Hheavy Hfl.
  - simpl. split; [lia|]. done.
  - simpl. rewrite bool_decide_eq_true_2 by lia.
    pose proof (Hfl n ltac:(lia)) as Hfn.
    rewrite bool_decide_eq_true_2 by apply Hfn.
    pose proof (flaggedH_removeIt true m n Hfn) as Hrem. rewrite Hrem.
    destruct (getAtomBonds m n) as [|bondIdx rest] eqn:Hb;
      [by apply removeIt_has_bond in Hrem|].
    pose proof (removeHydrogen_unfold upd m n bondIdx rest Hb) as Hun.
    set (heavyIdx := getOtherAtomIdx (getBondWithIdx m bondIdx) n) in *.
    pose proof (molKept_preRemoval upd m n heavyIdx bondIdx) as Hkept.
    set (m3 := preRemoval upd m n heavyIdx bondIdx) in *.
    destruct (IH (removeHydrogen upd m n) (S o)) as (H1 & H2 & H3).
    + rewrite Hun, getNumAtoms_removeAtom; destruct Hkept as (-> & _); lia.
    + intros i Hi. rewrite Hun.
      replace i with (shiftIdx n i) at 2 by (unfold shiftIdx; rewrite decide_False; lia).
      rewrite getAtomWithIdx_removeAtom by lia.
      destruct Hkept as (_ & _ & Hat & _). destruct (Hat i) as (Ha1 & _ & Ha3 & Ha4 & _).
      destruct (Hheavy i Hi) as (? & ? & ?). unfold restoredHeavy. by rewrite Ha1, Ha3, Ha4.
    + intros p Hp. rewrite Hun.
      replace p with (shiftIdx n (S p)) by (unfold shiftIdx; rewrite decide_True; lia).
      apply flaggedH_removeAtom; [|lia|].
      * eapply flaggedH_alike; [by apply molKept_molAlike|]. apply Hfl. lia.
      * rewrite (molAlike_atomicNum m m3 n); [apply Hfn|by apply molKept_molAlike].
    + destruct (removeHsLoop k true upd (removeHydrogen upd m n) n (S o)) as [m' removed].
      simpl in *. split; [done|]. split; [done|]. by rewrite H3.
Qed.

(** C1, as the code has it. For a molecule without hydrogen atoms in the
    graph, in which no atom has an explicit hydrogen count and no dummy
    atom has implicit hydrogens, [addHs] (explicitOnly = false, no
    restriction to a list of atoms) followed by [removeHs] with
    implicitOnly = true gives back the number of atoms, and every atom has
    the number of implicit hydrogens it had. [addHs] succeeds with or
    without coordinates, and [removeHs] raises nothing, whatever
    [updateExplicitCount] and [sanitize] are. The hydrogens [addHs] makes
    for an explicit hydrogen count do not get the [isImplicit] flag, and
    [removeHs] with implicitOnly = true keeps them, as it keeps the flagged
    hydrogens of a dummy atom. *)
Theorem addHs_removeHs_roundtrip (addCoords upd sanitize : bool) (m : Mol) :
  bondsInRange m -> onlyImplicitHs m ->
  exists m1,
    addHs false addCoords None m = Some m1 /\
    getNumAtoms m <= getNumAtoms m1 /\
    (removeHs true upd sanitize m1).2 = None /\
    getNumAtoms (removeHs true upd sanitize m1).1 = getNumAtoms m /\
    forall i, i < getNumAtoms m ->
      getNumImplicitHs (getAtomWithIdx (removeHs true upd sanitize m1).1 i)
      = getNumImplicitHs (getAtomWithIdx m i).
Proof.
  intros Hr Honly.
  destruct (addHs_spec addCoords m Hr Honly) as (m1 & Hadd & (Hn & Hr1 & Hfl) & Hproc).
  exists m1. split; [done|]. split; [done|].
  unfold removeHs. simpl. split; [done|].
  unfold removeHsTrace.
  pose proof (molAlike_updateHeavyCaches m1) as Halike.
  set (m1' := updateHeavyCaches m1) in *.
  set (n := getNumAtoms m) in *.
  assert (Hnum1 : getNumAtoms m1' = getNumAtoms m1) by apply Halike.
  set (k := getNumAtoms m1 - n).
  assert (Hnk : getNumAtoms m1' = n + k) by (unfold k; lia).
  destruct (removeHsLoop_phase1 (getAtomWithIdx m) n k upd) with (c' := n) (c := 0) (m := m1')
    as (m2 & Hrun & Hn2 & Hrest & Hfl2).
  - intros i Hi. apply Honly. unfold getAtomWithIdx. by apply list_elem_of_lookup_total_2.
  - lia.
  - done.
  - intros i Hi. lia.
  - intros i Hi. apply processedHeavy_updateHeavyCaches, Hproc. lia.
  - intros p Hp. eapply flaggedH_alike; [exact Halike|]. apply Hfl. unfold k in Hp. lia.
  - rewrite Hnk, Hrun.
    destruct (removeHsLoop_phase2 (getAtomWithIdx m) n upd k m2 n Hn2 Hrest Hfl2)
      as (H1 & H2 & _).
    split; [done|]. intros i Hi. destruct (H2 i Hi) as (_ & Hv & Hni).
    unfold getNumImplicitHs. by rewrite Hv, Hni.
Qed.

End RoundTrip.

(** C1 at water and methane, with coordinates: six hydrogens come and go. *)
Lemma addHs_removeHs_roundtrip_witness :
  bondsInRange ex_water_methane /\ onlyImplicitHs ex_water_methane /\
  exists m1,
    addHs (GE := sampleGeometry) (PT := samplePeriodicTable) (VM := sampleValence)
      false true None ex_water_methane = Some m1 /\
    getNumAtoms ex_water_methane <= getNumAtoms m1 /\
    (removeHs (PT := samplePeriodicTable) (VM := sampleValence) (SAN := sampleSanitizer)
       true false false m1).2 = None /\
    getNumAtoms (removeHs (PT := samplePeriodicTable) (VM := sampleValence)
                   (SAN := sampleSanitizer) true false false m1).1
    = getNumAtoms ex_water_methane /\
    forall i, i < getNumAtoms ex_water_methane ->
      getNumImplicitHs
        (getAtomWithIdx (removeHs (PT := samplePeriodicTable) (VM := sampleValence)
                           (SAN := sampleSanitizer) true false false m1).1 i)
      = getNumImplicitHs (getAtomWithIdx ex_water_methane i).
Proof.
  assert (Hr : bondsInRange ex_water_methane).
  { intros b Hb. by apply elem_of_nil in Hb. }
  assert (Ho : onlyImplicitHs ex_water_methane).
  { intros a Ha. simpl in Ha.
    apply elem_of_cons in Ha as [->|Ha]; [cbv; repeat split; lia|].
    apply elem_of_cons in Ha as [->|Ha]; [cbv; repeat split; lia|].
    by apply elem_of_nil in Ha. }
  split; [exact Hr|]. split; [exact Ho|].
  exact (addHs_removeHs_roundtrip (GE := sampleGeometry) (PT := samplePeriodicTable)
           (VM := sampleValence) (SAN := sampleSanitizer)
           true false false ex_water_methane Hr Ho).
Defined.

(** C1 as stated fails at a nitrogen with an explicit hydrogen count of 1
    and two implicit hydrogens, next to an oxygen with two implicit
    hydrogens. There is no hydrogen atom in the graph. [addHs] adds five
    hydrogens, the one for the explicit count without the [isImplicit]
    flag; [removeHs] with implicitOnly = true takes back the four flagged
    ones and raises nothing. Three atoms are left, not two: the nitrogen,
    the oxygen and the hydrogen at index 2, bonded to the nitrogen. *)
Lemma addHs_removeHs_roundtrip_counterexample :
  bondsInRange ex_NH3_water /\
  atomicNum <$> atoms ex_NH3_water = [7; 8] /\
  numExplicitHs <$> atoms ex_NH3_water = [1; 0] /\
  getNumAtoms ex_NH3_water = 2 /\
  exists m1,
    addHs (GE := sampleGeometry) (PT := samplePeriodicTable) (VM := sampleValence)
      false false None ex_NH3_water = Some m1 /\
    getNumAtoms m1 = 7 /\
    hasProp common_properties.isImplicit <$> atoms m1
    = [false; false; false; true; true; true; true] /\
    (removeHs (PT := samplePeriodicTable) (VM := sampleValence) (SAN := sampleSanitizer)
       true false false m1).2 = None /\
    getNumAtoms (removeHs (PT := samplePeriodicTable) (VM := sampleValence)
                   (SAN := sampleSanitizer) true false false m1).1 = 3 /\
    atomicNum <$> atoms (removeHs (PT := samplePeriodicTable) (VM := sampleValence)
                           (SAN := sampleSanitizer) true false false m1).1
    = [7; 8; 1].
Proof.
  split; [intros b Hb; by apply elem_of_nil in Hb|].
  do 3 (split; [vm_compute; reflexivity|]).
  exists (default ex_NH3_water
            (addHs (GE := sampleGeometry) (PT := samplePeriodicTable) (VM := sampleValence)
               false false None ex_NH3_water)).
  do 5 (split; [vm_compute; reflexivity|]).
  vm_compute; reflexivity.
Qed.

(* ===================================================================== *)
(** * The copy-returning removeHs                                         *)
(* ===================================================================== *)

Section CopyVariant.
Context {PT : PeriodicTable} {VM : ValenceModel} {SAN : Sanitizer}.

(** C9. When the in-place [removeHs] on the copy raises a
    [MolSanitizeException] (which it can only do from the sanitization
    pass, with sanitize = true and implicitOnly = false), the
    copy-returning variant throws that exception and leaves the heap as it
    found it: the copy is gone and the input molecule, as every other
    molecule, is what it was. *)
Theorem removeHsCopy_sanitize_failure (implicitOnly upd sanitize : bool)
    (molPtr : nat) (heap : gmap nat Mol) (mol : Mol) (what : string) :
  heap !! molPtr = Some mol ->
  (removeHs implicitOnly upd sanitize mol).2 = Some (MolSanitizeException what) ->
  sanitize = true /\ implicitOnly = false /\
  (sanitizeMol (removeHsTrace false upd mol).1).2 = Some (MolSanitizeException what) /\
  removeHsCopy implicitOnly upd sanitize molPtr heap
  = Some (heap, Thrown (MolSanitizeException what)) /\
  heap !! molPtr = Some mol.
Proof.
  intros Hmol Hraise.
  assert (Hflags : sanitize = true /\ implicitOnly = false /\
            (sanitizeMol (removeHsTrace false upd mol).1).2
            = Some (MolSanitizeException what)).
  { unfold removeHs in Hraise. destruct implicitOnly, sanitize; simpl in Hraise; done. }
  destruct Hflags as (Hs & Hi & Hsan). do 3 (split; [done|]). split; [|done].
  unfold removeHsCopy. rewrite Hmol. simpl.
  destruct (removeHs implicitOnly upd sanitize mol) as [mol' raised]. simpl in Hraise.
  subst raised. rewrite insert_insert_eq, delete_insert_id; [done|].
  apply not_elem_of_dom, is_fresh.
Qed.

(** Without an exception the result is the address of a new molecule, and
    the molecules that were on the heap are what they were. *)
Lemma removeHsCopy_returns (implicitOnly upd sanitize : bool)
    (molPtr : nat) (heap : gmap nat Mol) (mol : Mol) :
  heap !! molPtr = Some mol ->
  (removeHs implicitOnly upd sanitize mol).2 = None ->
  exists res heap',
    removeHsCopy implicitOnly upd sanitize molPtr heap = Some (heap', Returned res) /\
    heap !! res = None /\
    heap' !! res = Some (removeHs implicitOnly upd sanitize mol).1 /\
    forall p, p <> res -> heap' !! p = heap !! p.
Proof.
  intros Hmol Hnone. unfold removeHsCopy. rewrite Hmol. simpl.
  destruct (removeHs implicitOnly upd sanitize mol) as [mol' raised]. simpl in *.
  subst raised. eexists _, _. split; [reflexivity|].
  split; [apply not_elem_of_dom, is_fresh|].
  split; [by rewrite lookup_insert_eq|].
  intros p Hp. by rewrite !lookup_insert_ne.
Qed.

End CopyVariant.

(** C9 at CF5H: the hydrogen is removed from the copy, the sanitization
    pass rejects the carbon with five bonds, the heap is as before. *)
Lemma removeHsCopy_sanitize_failure_witness :
  let heap : gmap nat Mol := {[ 0 := ex_CF5H ]} in
  heap !! 0 = Some ex_CF5H /\
  (removeHs (PT := samplePeriodicTable) (VM := sampleValence) (SAN := sampleSanitizer)
     false false true ex_CF5H).2 = Some (MolSanitizeException "valence") /\
  removeHsCopy (PT := samplePeriodicTable) (VM := sampleValence) (SAN := sampleSanitizer)
    false false true 0 heap
  = Some (heap, Thrown (MolSanitizeException "valence")).
Proof.
  cbv zeta.
  assert (H1 : ({[ 0 := ex_CF5H ]} : gmap nat Mol) !! 0 = Some ex_CF5H) by reflexivity.
  assert (H2 : (removeHs (PT := samplePeriodicTable) (VM := sampleValence)
                  (SAN := sampleSanitizer) false false true ex_CF5H).2
               = Some (MolSanitizeException "valence")) by reflexivity.
  split; [exact H1|]. split; [exact H2|].
  exact (proj1 (proj2 (proj2 (proj2
    (removeHsCopy_sanitize_failure (PT := samplePeriodicTable) (VM := sampleValence)
       (SAN := sampleSanitizer) false false true 0 {[ 0 := ex_CF5H ]} ex_CF5H "valence"
       H1 H2))))).
Defined.

(* ===================================================================== *)
(** * The scan of isQueryH                                                *)
(* ===================================================================== *)

Lemma stackSize_app a b : stackSize (a ++ b) = stackSize a + stackSize b.
Proof. unfold stackSize. induction a as [|q a IH]; simpl; [done|]. rewrite IH. lia. Qed.

Lemma querySize_children q : querySize q = S (stackSize (getChildren q)).
Proof. by destruct q. Qed.

Lemma stackSize_cons q s : stackSize (q :: s) = S (stackSize (getChildren q) + stackSize s).
Proof. unfold stackSize at 1; simpl. fold (stackSize s). by rewrite querySize_children. Qed.

Lemma seesH_unfold q :
  seesH q = if bool_decide (getDescription q = "AtomOr") then false
            else if bool_decide (getDescription q = "AtomAtomicNum")
                 then (getVal q =? 1) && negb (getNegation q)
                 else existsb seesH (getChildren q).
Proof. by destruct q. Qed.

Lemma seesOr_unfold q :
  seesOr q = if bool_decide (getDescription q = "AtomOr") then true
             else if bool_decide (getDescription q = "AtomAtomicNum") then false
                  else existsb seesOr (getChildren q).
Proof. by destruct q. Qed.

Lemma queryNodes_unfold q : queryNodes q = q :: flat_map queryNodes (getChildren q).
Proof. by destruct q. Qed.

(** With a turn for every node on the work list the scan comes to its end,
    and the flags are then set by what the list shows. *)
Lemma scanChildStack_spec fuel childStack hasHQuery hasOr :
  stackSize childStack <= fuel ->
  scanChildStack fuel childStack hasHQuery hasOr
  = Some (hasHQuery || existsb seesH childStack, hasOr || existsb seesOr childStack).
Proof.
  revert childStack hasHQuery hasOr.
  induction fuel as [|fuel IH]; intros childStack h o Hfuel.
  - destruct childStack as [|q s]; [|rewrite stackSize_cons in Hfuel; lia].
    simpl. rewrite !orb_false_r. by destruct (h && o).
  - destruct childStack as [|q s].
    + simpl. rewrite !orb_false_r. by destruct (h && o).
    + rewrite stackSize_cons in Hfuel.
      cbn [scanChildStack existsb]. rewrite (seesH_unfold q), (seesOr_unfold q).
      destruct (h && o) eqn:Hho.
      { apply andb_true_iff in Hho as [-> ->]. done. }
      case_bool_decide.
      { rewrite IH by lia. simpl. by rewrite orb_true_r. }
      case_bool_decide.
      { rewrite IH by lia. simpl.
        destruct ((getVal q =? 1) && negb (getNegation q)); simpl; [|done].
        by rewrite orb_true_r. }
      rewrite IH by (rewrite stackSize_app; lia).
      rewrite !existsb_app. f_equal; f_equal; f_equal; apply orb_comm.
Qed.


(** [isQueryH] always has an answer, which is this one. *)
Lemma isQueryH_spec mol idx :
  isQueryH mol idx =
  Some (if plainH mol idx then (true, [])
        else if negb (getDegree mol idx =? 1) then (false, [])
        else match query (getAtomWithIdx mol idx) with
             | None => (false, [])
             | Some q =>
               if getNegation q then (false, [])
               else if scanSeesH q && scanSeesOr q then (false, [orWarning])
               else (scanSeesH q, [])
             end).
Proof.
  unfold isQueryH, plainH. cbv zeta.
  destruct (_ && _); [done|].
  destruct (negb _); [done|].
  destruct (query _) as [q|]; [|done].
  destruct (getNegation q); [done|].
  rewrite scanChildStack_spec by done. simpl.
  fold (scanSeesH q). fold (scanSeesOr q). by destruct (_ && _).
Qed.

Lemma isQueryH_queryHAt mol idx :
  isQueryH mol idx = Some (queryHAt mol idx, warningsAt mol idx).
Proof.
  unfold queryHAt, warningsAt. rewrite isQueryH_spec. by destruct (if plainH mol idx then _ else _).
Qed.

Lemma mapM_isQueryH mol l :
  mapM (isQueryH mol) l = Some ((fun i => (queryHAt mol i, warningsAt mol i)) <$> l).
Proof.
  apply mapM_Some. induction l as [|i l IH]; simpl; constructor; [|done].
  apply isQueryH_queryHAt.
Qed.

(* ===================================================================== *)
(** * The calls into the molecules of recursive queries                   *)
(* ===================================================================== *)

Lemma sameDom_refl heap : sameDom heap heap.
Proof. by intros x. Qed.

Lemma sameDom_trans h1 h2 h3 : sameDom h1 h2 -> sameDom h2 h3 -> sameDom h1 h3.
Proof. intros H1 H2 x. etrans; [apply H2|apply H1]. Qed.

Lemma nestedStackOK_dom rank heap heap' p s :
  sameDom heap heap' -> nestedStackOK rank heap p s -> nestedStackOK rank heap' p s.
Proof.
  intros Hd Hs node Hn Hr. destruct (Hs node Hn Hr) as (x & ? & ? & ?).
  exists x. split; [done|]. split; [done|]. by apply Hd.
Qed.

Lemma nestedOK_stack rank heap p q :
  nestedOK rank heap p q <-> nestedStackOK rank heap p [q].
Proof. unfold nestedOK, nestedStackOK. simpl. by rewrite app_nil_r. Qed.

Lemma nestedStackOK_cons rank heap p q s :
  nestedStackOK rank heap p (q :: s) ->
  (getDescription q = "RecursiveStructure" ->
   exists x, getQueryMol q = Some x /\ rank x < rank p /\ is_Some (heap !! x)) /\
  nestedStackOK rank heap p s /\
  nestedStackOK rank heap p (s ++ getChildren q).
Proof.
  intros Hs. split; [|split].
  - apply Hs. simpl. rewrite queryNodes_unfold. apply elem_of_cons. by left.
  - intros node Hn. apply Hs. simpl. apply elem_of_app. by right.
  - intros node Hn. apply Hs. simpl. rewrite queryNodes_unfold.
    rewrite flat_map_app in Hn. apply elem_of_app in Hn as [Hn|Hn].
    + apply elem_of_app. by right.
    + apply elem_of_app. left. apply elem_of_cons. by right.
Qed.

Lemma stepOK_ret rank bound st : heapOK rank st.1 -> stepOK rank bound st (Some st).
Proof.
  intros H. exists st. split; [done|]. split; [done|]. split; [apply sameDom_refl|].
  split; [done|]. exists []. by rewrite app_nil_r.
Qed.

Lemma stepOK_mono rank b b' st res : b <= b' -> stepOK rank b st res -> stepOK rank b' st res.
Proof.
  intros Hb (st' & ? & ? & ? & Hf & ?). exists st'. do 3 (split; [done|]).
  split; [|done]. intros y Hy. apply Hf. lia.
Qed.

Lemma stepOK_bind rank bound st st1 (f : MergeState -> option MergeState) :
  stepOK rank bound st (Some st1) -> stepOK rank bound st1 (f st1) ->
  stepOK rank bound st (Some st1 ≫= f).
Proof.
  intros (st1' & [= <-] & _ & Hd1 & Hf1 & l1 & Hl1) (st2 & Hr & Hok & Hd2 & Hf2 & l2 & Hl2).
  exists st2. simpl. split; [done|]. split; [done|].
  split; [by eapply sameDom_trans|]. split.
  - intros y Hy. by rewrite Hf2, Hf1.
  - exists (l1 ++ l2). by rewrite Hl2, Hl1, app_assoc.
Qed.

Section Calls.
Variables (rank : nat -> nat) (p : nat) (rec : nat -> MergeState -> option MergeState).
Hypothesis Hrec : recOK rank p rec.

Lemma recurseChildren_ok fuel childStack st :
  stackSize childStack <= fuel -> heapOK rank st.1 ->
  nestedStackOK rank st.1 p childStack ->
  stepOK rank (rank p) st (recurseChildren rec fuel childStack st).
Proof.
  revert childStack st. induction fuel as [|fuel IH]; intros s st Hfuel Hok Hs.
  - destruct s as [|q s]; [|rewrite stackSize_cons in Hfuel; lia].
    simpl. by apply stepOK_ret.
  - destruct s as [|q s]; [by apply stepOK_ret|].
    rewrite stackSize_cons in Hfuel. cbn [recurseChildren].
    apply nestedStackOK_cons in Hs as (Hq & Hs1 & Hs2).
    case_bool_decide as Hd.
    + destruct (Hq Hd) as (x & -> & Hx & Hin). simpl.
      pose proof (Hrec x st Hx Hok Hin) as Hcall.
      apply (stepOK_mono _ _ (rank p)) in Hcall; [|lia].
      destruct Hcall as (st1 & Hr & Hcall). rewrite Hr.
      apply stepOK_bind; [by exists st1|].
      destruct Hcall as (Hok1 & Hd1 & _).
      apply IH; [lia|done|]. by eapply nestedStackOK_dom.
    + apply IH; [rewrite stackSize_app; lia|done|done].
Qed.

Lemma recurseQuery_ok q st :
  heapOK rank st.1 -> nestedOK rank st.1 p q ->
  stepOK rank (rank p) st (recurseQuery rec q st).
Proof.
  intros Hok Hq. unfold recurseQuery.
  apply nestedOK_stack in Hq. apply nestedStackOK_cons in Hq as (Hroot & _ & Hs).
  simpl in Hs.
  case_bool_decide as Hd.
  - destruct (Hroot Hd) as (x & -> & Hx & Hin). simpl.
    pose proof (Hrec x st Hx Hok Hin) as Hcall.
    apply (stepOK_mono _ _ (rank p)) in Hcall; [|lia].
    destruct Hcall as (st1 & Hr & Hcall). rewrite Hr.
    apply stepOK_bind; [by exists st1|].
    destruct Hcall as (Hok1 & Hd1 & _).
    apply recurseChildren_ok; [done|done|]. by eapply nestedStackOK_dom.
  - simpl. by apply recurseChildren_ok.
Qed.

End Calls.

(* ===================================================================== *)
(** * Compensating a heavy atom                                           *)
(* ===================================================================== *)

Lemma updAtom_id i m : updAtom i (fun a => a) m = m.
Proof. unfold updAtom. destruct m; unfold set_atoms; simpl. by rewrite list_alter_id. Qed.

Lemma updAtom_updAtom i f g m : updAtom i f (updAtom i g m) = updAtom i (f ∘ g) m.
Proof. unfold updAtom, set_atoms; simpl. by rewrite list_alter_alter_eq. Qed.

Lemma updAtom_ext i f g m :
  f (getAtomWithIdx m i) = g (getAtomWithIdx m i) -> updAtom i f m = updAtom i g m.
Proof.
  intros H. unfold updAtom, set_atoms. f_equal.
  apply list_alter_ext; [|done]. intros a Ha.
  unfold getAtomWithIdx in H. by rewrite (list_lookup_total_correct _ _ _ Ha) in H.
Qed.

Lemma compensate_updAtom n i m : compensate n i m = updAtom i (compensateAtom n) m.
Proof.
  unfold compensate. cbv zeta.
  destruct (n =? 0) eqn:Hn.
  - rewrite <- (updAtom_id i m) at 1. apply updAtom_ext. unfold compensateAtom. by rewrite Hn.
  - destruct (hasQuery (getAtomWithIdx m i)) eqn:Hq.
    + apply updAtom_ext. unfold compensateAtom. by rewrite Hn, Hq.
    + unfold replaceAtom. rewrite updAtom_updAtom. apply updAtom_ext.
      unfold compensateAtom. by rewrite Hn, Hq.
Qed.

Lemma andNotHCounts_S n q :
  andNotHCounts (S n) q =
  mkQuery "AtomAnd" false 0 [andNotHCounts n q; mkQuery "AtomHCount" true n [] None] None.
Proof. unfold andNotHCounts. by rewrite seq_S, foldl_app. Qed.

Lemma addHCountQueries_query n a q :
  query a = Some q -> addHCountQueries n a = set_query (Some (andNotHCounts n q)) a.
Proof.
  intros Hq. induction n as [|n IH].
  - unfold addHCountQueries, andNotHCounts; simpl. destruct a; simpl in *. by subst.
  - unfold addHCountQueries in *. rewrite seq_S, foldl_app. simpl. rewrite IH.
    rewrite andNotHCounts_S. by unfold expandQuery.
Qed.

Lemma hasQuery_false a : hasQuery a = false -> query a = None.
Proof.
  unfold hasQuery. intros H. apply bool_decide_eq_false in H.
  destruct (query a); [|done]. destruct H. by eexists.
Qed.

Lemma hasQuery_true a : hasQuery a = true -> exists q, query a = Some q.
Proof. unfold hasQuery. intros H. apply bool_decide_eq_true in H. by destruct H as [q ?]; exists q. Qed.

Lemma compensateAtom_0 a : compensateAtom 0 a = a.
Proof. done. Qed.

Lemma compensateAtom_query n a :
  0 < n -> query (compensateAtom n a) = Some (andNotHCounts n (baseQuery a)).
Proof.
  intros Hn. unfold compensateAtom, baseQuery.
  destruct (n =? 0) eqn:E; [apply Nat.eqb_eq in E; lia|].
  destruct (hasQuery a) eqn:Hq.
  - apply hasQuery_true in Hq as [q Hq]. rewrite (addHCountQueries_query n a q Hq).
    by rewrite Hq.
  - apply hasQuery_false in Hq. rewrite Hq. simpl.
    by rewrite (addHCountQueries_query n _ (makeAtomNumQuery (atomicNum a))).
Qed.

Lemma compensateAtom_props n a : props (compensateAtom n a) = props a.
Proof.
  unfold compensateAtom. destruct (n =? 0); [done|].
  destruct (hasQuery a) eqn:Hq.
  - apply hasQuery_true in Hq as [q Hq]. by rewrite (addHCountQueries_query n a q Hq).
  - by rewrite (addHCountQueries_query n _ (makeAtomNumQuery (atomicNum a))).
Qed.

Lemma compensateAtom_atomicNum n a :
  atomicNum (compensateAtom n a) = atomicNum a \/ atomicNum (compensateAtom n a) = 0.
Proof.
  unfold compensateAtom. destruct (n =? 0); [by left|].
  destruct (hasQuery a) eqn:Hq.
  - apply hasQuery_true in Hq as [q Hq]. rewrite (addHCountQueries_query n a q Hq). by left.
  - rewrite (addHCountQueries_query n _ (makeAtomNumQuery (atomicNum a))) by done. by right.
Qed.

(** The nodes of the new query: those of the old one, AND nodes and
    H-count leaves. *)
Lemma andNotHCounts_nodes n q node :
  node ∈ queryNodes (andNotHCounts n q) ->
  node ∈ queryNodes q \/ getDescription node = "AtomAnd" \/
  getDescription node = "AtomHCount".
Proof.
  induction n as [|n IH]; [by left|].
  rewrite andNotHCounts_S. simpl. rewrite ?app_nil_r.
  intros [->|H]%elem_of_cons; [by right; left|].
  apply elem_of_app in H as [H|H]; [by apply IH|].
  apply elem_of_cons in H as [->|H]; [by right; right|]. by apply elem_of_nil in H.
Qed.

Lemma compensateAtom_nodes n a q' node :
  query (compensateAtom n a) = Some q' -> node ∈ queryNodes q' ->
  (exists q, query a = Some q /\ node ∈ queryNodes q) \/
  getDescription node <> "RecursiveStructure".
Proof.
  destruct n as [|n].
  - rewrite compensateAtom_0. intros Hq Hn. left. by exists q'.
  - rewrite compensateAtom_query by lia. intros [= <-] Hn.
    apply andNotHCounts_nodes in Hn as [Hn|[Hn|Hn]]; [|right; by rewrite Hn..].
    unfold baseQuery in Hn. destruct (query a) as [q|]; simpl in Hn.
    + left. by exists q.
    + right. apply elem_of_cons in Hn as [->|Hn]; [done|]. by apply elem_of_nil in Hn.
Qed.

(* ===================================================================== *)
(** * The first loop of mergeQueryHs                                      *)
(* ===================================================================== *)

Lemma molOK_dom rank heap heap' p m :
  sameDom heap heap' -> molOK rank heap p m -> molOK rank heap' p m.
Proof.
  intros Hd (Hr & Hs & Hn). split; [done|]. split; [done|].
  intros a q Ha Hq. apply nestedOK_stack. eapply nestedStackOK_dom; [done|].
  apply nestedOK_stack. by eapply Hn.
Qed.

Lemma sameDom_insert (heap : gmap nat Mol) p m m' :
  heap !! p = Some m -> sameDom heap (<[p := m']> heap).
Proof.
  intros Hp x. rewrite lookup_insert_is_Some'. split; [|by right].
  intros [<-|H]; [by rewrite Hp|done].
Qed.

Lemma heapOK_insert rank heap p m m' :
  heapOK rank heap -> heap !! p = Some m -> molOK rank heap p m' ->
  heapOK rank (<[p := m']> heap).
Proof.
  intros Hok Hp Hm' p' mol' Hl.
  apply (molOK_dom rank heap); [by eapply sameDom_insert|].
  destruct (decide (p' = p)) as [->|Hne].
  - rewrite lookup_insert_eq in Hl. by injection Hl as <-.
  - rewrite lookup_insert_ne in Hl by done. by apply Hok.
Qed.

Lemma sameSkeleton_refl m : sameSkeleton m m.
Proof. done. Qed.

Lemma sameSkeleton_compensate mol m n i :
  sameSkeleton mol m -> sameSkeleton mol (compensate n i m).
Proof.
  intros (Hb & Hn & Hp). rewrite compensate_updAtom.
  split; [done|]. split; [by rewrite getNumAtoms_updAtom|].
  intros j. rewrite getAtomWithIdx_updAtom. case_decide as Hd; [|done].
  destruct Hd as [<- _]. by rewrite compensateAtom_props.
Qed.

Lemma compensate_molOK rank heap p n i m :
  molOK rank heap p m -> molOK rank heap p (compensate n i m).
Proof.
  intros (Hr & Hs & Hn). rewrite compensate_updAtom. split; [|split].
  - intros b Hb. rewrite getNumAtoms_updAtom. by apply Hr.
  - intros j Hj. rewrite getNumAtoms_updAtom in Hj.
    rewrite (getDegree_ext _ m) by done.
    rewrite getAtomWithIdx_updAtom. case_decide as Hd; [|by apply Hs].
    destruct Hd as [<- _]. intros H1. apply Hs; [done|].
    by destruct (compensateAtom_atomicNum n (getAtomWithIdx m i)) as [<-|H0]; [|congruence].
  - intros a q Ha Hq node Hnode Hrs.
    destruct (proj1 (list_elem_of_lookup_total _ _) Ha) as (j & Hj & <-). clear Ha.
    fold (getNumAtoms (updAtom i (compensateAtom n) m)) in Hj.
    fold (getAtomWithIdx (updAtom i (compensateAtom n) m) j) in Hq.
    rewrite getNumAtoms_updAtom in Hj.
    assert (Hin : forall k, k < getNumAtoms m -> getAtomWithIdx m k ∈ atoms m).
    { intros k Hk. by apply list_elem_of_lookup_total_2. }
    rewrite getAtomWithIdx_updAtom in Hq. case_decide as Hd.
    + destruct Hd as [<- _].
      destruct (compensateAtom_nodes _ _ _ node Hq Hnode) as [(q0 & Hq0 & Hn0)|Hne]; [|done].
      by apply (Hn _ q0 (Hin i Hj) Hq0).
    + by apply (Hn _ q (Hin j Hj) Hq).
Qed.

Lemma hatoms_lookup mol i :
  i < getNumAtoms mol -> (queryHAt mol <$> seq 0 (getNumAtoms mol)) !!! i = queryHAt mol i.
Proof.
  intros Hi. apply list_lookup_total_correct.
  by rewrite list_lookup_fmap, lookup_seq_lt.
Qed.

Lemma eligibleHs_mergedHs mergeUnmappedOnly mol mcur i :
  sameSkeleton mol mcur -> bondsInRange mol ->
  eligibleHs mergeUnmappedOnly (queryHAt mol <$> seq 0 (getNumAtoms mol)) mcur i
  = mergedHs mergeUnmappedOnly mol i.
Proof.
  intros (Hb & Hn & Hp) Hr. unfold eligibleHs, mergedHs.
  rewrite (getAtomNeighbors_ext mcur mol) by done.
  apply filter_ext_elem. intros nbr Hnbr.
  rewrite hatoms_lookup by (by eapply neighbors_in_range).
  unfold hasProp. by rewrite Hp.
Qed.

Section MergeLoop.
Variables (rank : nat -> nat) (p : nat) (rec : nat -> MergeState -> option MergeState).
Variables (mergeUnmappedOnly : bool) (mol : Mol).
Hypothesis Hrec : recOK rank p rec.
Hypothesis Hrange : bondsInRange mol.

Lemma mergeLoop_ok idxs atomsToRemove st mcur :
  heapOK rank st.1 -> st.1 !! p = Some mcur -> sameSkeleton mol mcur ->
  (forall i, i ∈ idxs -> i < getNumAtoms mol) ->
  exists st',
    mergeLoop rec mergeUnmappedOnly (queryHAt mol <$> seq 0 (getNumAtoms mol)) p idxs
      atomsToRemove st
    = Some (atomsToRemove ++
            flat_map (fun i => if queryHAt mol i then []
                               else mergedHs mergeUnmappedOnly mol i) idxs, st') /\
    heapOK rank st'.1 /\ sameDom st.1 st'.1 /\
    (forall y, rank p < rank y -> st'.1 !! y = st.1 !! y) /\
    (exists l, st'.2 = st.2 ++ l) /\
    st'.1 !! p = Some (compensateAll mergeUnmappedOnly mol idxs mcur).
Proof.
  revert atomsToRemove st mcur.
  induction idxs as [|i idxs IH]; intros acc st mcur Hok Hp Hsk Hidx.
  - exists st. simpl. rewrite app_nil_r. split; [done|]. split; [done|].
    split; [apply sameDom_refl|]. split; [done|]. split; [|done].
    exists []. by rewrite app_nil_r.
  - assert (Hi : i < getNumAtoms mol) by (apply Hidx; left).
    assert (Hidx' : forall j, j ∈ idxs -> j < getNumAtoms mol).
    { intros j Hj. apply Hidx. by right. }
    cbn [mergeLoop flat_map]. rewrite Hp. cbn [mbind option_bind].
    rewrite hatoms_lookup by done.
    unfold compensateAll. cbn [foldl]. fold (compensateAll mergeUnmappedOnly mol idxs).
    destruct (queryHAt mol i) eqn:Hq.
    { simpl. by apply IH. }
    rewrite (eligibleHs_mergedHs _ mol mcur) by done.
    set (hs := mergedHs mergeUnmappedOnly mol i).
    set (mcur' := compensate (length hs) i mcur).
    set (st1 := (<[p := mcur']> st.1, st.2) : MergeState).
    assert (Hok1 : heapOK rank st1.1).
    { apply (heapOK_insert rank st.1 p mcur); [done|done|].
      apply compensate_molOK. by apply Hok. }
    assert (Hp1 : st1.1 !! p = Some mcur') by apply lookup_insert_eq.
    assert (Hstep : stepOK rank (rank p) st1
              (match query (getAtomWithIdx mcur' i) with
               | Some q => recurseQuery rec q st1
               | None => Some st1
               end)).
    { destruct (query (getAtomWithIdx mcur' i)) as [q|] eqn:Hqi; [|by apply stepOK_ret].
      apply recurseQuery_ok; [done|done|].
      destruct (Hok1 p mcur' Hp1) as (_ & _ & Hn). apply (Hn (getAtomWithIdx mcur' i)); [|done].
      apply list_elem_of_lookup_total_2. unfold mcur'.
      destruct Hsk as (_ & Hn' & _).
      fold (getNumAtoms (compensate (length hs) i mcur)).
      rewrite compensate_updAtom, getNumAtoms_updAtom. lia. }
    destruct Hstep as (st2 & -> & Hok2 & Hd2 & Hf2 & l2 & Hl2).
    cbn [mbind option_bind].
    destruct (IH (acc ++ hs) st2 mcur') as (st3 & Hr3 & Hok3 & Hd3 & Hf3 & (l3 & Hl3) & Hp3).
    + done.
    + rewrite Hf2 by lia. done.
    + by apply sameSkeleton_compensate.
    + done.
    + exists st3. rewrite Hr3, <- app_assoc. split; [done|]. split; [done|].
      split.
      { eapply sameDom_trans; [|done]. eapply sameDom_trans; [|done].
        by eapply sameDom_insert. }
      split.
      { intros y Hy. rewrite Hf3, Hf2 by lia. simpl.
        rewrite lookup_insert_ne; [done|]. intros ->. lia. }
      split; [|done].
      exists (l2 ++ l3). by rewrite Hl3, Hl2, app_assoc.
Qed.

End MergeLoop.

(* ===================================================================== *)
(** * Removing the merged hydrogens                                       *)
(* ===================================================================== *)

(** A sorted list without duplicates, read backwards, falls strictly. *)
Lemma descending_reverse_sort (l : list nat) :
  NoDup l -> StronglySorted gt (reverse (merge_sort (≤) l)).
Proof.
  intros Hnd.
  assert (Hs : StronglySorted le (merge_sort (≤) l)) by (apply StronglySorted_merge_sort; apply _).
  assert (Hnd' : NoDup (merge_sort (≤) l)) by by rewrite merge_sort_Permutation.
  induction Hs as [|x k Hk IH Hx]; [constructor|].
  apply NoDup_cons in Hnd' as [Hxk Hnd']. rewrite reverse_cons.
  apply StronglySorted_app_2; [|by apply IH|repeat constructor].
  intros y ? Hy ->%list_elem_of_singleton. rewrite elem_of_reverse in Hy.
  rewrite Forall_forall in Hx. pose proof (Hx y Hy).
  assert (x <> y) by (by intros ->). unfold gt. lia.
Qed.

Lemma atomsWithout_removeAtom i rest mol :
  i < getNumAtoms mol -> Forall (gt i) rest ->
  atomsWithout rest (removeAtom i mol) = atomsWithout (i :: rest) mol.
Proof.
  intros Hi Hrest. rewrite Forall_forall in Hrest. unfold atomsWithout.
  rewrite getNumAtoms_removeAtom by done.
  replace (getNumAtoms mol) with (i + S (getNumAtoms mol - 1 - i)) at 2 by lia.
  replace (getNumAtoms mol - 1) with (i + (getNumAtoms mol - 1 - i)) at 1 by lia.
  set (k := getNumAtoms mol - 1 - i).
  rewrite !seq_app, !List.filter_app, !fmap_app. simpl.
  rewrite bool_decide_eq_true_2 by left. simpl. f_equal.
  - rewrite (filter_ext_elem _ (fun j => negb (bool_decide (j ∈ i :: rest))) (seq 0 i)).
    + apply list_fmap_ext. intros n j Hj.
      apply list_elem_of_lookup_2, elem_of_filter in Hj as [Hj _].
      apply elem_of_seq in Hj.
      rewrite <- (getAtomWithIdx_removeAtom i mol j) by lia.
      unfold shiftIdx. by rewrite decide_False by lia.
    + intros j Hj. apply elem_of_seq in Hj. f_equal. apply bool_decide_ext.
      rewrite elem_of_cons. split; [by right|]. intros [->|?]; [lia|done].
  - rewrite !filter_all.
    + rewrite <- fmap_S_seq, <- list_fmap_compose. apply list_fmap_ext.
      intros n j Hj. apply list_elem_of_lookup_2, elem_of_seq in Hj. simpl.
      rewrite <- (getAtomWithIdx_removeAtom i mol (S j)) by lia.
      unfold shiftIdx. rewrite decide_True by lia. f_equal. lia.
    + intros j Hj. apply elem_of_seq in Hj. apply negb_true_iff, bool_decide_eq_false.
      rewrite elem_of_cons. intros [->|Hj']; [lia|]. specialize (Hrest j Hj'). unfold gt in *. lia.
    + intros j Hj. apply elem_of_seq in Hj. apply negb_true_iff, bool_decide_eq_false.
      intros Hj'. specialize (Hrest j Hj'). unfold gt in *. lia.
Qed.

Lemma atomsWithout_nil mol : atomsWithout [] mol = atoms mol.
Proof.
  unfold atomsWithout. rewrite filter_all.
  - apply list_eq_same_length with (getNumAtoms mol); [done|by rewrite length_fmap, length_seq|].
    intros j a b Hj. rewrite list_lookup_fmap, lookup_seq_lt by done. simpl.
    intros [= <-] Hb. unfold getAtomWithIdx. by rewrite (list_lookup_total_correct _ _ _ Hb).
  - intros j _. apply negb_true_iff, bool_decide_eq_false. by intros ?%elem_of_nil.
Qed.

(** ** What a removal keeps *)

Lemma bondsInRange_removeAtom h m :
  h < getNumAtoms m -> bondsInRange m -> bondsInRange (removeAtom h m).
Proof.
  intros Hh Hr b Hb. rewrite getNumAtoms_removeAtom by done.
  unfold removeAtom in Hb; simpl in Hb.
  apply list_elem_of_fmap in Hb as (b0 & -> & Hb0).
  apply elem_of_filter in Hb0 as [Hb0 Ht]. destruct (Hr b0 Hb0) as [H1 H2].
  apply negb_true_iff in Ht. unfold touches in Ht. apply orb_false_iff in Ht as [Ht1 Ht2].
  apply bool_decide_eq_false in Ht1, Ht2.
  unfold renumberBond, shiftIdx; simpl. repeat case_decide; lia.
Qed.

Lemma HsSinglyBonded_removeAtom h m :
  h < getNumAtoms m -> HsSinglyBonded m -> HsSinglyBonded (removeAtom h m).
Proof.
  intros Hh Hs j Hj. rewrite getNumAtoms_removeAtom in Hj by done.
  set (pj := if decide (j < h) then j else S j).
  assert (Hpj : pj <> h /\ shiftIdx h pj = j /\ pj < getNumAtoms m).
  { unfold pj, shiftIdx. repeat case_decide; lia. }
  destruct Hpj as (Hne & Hsh & Hlt). rewrite <- Hsh.
  rewrite getAtomWithIdx_removeAtom by done. intros H1.
  specialize (Hs pj Hlt H1).
  rewrite getDegree_neighbors in *. rewrite getAtomNeighbors_removeAtom by done.
  rewrite length_fmap.
  etrans; [|exact Hs]. apply List.filter_length_le.
Qed.

Lemma molOK_removeAtom rank heap p h m :
  h < getNumAtoms m -> molOK rank heap p m -> molOK rank heap p (removeAtom h m).
Proof.
  intros Hh (Hr & Hs & Hn). split; [by apply bondsInRange_removeAtom|].
  split; [by apply HsSinglyBonded_removeAtom|].
  intros a q Ha. apply Hn. unfold removeAtom in Ha; simpl in Ha.
  by eapply list_elem_of_delete_inv.
Qed.

(** Falling indices are removed one after the other without any of them
    getting out of range, and the atoms at the other indices stay. *)
Lemma removeAtoms_descending rank heap p idxs mol :
  StronglySorted gt idxs -> Forall (fun i => i < getNumAtoms mol) idxs ->
  molOK rank heap p mol ->
  exists mol', removeAtoms idxs mol = Some mol' /\
    atoms mol' = atomsWithout idxs mol /\
    getNumAtoms mol' = getNumAtoms mol - length idxs /\
    molOK rank heap p mol'.
Proof.
  revert mol. induction idxs as [|i rest IH]; intros mol Hs Hlt Hok.
  - exists mol. simpl. rewrite atomsWithout_nil. split; [done|]. split; [done|].
    split; [lia|done].
  - apply StronglySorted_cons in Hs as [Hi Hs].
    apply Forall_cons in Hlt as [Hlt Hrest].
    cbn [removeAtoms]. rewrite decide_True by done.
    destruct (IH (removeAtom i mol)) as (mol' & Hr & Ha & Hn & Hok'); [done| |by apply molOK_removeAtom|].
    + rewrite getNumAtoms_removeAtom by done. rewrite Forall_forall in Hi |- *.
      intros j Hj. specialize (Hi j Hj). unfold gt in Hi. lia.
    + exists mol'. split; [done|]. split; [by rewrite Ha, atomsWithout_removeAtom|].
      split; [|done]. rewrite Hn, getNumAtoms_removeAtom by done. simpl. lia.
Qed.

(* ===================================================================== *)
(** * No hydrogen is listed twice                                         *)
(* ===================================================================== *)

Lemma queryHAt_degree mol h :
  HsSinglyBonded mol -> h < getNumAtoms mol -> queryHAt mol h = true ->
  getDegree mol h <= 1.
Proof.
  intros Hs Hh. unfold queryHAt. rewrite isQueryH_spec.
  destruct (plainH mol h) eqn:Hp.
  - intros _. apply Hs; [done|]. unfold plainH in Hp.
    apply andb_true_iff in Hp as [Hp _]. by apply Nat.eqb_eq in Hp.
  - destruct (getDegree mol h =? 1) eqn:Hd; simpl; [|done].
    apply Nat.eqb_eq in Hd. lia.
Qed.

Lemma single_bond_unique m h i i' k k' :
  getDegree m h <= 1 ->
  k ∈ getAtomBonds m i -> getOtherAtomIdx (getBondWithIdx m k) i = h ->
  k' ∈ getAtomBonds m i' -> getOtherAtomIdx (getBondWithIdx m k') i' = h ->
  k = k' /\ i = i'.
Proof.
  intros Hd Hk Ho Hk' Ho'.
  assert (Hat : forall j n, n ∈ getAtomBonds m j ->
            getOtherAtomIdx (getBondWithIdx m n) j = h -> n ∈ getAtomBonds m h).
  { intros j n Hn Hoj. unfold getAtomBonds in *.
    apply elem_of_filter in Hn as [Hn Ht]. apply elem_of_filter. split; [done|].
    unfold touches, getOtherAtomIdx in *.
    repeat case_bool_decide; simpl in *; try done; congruence. }
  pose proof (Hat _ _ Hk Ho) as H1. pose proof (Hat _ _ Hk' Ho') as H2.
  assert (k = k') as <-.
  { unfold getDegree in Hd. destruct (getAtomBonds m h) as [|a [|b l]]; simpl in Hd; [|  |lia].
    - by apply elem_of_nil in H1.
    - apply list_elem_of_singleton in H1, H2. congruence. }
  split; [done|].
  unfold getAtomBonds in Hk, Hk'.
  apply elem_of_filter in Hk as [_ Ht]. apply elem_of_filter in Hk' as [_ Ht'].
  unfold touches, getOtherAtomIdx in *.
  repeat case_bool_decide; simpl in *; try done; congruence.
Qed.

Lemma NoDup_filter_fmap_inj {A B} (f : A -> B) (P : B -> bool) (l : list A) :
  NoDup l ->
  (forall x y, x ∈ l -> y ∈ l -> P (f x) = true -> f x = f y -> x = y) ->
  NoDup (List.filter P (f <$> l)).
Proof.
  induction 1 as [|x l Hx Hnd IH]; intros Hinj; [constructor|].
  assert (Hl : NoDup (List.filter P (f <$> l))).
  { apply IH. intros a b Ha Hb. apply Hinj; by right. }
  csimpl. destruct (P (f x)) eqn:HP; [|done].
  apply NoDup_cons. split; [|done].
  intros [Hin _]%elem_of_filter. apply list_elem_of_fmap in Hin as (y & Hfy & Hy).
  apply Hx. rewrite (Hinj x y); [done|by left|by right|done|done].
Qed.

Lemma NoDup_List_filter {A} (P : A -> bool) (l : list A) :
  NoDup l -> NoDup (List.filter P l).
Proof.
  induction 1 as [|x l Hx Hnd IH]; simpl; [constructor|].
  destruct (P x); [|done]. apply NoDup_cons. split; [|done].
  by intros [? _]%elem_of_filter.
Qed.

Lemma NoDup_getAtomBonds m i : NoDup (getAtomBonds m i).
Proof. unfold getAtomBonds. apply NoDup_List_filter, NoDup_seq. Qed.

Lemma flat_map_bind {A B} (f : A -> list B) (l : list A) : flat_map f l = l ≫= f.
Proof. induction l as [|a l IH]; csimpl; [done|]. by rewrite IH. Qed.

Section MergedHs.
Variables (mergeUnmappedOnly : bool) (mol : Mol).
Hypothesis Hrange : bondsInRange mol.
Hypothesis Hsingle : HsSinglyBonded mol.

Lemma mergedHs_elem h i :
  h ∈ mergedHs mergeUnmappedOnly mol i ->
  queryHAt mol h = true /\ h < getNumAtoms mol /\ getDegree mol h <= 1 /\
  exists k, k ∈ getAtomBonds mol i /\ getOtherAtomIdx (getBondWithIdx mol k) i = h.
Proof.
  unfold mergedHs. intros [Hn Hq]%elem_of_filter.
  apply andb_true_iff in Hq as [Hq _].
  pose proof (neighbors_in_range _ _ _ Hrange Hn) as Hh.
  split; [done|]. split; [done|]. split; [by apply queryHAt_degree|].
  apply elem_of_getAtomNeighbors in Hn as (k & Hk & ->). by exists k.
Qed.

Lemma NoDup_mergedHs i : NoDup (mergedHs mergeUnmappedOnly mol i).
Proof.
  unfold mergedHs, getAtomNeighbors.
  apply NoDup_filter_fmap_inj; [apply NoDup_getAtomBonds|].
  intros k k' Hk Hk' HP Heq.
  assert (Hin : getOtherAtomIdx (getBondWithIdx mol k) i ∈ mergedHs mergeUnmappedOnly mol i).
  { unfold mergedHs. apply elem_of_filter. split; [|done].
    apply elem_of_getAtomNeighbors. by exists k. }
  apply mergedHs_elem in Hin as (_ & _ & Hd & _).
  by destruct (single_bond_unique mol _ i i k k' Hd Hk eq_refl Hk' (eq_sym Heq)).
Qed.

Lemma allMergedHs_elem h :
  h ∈ allMergedHs mergeUnmappedOnly mol <->
  exists i, i < getNumAtoms mol /\ queryHAt mol i = false /\
            h ∈ mergedHs mergeUnmappedOnly mol i.
Proof.
  unfold allMergedHs. rewrite flat_map_bind, list_elem_of_bind. split.
  - intros (i & Hh & Hi). apply elem_of_seq in Hi. exists i. split; [lia|].
    destruct (queryHAt mol i); [by apply elem_of_nil in Hh|done].
  - intros (i & Hi & Hq & Hh). exists i. rewrite Hq. split; [done|].
    apply elem_of_seq. lia.
Qed.

Lemma NoDup_allMergedHs : NoDup (allMergedHs mergeUnmappedOnly mol).
Proof.
  unfold allMergedHs. rewrite flat_map_bind. apply NoDup_bind; [| |apply NoDup_seq].
  - intros i i' h _ _ Hh Hh'.
    destruct (queryHAt mol i); [by apply elem_of_nil in Hh|].
    destruct (queryHAt mol i'); [by apply elem_of_nil in Hh'|].
    apply mergedHs_elem in Hh as (_ & _ & Hd & k & Hk & Ho).
    apply mergedHs_elem in Hh' as (_ & _ & _ & k' & Hk' & Ho').
    by destruct (single_bond_unique mol h i i' k k' Hd Hk Ho Hk' Ho').
  - intros i _. destruct (queryHAt mol i); [constructor|apply NoDup_mergedHs].
Qed.

Lemma allMergedHs_lt : Forall (fun h => h < getNumAtoms mol) (allMergedHs mergeUnmappedOnly mol).
Proof.
  apply Forall_forall. intros h (i & _ & _ & Hh)%allMergedHs_elem.
  by apply mergedHs_elem in Hh as (_ & ? & _).
Qed.

Lemma allMergedHs_queryH h :
  h ∈ allMergedHs mergeUnmappedOnly mol -> queryHAt mol h = true.
Proof.
  intros (i & _ & _ & Hh)%allMergedHs_elem. by apply mergedHs_elem in Hh as (? & _).
Qed.

End MergedHs.

(* ===================================================================== *)
(** * mergeQueryHs returns, and what it leaves                            *)
(* ===================================================================== *)

Lemma sameSkeleton_compensateAll mergeUnmappedOnly mol idxs mcur :
  sameSkeleton mol mcur -> sameSkeleton mol (compensateAll mergeUnmappedOnly mol idxs mcur).
Proof.
  revert mcur. induction idxs as [|i idxs IH]; intros mcur Hs; [done|].
  unfold compensateAll. cbn [foldl]. apply IH.
  destruct (queryHAt mol i); [done|]. by apply sameSkeleton_compensate.
Qed.

Lemma atomsWithout_ext l l' mol :
  (forall i, i ∈ l <-> i ∈ l') -> atomsWithout l mol = atomsWithout l' mol.
Proof.
  intros H. unfold atomsWithout. f_equal. apply filter_ext_elem. intros i _.
  f_equal. by apply bool_decide_ext.
Qed.

Lemma elem_of_reverse_sort (l : list nat) i : i ∈ reverse (merge_sort (≤) l) <-> i ∈ l.
Proof. by rewrite elem_of_reverse, merge_sort_Permutation. Qed.

Lemma mergeQueryHs_ok rank fuel p mergeUnmappedOnly st mol :
  heapOK rank st.1 -> st.1 !! p = Some mol -> rank p < fuel ->
  exists st' mol',
    mergeQueryHs fuel p mergeUnmappedOnly st = Some st' /\
    heapOK rank st'.1 /\ sameDom st.1 st'.1 /\
    (forall y, rank p < rank y -> st'.1 !! y = st.1 !! y) /\
    (exists l, st'.2 = st.2 ++ flat_map (warningsAt mol) (seq 0 (getNumAtoms mol)) ++ l) /\
    removeAtoms (reverse (merge_sort (≤) (allMergedHs mergeUnmappedOnly mol)))
      (compensated mergeUnmappedOnly mol) = Some mol' /\
    atoms mol' = atomsWithout (allMergedHs mergeUnmappedOnly mol)
                   (compensated mergeUnmappedOnly mol) /\
    st'.1 !! p = Some mol'.
Proof.
  revert p st mol. induction fuel as [|fuel IH]; intros p st mol Hok Hp Hfuel; [lia|].
  cbn [mergeQueryHs]. rewrite Hp. cbn [mbind option_bind].
  rewrite mapM_isQueryH. cbn [mbind option_bind].
  rewrite <- !list_fmap_compose.
  change (fst ∘ _) with (queryHAt mol).
  set (st0 := (st.1, st.2 ++ _) : MergeState).
  assert (Hlog0 : st0.2 = st.2 ++ flat_map (warningsAt mol) (seq 0 (getNumAtoms mol))).
  { unfold st0. simpl. f_equal. generalize (seq 0 (getNumAtoms mol)).
    induction l as [|i l IHl]; [done|]. csimpl. by rewrite IHl. }
  destruct (Hok p mol Hp) as (Hrange & Hsingle & _).
  assert (Hrec : recOK rank p (fun rqm => mergeQueryHs fuel rqm mergeUnmappedOnly)).
  { intros x stx Hx Hokx [mx Hmx].
    destruct (IH x stx mx Hokx Hmx) as (st' & _ & Hr & Hok' & Hd & Hf & (l & Hl) & _); [lia|].
    exists st'. split; [done|]. split; [done|]. split; [done|]. split.
    - intros y Hy. apply Hf. lia.
    - by eexists. }
  destruct (mergeLoop_ok rank p _ mergeUnmappedOnly mol Hrec Hrange
              (seq 0 (getNumAtoms mol)) [] st0 mol)
    as (st1 & Hr1 & Hok1 & Hd1 & Hf1 & (l1 & Hl1) & Hp1); [done|done|done| |].
  { intros i Hi. apply elem_of_seq in Hi. lia. }
  rewrite Hr1. cbn [mbind option_bind app].
  fold (allMergedHs mergeUnmappedOnly mol). fold (compensated mergeUnmappedOnly mol) in Hp1.
  rewrite Hp1. cbn [mbind option_bind].
  pose proof (sameSkeleton_compensateAll mergeUnmappedOnly mol (seq 0 (getNumAtoms mol)) mol
                (sameSkeleton_refl mol)) as (_ & Hnum & _).
  fold (compensated mergeUnmappedOnly mol) in Hnum.
  destruct (removeAtoms_descending rank st1.1 p
              (reverse (merge_sort (≤) (allMergedHs mergeUnmappedOnly mol)))
              (compensated mergeUnmappedOnly mol))
    as (mol' & Hrm & Hat & _ & Hok').
  { apply descending_reverse_sort. by apply NoDup_allMergedHs. }
  { apply Forall_forall. intros h Hh. apply (proj1 (elem_of_reverse_sort _ _)) in Hh. rewrite Hnum.
    pose proof (allMergedHs_lt mergeUnmappedOnly mol Hrange Hsingle) as Hlt.
    rewrite Forall_forall in Hlt. by apply Hlt. }
  { by apply Hok1. }
  rewrite Hrm. cbn [mbind option_bind].
  exists (<[p := mol']> st1.1, st1.2), mol'. split; [done|]. simpl.
  split; [by eapply heapOK_insert|].
  split.
  { eapply sameDom_trans; [exact Hd1|]. by eapply sameDom_insert. }
  split.
  { intros y Hy. rewrite lookup_insert_ne by (intros ->; lia). by rewrite Hf1. }
  split.
  { exists l1. by rewrite Hl1, Hlog0, app_assoc. }
  split; [done|]. split; [|apply lookup_insert_eq].
  rewrite Hat. apply atomsWithout_ext. intros i. apply elem_of_reverse_sort.
Qed.

Lemma compensateAll_atom mergeUnmappedOnly mol idxs mcur j :
  NoDup idxs -> j < getNumAtoms mcur ->
  getAtomWithIdx (compensateAll mergeUnmappedOnly mol idxs mcur) j =
  if decide (j ∈ idxs /\ queryHAt mol j = false)
  then compensateAtom (length (mergedHs mergeUnmappedOnly mol j)) (getAtomWithIdx mcur j)
  else getAtomWithIdx mcur j.
Proof.
  intros Hnd. revert mcur. induction Hnd as [|i idxs Hi Hnd IH]; intros mcur Hj.
  - done.
  - change (compensateAll mergeUnmappedOnly mol (i :: idxs) mcur)
      with (compensateAll mergeUnmappedOnly mol idxs
              (if queryHAt mol i then mcur
               else compensate (length (mergedHs mergeUnmappedOnly mol i)) i mcur)).
    set (mcur' := if queryHAt mol i then mcur else _).
    assert (Hn : getNumAtoms mcur' = getNumAtoms mcur).
    { unfold mcur'. destruct (queryHAt mol i); [done|].
      by rewrite compensate_updAtom, getNumAtoms_updAtom. }
    rewrite IH by lia.
    destruct (decide (j = i)) as [->|Hne].
    + rewrite decide_False by (intros [? _]; done).
      unfold mcur'. destruct (queryHAt mol i) eqn:Hq.
      * rewrite decide_False; [done|]. intros [_ ?]. done.
      * rewrite decide_True by (split; [left|done]).
        by rewrite compensate_updAtom, getAtomWithIdx_updAtom_eq.
    + assert (Ha : getAtomWithIdx mcur' j = getAtomWithIdx mcur j).
      { unfold mcur'. destruct (queryHAt mol i); [done|].
        by rewrite compensate_updAtom, getAtomWithIdx_updAtom_ne. }
      rewrite Ha. apply decide_ext. rewrite elem_of_cons. intuition congruence.
Qed.

Lemma compensated_atom mergeUnmappedOnly mol j :
  j < getNumAtoms mol ->
  getAtomWithIdx (compensated mergeUnmappedOnly mol) j =
  if queryHAt mol j then getAtomWithIdx mol j
  else compensateAtom (length (mergedHs mergeUnmappedOnly mol j)) (getAtomWithIdx mol j).
Proof.
  intros Hj. unfold compensated. rewrite compensateAll_atom by (apply NoDup_seq || done).
  destruct (queryHAt mol j).
  - rewrite decide_False; [done|]. intros [_ ?]. done.
  - rewrite decide_True; [done|]. split; [|done]. apply elem_of_seq. lia.
Qed.

Lemma getNumAtoms_compensated mergeUnmappedOnly mol :
  getNumAtoms (compensated mergeUnmappedOnly mol) = getNumAtoms mol.
Proof.
  by destruct (sameSkeleton_compensateAll mergeUnmappedOnly mol (seq 0 (getNumAtoms mol)) mol
                 (sameSkeleton_refl mol)) as (_ & ? & _).
Qed.

Lemma atomsWithout_elem removed mol i :
  i < getNumAtoms mol -> i ∉ removed -> getAtomWithIdx mol i ∈ atomsWithout removed mol.
Proof.
  intros Hi Hr. unfold atomsWithout. apply list_elem_of_fmap. exists i. split; [done|].
  apply elem_of_filter. split; [apply elem_of_seq; lia|].
  by apply negb_true_iff, bool_decide_eq_false.
Qed.

Lemma heapOK_singleton rank p mol :
  bondsInRange mol -> HsSinglyBonded mol ->
  (forall a, a ∈ atoms mol -> query a = None) ->
  heapOK rank {[ p := mol ]}.
Proof.
  intros Hr Hs Hq p' mol' [-> ->]%lookup_singleton_Some.
  split; [done|]. split; [done|]. intros a q Ha Hqa. by rewrite (Hq a Ha) in Hqa.
Qed.

(* ===================================================================== *)
(** * Query hydrogens: the theorems                                       *)
(* ===================================================================== *)

(** C5. Merging the query hydrogens of a molecule on a well-formed heap
    returns. An atom [idx] that is not a query hydrogen and has n > 0
    eligible query-hydrogen neighbours then carries the query it had (one
    for its atomic number if it had none) with the negated H-count queries
    for 0, ..., n-1 ANDed to it one after the other, and keeps its
    properties. The merged hydrogens, and only they, are then removed one
    by one in strictly falling index order; this leaves the atoms at all
    the other indices in their order, the atom [idx] among them. *)
Theorem mergeQueryHs_compensates_and_removes
    (rank : nat -> nat) (fuel p : nat) (mergeUnmappedOnly : bool)
    (st : MergeState) (mol : Mol) (idx : nat) :
  heapOK rank st.1 -> st.1 !! p = Some mol -> rank p < fuel ->
  idx < getNumAtoms mol -> queryHAt mol idx = false ->
  0 < length (mergedHs mergeUnmappedOnly mol idx) ->
  exists st' mol',
    mergeQueryHs fuel p mergeUnmappedOnly st = Some st' /\ st'.1 !! p = Some mol' /\
    let mol1 := compensated mergeUnmappedOnly mol in
    let removed := reverse (merge_sort (≤) (allMergedHs mergeUnmappedOnly mol)) in
    query (getAtomWithIdx mol1 idx)
    = Some (andNotHCounts (length (mergedHs mergeUnmappedOnly mol idx))
              (baseQuery (getAtomWithIdx mol idx))) /\
    props (getAtomWithIdx mol1 idx) = props (getAtomWithIdx mol idx) /\
    removeAtoms removed mol1 = Some mol' /\
    StronglySorted gt removed /\
    (forall h, h ∈ removed <->
       exists i, i < getNumAtoms mol /\ queryHAt mol i = false /\
                 h ∈ mergedHs mergeUnmappedOnly mol i) /\
    atoms mol' = atomsWithout removed mol1 /\
    (idx ∉ removed) /\
    getAtomWithIdx mol1 idx ∈ atoms mol'.
Proof.
  intros Hok Hp Hfuel Hidx Hq Hn.
  destruct (mergeQueryHs_ok rank fuel p mergeUnmappedOnly st mol Hok Hp Hfuel)
    as (st' & mol' & Hr & _ & _ & _ & _ & Hrm & Hat & Hp').
  destruct (Hok p mol Hp) as (Hrange & Hsingle & _).
  exists st', mol'. split; [done|]. split; [done|]. cbv zeta.
  assert (Hnot : idx ∉ allMergedHs mergeUnmappedOnly mol).
  { intros Hin. apply allMergedHs_queryH in Hin; [congruence|done|done]. }
  pose proof (compensated_atom mergeUnmappedOnly mol idx Hidx) as Ha. rewrite Hq in Ha.
  split; [by rewrite Ha, compensateAtom_query|].
  split; [by rewrite Ha, compensateAtom_props|].
  split; [done|].
  split; [by apply descending_reverse_sort, NoDup_allMergedHs|].
  split; [intros h; etrans; [apply elem_of_reverse_sort|apply allMergedHs_elem]|].
  split; [rewrite Hat; apply atomsWithout_ext; intros i; by rewrite elem_of_reverse_sort|].
  split; [by rewrite elem_of_reverse_sort|].
  rewrite Hat. apply atomsWithout_elem; [by rewrite getNumAtoms_compensated|done].
Qed.

Lemma ex_CH2_heapOK : heapOK (fun _ => 0) {[ 0 := ex_CH2 ]}.
Proof.
  apply heapOK_singleton.
  - intros b Hb. simpl in Hb.
    repeat (apply elem_of_cons in Hb as [->|Hb]; [cbv; lia|]). by apply elem_of_nil in Hb.
  - intros i Hi Ha. destruct i as [|[|[|i]]]; cbv in Hi, Ha |- *; lia.
  - intros a Ha. simpl in Ha.
    repeat (apply elem_of_cons in Ha as [->|Ha]; [done|]). by apply elem_of_nil in Ha.
Qed.

(** C5 at [C([H])[H]]: the carbon gets [#6 ; !H0 ; !H1], the hydrogens at
    2 and 1 are removed in this order. *)
Lemma mergeQueryHs_compensates_and_removes_witness :
  let st : MergeState := ({[ 0 := ex_CH2 ]}, []) in
  heapOK (fun _ => 0) st.1 /\ st.1 !! 0 = Some ex_CH2 /\ 0 < 1 /\
  0 < getNumAtoms ex_CH2 /\ queryHAt ex_CH2 0 = false /\
  0 < length (mergedHs false ex_CH2 0) /\
  exists st' mol',
    mergeQueryHs 1 0 false st = Some st' /\ st'.1 !! 0 = Some mol' /\
    let mol1 := compensated false ex_CH2 in
    let removed := reverse (merge_sort (≤) (allMergedHs false ex_CH2)) in
    query (getAtomWithIdx mol1 0)
    = Some (andNotHCounts (length (mergedHs false ex_CH2 0))
              (baseQuery (getAtomWithIdx ex_CH2 0))) /\
    props (getAtomWithIdx mol1 0) = props (getAtomWithIdx ex_CH2 0) /\
    removeAtoms removed mol1 = Some mol' /\
    StronglySorted gt removed /\
    (forall h, h ∈ removed <->
       exists i, i < getNumAtoms ex_CH2 /\ queryHAt ex_CH2 i = false /\
                 h ∈ mergedHs false ex_CH2 i) /\
    atoms mol' = atomsWithout removed mol1 /\
    (0 ∉ removed) /\
    getAtomWithIdx mol1 0 ∈ atoms mol'.
Proof.
  cbv zeta.
  assert (H1 : ({[ 0 := ex_CH2 ]} : gmap nat Mol) !! 0 = Some ex_CH2) by reflexivity.
  assert (H2 : 0 < 1) by lia.
  assert (H3 : 0 < getNumAtoms ex_CH2) by (cbv; lia).
  assert (H4 : queryHAt ex_CH2 0 = false) by reflexivity.
  assert (H5 : 0 < length (mergedHs false ex_CH2 0)) by (cbv; lia).
  split; [exact ex_CH2_heapOK|]. do 5 (split; [assumption|]).
  exact (mergeQueryHs_compensates_and_removes (fun _ => 0) 1 0 false
           ({[ 0 := ex_CH2 ]}, []) ex_CH2 0 ex_CH2_heapOK H1 H2 H3 H4 H5).
Defined.

(** The example in full: the list of removals and the molecule left. *)
Lemma ex_CH2_merged :
  reverse (merge_sort (≤) (allMergedHs false ex_CH2)) = [2; 1] /\
  mergeQueryHs 1 0 false ({[ 0 := ex_CH2 ]}, [])
  = Some ({[ 0 := mkMol [setQuery (qAnd [qAnd [makeAtomNumQuery 6;
                                                setNegation true (makeAtomHCountQuery 0)];
                                         setNegation true (makeAtomHCountQuery 1)])
                                  newQueryAtom] [] [] ]}, []).
Proof. split; reflexivity. Qed.

(** A molecule inside a recursive query is merged with the one that holds
    the query, given fuel for the depth of the nesting. *)
Lemma ex_recursive_merged :
  mergeQueryHs 2 0 false (ex_recursive_heap, [])
  = Some ({[ 0 := mkMol [setQuery (qAnd [qAnd [makeAtomNumQuery 6; qRecursive 1];
                                         setNegation true (makeAtomHCountQuery 0)])
                                  newQueryAtom] [] [];
             1 := mkMol [setQuery (qAnd [qAnd [makeAtomNumQuery 6;
                                                setNegation true (makeAtomHCountQuery 0)];
                                         setNegation true (makeAtomHCountQuery 1)])
                                  newQueryAtom] [] [] ]}, []).
Proof. reflexivity. Qed.

(** ** An OR anywhere in the tree *)

Lemma querySize_child c q : c ∈ getChildren q -> querySize c < querySize q.
Proof.
  rewrite (querySize_children q). generalize (getChildren q). intros cs Hc.
  induction cs as [|c' cs IH]; [by apply elem_of_nil in Hc|].
  unfold stackSize in *. simpl. apply elem_of_cons in Hc as [<-|Hc]; [lia|].
  specialize (IH Hc). lia.
Qed.

Lemma queryNodes_child c q node :
  c ∈ getChildren q -> node ∈ queryNodes c -> node ∈ queryNodes q.
Proof.
  intros Hc Hn. rewrite (queryNodes_unfold q). apply elem_of_cons. right.
  rewrite flat_map_bind. apply list_elem_of_bind. by exists c.
Qed.

(** An OR node below a node of the work list is seen, or hidden below
    another OR that is: the scan never misses that there is one. *)
Lemma seesOr_containsOr q :
  leafAtomicNums q -> containsOr q = true -> seesOr q = true.
Proof.
  remember (querySize q) as n eqn:Hn. revert q Hn.
  induction n as [n IH] using lt_wf_ind. intros q -> Hleaf Hor.
  rewrite seesOr_unfold. case_bool_decide as Hd; [done|].
  unfold containsOr in Hor. apply existsb_exists in Hor as (node & Hnode & Hnor).
  apply list_elem_of_In in Hnode. apply bool_decide_eq_true in Hnor.
  rewrite queryNodes_unfold in Hnode. apply elem_of_cons in Hnode as [->|Hnode]; [done|].
  case_bool_decide as Ha.
  { rewrite (Hleaf q) in Hnode; [by apply elem_of_nil in Hnode| |done].
    rewrite queryNodes_unfold. by left. }
  rewrite flat_map_bind in Hnode. apply list_elem_of_bind in Hnode as (c & Hnc & Hc).
  apply existsb_exists. exists c. split; [by apply list_elem_of_In|].
  apply (IH (querySize c)); [by apply querySize_child|done| |].
  - intros node' Hn'. apply Hleaf. by eapply queryNodes_child.
  - apply existsb_exists. exists node. split; [by apply list_elem_of_In|].
    by apply bool_decide_eq_true.
Qed.

Lemma scanSeesOr_containsOr q :
  leafAtomicNums q -> containsOr q = true -> scanSeesOr q = true.
Proof.
  intros Hleaf Hor. pose proof (seesOr_containsOr q Hleaf Hor) as Hs.
  rewrite seesOr_unfold in Hs. unfold scanSeesOr.
  case_bool_decide; [done|]. simpl. by case_bool_decide.
Qed.

(** An atom with an OR anywhere in its query is never taken for a query
    hydrogen, warning or not. *)
Lemma isQueryH_containsOr mol idx q :
  query (getAtomWithIdx mol idx) = Some q -> leafAtomicNums q -> containsOr q = true ->
  queryHAt mol idx = false.
Proof.
  intros Hq Hleaf Hor. pose proof (scanSeesOr_containsOr q Hleaf Hor) as Hs.
  unfold queryHAt. rewrite isQueryH_spec.
  destruct (plainH mol idx) eqn:Hp.
  { unfold plainH in Hp. rewrite Hq in Hp.
    apply andb_true_iff in Hp as [_ Hp]. apply andb_true_iff in Hp as [_ Hp].
    apply bool_decide_eq_true in Hp. unfold scanSeesOr in Hs.
    rewrite (Hleaf q) in Hs; [|rewrite queryNodes_unfold; by left|done].
    rewrite Hp in Hs. done. }
  destruct (negb _); [done|]. rewrite Hq. destruct (getNegation q); [done|].
  rewrite Hs, andb_true_r. by destruct (scanSeesH q).
Qed.

(** The warning is written only when the root is not negated and the scan
    sees both a hydrogen leaf and an OR. *)
Lemma isQueryH_warning mol idx :
  warningsAt mol idx <> [] <->
  plainH mol idx = false /\ getDegree mol idx = 1 /\
  exists q, query (getAtomWithIdx mol idx) = Some q /\ getNegation q = false /\
            scanSeesH q = true /\ scanSeesOr q = true.
Proof.
  unfold warningsAt. rewrite isQueryH_spec.
  destruct (plainH mol idx); [by split; [|intros [? _]]|].
  destruct (getDegree mol idx =? 1) eqn:Hd; simpl.
  2:{ apply Nat.eqb_neq in Hd. split; [done|]. by intros (_ & ? & _). }
  apply Nat.eqb_eq in Hd.
  destruct (query (getAtomWithIdx mol idx)) as [q|]; [|by split; [|intros (_ & _ & ? & ? & _)]].
  destruct (getNegation q) eqn:Hneg.
  { split; [done|]. intros (_ & _ & q' & [= <-] & ? & _). congruence. }
  destruct (scanSeesH q) eqn:HH, (scanSeesOr q) eqn:HO; simpl.
  - split; [|done]. intros _. do 2 (split; [done|]). by exists q.
  - split; [done|]. intros (_ & _ & q' & [= <-] & _ & ? & ?). congruence.
  - split; [done|]. intros (_ & _ & q' & [= <-] & _ & ? & ?). congruence.
  - split; [done|]. intros (_ & _ & q' & [= <-] & _ & ? & ?). congruence.
Qed.

(** Where the warning is written. For a degree-1 atom that is not a plain
    hydrogen and whose query is not negated at the root: when the scan
    (the root looked at for an OR only, its children and their descendants
    breadth-first, OR nodes and atomic-number nodes not opened) sees a
    non-negated atomic-number-equals-1 leaf and an OR, [isQueryH] answers
    false and writes the warning; [mergeQueryHs] returns without an error,
    the warning is in its log, and the atom is not among the merged
    hydrogens: it is still in the molecule. *)
Theorem mergeQueryHs_or_query_warned
    (rank : nat -> nat) (fuel p : nat) (mergeUnmappedOnly : bool)
    (st : MergeState) (mol : Mol) (idx : nat) (q : Query) :
  heapOK rank st.1 -> st.1 !! p = Some mol -> rank p < fuel ->
  idx < getNumAtoms mol -> getDegree mol idx = 1 -> plainH mol idx = false ->
  query (getAtomWithIdx mol idx) = Some q -> getNegation q = false ->
  scanSeesH q = true -> scanSeesOr q = true ->
  isQueryH mol idx = Some (false, [orWarning]) /\
  exists st' mol',
    mergeQueryHs fuel p mergeUnmappedOnly st = Some st' /\ st'.1 !! p = Some mol' /\
    orWarning ∈ st'.2 /\
    (idx ∉ allMergedHs mergeUnmappedOnly mol) /\
    atoms mol' = atomsWithout (allMergedHs mergeUnmappedOnly mol)
                   (compensated mergeUnmappedOnly mol) /\
    getAtomWithIdx (compensated mergeUnmappedOnly mol) idx ∈ atoms mol'.
Proof.
  intros Hok Hp Hfuel Hidx Hdeg Hplain Hq Hneg HH HO.
  assert (His : isQueryH mol idx = Some (false, [orWarning])).
  { rewrite isQueryH_spec, Hplain, Hdeg, Hq, Hneg, HH, HO. done. }
  split; [done|].
  destruct (mergeQueryHs_ok rank fuel p mergeUnmappedOnly st mol Hok Hp Hfuel)
    as (st' & mol' & Hr & _ & _ & _ & (l & Hl) & _ & Hat & Hp').
  destruct (Hok p mol Hp) as (Hrange & Hsingle & _).
  exists st', mol'. split; [done|]. split; [done|].
  assert (Hnot : idx ∉ allMergedHs mergeUnmappedOnly mol).
  { intros Hin. apply allMergedHs_queryH in Hin; [|done..].
    unfold queryHAt in Hin. by rewrite His in Hin. }
  split.
  { rewrite Hl. apply elem_of_app. right. apply elem_of_app. left.
    rewrite flat_map_bind. apply list_elem_of_bind. exists idx.
    split; [|apply elem_of_seq; lia].
    unfold warningsAt. rewrite His. by left. }
  split; [done|]. split; [done|].
  rewrite Hat. apply atomsWithout_elem; [by rewrite getNumAtoms_compensated|done].
Qed.

Lemma ex_rootOr_heapOK : heapOK (fun _ => 0) {[ 0 := ex_rootOr ]}.
Proof.
  intros p mol [<- <-]%lookup_singleton_Some. split; [|split].
  - intros b Hb. simpl in Hb.
    repeat (apply elem_of_cons in Hb as [->|Hb]; [cbv; lia|]). by apply elem_of_nil in Hb.
  - intros i Hi Ha. destruct i as [|[|i]]; cbv in Hi, Ha |- *; lia.
  - intros a q Ha Hq node Hnode Hrs. simpl in Ha.
    apply elem_of_cons in Ha as [->|Ha]; [done|].
    apply elem_of_cons in Ha as [->|Ha]; [|by apply elem_of_nil in Ha].
    injection Hq as <-. simpl in Hnode.
    repeat (apply elem_of_cons in Hnode as [->|Hnode]; [done|]).
    by apply elem_of_nil in Hnode.
Qed.

(** At [C[#1,#6]] the OR is the root and the hydrogen leaf its child: the
    warning is written. *)
Lemma mergeQueryHs_or_query_warned_witness :
  let st : MergeState := ({[ 0 := ex_rootOr ]}, []) in
  let q := qOr [makeAtomNumQuery 1; makeAtomNumQuery 6] in
  heapOK (fun _ => 0) st.1 /\ st.1 !! 0 = Some ex_rootOr /\ 0 < 1 /\
  1 < getNumAtoms ex_rootOr /\ getDegree ex_rootOr 1 = 1 /\ plainH ex_rootOr 1 = false /\
  query (getAtomWithIdx ex_rootOr 1) = Some q /\ getNegation q = false /\
  scanSeesH q = true /\ scanSeesOr q = true /\
  isQueryH ex_rootOr 1 = Some (false, [orWarning]) /\
  exists st' mol',
    mergeQueryHs 1 0 false st = Some st' /\ st'.1 !! 0 = Some mol' /\
    orWarning ∈ st'.2 /\
    (1 ∉ allMergedHs false ex_rootOr) /\
    atoms mol' = atomsWithout (allMergedHs false ex_rootOr) (compensated false ex_rootOr) /\
    getAtomWithIdx (compensated false ex_rootOr) 1 ∈ atoms mol'.
Proof.
  cbv zeta.
  assert (H1 : ({[ 0 := ex_rootOr ]} : gmap nat Mol) !! 0 = Some ex_rootOr) by reflexivity.
  assert (H2 : 0 < 1) by lia.
  assert (H3 : 1 < getNumAtoms ex_rootOr) by (cbv; lia).
  assert (H4 : getDegree ex_rootOr 1 = 1) by reflexivity.
  assert (H5 : plainH ex_rootOr 1 = false) by reflexivity.
  assert (H6 : query (getAtomWithIdx ex_rootOr 1)
               = Some (qOr [makeAtomNumQuery 1; makeAtomNumQuery 6])) by reflexivity.
  assert (H7 : getNegation (qOr [makeAtomNumQuery 1; makeAtomNumQuery 6]) = false)
    by reflexivity.
  assert (H8 : scanSeesH (qOr [makeAtomNumQuery 1; makeAtomNumQuery 6]) = true)
    by reflexivity.
  assert (H9 : scanSeesOr (qOr [makeAtomNumQuery 1; makeAtomNumQuery 6]) = true)
    by reflexivity.
  split; [exact ex_rootOr_heapOK|]. do 9 (split; [assumption|]).
  exact (mergeQueryHs_or_query_warned (fun _ => 0) 1 0 false ({[ 0 := ex_rootOr ]}, [])
           ex_rootOr 1 _ ex_rootOr_heapOK H1 H2 H3 H4 H5 H6 H7 H8 H9).
Defined.

(** C6 fails on the code at [C[#1,#6;D1]]. The query of the degree-1
    atom 1, which is not a plain hydrogen, is an AND, not negated, of an OR
    and a degree test; the non-negated atomic-number-equals-1 leaf is a
    child of that OR. The loop of [isQueryH] notes the OR and does not open
    it, so the leaf is never seen: [isQueryH] answers false and writes no
    warning, where its comment says such queries are punted on with a
    warning and where the same OR at the root is warned about.
    [mergeQueryHs] raises no error, leaves the molecule as it is and its
    log empty. *)
Lemma mergeQueryHs_or_query_unwarned :
  let q := qAnd [qOr [makeAtomNumQuery 1; makeAtomNumQuery 6]; qDegree 1] in
  query (getAtomWithIdx ex_nestedOr 1) = Some q /\ getDegree ex_nestedOr 1 = 1 /\
  plainH ex_nestedOr 1 = false /\
  getNegation q = false /\ containsHLeaf q = true /\ containsOr q = true /\
  scanSeesH q = false /\ scanSeesOr q = true /\
  isQueryH ex_nestedOr 1 = Some (false, []) /\
  mergeQueryHs 1 0 false ({[ 0 := ex_nestedOr ]}, []) = Some ({[ 0 := ex_nestedOr ]}, []) /\
  isQueryH ex_rootOr 1 = Some (false, [orWarning]).
Proof. cbv zeta. repeat split; reflexivity. Qed.

(** The same with the OR at the root, negated there: no warning. *)
Lemma ex_negatedOr_no_warning :
  isQueryH ex_negatedOr 1 = Some (false, []) /\
  mergeQueryHs 1 0 false ({[ 0 := ex_negatedOr ]}, []) = Some ({[ 0 := ex_negatedOr ]}, []).
Proof. split; reflexivity. Qed.

(* ===================================================================== *)
(** * Further properties of removeHs                                      *)
(* ===================================================================== *)

Section RemoveHsMore.
Context {PT : PeriodicTable} {VM : ValenceModel}.

(** The loop leaves in the molecule every atom with a property that makes
    [removeIt] false for a hydrogen and that survives the steps of the
    loop; the atom need not be a hydrogen. *)
Lemma removeHsLoop_passes (P : Mol -> nat -> Prop) (implicitOnly upd : bool) :
  (forall m p, P m p -> atomicNum (getAtomWithIdx m p) = 1 ->
               removeIt implicitOnly m p = false) ->
  (forall m m' p, molAlike m m' -> P m p -> P m' p) ->
  (forall m h p, P m p -> p <> h -> P (removeAtom h m) (shiftIdx h p)) ->
  forall n m curr orig k,
    P m (curr + k) -> orig + k ∉ (removeHsLoop n implicitOnly upd m curr orig).2.
Proof.
  intros Hkeep Halike Hrem. induction n as [|n IH]; intros m curr orig k HP; simpl.
  - apply not_elem_of_nil.
  - case_bool_decide as Hlt; [|apply not_elem_of_nil].
    case_bool_decide as Hat.
    + destruct (removeIt implicitOnly m curr) eqn:Hr.
      * destruct k as [|k].
        { rewrite Nat.add_0_r in HP. rewrite (Hkeep m curr HP Hat) in Hr. done. }
        destruct (removeHsLoop n _ _ _ _ _) as [m' removed] eqn:Hl. simpl.
        intros Hin. apply elem_of_cons in Hin as [Heq|Hin]; [lia|].
        specialize (IH (removeHydrogen upd m curr) curr (S orig) k).
        rewrite Hl in IH. simpl in IH.
        replace (orig + S k) with (S (orig + k)) in Hin by lia.
        apply IH; [|exact Hin].
        destruct (getAtomBonds m curr) as [|bondIdx rest] eqn:Hb;
          [by apply removeIt_has_bond in Hr|].
        rewrite (removeHydrogen_unfold upd m curr bondIdx rest Hb).
        replace (curr + k) with (shiftIdx curr (curr + S k))
          by (unfold shiftIdx; rewrite decide_True; lia).
        apply Hrem; [|lia].
        eapply Halike; [apply molAlike_preRemoval|done].
      * destruct k as [|k].
        { intros Hin. apply removeHsLoop_trace_ge in Hin. lia. }
        replace (orig + S k) with (S orig + k) by lia. apply IH.
        by replace (S curr + k) with (curr + S k) by lia.
    + destruct k as [|k].
      { intros Hin. apply removeHsLoop_trace_ge in Hin. lia. }
      replace (orig + S k) with (S orig + k) by lia. apply IH.
      replace (S curr + k) with (curr + S k) by lia.
      eapply Halike; [apply molAlike_restoreNoImplicit|done].
Qed.

Lemma passedOver_removeIt implicitOnly m p :
  passedOver implicitOnly m p -> atomicNum (getAtomWithIdx m p) = 1 ->
  removeIt implicitOnly m p = false.
Proof.
  intros [H|[H|[H|[-> H]]]] H1; [done| | |]; unfold removeIt.
  - by rewrite bool_decide_eq_true_2.
  - rewrite H. simpl. by case_bool_decide.
  - rewrite H. simpl. case_bool_decide; [done|]. by destruct (hasQuery _).
Qed.

Lemma passedOver_alike implicitOnly m m' p :
  molAlike m m' -> passedOver implicitOnly m p -> passedOver implicitOnly m' p.
Proof.
  intros Ha. unfold passedOver.
  by rewrite (molAlike_atomicNum m m' p), (molAlike_getDegree m m' p),
    (molAlike_hasQuery m m' p), (molAlike_isImplicit m m' p).
Qed.

Lemma passedOver_removeAtom implicitOnly m h p :
  passedOver implicitOnly m p -> p <> h ->
  passedOver implicitOnly (removeAtom h m) (shiftIdx h p).
Proof.
  intros HP Hne. unfold passedOver. rewrite getAtomWithIdx_removeAtom by done.
  destruct HP as [H|[H|H]]; [by left| |by right; right].
  right; left. rewrite getDegree_neighbors in *.
  rewrite getAtomNeighbors_removeAtom by done.
  destruct (getAtomNeighbors m p); [done|simpl in H; lia].
Qed.

(** X1. Every atom that [removeHs] removes is, in the molecule it was
    given, a hydrogen with at least one bond and without a query; when only
    implicit hydrogens are to be removed it carries the [isImplicit] flag.
    No other atom is ever removed. *)
Theorem removeHs_removes_only_plain_hydrogens (implicitOnly upd : bool) (m : Mol) (j : nat) :
  j ∈ (removeHsTrace implicitOnly upd m).2 ->
  atomicNum (getAtomWithIdx m j) = 1 /\ getDegree m j <> 0 /\
  hasQuery (getAtomWithIdx m j) = false /\
  (implicitOnly = true ->
   hasProp common_properties.isImplicit (getAtomWithIdx m j) = true).
Proof.
  intros Hj.
  assert (Hno : ~ passedOver implicitOnly m j).
  { intros HP. revert Hj. unfold removeHsTrace. change j with (0 + j) at 1.
    apply (removeHsLoop_passes (passedOver implicitOnly) implicitOnly upd).
    - intros. by apply passedOver_removeIt.
    - intros. by eapply passedOver_alike.
    - intros. by apply passedOver_removeAtom.
    - simpl. eapply passedOver_alike; [apply molAlike_updateHeavyCaches|done]. }
  unfold passedOver in Hno.
  split; [destruct (decide (atomicNum (getAtomWithIdx m j) = 1)); [done|tauto]|].
  split; [tauto|].
  split; [destruct (hasQuery (getAtomWithIdx m j)); [tauto|done]|].
  intros ->. destruct (hasProp _ _); [done|tauto].
Qed.

End RemoveHsMore.

(** X1 at CF5H: the hydrogen at index 6 is the one atom removed. *)
Lemma removeHs_removes_only_plain_hydrogens_witness :
  6 ∈ (removeHsTrace (PT := samplePeriodicTable) (VM := sampleValence)
         false false ex_CF5H).2 /\
  atomicNum (getAtomWithIdx ex_CF5H 6) = 1 /\ getDegree ex_CF5H 6 <> 0 /\
  hasQuery (getAtomWithIdx ex_CF5H 6) = false /\
  (false = true ->
   hasProp common_properties.isImplicit (getAtomWithIdx ex_CF5H 6) = true).
Proof.
  assert (H : 6 ∈ (removeHsTrace (PT := samplePeriodicTable) (VM := sampleValence)
                     false false ex_CF5H).2).
  { replace (removeHsTrace false false ex_CF5H).2 with [6] by reflexivity. by left. }
  split; [exact H|].
  exact (removeHs_removes_only_plain_hydrogens (PT := samplePeriodicTable)
           (VM := sampleValence) false false ex_CF5H 6 H).
Defined.

(* ===================================================================== *)
(** * The fix-ups before a hydrogen is removed                            *)
(* ===================================================================== *)

Lemma numExplicitHs_updAtom i f m j :
  (forall a, numExplicitHs (f a) = numExplicitHs a) ->
  numExplicitHs (getAtomWithIdx (updAtom i f m) j) = numExplicitHs (getAtomWithIdx m j).
Proof.
  intros Hf. rewrite getAtomWithIdx_updAtom. case_decide as Hd; [|done].
  destruct Hd as [-> _]. apply Hf.
Qed.

Section FixUps.
Context {PT : PeriodicTable} {VM : ValenceModel}.

Lemma atoms_fixChirality_count heavyIdx bondIdx m j :
  numExplicitHs (getAtomWithIdx (fixChirality heavyIdx bondIdx m) j)
  = numExplicitHs (getAtomWithIdx m j).
Proof.
  unfold fixChirality. repeat (case_match; try done).
  apply numExplicitHs_updAtom. intros a. unfold invertChirality. by destruct (chiralTag a).
Qed.

Lemma atoms_fixBondDirs_count idx heavyIdx bondIdx m j :
  numExplicitHs (getAtomWithIdx (fixBondDirs idx heavyIdx bondIdx m) j)
  = numExplicitHs (getAtomWithIdx m j).
Proof.
  unfold fixBondDirs.
  destruct (_ && _); [by apply numExplicitHs_updAtom|].
  destruct (_ || _).
  - destruct (scanDirs _ _ _ _ _) as [foundADir oBond].
    unfold getAtomWithIdx. rewrite atoms_adjustStereoAtomsIfRequired.
    destruct oBond as [ob|]; [|done]. destruct (negb foundADir); [|done].
    by destruct (_ && _).
  - unfold getAtomWithIdx. by rewrite atoms_adjustStereoAtomsIfRequired.
Qed.

(** X2. When [removeHs] removes the hydrogen [idx], the explicit-hydrogen
    count of its heavy neighbour grows by one if the caller asked for it,
    or the neighbour has the no-implicit flag, or is a chiral centre, or is
    an aromatic nitrogen or phosphorus, or has a total valence that is one
    of its non-default valences; otherwise it stays. The count of every
    other atom stays as it is. *)
Theorem removeHydrogen_explicit_count (upd : bool) (m : Mol) (idx bondIdx : nat)
    (rest : list nat) :
  getAtomBonds m idx = bondIdx :: rest ->
  let heavyIdx := getOtherAtomIdx (getBondWithIdx m bondIdx) idx in
  let heavyAtom := getAtomWithIdx m heavyIdx in
  heavyIdx < getNumAtoms m -> heavyIdx <> idx ->
  numExplicitHs (getAtomWithIdx (removeHydrogen upd m idx) (shiftIdx idx heavyIdx))
  = numExplicitHs heavyAtom +
    (if upd || noImplicit heavyAtom
        || negb (bool_decide (chiralTag heavyAtom = CHI_UNSPECIFIED))
        || ((bool_decide (atomicNum heavyAtom = 7) || bool_decide (atomicNum heavyAtom = 15))
            && isAromatic heavyAtom)
        || bool_decide (getTotalValence m heavyIdx ∈ tail (getValenceList (atomicNum heavyAtom)))
     then 1 else 0) /\
  forall p, p <> idx -> p <> heavyIdx ->
    numExplicitHs (getAtomWithIdx (removeHydrogen upd m idx) (shiftIdx idx p))
    = numExplicitHs (getAtomWithIdx m p).
Proof.
  intros Hb heavyIdx heavyAtom Hlt Hne.
  rewrite (removeHydrogen_unfold upd m idx bondIdx rest Hb). fold heavyIdx.
  unfold preRemoval.
  assert (Hstep : forall p, p <> idx ->
            numExplicitHs (getAtomWithIdx
              (removeAtom idx (fixBondDirs idx heavyIdx bondIdx
                 (fixChirality heavyIdx bondIdx (bumpExplicitCount upd heavyIdx m))))
              (shiftIdx idx p))
            = numExplicitHs (getAtomWithIdx (bumpExplicitCount upd heavyIdx m) p)).
  { intros p Hp. rewrite getAtomWithIdx_removeAtom by done.
    by rewrite atoms_fixBondDirs_count, atoms_fixChirality_count. }
  split.
  - rewrite Hstep by done. unfold bumpExplicitCount. cbv zeta. fold heavyAtom.
    destruct (upd || noImplicit heavyAtom
              || negb (bool_decide (chiralTag heavyAtom = CHI_UNSPECIFIED))) eqn:H1;
      cbn [orb].
    + etrans; [apply f_equal, getAtomWithIdx_updAtom_eq, Hlt|done].
    + clear H1. destruct (_ || _) eqn:H2.
      * etrans; [apply f_equal, getAtomWithIdx_updAtom_eq, Hlt|done].
      * fold heavyAtom. lia.
  - intros p Hp Hph. rewrite Hstep by done. unfold bumpExplicitCount. cbv zeta.
    repeat case_match; try done; by rewrite getAtomWithIdx_updAtom_ne.
Qed.

(** X3. When the bond of the removed hydrogen is a wavy bond that begins
    at the heavy atom, the heavy atom is marked with [_UnknownStereo], and
    no bond is changed: the bonds left are those of the molecule without
    the hydrogen. *)
Theorem removeHydrogen_wavy_bond (upd : bool) (m : Mol) (idx bondIdx : nat)
    (rest : list nat) :
  getAtomBonds m idx = bondIdx :: rest ->
  let heavyIdx := getOtherAtomIdx (getBondWithIdx m bondIdx) idx in
  bondDir (getBondWithIdx m bondIdx) = BD_UNKNOWN ->
  beginAtomIdx (getBondWithIdx m bondIdx) = heavyIdx ->
  heavyIdx < getNumAtoms m -> heavyIdx <> idx ->
  props (getAtomWithIdx (removeHydrogen upd m idx) (shiftIdx idx heavyIdx))
    !! common_properties._UnknownStereo = Some (PVInt 1) /\
  bonds (removeHydrogen upd m idx) = bonds (removeAtom idx m).
Proof.
  intros Hb heavyIdx Hdir Hbegin Hlt Hne.
  rewrite (removeHydrogen_unfold upd m idx bondIdx rest Hb). fold heavyIdx.
  unfold preRemoval.
  set (m2 := fixChirality heavyIdx bondIdx (bumpExplicitCount upd heavyIdx m)).
  assert (Hb2 : bonds m2 = bonds m).
  { unfold m2. by rewrite bonds_fixChirality, bonds_bumpExplicitCount. }
  assert (Hn2 : getNumAtoms m2 = getNumAtoms m).
  { destruct (molKept_fixChirality heavyIdx bondIdx (bumpExplicitCount upd heavyIdx m))
      as (Ha & _).
    destruct (molKept_bumpExplicitCount upd heavyIdx m) as (Hb' & _).
    unfold m2. by rewrite Ha, Hb'. }
  assert (Hfix : fixBondDirs idx heavyIdx bondIdx m2
                 = updAtom heavyIdx (setProp common_properties._UnknownStereo (PVInt 1)) m2).
  { unfold fixBondDirs, getBondWithIdx. rewrite Hb2. fold (getBondWithIdx m bondIdx).
    by rewrite (bool_decide_eq_true_2 _ Hdir), (bool_decide_eq_true_2 _ Hbegin). }
  rewrite Hfix. split.
  - rewrite getAtomWithIdx_removeAtom by done.
    rewrite getAtomWithIdx_updAtom_eq by lia. unfold setProp; simpl.
    apply lookup_insert_eq.
  - unfold removeAtom; simpl. by rewrite Hb2.
Qed.

End FixUps.

(** X2 at CHFClBr: the carbon is a chiral centre, so the hydrogen removed
    from it is counted as an explicit one. *)
Lemma removeHydrogen_explicit_count_witness :
  getAtomBonds ex_CHFClBr 1 = [0] /\ 0 < getNumAtoms ex_CHFClBr /\ 0 <> 1 /\
  numExplicitHs (getAtomWithIdx
                   (removeHydrogen (PT := samplePeriodicTable) (VM := sampleValence)
                      false ex_CHFClBr 1) 0) = 1.
Proof.
  assert (H1 : getAtomBonds ex_CHFClBr 1 = [0]) by reflexivity.
  assert (H2 : 0 < getNumAtoms ex_CHFClBr) by (cbv; lia).
  assert (H3 : 0 <> 1) by lia.
  do 3 (split; [assumption|]).
  exact (proj1 (removeHydrogen_explicit_count (PT := samplePeriodicTable)
                  (VM := sampleValence) false ex_CHFClBr 1 0 [] H1 H2 H3)).
Defined.

(** X3 at fluoroethene with a wavy bond from the carbon to the hydrogen. *)
Lemma removeHydrogen_wavy_bond_witness :
  getAtomBonds (ex_fluoroethene BD_UNKNOWN) 2 = [1] /\
  bondDir (getBondWithIdx (ex_fluoroethene BD_UNKNOWN) 1) = BD_UNKNOWN /\
  beginAtomIdx (getBondWithIdx (ex_fluoroethene BD_UNKNOWN) 1) = 0 /\
  0 < getNumAtoms (ex_fluoroethene BD_UNKNOWN) /\ 0 <> 2 /\
  props (getAtomWithIdx
           (removeHydrogen (PT := samplePeriodicTable) (VM := sampleValence)
              false (ex_fluoroethene BD_UNKNOWN) 2) 0)
    !! common_properties._UnknownStereo = Some (PVInt 1) /\
  bonds (removeHydrogen (PT := samplePeriodicTable) (VM := sampleValence)
           false (ex_fluoroethene BD_UNKNOWN) 2)
  = bonds (removeAtom 2 (ex_fluoroethene BD_UNKNOWN)).
Proof.
  assert (H1 : getAtomBonds (ex_fluoroethene BD_UNKNOWN) 2 = [1]) by reflexivity.
  assert (H2 : bondDir (getBondWithIdx (ex_fluoroethene BD_UNKNOWN) 1) = BD_UNKNOWN)
    by reflexivity.
  assert (H3 : beginAtomIdx (getBondWithIdx (ex_fluoroethene BD_UNKNOWN) 1) = 0)
    by reflexivity.
  assert (H4 : 0 < getNumAtoms (ex_fluoroethene BD_UNKNOWN)) by (cbv; lia).
  assert (H5 : 0 <> 2) by lia.
  do 5 (split; [assumption|]).
  exact (removeHydrogen_wavy_bond (PT := samplePeriodicTable) (VM := sampleValence)
           false (ex_fluoroethene BD_UNKNOWN) 2 1 [] H1 H2 H3 H4 H5).
Defined.

(* ===================================================================== *)
(** * Handing on the direction of the hydrogen's bond                     *)
(* ===================================================================== *)

Lemma scanDirs_ext m m' bondIdx ks foundADir oBond :
  bonds m = bonds m' ->
  scanDirs m bondIdx ks foundADir oBond = scanDirs m' bondIdx ks foundADir oBond.
Proof.
  intros Hb. revert foundADir oBond. induction ks as [|k ks IH]; intros f o; [done|].
  simpl. unfold getBondWithIdx. rewrite Hb. fold (getBondWithIdx m' k).
  repeat case_match; apply IH.
Qed.

Lemma scanDirs_none m bondIdx ks foundADir oBond :
  (forall k, k ∈ ks -> otherSingle m bondIdx k = false) ->
  scanDirs m bondIdx ks foundADir oBond = (foundADir, oBond).
Proof.
  revert foundADir oBond. induction ks as [|k ks IH]; intros f o Hks; [done|].
  simpl. fold (otherSingle m bondIdx k). rewrite (Hks k) by left.
  apply IH. intros k' Hk'. apply Hks. by right.
Qed.

(** With no other single bond directed, the scan ends on the last of the
    undirected ones. *)
Lemma scanDirs_last m bondIdx ks oBond ob :
  StronglySorted lt ks -> ob ∈ ks -> otherSingle m bondIdx ob = true ->
  (forall k, k ∈ ks -> otherSingle m bondIdx k = true ->
             bondDir (getBondWithIdx m k) = BD_NONE /\ k <= ob) ->
  scanDirs m bondIdx ks false oBond = (false, Some ob).
Proof.
  revert oBond. induction ks as [|k ks IH]; intros o Hs Hob Hsingle Hall.
  - by apply elem_of_nil in Hob.
  - apply StronglySorted_cons in Hs as [Hk Hs]. rewrite Forall_forall in Hk.
    simpl. fold (otherSingle m bondIdx k).
    destruct (decide (k = ob)) as [->|Hne].
    + rewrite Hsingle. destruct (Hall ob) as [Hd _]; [by left|done|].
      rewrite bool_decide_eq_true_2 by done.
      apply scanDirs_none. intros k' Hk'.
      destruct (otherSingle m bondIdx k') eqn:Ho; [|done].
      destruct (Hall k') as [_ Hle]; [by right|done|].
      specialize (Hk k' Hk'). lia.
    + apply elem_of_cons in Hob as [->|Hob]; [done|].
      assert (Hall' : forall k', k' ∈ ks -> otherSingle m bondIdx k' = true ->
                bondDir (getBondWithIdx m k') = BD_NONE /\ k' <= ob).
      { intros k' Hk'. apply Hall. by right. }
      destruct (otherSingle m bondIdx k) eqn:Ho.
      * destruct (Hall k) as [Hd _]; [by left|done|].
        rewrite bool_decide_eq_true_2 by done. by apply IH.
      * by apply IH.
Qed.

Lemma bondDir_adjustStereoAtomsLoop m atomIdx heavyIdx ks k :
  bondDir (getBondWithIdx (adjustStereoAtomsLoop m atomIdx heavyIdx ks).1 k)
  = bondDir (getBondWithIdx m k).
Proof.
  induction ks as [|k0 ks IH]; [done|]. simpl.
  destruct (_ && _); [|apply IH].
  destruct (findIndex _ _); [|apply IH].
  destruct (List.find _ _); [|apply IH].
  destruct (invertCisTrans _) as [st made]. simpl.
  rewrite getBondWithIdx_updBond. case_decide as Hd; [|done]. by destruct Hd as [-> _].
Qed.

Lemma bondDir_adjustStereoAtomsIfRequired m atomIdx heavyIdx k :
  bondDir (getBondWithIdx (adjustStereoAtomsIfRequired m atomIdx heavyIdx).1 k)
  = bondDir (getBondWithIdx m k).
Proof.
  unfold adjustStereoAtomsIfRequired. repeat (case_match; try done).
  apply bondDir_adjustStereoAtomsLoop.
Qed.

Section HandOn.
Context {PT : PeriodicTable} {VM : ValenceModel}.

(** X4. The bond of the hydrogen [idx] carries a direction (up or down),
    and of the other single bonds of the heavy atom none carries one. Then,
    just before the hydrogen is deleted, the last of those other single
    bonds, [ob], has been given the direction: the opposite one when both
    bonds begin at the heavy atom, the same one otherwise. No other bond
    changes its direction. *)
Theorem removeHs_direction_handed_on (upd : bool) (m : Mol) (idx bondIdx : nat)
    (rest : list nat) (ob : nat) :
  getAtomBonds m idx = bondIdx :: rest ->
  let heavyIdx := getOtherAtomIdx (getBondWithIdx m bondIdx) idx in
  let bond := getBondWithIdx m bondIdx in
  bondDir bond = ENDDOWNRIGHT \/ bondDir bond = ENDUPRIGHT ->
  ob ∈ getAtomBonds m heavyIdx -> otherSingle m bondIdx ob = true ->
  (forall k, k ∈ getAtomBonds m heavyIdx -> otherSingle m bondIdx k = true ->
             bondDir (getBondWithIdx m k) = BD_NONE /\ k <= ob) ->
  let m3 := preRemoval upd m idx heavyIdx bondIdx in
  bondDir (getBondWithIdx m3 ob)
  = (if bool_decide (beginAtomIdx (getBondWithIdx m ob) = heavyIdx)
        && bool_decide (beginAtomIdx bond = heavyIdx)
     then if bool_decide (bondDir bond = ENDDOWNRIGHT) then ENDUPRIGHT else ENDDOWNRIGHT
     else bondDir bond) /\
  forall k, k <> ob -> bondDir (getBondWithIdx m3 k) = bondDir (getBondWithIdx m k).
Proof.
  intros Hb heavyIdx bond Hdir Hob Hsingle Hall m3.
  unfold m3, preRemoval.
  set (m2 := fixChirality heavyIdx bondIdx (bumpExplicitCount upd heavyIdx m)).
  assert (Hb2 : bonds m2 = bonds m).
  { unfold m2. by rewrite bonds_fixChirality, bonds_bumpExplicitCount. }
  assert (Hg : forall k, getBondWithIdx m2 k = getBondWithIdx m k).
  { intros k. unfold getBondWithIdx. by rewrite Hb2. }
  assert (Hlt : ob < getNumBonds m2).
  { apply elem_of_getAtomBonds in Hob as [Hlt _]. unfold getNumBonds in *. by rewrite Hb2. }
  unfold fixBondDirs. rewrite !Hg. fold bond.
  assert (Hnw : bool_decide (bondDir bond = BD_UNKNOWN) = false).
  { apply bool_decide_eq_false. destruct Hdir as [-> | ->]; done. }
  assert (Hd : bool_decide (bondDir bond = ENDDOWNRIGHT)
               || bool_decide (bondDir bond = ENDUPRIGHT) = true).
  { destruct Hdir as [-> | ->]; done. }
  rewrite Hnw, Hd. cbn [andb].
  rewrite (getAtomBonds_ext m2 m heavyIdx Hb2), (scanDirs_ext m2 m) by done.
  rewrite (scanDirs_last m bondIdx (getAtomBonds m heavyIdx) None ob);
    [|apply getAtomBonds_sorted|done..].
  cbn [negb]. split.
  - rewrite bondDir_adjustStereoAtomsIfRequired, (Hg ob).
    destruct (_ && _); rewrite getBondWithIdx_updBond, decide_True by done; done.
  - intros k Hk. rewrite bondDir_adjustStereoAtomsIfRequired, (Hg ob).
    destruct (_ && _);
      rewrite getBondWithIdx_updBond, decide_False, Hg by (intros [? _]; congruence); done.
Qed.

End HandOn.

(** X4 at fluoroethene with the hydrogen's bond pointing up: both single
    bonds of the carbon begin there, the bond to the fluorine gets the
    direction down. *)
Lemma removeHs_direction_handed_on_witness :
  let m := ex_fluoroethene ENDUPRIGHT in
  getAtomBonds m 2 = [1] /\
  (bondDir (getBondWithIdx m 1) = ENDDOWNRIGHT \/ bondDir (getBondWithIdx m 1) = ENDUPRIGHT) /\
  2 ∈ getAtomBonds m 0 /\ otherSingle m 1 2 = true /\
  (forall k, k ∈ getAtomBonds m 0 -> otherSingle m 1 k = true ->
             bondDir (getBondWithIdx m k) = BD_NONE /\ k <= 2) /\
  bondDir (getBondWithIdx
             (preRemoval (PT := samplePeriodicTable) (VM := sampleValence) false m 2 0 1) 2)
  = ENDDOWNRIGHT.
Proof.
  cbv zeta.
  assert (H1 : getAtomBonds (ex_fluoroethene ENDUPRIGHT) 2 = [1]) by reflexivity.
  assert (H2 : bondDir (getBondWithIdx (ex_fluoroethene ENDUPRIGHT) 1) = ENDDOWNRIGHT \/
               bondDir (getBondWithIdx (ex_fluoroethene ENDUPRIGHT) 1) = ENDUPRIGHT)
    by (right; reflexivity).
  assert (H3 : 2 ∈ getAtomBonds (ex_fluoroethene ENDUPRIGHT) 0).
  { replace (getAtomBonds (ex_fluoroethene ENDUPRIGHT) 0) with [0; 1; 2] by reflexivity.
    by do 2 right; left. }
  assert (H4 : otherSingle (ex_fluoroethene ENDUPRIGHT) 1 2 = true) by reflexivity.
  assert (H5 : forall k, k ∈ getAtomBonds (ex_fluoroethene ENDUPRIGHT) 0 ->
             otherSingle (ex_fluoroethene ENDUPRIGHT) 1 k = true ->
             bondDir (getBondWithIdx (ex_fluoroethene ENDUPRIGHT) k) = BD_NONE /\ k <= 2).
  { intros k Hk. replace (getAtomBonds (ex_fluoroethene ENDUPRIGHT) 0) with [0; 1; 2] in Hk
      by reflexivity.
    repeat (apply elem_of_cons in Hk as [->|Hk]; [by (cbv; intros; split; [done|lia])|]).
    by apply elem_of_nil in Hk. }
  do 5 (split; [assumption|]).
  exact (proj1 (removeHs_direction_handed_on (PT := samplePeriodicTable)
                  (VM := sampleValence) false (ex_fluoroethene ENDUPRIGHT) 2 1 [] 2
                  H1 H2 H3 H4 H5)).
Defined.

(* ===================================================================== *)
(** * Further properties of setHydrogenCoords                             *)
(* ===================================================================== *)

Section PlacementMore.
Context {GE : GeometryEngine} {PT : PeriodicTable}.

(** Every turn of every loop over the conformers ends in one
    [setAtomPos(hydIdx, ...)] on the conformer of the turn. *)
Lemma placeDegree1_shape hydIdx heavyIdx bl st c st' c' :
  placeDegree1 hydIdx heavyIdx bl st c = Some (st', c') ->
  exists p, c' = setAtomPos hydIdx p c.
Proof. unfold placeDegree1. intros [= <- <-]. eauto. Qed.

Lemma placeDegree2_shape mol hydIdx heavyIdx n1 bl st c st' c' :
  placeDegree2 mol hydIdx heavyIdx n1 bl st c = Some (st', c') ->
  exists p, c' = setAtomPos hydIdx p c.
Proof.
  unfold placeDegree2. cbv zeta.
  repeat (case_match; try done); intros [= <- <-]; eauto.
Qed.

Lemma placeDegree3_shape mol hydIdx heavyIdx n1 n2 bl st c st' c' :
  placeDegree3 mol hydIdx heavyIdx n1 n2 bl st c = Some (st', c') ->
  exists p, c' = setAtomPos hydIdx p c.
Proof.
  unfold placeDegree3. cbv zeta.
  repeat (case_match; try done); intros [= <- <-]; eauto.
Qed.

Lemma placeDegree4_shape mol hydIdx heavyIdx n1 n2 n3 bl st c st' c' :
  placeDegree4 mol hydIdx heavyIdx n1 n2 n3 bl st c = Some (st', c') ->
  exists p, c' = setAtomPos hydIdx p c.
Proof.
  unfold placeDegree4. cbv zeta.
  destruct (_ || _); [intros [= <- <-]; eauto|].
  intros [= <- <-]. eauto.
Qed.

Lemma forConformers_shape hydIdx body st cs cs' :
  (forall st c st' c', body st c = Some (st', c') -> exists p, c' = setAtomPos hydIdx p c) ->
  forConformers body st cs = Some cs' ->
  forall k c, cs !! k = Some c -> exists p, cs' !! k = Some (setAtomPos hydIdx p c).
Proof.
  intros Hshape Hrun k c Hk.
  destruct (forConformers_lookup body st cs cs' Hrun k c Hk) as (stk & stk' & c' & Hb & Hc').
  destruct (Hshape _ _ _ _ Hb) as [p ->]. eauto.
Qed.

(** X5. A call of [setHydrogenCoords] that returns has changed nothing but
    the position of the hydrogen: atoms and bonds are the same, there are
    as many conformers, each is 2-D or 3-D as before, and every other atom
    is where it was. *)
Theorem setHydrogenCoords_moves_only_hydrogen (mol mol' : Mol) (hydIdx heavyIdx : nat) :
  setHydrogenCoords mol hydIdx heavyIdx = Some mol' ->
  atoms mol' = atoms mol /\ bonds mol' = bonds mol /\
  length (confs mol') = length (confs mol) /\
  forall k c, confs mol !! k = Some c ->
    exists c', confs mol' !! k = Some c' /\ is3D c' = is3D c /\
      forall j, j <> hydIdx -> j < length (positions c) ->
        getAtomPos c' j = getAtomPos c j.
Proof.
  intros Hrun.
  destruct (setHydrogenCoords_frame mol hydIdx heavyIdx mol' Hrun) as (Ha & Hb & Hl).
  do 3 (split; [done|]). intros k c Hk.
  assert (Hp : exists p, confs mol' !! k = Some (setAtomPos hydIdx p c)).
  { revert Hrun. unfold setHydrogenCoords.
    repeat (case_match; try done);
      intros Hrun; apply fmap_Some in Hrun as (cs & Hcs & ->); simpl;
      eapply forConformers_shape; try exact Hcs; try exact Hk;
      intros st0 c0 st1 c1 Hbody;
      first [ by eapply placeDegree1_shape
            | by eapply placeDegree2_shape
            | by eapply placeDegree3_shape
            | by eapply placeDegree4_shape
            | injection Hbody as <- <-; eauto ]. }
  destruct Hp as [p Hp]. eexists. split; [exact Hp|]. split; [done|].
  intros j Hj Hlt. by apply getAtomPos_setAtomPos_ne.
Qed.

(** X6. [setHydrogenCoords] returns exactly when the PRECONDITIONs at its
    head hold: the two atoms differ and are atoms of the molecule, the
    hydrogen has degree 1 and is bonded to the heavy atom. None of the
    checks further down ([getAtomNeighborNot], the TEST_ASSERTs on the
    neighbours) can then fail. *)
Theorem setHydrogenCoords_returns_iff_preconditions (mol : Mol) (hydIdx heavyIdx : nat) :
  is_Some (setHydrogenCoords mol hydIdx heavyIdx) <->
  setHydrogenCoords_pre mol hydIdx heavyIdx.
Proof.
  split; [|apply setHydrogenCoords_total].
  unfold setHydrogenCoords, setHydrogenCoords_pre. intros [mol' Hrun].
  case_bool_decide as H1; [done|].
  case_bool_decide as H2; [|done].
  case_bool_decide as H3; [|done]. simpl in Hrun.
  destruct (getBondBetweenAtoms mol heavyIdx hydIdx) as [b|] eqn:Hb; [|done].
  case_bool_decide as H4; [|done].
  do 3 (split; [done|]). split; [by eexists|done].
Qed.

End PlacementMore.

(** X5 at the methine of [ex_CH_2D]. *)
Lemma setHydrogenCoords_moves_only_hydrogen_witness :
  exists mol',
    setHydrogenCoords (GE := sampleGeometry) (PT := samplePeriodicTable) ex_CH_2D 3 0
    = Some mol' /\
    atoms mol' = atoms ex_CH_2D /\ bonds mol' = bonds ex_CH_2D /\
    length (confs mol') = length (confs ex_CH_2D).
Proof.
  destruct (setHydrogenCoords_total (GE := sampleGeometry) (PT := samplePeriodicTable)
              ex_CH_2D 3 0 ex_CH_2D_pre) as [mol' Hrun].
  exists mol'. split; [exact Hrun|].
  destruct (setHydrogenCoords_moves_only_hydrogen (GE := sampleGeometry)
              (PT := samplePeriodicTable) ex_CH_2D mol' 3 0 Hrun) as (Ha & Hb & Hl & _).
  by do 2 (split; [assumption|]).
Defined.

Section PlacementDegree1.
Context {GE : GeometryEngine} {PT : PeriodicTable}.

Lemma forConformers_placeDegree1_uniform (b : bool) hydIdx heavyIdx bl cs st :
  (forall c, c ∈ cs -> is3D c = b) ->
  dirVect st = mkPoint3D 0 0 0 \/ dirVect st = degree1Dir b ->
  forConformers (placeDegree1 hydIdx heavyIdx bl) st cs
  = Some ((fun c => setAtomPos hydIdx
                      (getAtomPos c heavyIdx + degree1Dir b * (if b then bl else 1%R))%P3 c)
          <$> cs).
Proof.
  revert st. induction cs as [|c cs IH]; intros st Hall Hdir; [done|].
  assert (Hc : is3D c = b) by (apply Hall; left).
  cbn [forConformers]. unfold placeDegree1 at 1. cbv zeta. unfold scaleFor. rewrite Hc.
  assert (Hd : (if b then set_z 1 (dirVect st) else set_x 1 (dirVect st)) = degree1Dir b).
  { unfold degree1Dir. destruct b, Hdir as [-> | ->]; reflexivity. }
  rewrite Hd. rewrite IH.
  - done.
  - intros c' Hc'. apply Hall. by right.
  - by right.
Qed.

(** X7. An isolated heavy atom in a molecule whose conformers are all 3-D
    gets its hydrogen at bond length along +z in every conformer; when
    they are all 2-D, at distance 1 along +x. *)
Theorem setHydrogenCoords_degree1_uniform (mol : Mol) (hydIdx heavyIdx : nat) (b : bool) :
  setHydrogenCoords_pre mol hydIdx heavyIdx ->
  getDegree mol heavyIdx = 1 ->
  (forall c, c ∈ confs mol -> is3D c = b) ->
  let bondLength := (getRb0 1 + getRb0 (atomicNum (getAtomWithIdx mol heavyIdx)))%R in
  setHydrogenCoords mol hydIdx heavyIdx
  = Some (set_confs
            ((fun c => setAtomPos hydIdx
                         (getAtomPos c heavyIdx
                          + degree1Dir b * (if b then bondLength else 1%R))%P3 c)
             <$> confs mol) mol).
Proof.
  intros Hpre Hdeg Hall bondLength.
  rewrite setHydrogenCoords_unfold by done. cbv zeta. rewrite Hdeg.
  rewrite (forConformers_placeDegree1_uniform b); [done|done|by left].
Qed.

End PlacementDegree1.

Lemma ex_HCl_bonded_pre : setHydrogenCoords_pre ex_HCl_bonded 1 0.
Proof.
  unfold setHydrogenCoords_pre. split; [lia|]. split; [cbv; lia|].
  split; [reflexivity|]. split; [vm_compute; eauto|cbv; lia].
Qed.

(** X7 at HCl with one 3-D conformer. *)
Lemma setHydrogenCoords_degree1_uniform_witness :
  setHydrogenCoords_pre ex_HCl_bonded 1 0 /\ getDegree ex_HCl_bonded 0 = 1 /\
  (forall c, c ∈ confs ex_HCl_bonded -> is3D c = true) /\
  setHydrogenCoords (GE := sampleGeometry) (PT := samplePeriodicTable) ex_HCl_bonded 1 0
  = Some (set_confs
            ((fun c => setAtomPos 1
                         (getAtomPos c 0
                          + degree1Dir true *
                            (getRb0 (PeriodicTable := samplePeriodicTable) 1
                             + getRb0 (PeriodicTable := samplePeriodicTable)
                                 (atomicNum (getAtomWithIdx ex_HCl_bonded 0))))%P3 c)
             <$> confs ex_HCl_bonded) ex_HCl_bonded).
Proof.
  assert (H2 : getDegree ex_HCl_bonded 0 = 1) by reflexivity.
  assert (H3 : forall c, c ∈ confs ex_HCl_bonded -> is3D c = true).
  { intros c Hc. simpl in Hc. apply elem_of_cons in Hc as [->|Hc]; [reflexivity|].
    by apply elem_of_nil in Hc. }
  split; [exact ex_HCl_bonded_pre|]. do 2 (split; [assumption|]).
  exact (setHydrogenCoords_degree1_uniform (GE := sampleGeometry) (PT := samplePeriodicTable)
           ex_HCl_bonded 1 0 true ex_HCl_bonded_pre H2 H3).
Defined.

(* ===================================================================== *)
(** * One other neighbour, and neighbours on top of the heavy atom        *)
(* ===================================================================== *)

Lemma lengthSq_minus_sym (p q : Point3D) : lengthSq (p - q)%P3 = lengthSq (q - p)%P3.
Proof. unfold lengthSq; simpl. ring. Qed.

Lemma degenerate_sym (p q : Point3D) : degenerate (p - q)%P3 = degenerate (q - p)%P3.
Proof. unfold degenerate. by rewrite lengthSq_minus_sym. Qed.

Lemma lengthSq_times (p : Point3D) (s : R) : lengthSq (p * s)%P3 = (s * s * lengthSq p)%R.
Proof. unfold lengthSq; simpl. ring. Qed.

Lemma degenerate_false_nonzero (p : Point3D) : degenerate p = false -> lengthSq p <> 0%R.
Proof.
  unfold degenerate. destruct (Rlt_dec _ _) as [|Hn]; [done|]. intros _ H0.
  apply Hn. rewrite H0, Rabs_R0. lra.
Qed.

Lemma degenerate_true (p : Point3D) : (lengthSq p < 1 / 10000)%R -> degenerate p = true.
Proof.
  intros H. unfold degenerate. destruct (Rlt_dec _ _) as [|Hn]; [done|].
  destruct Hn. rewrite Rabs_right; [done|]. apply Rle_ge, lengthSq_nonneg.
Qed.

Lemma filter_length_pos {A} (P : A -> bool) (l : list A) a :
  a ∈ l -> P a = true -> 1 <= length (List.filter P l).
Proof.
  intros Ha HP. assert (Hin : a ∈ List.filter P l) by (by apply elem_of_filter).
  destruct (List.filter P l); [by apply elem_of_nil in Hin|simpl; lia].
Qed.

Section OtherNeighbours.
Context {GE : GeometryEngine} {PT : PeriodicTable}.

Lemma setHydrogenCoords_Some_pre mol hydIdx heavyIdx mol' :
  setHydrogenCoords mol hydIdx heavyIdx = Some mol' ->
  setHydrogenCoords_pre mol hydIdx heavyIdx.
Proof.
  unfold setHydrogenCoords, setHydrogenCoords_pre. intros Hrun.
  case_bool_decide as H1; [done|].
  case_bool_decide as H2; [|done].
  case_bool_decide as H3; [|done]. simpl in Hrun.
  destruct (getBondBetweenAtoms mol heavyIdx hydIdx) as [b|] eqn:Hb; [|done].
  case_bool_decide as H4; [|done].
  do 3 (split; [done|]). split; [by eexists|done].
Qed.

(** The heavy atom has one neighbour more than [otherNeighbors] lists: the
    hydrogen. *)
Lemma otherNeighbors_exact mol hydIdx heavyIdx :
  setHydrogenCoords_pre mol hydIdx heavyIdx ->
  getDegree mol heavyIdx = S (length (otherNeighbors mol hydIdx heavyIdx)).
Proof.
  intros Hpre. pose proof (otherNeighbors_length mol hydIdx heavyIdx) as Hlow.
  destruct Hpre as (Hne & _ & Hh & [k Hk] & _). rewrite Hh in Hlow.
  apply getBondBetweenAtoms_Some in Hk as [Hlt Hj].
  assert (Hin : hydIdx ∈ getAtomNeighbors mol heavyIdx).
  { apply elem_of_getAtomNeighbors. exists k. split.
    - apply elem_of_getAtomBonds. split; [done|]. by apply joins_touches in Hj as [? _].
    - symmetry. by apply joins_other. }
  pose proof (filter_length_split (fun n => negb (bool_decide (n = hydIdx)))
                (getAtomNeighbors mol heavyIdx)) as Hsplit.
  pose proof (filter_length_pos (fun n => negb (negb (bool_decide (n = hydIdx))))
                (getAtomNeighbors mol heavyIdx) hydIdx Hin) as Hpos.
  cbv beta in Hpos.
  rewrite negb_involutive, bool_decide_eq_true_2 in Hpos by done. specialize (Hpos eq_refl).
  rewrite <- getDegree_neighbors in Hsplit. unfold otherNeighbors in *. lia.
Qed.

(** X8. The heavy atom has one or two neighbours besides the hydrogen, and
    in a conformer one of them lies on top of the heavy atom (squared
    distance below 1e-4). The hydrogen is then put on top of the heavy atom
    in that conformer. *)
Theorem setHydrogenCoords_coincident_neighbor (mol mol' : Mol) (hydIdx heavyIdx : nat)
    (k : nat) (c : Conformer) (n : nat) :
  setHydrogenCoords mol hydIdx heavyIdx = Some mol' ->
  getDegree mol heavyIdx = 2 \/ getDegree mol heavyIdx = 3 ->
  confs mol !! k = Some c ->
  n ∈ otherNeighbors mol hydIdx heavyIdx ->
  degenerate (getAtomPos c heavyIdx - getAtomPos c n)%P3 = true ->
  exists c', confs mol' !! k = Some c' /\ getAtomPos c' hydIdx = getAtomPos c heavyIdx.
Proof.
  intros Hrun Hdeg Hk Hn Hdg.
  pose proof (setHydrogenCoords_Some_pre _ _ _ _ Hrun) as Hpre.
  pose proof (otherNeighbors_exact _ _ _ Hpre) as Hex.
  rewrite setHydrogenCoords_unfold in Hrun by done. cbv zeta in Hrun.
  destruct Hdeg as [Hdeg|Hdeg]; rewrite Hdeg in Hrun, Hex.
  - unfold getAtomNeighborNot in Hrun. rewrite decide_True in Hrun by lia.
    rewrite find_filter_head in Hrun. fold (otherNeighbors mol hydIdx heavyIdx) in Hrun.
    destruct (otherNeighbors mol hydIdx heavyIdx) as [|n1 [|? ?]]; simpl in Hex; try lia.
    apply list_elem_of_singleton in Hn as ->. simpl in Hrun.
    apply fmap_Some in Hrun as (cs & Hcs & ->). simpl.
    destruct (forConformers_lookup _ _ _ _ Hcs k c Hk) as (stk & stk' & c' & Hb & Hc').
    exists c'. split; [done|].
    unfold placeDegree2 in Hb. cbv zeta in Hb.
    rewrite degenerate_sym, Hdg in Hb. injection Hb as _ <-.
    apply getAtomPos_setAtomPos.
  - destruct (otherNeighbors mol hydIdx heavyIdx) as [|n1 [|n2 [|? ?]]];
      simpl in Hex; try lia. simpl in Hrun.
    apply fmap_Some in Hrun as (cs & Hcs & ->). simpl.
    destruct (forConformers_lookup _ _ _ _ Hcs k c Hk) as (stk & stk' & c' & Hb & Hc').
    exists c'. split; [done|].
    unfold placeDegree3 in Hb. cbv zeta in Hb.
    assert (Hor : degenerate (getAtomPos c heavyIdx - getAtomPos c n1)%P3
                  || degenerate (getAtomPos c heavyIdx - getAtomPos c n2)%P3 = true).
    { apply elem_of_cons in Hn as [->|Hn]; [by rewrite Hdg|].
      apply list_elem_of_singleton in Hn as ->. rewrite Hdg. apply orb_true_r. }
    rewrite Hor in Hb. injection Hb as _ <-. apply getAtomPos_setAtomPos.
Qed.

(** X9. The heavy atom has one neighbour besides the hydrogen and a
    hybridization other than SP2 and SP3. In a conformer in which that
    neighbour does not lie on top of the heavy atom, the hydrogen is put
    on the line through the two, on the far side of the heavy atom, at bond
    length from it in a 3-D conformer and at distance 1 in a 2-D one. *)
Theorem setHydrogenCoords_degree2_linear (mol mol' : Mol) (hydIdx heavyIdx : nat)
    (k : nat) (c : Conformer) (n : nat) :
  setHydrogenCoords mol hydIdx heavyIdx = Some mol' ->
  getDegree mol heavyIdx = 2 ->
  hybridization (getAtomWithIdx mol heavyIdx) <> SP2 ->
  hybridization (getAtomWithIdx mol heavyIdx) <> SP3 ->
  confs mol !! k = Some c ->
  n ∈ otherNeighbors mol hydIdx heavyIdx ->
  degenerate (getAtomPos c n - getAtomPos c heavyIdx)%P3 = false ->
  let bondLength := (getRb0 1 + getRb0 (atomicNum (getAtomWithIdx mol heavyIdx)))%R in
  let scale := if is3D c then bondLength else 1%R in
  exists c', confs mol' !! k = Some c' /\
    getAtomPos c' hydIdx
    = (getAtomPos c heavyIdx
       + normalize (getAtomPos c n - getAtomPos c heavyIdx) * (-1) * scale)%P3 /\
    lengthSq (getAtomPos c' hydIdx - getAtomPos c heavyIdx)%P3 = (scale * scale)%R.
Proof.
  intros Hrun Hdeg Hsp2 Hsp3 Hk Hn Hdg bondLength scale.
  pose proof (setHydrogenCoords_Some_pre _ _ _ _ Hrun) as Hpre.
  pose proof (otherNeighbors_exact _ _ _ Hpre) as Hex.
  rewrite setHydrogenCoords_unfold in Hrun by done. cbv zeta in Hrun.
  rewrite Hdeg in Hrun, Hex.
  unfold getAtomNeighborNot in Hrun. rewrite decide_True in Hrun by lia.
  rewrite find_filter_head in Hrun. fold (otherNeighbors mol hydIdx heavyIdx) in Hrun.
  destruct (otherNeighbors mol hydIdx heavyIdx) as [|n1 [|? ?]]; simpl in Hex; try lia.
  apply list_elem_of_singleton in Hn as ->. simpl in Hrun.
  apply fmap_Some in Hrun as (cs & Hcs & ->). simpl.
  destruct (forConformers_lookup _ _ _ _ Hcs k c Hk) as (stk & stk' & c' & Hb & Hc').
  exists c'. split; [done|].
  assert (Hpos : getAtomPos c' hydIdx
                 = (getAtomPos c heavyIdx
                    + normalize (getAtomPos c n1 - getAtomPos c heavyIdx) * (-1) * scale)%P3).
  { unfold placeDegree2 in Hb. cbv zeta in Hb. rewrite Hdg in Hb.
    destruct (hybridization (getAtomWithIdx mol heavyIdx)); try done;
      injection Hb as _ <-; apply getAtomPos_setAtomPos. }
  split; [done|]. rewrite Hpos, plus_minus_cancel, !lengthSq_times.
  rewrite lengthSq_normalize by (by apply degenerate_false_nonzero). ring.
Qed.

End OtherNeighbours.

Lemma ex_NCH_pre b pN : setHydrogenCoords_pre (ex_NCH b pN) 2 0.
Proof.
  unfold setHydrogenCoords_pre. split; [lia|]. split; [cbv; lia|].
  split; [reflexivity|]. split; [vm_compute; eauto|cbv; lia].
Qed.

(** X8 at N-C-H with the nitrogen on top of the carbon. *)
Lemma setHydrogenCoords_coincident_neighbor_witness :
  let c := mkConformer false [origin; origin; origin] in
  exists mol',
    setHydrogenCoords (GE := sampleGeometry) (PT := samplePeriodicTable)
      (ex_NCH false origin) 2 0 = Some mol' /\
    (getDegree (ex_NCH false origin) 0 = 2 \/ getDegree (ex_NCH false origin) 0 = 3) /\
    confs (ex_NCH false origin) !! 0 = Some c /\
    1 ∈ otherNeighbors (ex_NCH false origin) 2 0 /\
    degenerate (getAtomPos c 0 - getAtomPos c 1)%P3 = true /\
    exists c', confs mol' !! 0 = Some c' /\ getAtomPos c' 2 = getAtomPos c 0.
Proof.
  cbv zeta.
  destruct (setHydrogenCoords_total (GE := sampleGeometry) (PT := samplePeriodicTable)
              (ex_NCH false origin) 2 0 (ex_NCH_pre false origin)) as [mol' Hrun].
  assert (H2 : getDegree (ex_NCH false origin) 0 = 2 \/ getDegree (ex_NCH false origin) 0 = 3)
    by (left; reflexivity).
  assert (H3 : confs (ex_NCH false origin) !! 0
               = Some (mkConformer false [origin; origin; origin])) by reflexivity.
  assert (H4 : 1 ∈ otherNeighbors (ex_NCH false origin) 2 0).
  { replace (otherNeighbors (ex_NCH false origin) 2 0) with [1] by reflexivity. by left. }
  assert (H5 : degenerate (getAtomPos (mkConformer false [origin; origin; origin]) 0
                           - getAtomPos (mkConformer false [origin; origin; origin]) 1)%P3
               = true).
  { apply degenerate_true. unfold lengthSq; simpl. lra. }
  exists mol'. split; [exact Hrun|]. do 4 (split; [assumption|]).
  exact (setHydrogenCoords_coincident_neighbor (GE := sampleGeometry)
           (PT := samplePeriodicTable) (ex_NCH false origin) mol' 2 0 0 _ 1
           Hrun H2 H3 H4 H5).
Defined.

(** X9 at N-C-H in 3-D with the nitrogen at (2, 0, 0). *)
Lemma setHydrogenCoords_degree2_linear_witness :
  let m := ex_NCH true (mkPoint3D 2 0 0) in
  let c := mkConformer true [origin; mkPoint3D 2 0 0; origin] in
  let bondLength := (getRb0 (PeriodicTable := samplePeriodicTable) 1
                     + getRb0 (PeriodicTable := samplePeriodicTable) 6)%R in
  exists mol',
    setHydrogenCoords (GE := sampleGeometry) (PT := samplePeriodicTable) m 2 0 = Some mol' /\
    getDegree m 0 = 2 /\
    hybridization (getAtomWithIdx m 0) <> SP2 /\ hybridization (getAtomWithIdx m 0) <> SP3 /\
    confs m !! 0 = Some c /\ 1 ∈ otherNeighbors m 2 0 /\
    degenerate (getAtomPos c 1 - getAtomPos c 0)%P3 = false /\
    exists c', confs mol' !! 0 = Some c' /\
      lengthSq (getAtomPos c' 2 - getAtomPos c 0)%P3 = (bondLength * bondLength)%R.
Proof.
  cbv zeta.
  set (m := ex_NCH true (mkPoint3D 2 0 0)).
  set (c := mkConformer true [origin; mkPoint3D 2 0 0; origin]).
  destruct (setHydrogenCoords_total (GE := sampleGeometry) (PT := samplePeriodicTable)
              m 2 0 (ex_NCH_pre true (mkPoint3D 2 0 0))) as [mol' Hrun].
  assert (H2 : getDegree m 0 = 2) by reflexivity.
  assert (H3 : hybridization (getAtomWithIdx m 0) <> SP2) by done.
  assert (H4 : hybridization (getAtomWithIdx m 0) <> SP3) by done.
  assert (H5 : confs m !! 0 = Some c) by reflexivity.
  assert (H6 : 1 ∈ otherNeighbors m 2 0).
  { replace (otherNeighbors m 2 0) with [1] by reflexivity. by left. }
  assert (H7 : degenerate (getAtomPos c 1 - getAtomPos c 0)%P3 = false).
  { apply degenerate_false. unfold lengthSq; simpl. lra. }
  exists mol'. split; [exact Hrun|]. do 6 (split; [assumption|]).
  destruct (setHydrogenCoords_degree2_linear (GE := sampleGeometry)
              (PT := samplePeriodicTable) m mol' 2 0 0 c 1 Hrun H2 H3 H4 H5 H6 H7)
    as (c' & Hc' & _ & Hlen).
  exists c'. split; [exact Hc'|exact Hlen].
Defined.

(* ===================================================================== *)
(** * Further properties of isQueryH                                      *)
(* ===================================================================== *)

(** Induction on a query tree: from the children to the node. *)
Lemma Query_children_ind (P : Query -> Prop) :
  (forall q, (forall c, c ∈ getChildren q -> P c) -> P q) -> forall q, P q.
Proof.
  intros Hstep q. remember (querySize q) as n eqn:Hn. revert q Hn.
  induction n as [n IH] using lt_wf_ind. intros q ->.
  apply Hstep. intros c Hc. apply (IH (querySize c)); [by apply querySize_child|done].
Qed.

Lemma leafAtomicNums_child q c :
  leafAtomicNums q -> c ∈ getChildren q -> leafAtomicNums c.
Proof. intros Hl Hc node Hn. apply Hl. by eapply queryNodes_child. Qed.

Lemma containsOr_false q :
  containsOr q = false <->
  forall node, node ∈ queryNodes q -> getDescription node <> "AtomOr".
Proof.
  unfold containsOr. split.
  - intros H node Hn Hd.
    assert (Ht : existsb (fun n => bool_decide (getDescription n = "AtomOr")) (queryNodes q)
                 = true); [|by rewrite H in Ht].
    apply existsb_exists. exists node. split; [by apply list_elem_of_In|].
    by apply bool_decide_eq_true.
  - intros H. destruct (existsb _ _) eqn:He; [|done].
    apply existsb_exists in He as (node & Hn & Hd).
    apply list_elem_of_In in Hn. apply bool_decide_eq_true in Hd. by destruct (H node Hn).
Qed.

Lemma seesOr_no_or q :
  (forall node, node ∈ queryNodes q -> getDescription node <> "AtomOr") -> seesOr q = false.
Proof.
  induction q as [q IH] using Query_children_ind. intros Hno.
  rewrite seesOr_unfold. rewrite bool_decide_eq_false_2
    by (apply Hno; rewrite queryNodes_unfold; by left).
  case_bool_decide; [done|].
  destruct (existsb seesOr (getChildren q)) eqn:He; [|done].
  apply existsb_exists in He as (c & Hc & Hs). apply list_elem_of_In in Hc.
  rewrite (IH c Hc) in Hs; [done|]. intros node Hn. apply Hno. by eapply queryNodes_child.
Qed.

Lemma seesH_leaf q node :
  (forall n, n ∈ queryNodes q -> getDescription n <> "AtomOr") -> leafAtomicNums q ->
  node ∈ queryNodes q -> isHLeaf node = true -> seesH q = true.
Proof.
  revert node. induction q as [q IH] using Query_children_ind.
  intros node Hno Hleaf Hnode HH.
  rewrite seesH_unfold. rewrite bool_decide_eq_false_2
    by (apply Hno; rewrite queryNodes_unfold; by left).
  unfold isHLeaf in HH. apply andb_true_iff in HH as [HH Hneg].
  apply andb_true_iff in HH as [Hdesc Hval]. apply bool_decide_eq_true in Hdesc.
  rewrite queryNodes_unfold in Hnode.
  case_bool_decide as Ha.
  - rewrite (Hleaf q) in Hnode; [|rewrite queryNodes_unfold; by left|done].
    simpl in Hnode. apply list_elem_of_singleton in Hnode as ->. by rewrite Hval, Hneg.
  - apply elem_of_cons in Hnode as [->|Hnode]; [done|].
    rewrite flat_map_bind in Hnode. apply list_elem_of_bind in Hnode as (c & Hnc & Hc).
    apply existsb_exists. exists c. split; [by apply list_elem_of_In|].
    apply (IH c Hc node); [|by eapply leafAtomicNums_child|done|].
    + intros n Hn. apply Hno. by eapply queryNodes_child.
    + unfold isHLeaf. by rewrite bool_decide_eq_true_2, Hval, Hneg.
Qed.

(** X10. An atom whose query holds an OR node anywhere in its tree is
    never taken for a query hydrogen, whatever its atomic number and
    degree (atomic-number queries being leaves). *)
Theorem isQueryH_or_never_query_hydrogen (mol : Mol) (idx : nat) (q : Query) :
  query (getAtomWithIdx mol idx) = Some q -> leafAtomicNums q -> containsOr q = true ->
  exists w, isQueryH mol idx = Some (false, w).
Proof.
  intros Hq Hleaf Hor. exists (warningsAt mol idx).
  rewrite isQueryH_queryHAt. by rewrite (isQueryH_containsOr mol idx q).
Qed.

(** X11. A degree-1 atom whose query is not negated at the root and holds
    no OR node is a query hydrogen as soon as a non-negated
    atomic-number-equals-1 leaf lies somewhere below the root; nothing is
    written to the log. *)
Theorem isQueryH_and_query_with_H_leaf (mol : Mol) (idx : nat) (q node : Query) :
  getDegree mol idx = 1 ->
  query (getAtomWithIdx mol idx) = Some q -> getNegation q = false ->
  leafAtomicNums q -> containsOr q = false ->
  node ∈ flat_map queryNodes (getChildren q) -> isHLeaf node = true ->
  isQueryH mol idx = Some (true, []).
Proof.
  intros Hdeg Hq Hneg Hleaf Hor Hnode HH.
  rewrite isQueryH_spec. destruct (plainH mol idx); [done|].
  rewrite Hdeg, Hq, Hneg. simpl.
  pose proof (proj1 (containsOr_false q) Hor) as Hno.
  assert (HsH : scanSeesH q = true).
  { unfold scanSeesH. rewrite flat_map_bind in Hnode.
    apply list_elem_of_bind in Hnode as (c & Hnc & Hc).
    apply existsb_exists. exists c. split; [by apply list_elem_of_In|].
    apply (seesH_leaf c node); [|by eapply leafAtomicNums_child|done|done].
    intros n Hn. apply Hno. by eapply queryNodes_child. }
  assert (HsO : scanSeesOr q = false).
  { pose proof (seesOr_no_or q Hno) as Hs. rewrite seesOr_unfold in Hs.
    unfold scanSeesOr. case_bool_decide as H1; [done|]. simpl.
    case_bool_decide as H2; [|done].
    rewrite (Hleaf q); [done|rewrite queryNodes_unfold; by left|done]. }
  by rewrite HsH, HsO.
Qed.

(** X12. [isQueryH] writes its warning exactly for an atom of degree 1
    that is not a plain hydrogen, whose query is not negated at the root,
    and in whose query the scan sees both a hydrogen leaf and an OR; it
    then answers false. In every other case it writes nothing. *)
Theorem isQueryH_warns_iff (mol : Mol) (idx : nat) :
  (isQueryH mol idx = Some (false, [orWarning]) <->
   plainH mol idx = false /\ getDegree mol idx = 1 /\
   exists q, query (getAtomWithIdx mol idx) = Some q /\ getNegation q = false /\
             scanSeesH q = true /\ scanSeesOr q = true) /\
  (isQueryH mol idx = Some (false, [orWarning]) \/
   exists b, isQueryH mol idx = Some (b, [])).
Proof.
  pose proof (isQueryH_warning mol idx) as Hw.
  rewrite isQueryH_queryHAt. unfold warningsAt, queryHAt in *.
  rewrite isQueryH_spec in *.
  destruct (if plainH mol idx then _ else _) as [b w] eqn:Hres.
  assert (Hcases : (b = false /\ w = [orWarning]) \/ w = []).
  { destruct (plainH mol idx); [injection Hres as <- <-; by right|].
    destruct (negb _); [injection Hres as <- <-; by right|].
    destruct (query _) as [q|]; [|injection Hres as <- <-; by right].
    destruct (getNegation q); [injection Hres as <- <-; by right|].
    destruct (_ && _); injection Hres as <- <-; [by left|by right]. }
  split.
  - rewrite <- Hw. split.
    + intros [= -> ->]. done.
    + intros Hne. destruct Hcases as [[-> ->] | ->]; done.
  - destruct Hcases as [[-> ->] | ->]; [by left|right; by exists b].
Qed.

(** X10 at [C[#1,#6;D1]]. *)
Lemma isQueryH_or_never_query_hydrogen_witness :
  let q := qAnd [qOr [makeAtomNumQuery 1; makeAtomNumQuery 6]; qDegree 1] in
  query (getAtomWithIdx ex_nestedOr 1) = Some q /\ leafAtomicNums q /\
  containsOr q = true /\
  exists w, isQueryH ex_nestedOr 1 = Some (false, w).
Proof.
  cbv zeta.
  set (q := qAnd [qOr [makeAtomNumQuery 1; makeAtomNumQuery 6]; qDegree 1]).
  assert (H1 : query (getAtomWithIdx ex_nestedOr 1) = Some q) by reflexivity.
  assert (H2 : leafAtomicNums q).
  { intros node Hn Hd. simpl in Hn.
    repeat (apply elem_of_cons in Hn as [->|Hn]; [done|]). by apply elem_of_nil in Hn. }
  assert (H3 : containsOr q = true) by reflexivity.
  do 3 (split; [assumption|]).
  exact (isQueryH_or_never_query_hydrogen ex_nestedOr 1 q H1 H2 H3).
Defined.

(** X11 at [C[#1;D1]]. *)
Lemma isQueryH_and_query_with_H_leaf_witness :
  let q := qAnd [makeAtomNumQuery 1; qDegree 1] in
  getDegree ex_andH 1 = 1 /\ query (getAtomWithIdx ex_andH 1) = Some q /\
  getNegation q = false /\ leafAtomicNums q /\ containsOr q = false /\
  makeAtomNumQuery 1 ∈ flat_map queryNodes (getChildren q) /\
  isHLeaf (makeAtomNumQuery 1) = true /\
  isQueryH ex_andH 1 = Some (true, []).
Proof.
  cbv zeta.
  set (q := qAnd [makeAtomNumQuery 1; qDegree 1]).
  assert (H1 : getDegree ex_andH 1 = 1) by reflexivity.
  assert (H2 : query (getAtomWithIdx ex_andH 1) = Some q) by reflexivity.
  assert (H3 : getNegation q = false) by reflexivity.
  assert (H4 : leafAtomicNums q).
  { intros node Hn Hd. simpl in Hn.
    repeat (apply elem_of_cons in Hn as [->|Hn]; [done|]). by apply elem_of_nil in Hn. }
  assert (H5 : containsOr q = false) by reflexivity.
  assert (H6 : makeAtomNumQuery 1 ∈ flat_map queryNodes (getChildren q)) by (simpl; by left).
  assert (H7 : isHLeaf (makeAtomNumQuery 1) = true) by reflexivity.
  do 7 (split; [assumption|]).
  exact (isQueryH_and_query_with_H_leaf ex_andH 1 q _ H1 H2 H3 H4 H5 H6 H7).
Defined.

(* ===================================================================== *)
(** * Further properties of mergeQueryHs                                  *)
(* ===================================================================== *)

Lemma getAtomNeighbors_sym m i h :
  h ∈ getAtomNeighbors m i -> i ∈ getAtomNeighbors m h.
Proof.
  intros (k & Hk & ->)%elem_of_getAtomNeighbors.
  apply elem_of_getAtomBonds in Hk as [Hlt Ht].
  apply elem_of_getAtomNeighbors. exists k. split.
  - apply elem_of_getAtomBonds. split; [done|]. by apply touches_other.
  - unfold getOtherAtomIdx, touches in *. repeat case_bool_decide; simpl in *; congruence.
Qed.

Lemma removeAtoms_count idxs mol mol' :
  removeAtoms idxs mol = Some mol' -> getNumAtoms mol' + length idxs = getNumAtoms mol.
Proof.
  revert mol. induction idxs as [|i idxs IH]; intros mol; simpl.
  - intros [= <-]. lia.
  - case_decide as Hi; [|done]. intros Hrun. specialize (IH _ Hrun).
    rewrite getNumAtoms_removeAtom in IH by done. lia.
Qed.

(** X13. In a molecule whose bonds join atoms of the molecule, in which
    no hydrogen atom has more than one bond, and whose recursive queries
    are properly nested, as for every molecule on the heap ([heapOK]):
    with [mergeUnmappedOnly] set, a hydrogen that carries an atom-map
    number is not merged: it is counted for no heavy atom, it is not
    removed, and it is in the molecule that is left. (A hydrogen with two
    bonds is listed for removal once for each neighbour, and the second
    removal hits the atom that has moved to its index, or none: see
    [mergeQueryHs_bridging_hydrogen].) *)
Theorem mergeQueryHs_keeps_mapped_hydrogens
    (rank : nat -> nat) (fuel p : nat) (st : MergeState) (mol : Mol) (h : nat) :
  heapOK rank st.1 -> st.1 !! p = Some mol -> rank p < fuel ->
  h < getNumAtoms mol ->
  hasProp common_properties.molAtomMapNumber (getAtomWithIdx mol h) = true ->
  (forall i, h ∉ mergedHs true mol i) /\
  exists st' mol',
    mergeQueryHs fuel p true st = Some st' /\ st'.1 !! p = Some mol' /\
    (h ∉ reverse (merge_sort (≤) (allMergedHs true mol))) /\
    getAtomWithIdx (compensated true mol) h ∈ atoms mol'.
Proof.
  intros Hok Hp Hfuel Hh Hmap.
  assert (Hnot : forall i, h ∉ mergedHs true mol i).
  { intros i Hin. unfold mergedHs in Hin. apply elem_of_filter in Hin as [_ Hc].
    rewrite Hmap in Hc. simpl in Hc. by rewrite andb_false_r in Hc. }
  split; [done|].
  destruct (mergeQueryHs_ok rank fuel p true st mol Hok Hp Hfuel)
    as (st' & mol' & Hr & _ & _ & _ & _ & _ & Hat & Hp').
  exists st', mol'. split; [done|]. split; [done|].
  assert (Hno : h ∉ allMergedHs true mol).
  { intros (i & _ & _ & Hin)%allMergedHs_elem. by apply (Hnot i). }
  split; [by rewrite elem_of_reverse_sort|].
  rewrite Hat. apply atomsWithout_elem; [by rewrite getNumAtoms_compensated|done].
Qed.

(** X14. In a molecule whose bonds join atoms of the molecule, in which
    no hydrogen atom has more than one bond, and whose recursive queries
    are properly nested, as for every molecule on the heap ([heapOK]): a
    query hydrogen all of whose neighbours are query hydrogens, as in
    [H][H], is not merged: it stays in the molecule as it is. *)
Theorem mergeQueryHs_keeps_hydrogens_among_hydrogens
    (rank : nat -> nat) (fuel p : nat) (mergeUnmappedOnly : bool)
    (st : MergeState) (mol : Mol) (h : nat) :
  heapOK rank st.1 -> st.1 !! p = Some mol -> rank p < fuel ->
  h < getNumAtoms mol -> queryHAt mol h = true ->
  (forall i, i ∈ getAtomNeighbors mol h -> queryHAt mol i = true) ->
  exists st' mol',
    mergeQueryHs fuel p mergeUnmappedOnly st = Some st' /\ st'.1 !! p = Some mol' /\
    (h ∉ reverse (merge_sort (≤) (allMergedHs mergeUnmappedOnly mol))) /\
    getAtomWithIdx mol h ∈ atoms mol'.
Proof.
  intros Hok Hp Hfuel Hh Hq Hnbrs.
  destruct (mergeQueryHs_ok rank fuel p mergeUnmappedOnly st mol Hok Hp Hfuel)
    as (st' & mol' & Hr & _ & _ & _ & _ & _ & Hat & Hp').
  exists st', mol'. split; [done|]. split; [done|].
  assert (Hno : h ∉ allMergedHs mergeUnmappedOnly mol).
  { intros (i & _ & Hi & Hin)%allMergedHs_elem.
    unfold mergedHs in Hin. apply elem_of_filter in Hin as [Hin _].
    apply getAtomNeighbors_sym in Hin. rewrite (Hnbrs i Hin) in Hi. done. }
  split; [by rewrite elem_of_reverse_sort|].
  pose proof (compensated_atom mergeUnmappedOnly mol h Hh) as Ha. rewrite Hq in Ha.
  rewrite <- Ha, Hat. apply atomsWithout_elem; [by rewrite getNumAtoms_compensated|done].
Qed.

(** X15. A heap is well formed ([heapOK]) when in every molecule on it
    the bonds join atoms of the molecule, no hydrogen atom has more than
    one bond, and every recursive query points to a molecule on the heap
    that is lower in the nesting. [mergeQueryHs] on a molecule of a
    well-formed heap returns once the fuel exceeds the nesting depth of
    its recursive queries. The heap it leaves is well formed and holds
    molecules at the same addresses, no molecule outside the nesting below
    the merged one is changed, and the log has only grown: what was logged
    before is still its prefix. (With a hydrogen of two bonds the call can
    throw: see [mergeQueryHs_bridging_hydrogen].) *)
Theorem mergeQueryHs_keeps_heap_well_formed
    (rank : nat -> nat) (fuel p : nat) (mergeUnmappedOnly : bool)
    (st : MergeState) (mol : Mol) :
  heapOK rank st.1 -> st.1 !! p = Some mol -> rank p < fuel ->
  exists st',
    mergeQueryHs fuel p mergeUnmappedOnly st = Some st' /\
    heapOK rank st'.1 /\ sameDom st.1 st'.1 /\
    (forall y, rank p < rank y -> st'.1 !! y = st.1 !! y) /\
    exists l, st'.2 = st.2 ++ l.
Proof.
  intros Hok Hp Hfuel.
  destruct (mergeQueryHs_ok rank fuel p mergeUnmappedOnly st mol Hok Hp Hfuel)
    as (st' & mol' & Hr & Hok' & Hd & Hf & (l & Hl) & _).
  exists st'. split; [done|]. split; [done|]. split; [done|]. split; [done|].
  by eexists.
Qed.

Lemma ex_CH_mapped_heapOK : heapOK (fun _ => 0) {[ 0 := ex_CH_mapped ]}.
Proof.
  apply heapOK_singleton.
  - intros b Hb. simpl in Hb.
    repeat (apply elem_of_cons in Hb as [->|Hb]; [cbv; lia|]). by apply elem_of_nil in Hb.
  - intros i Hi Ha. destruct i as [|[|i]]; cbv in Hi, Ha |- *; lia.
  - intros a Ha. simpl in Ha.
    repeat (apply elem_of_cons in Ha as [->|Ha]; [done|]). by apply elem_of_nil in Ha.
Qed.

Lemma ex_HH_heapOK : heapOK (fun _ => 0) {[ 0 := ex_HH ]}.
Proof.
  apply heapOK_singleton.
  - intros b Hb. simpl in Hb.
    repeat (apply elem_of_cons in Hb as [->|Hb]; [cbv; lia|]). by apply elem_of_nil in Hb.
  - intros i Hi Ha. destruct i as [|[|i]]; cbv in Hi, Ha |- *; lia.
  - intros a Ha. simpl in Ha.
    repeat (apply elem_of_cons in Ha as [->|Ha]; [done|]). by apply elem_of_nil in Ha.
Qed.

Lemma ex_recursive_heapOK : heapOK ex_recursive_rank ex_recursive_heap.
Proof.
  intros p mol Hl. unfold ex_recursive_heap in Hl.
  apply lookup_insert_Some in Hl as [[<- <-] | [Hne Hl]].
  - split; [|split].
    + intros b Hb. simpl in Hb.
      repeat (apply elem_of_cons in Hb as [->|Hb]; [cbv; lia|]). by apply elem_of_nil in Hb.
    + intros i Hi Ha. destruct i as [|[|i]]; cbv in Hi, Ha |- *; lia.
    + intros a q Ha Hq node Hnode Hrs. simpl in Ha.
      apply elem_of_cons in Ha as [->|Ha].
      * injection Hq as <-. exists 1. simpl in Hnode.
        apply elem_of_cons in Hnode as [->|Hnode]; [done|].
        apply elem_of_cons in Hnode as [->|Hnode]; [done|].
        apply elem_of_cons in Hnode as [->|Hnode]; [|by apply elem_of_nil in Hnode].
        split; [done|]. split; [cbv; lia|]. by eexists.
      * apply elem_of_cons in Ha as [->|Ha]; [done|]. by apply elem_of_nil in Ha.
  - apply lookup_singleton_Some in Hl as [<- <-]. split; [|split].
    + intros b Hb. simpl in Hb.
      repeat (apply elem_of_cons in Hb as [->|Hb]; [cbv; lia|]). by apply elem_of_nil in Hb.
    + intros i Hi Ha. destruct i as [|[|[|i]]]; cbv in Hi, Ha |- *; lia.
    + intros a q Ha Hq. simpl in Ha.
      repeat (apply elem_of_cons in Ha as [->|Ha]; [done|]). by apply elem_of_nil in Ha.
Qed.

(** X13 at [C[H:1]]: the mapped hydrogen at 1 stays. *)
Lemma mergeQueryHs_keeps_mapped_hydrogens_witness :
  let st : MergeState := ({[ 0 := ex_CH_mapped ]}, []) in
  heapOK (fun _ => 0) st.1 /\ st.1 !! 0 = Some ex_CH_mapped /\ 0 < 1 /\
  1 < getNumAtoms ex_CH_mapped /\
  hasProp common_properties.molAtomMapNumber (getAtomWithIdx ex_CH_mapped 1) = true /\
  (forall i, 1 ∉ mergedHs true ex_CH_mapped i) /\
  exists st' mol',
    mergeQueryHs 1 0 true st = Some st' /\ st'.1 !! 0 = Some mol' /\
    (1 ∉ reverse (merge_sort (≤) (allMergedHs true ex_CH_mapped))) /\
    getAtomWithIdx (compensated true ex_CH_mapped) 1 ∈ atoms mol'.
Proof.
  cbv zeta.
  assert (H1 : ({[ 0 := ex_CH_mapped ]} : gmap nat Mol) !! 0 = Some ex_CH_mapped)
    by reflexivity.
  assert (H2 : 0 < 1) by lia.
  assert (H3 : 1 < getNumAtoms ex_CH_mapped) by (cbv; lia).
  assert (H4 : hasProp common_properties.molAtomMapNumber
                 (getAtomWithIdx ex_CH_mapped 1) = true) by reflexivity.
  split; [exact ex_CH_mapped_heapOK|]. do 4 (split; [assumption|]).
  exact (mergeQueryHs_keeps_mapped_hydrogens (fun _ => 0) 1 0
           ({[ 0 := ex_CH_mapped ]}, []) ex_CH_mapped 1 ex_CH_mapped_heapOK H1 H2 H3 H4).
Defined.

(** X14 at [[H][H]]: the hydrogen at 0 has the hydrogen at 1 as its only
    neighbour and stays. *)
Lemma mergeQueryHs_keeps_hydrogens_among_hydrogens_witness :
  let st : MergeState := ({[ 0 := ex_HH ]}, []) in
  heapOK (fun _ => 0) st.1 /\ st.1 !! 0 = Some ex_HH /\ 0 < 1 /\
  0 < getNumAtoms ex_HH /\ queryHAt ex_HH 0 = true /\
  (forall i, i ∈ getAtomNeighbors ex_HH 0 -> queryHAt ex_HH i = true) /\
  exists st' mol',
    mergeQueryHs 1 0 false st = Some st' /\ st'.1 !! 0 = Some mol' /\
    (0 ∉ reverse (merge_sort (≤) (allMergedHs false ex_HH))) /\
    getAtomWithIdx ex_HH 0 ∈ atoms mol'.
Proof.
  cbv zeta.
  assert (H1 : ({[ 0 := ex_HH ]} : gmap nat Mol) !! 0 = Some ex_HH) by reflexivity.
  assert (H2 : 0 < 1) by lia.
  assert (H3 : 0 < getNumAtoms ex_HH) by (cbv; lia).
  assert (H4 : queryHAt ex_HH 0 = true) by reflexivity.
  assert (H5 : forall i, i ∈ getAtomNeighbors ex_HH 0 -> queryHAt ex_HH i = true).
  { intros i Hi. change (getAtomNeighbors ex_HH 0) with [1] in Hi.
    apply elem_of_cons in Hi as [->|Hi]; [reflexivity|by apply elem_of_nil in Hi]. }
  split; [exact ex_HH_heapOK|]. do 5 (split; [assumption|]).
  exact (mergeQueryHs_keeps_hydrogens_among_hydrogens (fun _ => 0) 1 0 false
           ({[ 0 := ex_HH ]}, []) ex_HH 0 ex_HH_heapOK H1 H2 H3 H4 H5).
Defined.

(** X15 at a carbon whose query holds [C([H])[H]] as a recursive query:
    fuel 2 is enough for the one level of nesting. *)
Lemma mergeQueryHs_keeps_heap_well_formed_witness :
  let st : MergeState := (ex_recursive_heap, []) in
  heapOK ex_recursive_rank st.1 /\ st.1 !! 0 = Some ex_recursive /\
  ex_recursive_rank 0 < 2 /\
  exists st',
    mergeQueryHs 2 0 false st = Some st' /\
    heapOK ex_recursive_rank st'.1 /\ sameDom st.1 st'.1 /\
    (forall y, ex_recursive_rank 0 < ex_recursive_rank y -> st'.1 !! y = st.1 !! y) /\
    exists l, st'.2 = st.2 ++ l.
Proof.
  cbv zeta.
  assert (H1 : ex_recursive_heap !! 0 = Some ex_recursive) by reflexivity.
  assert (H2 : ex_recursive_rank 0 < 2) by (cbv; lia).
  split; [exact ex_recursive_heapOK|]. do 2 (split; [assumption|]).
  exact (mergeQueryHs_keeps_heap_well_formed ex_recursive_rank 2 0 false
           (ex_recursive_heap, []) ex_recursive ex_recursive_heapOK H1 H2).
Defined.

(** X16. In a molecule whose bonds join atoms of the molecule, in which
    no hydrogen atom has more than one bond, and whose recursive queries
    are properly nested, as for every molecule on the heap ([heapOK]): an
    atom that is not a query hydrogen and has no eligible query-hydrogen
    neighbour is left as it is by [mergeQueryHs]: it gets no query and is
    in the molecule that is left. The molecule loses as many atoms as
    there are merged hydrogens. *)
Theorem mergeQueryHs_leaves_atoms_without_hydrogens
    (rank : nat -> nat) (fuel p : nat) (mergeUnmappedOnly : bool)
    (st : MergeState) (mol : Mol) (idx : nat) :
  heapOK rank st.1 -> st.1 !! p = Some mol -> rank p < fuel ->
  idx < getNumAtoms mol -> queryHAt mol idx = false ->
  mergedHs mergeUnmappedOnly mol idx = [] ->
  exists st' mol',
    mergeQueryHs fuel p mergeUnmappedOnly st = Some st' /\ st'.1 !! p = Some mol' /\
    getAtomWithIdx (compensated mergeUnmappedOnly mol) idx = getAtomWithIdx mol idx /\
    getAtomWithIdx mol idx ∈ atoms mol' /\
    getNumAtoms mol' + length (allMergedHs mergeUnmappedOnly mol) = getNumAtoms mol.
Proof.
  intros Hok Hp Hfuel Hidx Hq Hnone.
  destruct (Hok p mol Hp) as (Hrange & Hsingle & _).
  destruct (mergeQueryHs_ok rank fuel p mergeUnmappedOnly st mol Hok Hp Hfuel)
    as (st' & mol' & Hr & _ & _ & _ & _ & Hrm & Hat & Hp').
  exists st', mol'. split; [done|]. split; [done|].
  pose proof (compensated_atom mergeUnmappedOnly mol idx Hidx) as Ha.
  rewrite Hq, Hnone in Ha. simpl in Ha. rewrite compensateAtom_0 in Ha.
  split; [done|]. split.
  - rewrite <- Ha, Hat. apply atomsWithout_elem; [by rewrite getNumAtoms_compensated|].
    intros Hin. apply allMergedHs_queryH in Hin; [congruence|done|done].
  - apply removeAtoms_count in Hrm.
    rewrite length_reverse, merge_sort_Permutation, getNumAtoms_compensated in Hrm. done.
Qed.

(** X16 at [C[H:1]] with [mergeUnmappedOnly]: the carbon has no hydrogen
    to merge. *)
Lemma mergeQueryHs_leaves_atoms_without_hydrogens_witness :
  let st : MergeState := ({[ 0 := ex_CH_mapped ]}, []) in
  heapOK (fun _ => 0) st.1 /\ st.1 !! 0 = Some ex_CH_mapped /\ 0 < 1 /\
  0 < getNumAtoms ex_CH_mapped /\ queryHAt ex_CH_mapped 0 = false /\
  mergedHs true ex_CH_mapped 0 = [] /\
  exists st' mol',
    mergeQueryHs 1 0 true st = Some st' /\ st'.1 !! 0 = Some mol' /\
    getAtomWithIdx (compensated true ex_CH_mapped) 0 = getAtomWithIdx ex_CH_mapped 0 /\
    getAtomWithIdx ex_CH_mapped 0 ∈ atoms mol' /\
    getNumAtoms mol' + length (allMergedHs true ex_CH_mapped) = getNumAtoms ex_CH_mapped.
Proof.
  cbv zeta.
  assert (H1 : ({[ 0 := ex_CH_mapped ]} : gmap nat Mol) !! 0 = Some ex_CH_mapped)
    by reflexivity.
  assert (H2 : 0 < 1) by lia.
  assert (H3 : 0 < getNumAtoms ex_CH_mapped) by (cbv; lia).
  assert (H4 : queryHAt ex_CH_mapped 0 = false) by reflexivity.
  assert (H5 : mergedHs true ex_CH_mapped 0 = []) by reflexivity.
  split; [exact ex_CH_mapped_heapOK|]. do 5 (split; [assumption|]).
  exact (mergeQueryHs_leaves_atoms_without_hydrogens (fun _ => 0) 1 0 true
           ({[ 0 := ex_CH_mapped ]}, []) ex_CH_mapped 0 ex_CH_mapped_heapOK H1 H2 H3 H4 H5).
Defined.

(** Why no hydrogen may have more than one bond. The hydrogen of
    [ex_bridgingH] is a neighbour of both carbons and is listed for
    removal at each of them. The atoms are removed from the highest index
    down: once the hydrogen is gone there is no atom at its index, and the
    second [getAtomWithIdx] throws. In [ex_bridgingH_mapped] the hydrogen
    with the atom-map number has moved to that index, and is removed
    although [mergeUnmappedOnly] is set. *)
Lemma mergeQueryHs_bridging_hydrogen :
  getDegree ex_bridgingH 2 = 2 /\
  isQueryH ex_bridgingH 2 = Some (true, []) /\
  allMergedHs false ex_bridgingH = [2; 2] /\
  mergeQueryHs 1 0 false ({[ 0 := ex_bridgingH ]}, []) = None /\
  allMergedHs true ex_bridgingH_mapped = [2; 2] /\
  hasProp common_properties.molAtomMapNumber <$> atoms ex_bridgingH_mapped
  = [false; false; false; true] /\
  exists st' mol',
    mergeQueryHs 1 0 true ({[ 0 := ex_bridgingH_mapped ]}, []) = Some st' /\
    st'.1 !! 0 = Some mol' /\
    hasProp common_properties.molAtomMapNumber <$> atoms mol' = [false; false].
Proof.
  do 6 (split; [vm_compute; reflexivity|]).
  exists (default (∅, []) (mergeQueryHs 1 0 true ({[ 0 := ex_bridgingH_mapped ]}, []))).
  eexists.
  split; [vm_compute; reflexivity|]. split; [vm_compute; reflexivity|].
  vm_compute; reflexivity.
Qed.

(* ===================================================================== *)
(** * addHs: how many hydrogens, where, and what is left alone            *)
(* ===================================================================== *)

Lemma hydrogenBonds_app first o1 o2 :
  hydrogenBonds first (o1 ++ o2) = hydrogenBonds first o1 ++ hydrogenBonds (first + length o1) o2.
Proof.
  unfold hydrogenBonds. rewrite imap_app. f_equal. apply imap_ext.
  intros j a _. simpl. f_equal. lia.
Qed.

Lemma hydrogensAdded_refl n m : hydrogensAdded n [] m m.
Proof.
  split; [simpl; lia|]. split; [done|]. split; [intros h Hh; lia|].
  by rewrite app_nil_r.
Qed.

Lemma hydrogensAdded_updAtom n i f m : i < n -> hydrogensAdded n [] m (updAtom i f m).
Proof.
  intros Hi. split; [rewrite getNumAtoms_updAtom; simpl; lia|]. split.
  { intros h Hh. apply getAtomWithIdx_updAtom_ne. lia. }
  split; [intros h Hh; rewrite getNumAtoms_updAtom in Hh; lia|].
  by rewrite bonds_updAtom, app_nil_r.
Qed.

Lemma hydrogensAdded_trans n o1 o2 m m1 m2 :
  n <= getNumAtoms m ->
  hydrogensAdded n o1 m m1 -> hydrogensAdded n o2 m1 m2 ->
  hydrogensAdded n (o1 ++ o2) m m2.
Proof.
  intros Hn (N1 & O1 & H1 & B1) (N2 & O2 & H2 & B2).
  split; [rewrite length_app; lia|]. split.
  { intros h Hh. rewrite O2 by lia. by apply O1. }
  split.
  { intros h Hh. destruct (decide (h < getNumAtoms m1)) as [Hlt|Hge].
    - rewrite O2 by lia. apply H1. lia.
    - apply H2. lia. }
  by rewrite B2, B1, hydrogenBonds_app, N1, app_assoc.
Qed.

Lemma hydrogensAdded_owners n o o' m m' :
  o = o' -> hydrogensAdded n o m m' -> hydrogensAdded n o' m m'.
Proof. by intros ->. Qed.

Section AddHsCount.
Context {GE : GeometryEngine} {PT : PeriodicTable} {VM : ValenceModel}.

Lemma addOneH_grow n implicitH addCoords aidx m :
  bondsInRange m -> aidx < n -> n <= getNumAtoms m ->
  exists m',
    addOneH implicitH addCoords aidx m = Some m' /\
    hydrogensAdded n [aidx] m m' /\ bondsInRange m' /\
    (forall i, i < getNumAtoms m -> getAtomWithIdx m' i = getAtomWithIdx m i).
Proof.
  intros Hr Ha Hn.
  destruct (addOneH_spec implicitH addCoords aidx m Hr ltac:(lia))
    as (m' & h & Hrun & Hat & H1 & Hq & _ & Hb & Hr').
  assert (Hnum : getNumAtoms m' = getNumAtoms m + 1).
  { unfold getNumAtoms. rewrite Hat, length_app. simpl. lia. }
  assert (Hold : forall i, i < getNumAtoms m -> getAtomWithIdx m' i = getAtomWithIdx m i).
  { intros i Hi. by eapply getAtomWithIdx_app_l. }
  exists m'. split; [done|]. split; [|done].
  split; [done|]. split; [intros h0 Hh0; apply Hold; lia|]. split.
  - intros h0 Hh0. assert (h0 = getNumAtoms m) as -> by lia.
    assert (Hh : getAtomWithIdx m' (getNumAtoms m) = h).
    { unfold getAtomWithIdx. rewrite Hat. apply list_lookup_total_correct.
      unfold getNumAtoms. by rewrite list_lookup_middle. }
    by rewrite Hh.
  - rewrite Hb. unfold hydrogenBonds. simpl. by rewrite Nat.add_0_r.
Qed.

Lemma addExplicitHs_grow n addCoords aidx :
  forall k m,
    bondsInRange m -> aidx < n -> n <= getNumAtoms m ->
    exists m',
      addExplicitHs k addCoords aidx m = Some m' /\
      hydrogensAdded n (replicate k aidx) m m' /\ bondsInRange m' /\
      (forall i, i < getNumAtoms m -> getAtomWithIdx m' i = getAtomWithIdx m i).
Proof.
  induction k as [|k IH]; intros m Hr Ha Hn; simpl.
  - exists m. split; [done|]. split; [apply hydrogensAdded_refl|done].
  - destruct (addOneH_grow n false addCoords aidx m Hr Ha Hn)
      as (m1 & Hrun & Hg1 & Hr1 & Hold1).
    assert (Hn1 : getNumAtoms m1 = getNumAtoms m + 1) by apply Hg1.
    destruct (IH m1 Hr1 Ha ltac:(lia)) as (m' & Hrun' & Hg' & Hr' & Hold').
    exists m'. rewrite Hrun. simpl. split; [done|]. split.
    { by apply (hydrogensAdded_trans n [aidx] (replicate k aidx) m m1 m'). }
    split; [done|]. intros i Hi. rewrite Hold' by lia. by apply Hold1.
Qed.

Lemma addImplicitHs_grow n addCoords aidx :
  forall budget i m,
    bondsInRange m -> aidx < n -> n <= getNumAtoms m ->
    getNumImplicitHs (getAtomWithIdx m aidx) - i <= budget ->
    exists m',
      addImplicitHs budget i addCoords aidx m = Some m' /\
      hydrogensAdded n (replicate (getNumImplicitHs (getAtomWithIdx m aidx) - i) aidx) m m' /\
      bondsInRange m' /\
      (forall j, j < getNumAtoms m -> getAtomWithIdx m' j = getAtomWithIdx m j).
Proof.
  induction budget as [|b IH]; intros i m Hr Ha Hn Hb.
  - exists m. simpl. rewrite bool_decide_eq_false_2 by lia.
    split; [done|]. replace (_ - i) with 0 by lia.
    split; [apply hydrogensAdded_refl|done].
  - simpl. case_bool_decide as Hi.
    2:{ exists m. split; [done|]. replace (_ - i) with 0 by lia.
        split; [apply hydrogensAdded_refl|done]. }
    destruct (addOneH_grow n true addCoords aidx m Hr Ha Hn)
      as (m1 & Hrun & Hg1 & Hr1 & Hold1).
    assert (Hn1 : getNumAtoms m1 = getNumAtoms m + 1) by apply Hg1.
    assert (Hsame : getAtomWithIdx m1 aidx = getAtomWithIdx m aidx) by (apply Hold1; lia).
    destruct (IH (S i) m1 Hr1 Ha ltac:(lia)) as (m' & Hrun' & Hg' & Hr' & Hold').
    { rewrite Hsame. lia. }
    exists m'. rewrite Hrun. simpl. split; [done|]. split.
    { rewrite Hsame in Hg'.
      replace (getNumImplicitHs (getAtomWithIdx m aidx) - i)
        with (S (getNumImplicitHs (getAtomWithIdx m aidx) - S i)) by lia.
      by apply (hydrogensAdded_trans n [aidx] _ m m1 m'). }
    split; [done|]. intros j Hj. rewrite Hold' by lia. by apply Hold1.
Qed.

Lemma bondsInRange_updAtom i f m : bondsInRange m -> bondsInRange (updAtom i f m).
Proof. intros Hr b Hb. rewrite getNumAtoms_updAtom. by apply Hr. Qed.

Lemma updatePropertyCache_fields m i :
  i < getNumAtoms m ->
  let a := getAtomWithIdx m i in
  let a' := getAtomWithIdx (updatePropertyCache m i) i in
  atomicNum a' = atomicNum a /\ numExplicitHs a' = numExplicitHs a /\
  noImplicit a' = noImplicit a /\ props a' = props a.
Proof.
  intros Hi. cbv zeta. unfold updatePropertyCache.
  rewrite getAtomWithIdx_updAtom_eq by done.
  destruct (noImplicit (getAtomWithIdx m i)) eqn:E; simpl; by rewrite ?E.
Qed.

Lemma addHsAt_grow n explicitOnly addCoords aidx m :
  bondsInRange m -> aidx < n -> n <= getNumAtoms m ->
  exists m',
    addHsAt explicitOnly addCoords aidx m = Some m' /\
    hydrogensAdded n (replicate (hsToAdd explicitOnly (getAtomWithIdx m aidx)) aidx) m m' /\
    bondsInRange m' /\
    visitedAtom explicitOnly (getAtomWithIdx m aidx) (getAtomWithIdx m' aidx) /\
    (forall j, j < getNumAtoms m -> j <> aidx -> getAtomWithIdx m' j = getAtomWithIdx m j).
Proof.
  intros Hr Ha Hn. unfold addHsAt.
  set (a := getAtomWithIdx m aidx) in *.
  set (ma := updAtom aidx (fun a0 => set_props (clearComputedProps (props a0)) a0) m).
  assert (Hga : hydrogensAdded n [] m ma) by (by apply hydrogensAdded_updAtom).
  assert (Hna : getNumAtoms ma = getNumAtoms m) by apply getNumAtoms_updAtom.
  assert (Hra : bondsInRange ma) by (by apply bondsInRange_updAtom).
  assert (Haa : getAtomWithIdx ma aidx = set_props (clearComputedProps (props a)) a).
  { unfold ma. rewrite getAtomWithIdx_updAtom_eq by lia. done. }
  rewrite Haa. cbn [numExplicitHs set_props].
  destruct (addExplicitHs_grow n addCoords aidx (numExplicitHs a) ma Hra Ha ltac:(lia))
    as (m1 & Hrun1 & Hg1 & Hr1 & Hold1).
  rewrite Hrun1. cbn [mbind option_bind].
  assert (Hn1 : getNumAtoms m1 = getNumAtoms m + numExplicitHs a).
  { destruct Hg1 as [-> _]. rewrite length_replicate. lia. }
  set (mb := updAtom aidx (set_numExplicitHs 0) m1).
  assert (Hgb : hydrogensAdded n [] m1 mb) by (by apply hydrogensAdded_updAtom).
  assert (Hnb : getNumAtoms mb = getNumAtoms m1) by apply getNumAtoms_updAtom.
  assert (Hrb : bondsInRange mb) by (by apply bondsInRange_updAtom).
  assert (Hab : getAtomWithIdx mb aidx
                = set_numExplicitHs 0 (set_props (clearComputedProps (props a)) a)).
  { unfold mb. rewrite getAtomWithIdx_updAtom_eq by lia. rewrite Hold1 by lia. by rewrite Haa. }
  assert (Hg01 : hydrogensAdded n (replicate (numExplicitHs a) aidx) m mb).
  { apply (hydrogensAdded_owners n ([] ++ (replicate (numExplicitHs a) aidx ++ [])));
      [by rewrite app_nil_r|].
    apply (hydrogensAdded_trans n _ _ m ma mb); [done|done|].
    apply (hydrogensAdded_trans n _ _ ma m1 mb); [lia|done|done]. }
  assert (Hold01 : forall j, j < getNumAtoms m -> j <> aidx ->
                             getAtomWithIdx mb j = getAtomWithIdx m j).
  { intros j Hj Hne. unfold mb. rewrite getAtomWithIdx_updAtom_ne by done.
    rewrite Hold1 by lia. unfold ma. by rewrite getAtomWithIdx_updAtom_ne. }
  destruct explicitOnly.
  - cbn [mbind option_bind]. eexists. split; [reflexivity|].
    destruct (updatePropertyCache_fields mb aidx ltac:(lia)) as (F1 & F2 & F3 & F4).
    split.
    { unfold hsToAdd. rewrite Nat.add_0_r.
      apply (hydrogensAdded_owners n (replicate (numExplicitHs a) aidx ++ []));
        [by rewrite app_nil_r|].
      apply (hydrogensAdded_trans n _ _ m mb); [done|done|].
      by apply hydrogensAdded_updAtom. }
    split; [by apply bondsInRange_updAtom|]. split.
    { split; [by rewrite F1, Hab|]. split; [by rewrite F2, Hab|]. by rewrite F3, Hab. }
    intros j Hj Hne. unfold updatePropertyCache.
    rewrite getAtomWithIdx_updAtom_ne by done. by apply Hold01.
  - assert (Hc : getNumImplicitHs (getAtomWithIdx mb aidx) = getNumImplicitHs a)
      by (by rewrite Hab).
    destruct (addImplicitHs_grow n addCoords aidx
                (getNumImplicitHs (getAtomWithIdx mb aidx)) 0 mb Hrb Ha ltac:(lia)
                ltac:(lia))
      as (mc & Hrun & Hgc & Hrc & Holdc).
    rewrite Hrun. cbn [mbind option_bind].
    rewrite Hc, Nat.sub_0_r in Hgc.
    assert (Hnc : getNumAtoms mc = getNumAtoms mb + getNumImplicitHs a).
    { destruct Hgc as [-> _]. by rewrite length_replicate. }
    assert (Hac : getAtomWithIdx mc aidx = getAtomWithIdx mb aidx) by (apply Holdc; lia).
    set (md := updAtom aidx (fun a0 => setProp common_properties.origNoImplicit
                                         (PVBool (noImplicit a0)) a0) mc).
    set (me := updAtom aidx (set_noImplicit true) md).
    assert (Hnd : getNumAtoms md = getNumAtoms mc) by apply getNumAtoms_updAtom.
    assert (Hne : getNumAtoms me = getNumAtoms mc)
      by (unfold me; by rewrite getNumAtoms_updAtom).
    assert (Hae : getAtomWithIdx me aidx
                  = set_noImplicit true
                      (setProp common_properties.origNoImplicit (PVBool (noImplicit a))
                         (set_numExplicitHs 0 (set_props (clearComputedProps (props a)) a)))).
    { unfold me, md.
      rewrite !getAtomWithIdx_updAtom_eq by (rewrite ?getNumAtoms_updAtom; lia).
      by rewrite Hac, Hab. }
    eexists. split; [reflexivity|].
    destruct (updatePropertyCache_fields me aidx ltac:(lia)) as (F1 & F2 & F3 & F4).
    split.
    { unfold hsToAdd.
      apply (hydrogensAdded_owners n
               (replicate (numExplicitHs a) aidx
                ++ (replicate (getNumImplicitHs a) aidx ++ ([] ++ ([] ++ [])))));
        [by rewrite !app_nil_r, replicate_add|].
      apply (hydrogensAdded_trans n _ _ m mb); [done|done|].
      apply (hydrogensAdded_trans n _ _ mb mc); [lia|done|].
      apply (hydrogensAdded_trans n _ _ mc md); [lia|by apply hydrogensAdded_updAtom|].
      apply (hydrogensAdded_trans n _ _ md me); [lia|by apply hydrogensAdded_updAtom|].
      by apply hydrogensAdded_updAtom. }
    split.
    { unfold me, md. by do 3 apply bondsInRange_updAtom. }
    split.
    { split; [by rewrite F1, Hae|]. split; [by rewrite F2, Hae|].
      split; [by rewrite F3, Hae|].
      unfold getOrigNoImplicit. rewrite F4, Hae. unfold setProp. simpl.
      by rewrite lookup_insert_eq. }
    intros j Hj Hnej. unfold updatePropertyCache, me, md.
    rewrite !getAtomWithIdx_updAtom_ne by done. rewrite Holdc by lia. by apply Hold01.
Qed.

End AddHsCount.

Lemma flat_map_ext_in {A B} (f g : A -> list B) (l : list A) :
  (forall x, x ∈ l -> f x = g x) -> flat_map f l = flat_map g l.
Proof.
  induction l as [|x l IH]; intros H; [done|]. simpl.
  rewrite (H x) by left. rewrite IH; [done|]. intros y Hy. apply H. by right.
Qed.

Lemma hydrogenBonds_cons first a owners :
  hydrogenBonds first (a :: owners) = bondOf a first SINGLE :: hydrogenBonds (S first) owners.
Proof.
  unfold hydrogenBonds. simpl. rewrite Nat.add_0_r. f_equal. apply imap_ext.
  intros j b _. simpl. f_equal. lia.
Qed.

Lemma length_hydrogenBonds first owners : length (hydrogenBonds first owners) = length owners.
Proof. unfold hydrogenBonds. apply length_imap. Qed.

(** The new bonds at an old atom: one for each time it is an owner. *)
Lemma hydrogenBonds_at_owner i owners :
  forall first, i < first ->
    length (List.filter (touches i) (hydrogenBonds first owners))
    = length (List.filter (fun a => bool_decide (a = i)) owners).
Proof.
  induction owners as [|a owners IH]; intros first Hi; [done|].
  rewrite hydrogenBonds_cons. simpl. unfold touches at 1. simpl.
  rewrite (bool_decide_eq_false_2 (first = i)) by lia. rewrite orb_false_r.
  destruct (bool_decide (a = i)); simpl; by rewrite IH by lia.
Qed.

(** The new bonds at a new atom: the one to its owner. *)
Lemma hydrogenBonds_at_hydrogen owners :
  forall first j a,
    Forall (fun a => a < first) owners -> owners !! j = Some a ->
    List.filter (touches (first + j)) (hydrogenBonds first owners)
    = [bondOf a (first + j) SINGLE].
Proof.
  induction owners as [|a0 owners IH]; intros first j a Hall Hj; [done|].
  apply Forall_cons in Hall as [Ha0 Hall].
  rewrite hydrogenBonds_cons. simpl. unfold touches at 1. simpl.
  destruct j as [|j]; simpl in Hj.
  - injection Hj as ->. rewrite Nat.add_0_r.
    rewrite (bool_decide_eq_true_2 (first = first)) by done. rewrite orb_true_r.
    f_equal. apply filter_none. intros b Hb.
    unfold hydrogenBonds in Hb. apply elem_of_lookup_imap in Hb as (j & a1 & -> & Hl).
    apply touches_false. simpl.
    assert (a1 < first); [|lia].
    apply (Forall_lookup_1 _ _ _ _ Hall) in Hl. lia.
  - rewrite (bool_decide_eq_false_2 (a0 = first + S j)) by lia.
    rewrite (bool_decide_eq_false_2 (first = first + S j)) by lia. simpl.
    replace (first + S j) with (S first + j) by lia.
    apply IH; [|done]. eapply Forall_impl; [exact Hall|]. simpl. lia.
Qed.

Lemma owners_at_seq (F : nat -> list nat) i :
  (forall idx a, a ∈ F idx -> a = idx) ->
  forall k c,
    length (List.filter (fun a => bool_decide (a = i)) (flat_map F (seq c k)))
    = if bool_decide (c <= i < c + k) then length (F i) else 0.
Proof.
  intros HF. induction k as [|k IH]; intros c.
  - simpl. by rewrite bool_decide_eq_false_2 by lia.
  - simpl. rewrite List.filter_app, length_app, IH.
    destruct (decide (c = i)) as [->|Hne].
    + rewrite (bool_decide_eq_false_2 (S i <= i < _)) by lia.
      rewrite (bool_decide_eq_true_2 (i <= i < _)) by lia.
      rewrite filter_all; [lia|]. intros a Ha. apply bool_decide_eq_true. by apply HF.
    + rewrite filter_none.
      2:{ intros a Ha. apply bool_decide_eq_false. intros ->. apply HF in Ha. done. }
      simpl. repeat case_bool_decide; lia.
Qed.

Lemma numAddHyds_owners explicitOnly onlyOnAtoms mol :
  numAddHyds explicitOnly onlyOnAtoms mol
  = length (hydrogenOwners explicitOnly onlyOnAtoms mol).
Proof.
  unfold numAddHyds, hydrogenOwners.
  rewrite <- (Nat.add_0_l (length _)). generalize 0 at 1 3.
  generalize (seq 0 (getNumAtoms mol)).
  induction l as [|idx l IH]; intros acc; simpl; [lia|].
  rewrite IH, length_app. unfold hsToAdd.
  destruct (onList onlyOnAtoms idx); [|simpl; lia].
  rewrite length_replicate. destruct explicitOnly; lia.
Qed.

Lemma hydrogenOwners_elem explicitOnly onlyOnAtoms mol a :
  a ∈ hydrogenOwners explicitOnly onlyOnAtoms mol ->
  a < getNumAtoms mol /\ onList onlyOnAtoms a = true.
Proof.
  unfold hydrogenOwners. rewrite flat_map_bind, list_elem_of_bind.
  intros (idx & Ha & Hidx). apply elem_of_seq in Hidx.
  destruct (onList onlyOnAtoms idx) eqn:E; [|by apply elem_of_nil in Ha].
  apply elem_of_replicate in Ha as [-> _]. split; [lia|done].
Qed.

Section AddHsLoopCount.
Context {GE : GeometryEngine} {PT : PeriodicTable} {VM : ValenceModel}.

Lemma addHsLoop_grow n explicitOnly addCoords onlyOnAtoms :
  forall k c m,
    c + k = n -> n <= getNumAtoms m -> bondsInRange m ->
    exists m',
      addHsLoop explicitOnly addCoords onlyOnAtoms (seq c k) m = Some m' /\
      hydrogensAdded n
        (flat_map (fun idx => if onList onlyOnAtoms idx
                              then replicate (hsToAdd explicitOnly (getAtomWithIdx m idx)) idx
                              else [])
                  (seq c k)) m m' /\
      bondsInRange m' /\
      (forall i, i < c -> getAtomWithIdx m' i = getAtomWithIdx m i) /\
      (forall i, c <= i < n ->
         if onList onlyOnAtoms i
         then visitedAtom explicitOnly (getAtomWithIdx m i) (getAtomWithIdx m' i)
         else getAtomWithIdx m' i = getAtomWithIdx m i).
Proof.
  induction k as [|k IH]; intros c m Hck Hn Hr.
  - exists m. simpl. split; [done|]. split; [apply hydrogensAdded_refl|].
    split; [done|]. split; [done|]. intros i Hi. lia.
  - cbn [seq addHsLoop flat_map].
    destruct (onList onlyOnAtoms c) eqn:Hon.
    + destruct (addHsAt_grow n explicitOnly addCoords c m Hr ltac:(lia) Hn)
        as (m1 & Hrun & Hg1 & Hr1 & Hv1 & Hold1).
      assert (Hn1 : getNumAtoms m <= getNumAtoms m1) by (destruct Hg1 as [-> _]; lia).
      destruct (IH (S c) m1 ltac:(lia) ltac:(lia) Hr1) as (m' & Hrun' & Hg' & Hr' & Hlow & Hup).
      exists m'. rewrite Hrun. cbn [mbind option_bind]. split; [done|]. split.
      { apply (hydrogensAdded_trans n _ _ m m1 m'); [done|done|].
        eapply hydrogensAdded_owners; [|exact Hg'].
        apply flat_map_ext_in. intros x Hx. apply elem_of_seq in Hx.
        rewrite Hold1 by lia. done. }
      split; [done|]. split.
      { intros i Hi. rewrite Hlow by lia. apply Hold1; lia. }
      intros i Hi. destruct (decide (i = c)) as [->|Hne].
      * rewrite Hon. rewrite Hlow by lia. done.
      * specialize (Hup i ltac:(lia)). rewrite Hold1 in Hup by lia. done.
    + destruct (IH (S c) m ltac:(lia) Hn Hr) as (m' & Hrun' & Hg' & Hr' & Hlow & Hup).
      exists m'. split; [done|]. split; [done|]. split; [done|]. split.
      { intros i Hi. apply Hlow. lia. }
      intros i Hi. destruct (decide (i = c)) as [->|Hne].
      * rewrite Hon. apply Hlow. lia.
      * apply Hup. lia.
Qed.

Lemma addHs_grow explicitOnly addCoords onlyOnAtoms m :
  bondsInRange m ->
  exists m',
    addHs explicitOnly addCoords onlyOnAtoms m = Some m' /\
    hydrogensAdded (getNumAtoms m) (hydrogenOwners explicitOnly onlyOnAtoms m) m m' /\
    bondsInRange m' /\
    (forall i, i < getNumAtoms m ->
       if onList onlyOnAtoms i
       then visitedAtom explicitOnly (getAtomWithIdx m i) (getAtomWithIdx m' i)
       else getAtomWithIdx m' i
            = set_props (clearComputedProps (props (getAtomWithIdx m i)))
                (getAtomWithIdx m i)).
Proof.
  intros Hr. unfold addHs. cbv zeta.
  set (m0 := clearMolComputedProps m).
  assert (Hn0 : getNumAtoms m0 = getNumAtoms m) by apply getNumAtoms_clearMolComputedProps.
  assert (Hat : forall i, i < getNumAtoms m ->
            getAtomWithIdx m0 i
            = set_props (clearComputedProps (props (getAtomWithIdx m i)))
                (getAtomWithIdx m i)).
  { intros i Hi. by apply getAtomWithIdx_clearMolComputedProps. }
  rewrite Hn0.
  destruct (addHsLoop_grow (getNumAtoms m) explicitOnly addCoords onlyOnAtoms
              (getNumAtoms m) 0 m0 ltac:(lia) ltac:(lia)
              (bondsInRange_clearMolComputedProps m Hr))
    as (m' & Hrun & Hg & Hr' & _ & Hup).
  exists m'. split; [done|]. split; [|split; [done|]].
  - assert (Hown : flat_map
                      (fun idx => if onList onlyOnAtoms idx
                                  then replicate (hsToAdd explicitOnly (getAtomWithIdx m0 idx)) idx
                                  else [])
                      (seq 0 (getNumAtoms m))
                    = hydrogenOwners explicitOnly onlyOnAtoms m).
    { unfold hydrogenOwners. apply flat_map_ext_in. intros x Hx.
      apply elem_of_seq in Hx. by rewrite (Hat x) by lia. }
    rewrite Hown in Hg.
    destruct Hg as (G1 & _ & G3 & G4). rewrite Hn0 in G1, G3, G4.
    split; [exact G1|]. split; [intros h Hh; lia|]. split; [exact G3|exact G4].
  - intros i Hi. specialize (Hup i ltac:(lia)). rewrite (Hat i Hi) in Hup.
    destruct (onList onlyOnAtoms i); [|exact Hup]. exact Hup.
Qed.

(** X17. [addHs] called with [addResidueInfo] false, so that the
    residue-label pass is not run, returns on every molecule whose bonds
    join atoms of the molecule, whatever [explicitOnly], [addCoords] and
    [onlyOnAtoms] are. It adds exactly the number of atoms it counted
    beforehand for the conformers' space; they come after the atoms that
    were there, which keep their index and atomic number, and are
    hydrogens without a query. The bonds that were there are kept in their
    order, and one single bond is appended for each new hydrogen, in the
    order of the hydrogens: atom by atom in index order. *)
Theorem addHs_adds_counted_hydrogens
    (explicitOnly addCoords : bool) (onlyOnAtoms : option (list nat)) (m : Mol) :
  bondsInRange m ->
  exists m',
    addHs explicitOnly addCoords onlyOnAtoms m = Some m' /\
    getNumAtoms m' = getNumAtoms m + numAddHyds explicitOnly onlyOnAtoms m /\
    (forall i, i < getNumAtoms m ->
       atomicNum (getAtomWithIdx m' i) = atomicNum (getAtomWithIdx m i)) /\
    (forall h, getNumAtoms m <= h < getNumAtoms m' ->
       atomicNum (getAtomWithIdx m' h) = 1 /\ query (getAtomWithIdx m' h) = None) /\
    bonds m' = bonds m ++ hydrogenBonds (getNumAtoms m)
                            (hydrogenOwners explicitOnly onlyOnAtoms m) /\
    bondsInRange m'.
Proof.
  intros Hr.
  destruct (addHs_grow explicitOnly addCoords onlyOnAtoms m Hr)
    as (m' & Hrun & (Hn & _ & Hnew & Hb) & Hr' & Hv).
  exists m'. split; [done|]. split; [by rewrite numAddHyds_owners|].
  split; [|done].
  intros i Hi. specialize (Hv i Hi).
  destruct (onList onlyOnAtoms i); [by destruct Hv as [-> _]|by rewrite Hv].
Qed.

(** X18. After [addHs], an atom that was there has as many more bonds as
    it stood for hydrogens, its explicit ones and, unless only explicit
    ones were asked for, its implicit ones, if it is among the atoms asked
    for, and as many bonds as before if it is not. Every new hydrogen has
    exactly one neighbour, which is an atom that was there and was asked
    for. *)
Theorem addHs_bonds_each_hydrogen_once
    (explicitOnly addCoords : bool) (onlyOnAtoms : option (list nat)) (m : Mol) :
  bondsInRange m ->
  exists m',
    addHs explicitOnly addCoords onlyOnAtoms m = Some m' /\
    (forall i, i < getNumAtoms m ->
       getDegree m' i
       = getDegree m i + (if onList onlyOnAtoms i
                          then hsToAdd explicitOnly (getAtomWithIdx m i) else 0)) /\
    (forall h, getNumAtoms m <= h < getNumAtoms m' ->
       exists a, a < getNumAtoms m /\ onList onlyOnAtoms a = true /\
                 getAtomNeighbors m' h = [a]).
Proof.
  intros Hr.
  destruct (addHs_grow explicitOnly addCoords onlyOnAtoms m Hr)
    as (m' & Hrun & (Hn & _ & _ & Hb) & _ & _).
  exists m'. split; [done|]. split.
  - intros i Hi. rewrite !getDegree_neighbors, !getAtomNeighbors_bonds, !length_fmap.
    rewrite Hb, List.filter_app, length_app. f_equal.
    rewrite hydrogenBonds_at_owner by done. unfold hydrogenOwners.
    rewrite owners_at_seq.
    + rewrite bool_decide_eq_true_2 by lia.
      destruct (onList onlyOnAtoms i); [by rewrite length_replicate|done].
    + intros idx a Ha. destruct (onList onlyOnAtoms idx); [|by apply elem_of_nil in Ha].
      by apply elem_of_replicate in Ha as [-> _].
  - intros h Hh.
    set (owners := hydrogenOwners explicitOnly onlyOnAtoms m) in *.
    destruct (lookup_lt_is_Some_2 owners (h - getNumAtoms m) ltac:(lia)) as [a Ha].
    destruct (hydrogenOwners_elem explicitOnly onlyOnAtoms m a) as [Ha1 Ha2].
    { by eapply list_elem_of_lookup_2. }
    exists a. split; [done|]. split; [done|].
    rewrite getAtomNeighbors_bonds, Hb, List.filter_app, fmap_app.
    rewrite filter_none.
    2:{ intros b Hin. destruct (Hr b Hin). apply touches_false. lia. }
    replace h with (getNumAtoms m + (h - getNumAtoms m)) at 1 by lia.
    rewrite (hydrogenBonds_at_hydrogen owners _ _ a); [|  |done].
    + simpl. unfold getOtherAtomIdx. simpl.
      by rewrite bool_decide_eq_false_2 by lia.
    + apply Forall_forall. intros a' Ha'.
      by apply hydrogenOwners_elem in Ha' as [? _].
Qed.

(** X19. [addHs] called with [addResidueInfo] false visits the atoms asked
    for only. Of an atom that is not asked for it forgets the computed
    properties, as of every atom at its start, and changes nothing else.
    An atom that is asked for keeps its atomic number and has no hydrogen
    left to add afterwards: its explicit hydrogen count is 0; with
    [explicitOnly] its no-implicit flag is as it was, and without, the flag
    is set and the flag it had is kept in [origNoImplicit]. *)
Theorem addHs_visits_listed_atoms_only
    (explicitOnly addCoords : bool) (onlyOnAtoms : option (list nat)) (m : Mol) :
  bondsInRange m ->
  exists m',
    addHs explicitOnly addCoords onlyOnAtoms m = Some m' /\
    forall i, i < getNumAtoms m ->
      (onList onlyOnAtoms i = false ->
         getAtomWithIdx m' i
         = set_props (clearComputedProps (props (getAtomWithIdx m i)))
             (getAtomWithIdx m i)) /\
      (onList onlyOnAtoms i = true ->
         atomicNum (getAtomWithIdx m' i) = atomicNum (getAtomWithIdx m i) /\
         numExplicitHs (getAtomWithIdx m' i) = 0 /\
         (explicitOnly = true ->
            noImplicit (getAtomWithIdx m' i) = noImplicit (getAtomWithIdx m i)) /\
         (explicitOnly = false ->
            noImplicit (getAtomWithIdx m' i) = true /\
            getOrigNoImplicit (getAtomWithIdx m' i) = Some (noImplicit (getAtomWithIdx m i))) /\
         hsToAdd explicitOnly (getAtomWithIdx m' i) = 0).
Proof.
  intros Hr.
  destruct (addHs_grow explicitOnly addCoords onlyOnAtoms m Hr)
    as (m' & Hrun & _ & _ & Hv).
  exists m'. split; [done|]. intros i Hi. specialize (Hv i Hi).
  split; intros Hon; rewrite Hon in Hv; [done|].
  destruct Hv as (H1 & H2 & H3). split; [done|]. split; [done|].
  unfold hsToAdd, getNumImplicitHs. rewrite H2.
  destruct explicitOnly.
  - split; [done|]. split; [done|]. done.
  - destruct H3 as [H3 H4]. split; [done|]. split; [done|]. by rewrite H3.
Qed.

End AddHsLoopCount.

(** [addHs] is [MolOps::addHs] called with [addResidueInfo] false: the
    molecule is what the call leaves, and no annotation is touched. With
    [addResidueInfo] set the call is [addHs] followed by
    [AssignHsResidueInfo]. *)
Lemma MolOps_addHs_residue_info {GE : GeometryEngine} {PT : PeriodicTable}
    {VM : ValenceModel} {MIL : MonomerInfoLibrary}
    (fuel : nat) (explicitOnly addCoords : bool) (onlyOnAtoms : option (list nat))
    (mol : Mol) (monomerInfo : gmap nat AtomPDBResidueInfo) :
  (forall i, is_Some (monomerInfo !! i) -> i < getNumAtoms mol) ->
  MolOps.addHs fuel explicitOnly addCoords onlyOnAtoms false mol monomerInfo
  = (fun mol' => (mol', monomerInfo)) <$> addHs explicitOnly addCoords onlyOnAtoms mol /\
  MolOps.addHs fuel explicitOnly addCoords onlyOnAtoms true mol monomerInfo
  = addHs explicitOnly addCoords onlyOnAtoms mol ≫= fun mol' =>
      (fun monomerInfo' => (mol', monomerInfo'))
        <$> AssignHsResidueInfo fuel mol' monomerInfo.
Proof.
  intros Hdom. unfold MolOps.addHs. cbv zeta.
  assert (Hf : filter (fun entry : nat * AtomPDBResidueInfo => entry.1 < getNumAtoms mol)
                 monomerInfo = monomerInfo).
  { apply map_filter_id. intros i x Hi. simpl. apply Hdom. by eexists. }
  rewrite Hf. split; by destruct (addHs explicitOnly addCoords onlyOnAtoms mol).
Qed.

Lemma ex_NH3_water_bondsInRange : bondsInRange ex_NH3_water.
Proof. intros b Hb. by apply elem_of_nil in Hb. Qed.

(** X17 at a nitrogen with one explicit and two implicit hydrogens and an
    oxygen with two implicit ones, hydrogens asked for on the nitrogen
    only: three are counted and added. *)
Lemma addHs_adds_counted_hydrogens_witness :
  bondsInRange ex_NH3_water /\
  exists m',
    addHs (GE := sampleGeometry) (PT := samplePeriodicTable) (VM := sampleValence)
      false false (Some [0]) ex_NH3_water = Some m' /\
    getNumAtoms m' = getNumAtoms ex_NH3_water + numAddHyds false (Some [0]) ex_NH3_water /\
    (forall i, i < getNumAtoms ex_NH3_water ->
       atomicNum (getAtomWithIdx m' i) = atomicNum (getAtomWithIdx ex_NH3_water i)) /\
    (forall h, getNumAtoms ex_NH3_water <= h < getNumAtoms m' ->
       atomicNum (getAtomWithIdx m' h) = 1 /\ query (getAtomWithIdx m' h) = None) /\
    bonds m' = bonds ex_NH3_water
               ++ hydrogenBonds (getNumAtoms ex_NH3_water)
                    (hydrogenOwners false (Some [0]) ex_NH3_water) /\
    bondsInRange m'.
Proof.
  split; [exact ex_NH3_water_bondsInRange|].
  exact (addHs_adds_counted_hydrogens (GE := sampleGeometry) (PT := samplePeriodicTable)
           (VM := sampleValence) false false (Some [0]) ex_NH3_water
           ex_NH3_water_bondsInRange).
Defined.

(** X18 at the same molecule, hydrogens asked for on all atoms and with
    coordinates. *)
Lemma addHs_bonds_each_hydrogen_once_witness :
  bondsInRange ex_NH3_water /\
  exists m',
    addHs (GE := sampleGeometry) (PT := samplePeriodicTable) (VM := sampleValence)
      false true None ex_NH3_water = Some m' /\
    (forall i, i < getNumAtoms ex_NH3_water ->
       getDegree m' i
       = getDegree ex_NH3_water i
         + (if onList None i then hsToAdd false (getAtomWithIdx ex_NH3_water i) else 0)) /\
    (forall h, getNumAtoms ex_NH3_water <= h < getNumAtoms m' ->
       exists a, a < getNumAtoms ex_NH3_water /\ onList None a = true /\
                 getAtomNeighbors m' h = [a]).
Proof.
  split; [exact ex_NH3_water_bondsInRange|].
  exact (addHs_bonds_each_hydrogen_once (GE := sampleGeometry) (PT := samplePeriodicTable)
           (VM := sampleValence) false true None ex_NH3_water ex_NH3_water_bondsInRange).
Defined.

(** X19 at the same molecule, explicit hydrogens only, on the nitrogen. *)
Lemma addHs_visits_listed_atoms_only_witness :
  bondsInRange ex_NH3_water /\
  exists m',
    addHs (GE := sampleGeometry) (PT := samplePeriodicTable) (VM := sampleValence)
      true false (Some [0]) ex_NH3_water = Some m' /\
    forall i, i < getNumAtoms ex_NH3_water ->
      (onList (Some [0]) i = false ->
         getAtomWithIdx m' i
         = set_props (clearComputedProps (ValenceModel := sampleValence)
                        (props (getAtomWithIdx ex_NH3_water i)))
             (getAtomWithIdx ex_NH3_water i)) /\
      (onList (Some [0]) i = true ->
         atomicNum (getAtomWithIdx m' i) = atomicNum (getAtomWithIdx ex_NH3_water i) /\
         numExplicitHs (getAtomWithIdx m' i) = 0 /\
         (true = true ->
            noImplicit (getAtomWithIdx m' i) = noImplicit (getAtomWithIdx ex_NH3_water i)) /\
         (true = false ->
            noImplicit (getAtomWithIdx m' i) = true /\
            getOrigNoImplicit (getAtomWithIdx m' i)
            = Some (noImplicit (getAtomWithIdx ex_NH3_water i))) /\
         hsToAdd true (getAtomWithIdx m' i) = 0).
Proof.
  split; [exact ex_NH3_water_bondsInRange|].
  exact (addHs_visits_listed_atoms_only (GE := sampleGeometry) (PT := samplePeriodicTable)
           (VM := sampleValence) true false (Some [0]) ex_NH3_water
           ex_NH3_water_bondsInRange).
Defined.

(* ===================================================================== *)
(** * AssignHsResidueInfo                                                 *)
(* ===================================================================== *)

Section ResidueInfoFacts.
Context {MIL : MonomerInfoLibrary}.

(** A hydrogen neighbour that is annotated already is never passed. *)
Lemma labelNeighbors_stuck mol info nbr :
  atomicNum (getAtomWithIdx mol nbr) = 1 ->
  forall fuel (nbrs : list nat) (st : LabelState),
    nbr ∈ nbrs -> isPDBResidue (monomerInfo st !! nbr) = true ->
    labelNeighbors fuel mol info nbrs st = None.
Proof.
  intros HH. induction fuel as [|fuel IH]; intros nbrs st Hin Hpdb; [done|].
  destruct nbrs as [|x rest]; [by apply elem_of_nil in Hin|].
  cbn [labelNeighbors monomerInfo max_serial current_info current_h_id].
  destruct (atomicNum (getAtomWithIdx mol x) =? 1) eqn:Hx.
  - destruct (isPDBResidue (monomerInfo st !! x)) eqn:Hpx.
    + by apply IH.
    + assert (Hne : x <> nbr) by (intros ->; congruence).
      apply elem_of_cons in Hin as [->|Hin]; [done|].
      apply IH; [done|]. destruct (current_info st) as [cur|]; [case_match|];
        cbn [monomerInfo]; by rewrite lookup_insert_ne.
  - apply Nat.eqb_neq in Hx.
    apply elem_of_cons in Hin as [->|Hin]; [done|]. by apply IH.
Qed.

(** What one run of the inner loop keeps: an annotation of a PDB residue
    stays, and what is changed is a hydrogen annotated for the atom. *)
Lemma labelNeighbors_inv mol (monomerInfo0 : gmap nat AtomPDBResidueInfo) aidx info :
  aidx < getNumAtoms mol -> isPDBResidue (Some info) = true ->
  forall fuel (nbrs : list nat) (st st' : LabelState),
    labelNeighbors fuel mol info nbrs st = Some st' ->
    (forall y, y ∈ nbrs -> y ∈ getAtomNeighbors mol aidx) ->
    monomerInfo st !! aidx = Some info ->
    (forall x, monomerInfo st !! x = monomerInfo0 !! x \/
               (atomicNum (getAtomWithIdx mol x) = 1 /\
                isPDBResidue (monomerInfo0 !! x) = false /\
                labelledFrom mol (monomerInfo st) x)) ->
    (forall x, isPDBResidue (monomerInfo st !! x) = true ->
               monomerInfo st' !! x = monomerInfo st !! x) /\
    (forall x, monomerInfo st' !! x = monomerInfo0 !! x \/
               (atomicNum (getAtomWithIdx mol x) = 1 /\
                isPDBResidue (monomerInfo0 !! x) = false /\
                labelledFrom mol (monomerInfo st') x)).
Proof.
  intros Ha Hpdb. induction fuel as [|fuel IH]; intros nbrs st st' Hrun Hsub Hinfo Hinv;
    [done|].
  destruct nbrs as [|x rest]; [by injection Hrun as <-|].
  assert (Hsub' : forall y, y ∈ rest -> y ∈ getAtomNeighbors mol aidx).
  { intros y Hy. apply Hsub. by right. }
  cbn [labelNeighbors monomerInfo max_serial current_info current_h_id] in Hrun.
  destruct (atomicNum (getAtomWithIdx mol x) =? 1) eqn:Hx; [|by eapply IH].
  apply Nat.eqb_eq in Hx.
  destruct (isPDBResidue (monomerInfo st !! x)) eqn:Hpx.
  { destruct (IH _ _ _ Hrun Hsub) as [K1 K2]; done. }
  assert (Hne : x <> aidx).
  { intros ->. rewrite Hinfo in Hpx. congruence. }
  set (cid := match current_info st with
              | Some current =>
                  if negb (bool_decide (getResidueNumber current = getResidueNumber info))
                     || negb (bool_decide (getChainId current = getChainId info))
                  then 1%Z else incrInt (current_h_id st)
              | None => 1%Z
              end).
  set (newInfo := newAtomPDBResidueInfo (hydrogenLabel cid) (max_serial st) EmptyString
                    (getResidueName info) (getResidueNumber info) (getChainId info)
                    EmptyString 1%R 0%R (getIsHeteroAtom info)).
  assert (Hstep : exists st1,
            labelNeighbors fuel mol info rest st1 = Some st' /\
            monomerInfo st1 = <[x := newInfo]> (monomerInfo st)).
  { unfold newInfo, cid. destruct (current_info st) as [cur|]; [case_match|];
      eexists; (split; [exact Hrun|done]). }
  destruct Hstep as (st1 & Hrun1 & Hmi).
  assert (Hkeep1 : forall y, isPDBResidue (monomerInfo st !! y) = true ->
                             monomerInfo st1 !! y = monomerInfo st !! y).
  { intros y Hy. rewrite Hmi. apply lookup_insert_ne. intros ->. congruence. }
  destruct (IH _ _ _ Hrun1 Hsub') as [K1 K2].
  { rewrite Hkeep1; [done|]. by rewrite Hinfo. }
  { intros y. destruct (decide (y = x)) as [->|Hyx].
    - right. split; [done|]. split.
      + destruct (Hinv x) as [Heq|(_ & Hno & _)]; [by rewrite <- Heq|done].
      + exists aidx, info. split; [done|]. split; [apply Hsub; by left|].
        split; [rewrite Hkeep1; [done|by rewrite Hinfo]|]. split; [done|].
        exists cid, (max_serial st). by rewrite Hmi, lookup_insert_eq.
    - destruct (Hinv y) as [Heq|(Hy1 & Hy2 & p & ip & Hp & Hyp & Hip & Hpp & Hl)].
      + left. by rewrite Hmi, lookup_insert_ne.
      + right. split; [done|]. split; [done|]. exists p, ip.
        split; [done|]. split; [done|].
        split; [rewrite Hkeep1; [done|by rewrite Hip]|]. split; [done|].
        by rewrite Hmi, lookup_insert_ne. }
  split; [|done].
  intros y Hy. rewrite K1; [by apply Hkeep1|]. by rewrite Hkeep1.
Qed.

Lemma labelAtoms_inv fuel mol (monomerInfo0 : gmap nat AtomPDBResidueInfo) :
  forall (aidxs : list nat) (st st' : LabelState),
    labelAtoms fuel mol aidxs st = Some st' ->
    (forall a, a ∈ aidxs -> a < getNumAtoms mol) ->
    (forall x, monomerInfo st !! x = monomerInfo0 !! x \/
               (atomicNum (getAtomWithIdx mol x) = 1 /\
                isPDBResidue (monomerInfo0 !! x) = false /\
                labelledFrom mol (monomerInfo st) x)) ->
    (forall x, isPDBResidue (monomerInfo st !! x) = true ->
               monomerInfo st' !! x = monomerInfo st !! x) /\
    (forall x, monomerInfo st' !! x = monomerInfo0 !! x \/
               (atomicNum (getAtomWithIdx mol x) = 1 /\
                isPDBResidue (monomerInfo0 !! x) = false /\
                labelledFrom mol (monomerInfo st') x)).
Proof.
  induction aidxs as [|aidx rest IH]; intros st st' Hrun Hlt Hinv.
  { injection Hrun as <-. done. }
  assert (Hlt' : forall a, a ∈ rest -> a < getNumAtoms mol).
  { intros a Ha. apply Hlt. by right. }
  cbn [labelAtoms] in Hrun.
  destruct (monomerInfo st !! aidx) as [info|] eqn:Hinfo; [|by eapply IH].
  destruct (isPDBResidue (Some info)) eqn:Hpdb; [|by eapply IH].
  destruct (labelNeighbors fuel mol info (getAtomNeighbors mol aidx) st) as [st1|] eqn:Hrun1;
    [|done].
  cbn [mbind option_bind] in Hrun.
  destruct (labelNeighbors_inv mol monomerInfo0 aidx info ltac:(apply Hlt; by left) Hpdb
              _ _ _ _ Hrun1 ltac:(done) Hinfo Hinv) as [K1 K2].
  destruct (IH _ _ Hrun Hlt' K2) as [L1 L2].
  split; [|done]. intros x Hx. rewrite L1; [by apply K1|]. by rewrite K1.
Qed.

Lemma labelAtoms_stuck fuel mol aidx nbr :
  atomicNum (getAtomWithIdx mol nbr) = 1 -> nbr ∈ getAtomNeighbors mol aidx ->
  forall (aidxs : list nat) (st : LabelState),
    aidx ∈ aidxs -> (forall a, a ∈ aidxs -> a < getNumAtoms mol) ->
    isPDBResidue (monomerInfo st !! aidx) = true ->
    isPDBResidue (monomerInfo st !! nbr) = true ->
    labelAtoms fuel mol aidxs st = None.
Proof.
  intros HH Hnbr. induction aidxs as [|a rest IH]; intros st Hin Hlt Hpa Hpn;
    [by apply elem_of_nil in Hin|].
  assert (Hlt' : forall a, a ∈ rest -> a < getNumAtoms mol).
  { intros a' Ha. apply Hlt. by right. }
  cbn [labelAtoms].
  destruct (decide (a = aidx)) as [->|Hne].
  - destruct (monomerInfo st !! aidx) as [info|] eqn:Hinfo; [|done].
    rewrite Hpa. by rewrite (labelNeighbors_stuck mol info nbr HH).
  - apply elem_of_cons in Hin as [->|Hin]; [done|].
    destruct (monomerInfo st !! a) as [info|] eqn:Hinfo; [|by apply IH].
    destruct (isPDBResidue (Some info)) eqn:Hpdb; [|by apply IH].
    destruct (labelNeighbors fuel mol info (getAtomNeighbors mol a) st) as [st1|] eqn:Hrun1;
      [|done].
    cbn [mbind option_bind].
    destruct (labelNeighbors_inv mol (monomerInfo st) a info ltac:(apply Hlt; by left) Hpdb
                _ _ _ _ Hrun1 ltac:(done) Hinfo ltac:(by left)) as [K1 _].
    apply IH; [done|done| |]; by rewrite K1.
Qed.

(** X21. [AssignHsResidueInfo] does not end on a molecule in which an
    atom with a PDB residue annotation has a hydrogen neighbour that is
    annotated already: the [continue] for such a neighbour skips the step
    to the next one, so however many turns the loop over the neighbours is
    given, it has not ended. *)
Theorem AssignHsResidueInfo_loops_on_annotated_hydrogen
    (mol : Mol) (monomerInfo0 : gmap nat AtomPDBResidueInfo) (aidx nbr : nat) :
  aidx < getNumAtoms mol ->
  isPDBResidue (monomerInfo0 !! aidx) = true ->
  nbr ∈ getAtomNeighbors mol aidx ->
  atomicNum (getAtomWithIdx mol nbr) = 1 ->
  isPDBResidue (monomerInfo0 !! nbr) = true ->
  forall fuel, AssignHsResidueInfo fuel mol monomerInfo0 = None.
Proof.
  intros Ha Hpa Hnbr HH Hpn fuel. unfold AssignHsResidueInfo.
  rewrite (labelAtoms_stuck fuel mol aidx nbr HH Hnbr); [done| | |done|done].
  - apply elem_of_seq. lia.
  - intros a Hin. apply elem_of_seq in Hin. lia.
Qed.

(** X22. When [AssignHsResidueInfo] ends, an annotation that differs from
    the one before is on a hydrogen that had no PDB residue annotation,
    and was made for it as the neighbour of an atom with one: it has the
    label of a hydrogen number and the residue name, residue number, chain
    id and hetero flag of that atom's annotation. The annotations of PDB
    residues that were there are as they were. *)
Theorem AssignHsResidueInfo_changes_only_hydrogens
    (fuel : nat) (mol : Mol) (monomerInfo0 monomerInfo' : gmap nat AtomPDBResidueInfo) :
  AssignHsResidueInfo fuel mol monomerInfo0 = Some monomerInfo' ->
  (forall x, isPDBResidue (monomerInfo0 !! x) = true ->
             monomerInfo' !! x = monomerInfo0 !! x) /\
  (forall x, monomerInfo' !! x <> monomerInfo0 !! x ->
             atomicNum (getAtomWithIdx mol x) = 1 /\
             isPDBResidue (monomerInfo0 !! x) = false /\
             labelledFrom mol monomerInfo' x).
Proof.
  unfold AssignHsResidueInfo. intros Hrun.
  destruct (labelAtoms _ _ _ _) as [st'|] eqn:Hloop; [|done].
  injection Hrun as <-.
  destruct (labelAtoms_inv fuel mol monomerInfo0 _ _ _ Hloop) as [K1 K2].
  { intros a Hin. apply elem_of_seq in Hin. lia. }
  { by left. }
  split; [exact K1|]. intros x Hx. by destruct (K2 x) as [Heq|?].
Qed.

End ResidueInfoFacts.

Lemma hydrogen_in_range m h :
  atomicNum (getAtomWithIdx m h) = 1 -> h < getNumAtoms m.
Proof.
  intros HH. destruct (decide (h < getNumAtoms m)) as [|Hge]; [done|].
  unfold getAtomWithIdx in HH. rewrite list_lookup_total_alt in HH.
  rewrite lookup_ge_None_2 in HH by (unfold getNumAtoms in Hge; lia). done.
Qed.

(** An atom is as often a neighbour of [c] as there are bonds between the
    two, which are bonds of the atom. *)
Lemma neighbors_count_le_degree m c h :
  length (List.filter (fun x => bool_decide (x = h)) (getAtomNeighbors m c)) <= getDegree m h.
Proof.
  rewrite getDegree_neighbors, !getAtomNeighbors_bonds, length_fmap.
  induction (bonds m) as [|b l IH]; [done|]. simpl.
  destruct (touches c b) eqn:Hc; simpl.
  - case_bool_decide as Ho; simpl.
    + subst h. rewrite (touches_other c b Hc). simpl. apply le_n_S, IH.
    + destruct (touches h b); simpl; [apply le_S, IH|apply IH].
  - destruct (touches h b); simpl; [apply le_S, IH|apply IH].
Qed.

Lemma hydrogen_parent_unique m h p q :
  HsSinglyBonded m -> atomicNum (getAtomWithIdx m h) = 1 ->
  h ∈ getAtomNeighbors m p -> h ∈ getAtomNeighbors m q -> p = q.
Proof.
  intros Hs HH Hp Hq.
  pose proof (Hs h (hydrogen_in_range m h HH) HH) as Hdeg.
  rewrite getDegree_neighbors in Hdeg.
  apply getAtomNeighbors_sym in Hp, Hq.
  destruct (getAtomNeighbors m h) as [|a [|b l]]; simpl in Hdeg; [|  |lia].
  - by apply elem_of_nil in Hp.
  - apply list_elem_of_singleton in Hp, Hq. congruence.
Qed.

Section ResidueInfoTotal.
Context {MIL : MonomerInfoLibrary}.

(** The inner loop ends when none of the hydrogens it meets is annotated
    as a PDB residue and none is met twice; it annotates each of them. *)
Lemma labelNeighbors_total mol info :
  forall (nbrs : list nat) fuel (st : LabelState),
    length nbrs < fuel ->
    (forall h, h ∈ nbrs -> atomicNum (getAtomWithIdx mol h) = 1 ->
               isPDBResidue (monomerInfo st !! h) = false) ->
    (forall h, atomicNum (getAtomWithIdx mol h) = 1 ->
               length (List.filter (fun x => bool_decide (x = h)) nbrs) <= 1) ->
    exists st',
      labelNeighbors fuel mol info nbrs st = Some st' /\
      (forall x, ~ (x ∈ nbrs /\ atomicNum (getAtomWithIdx mol x) = 1) ->
                 monomerInfo st' !! x = monomerInfo st !! x) /\
      (forall h, h ∈ nbrs -> atomicNum (getAtomWithIdx mol h) = 1 ->
                 labelledFor info (monomerInfo st' !! h)) /\
      max_serial st'
      = Nat.iter (length (List.filter (fun h => atomicNum (getAtomWithIdx mol h) =? 1) nbrs))
          incrInt (max_serial st) /\
      (forall j h,
         List.filter (fun h => atomicNum (getAtomWithIdx mol h) =? 1) nbrs !! j = Some h ->
         exists id,
           monomerInfo st' !! h
           = Some (newAtomPDBResidueInfo (hydrogenLabel id)
                     (Nat.iter j incrInt (max_serial st)) EmptyString
                     (getResidueName info) (getResidueNumber info) (getChainId info)
                     EmptyString 1%R 0%R (getIsHeteroAtom info))).
Proof.
  induction nbrs as [|x rest IH]; intros fuel st Hfuel Hno Hdup.
  { destruct fuel; [simpl in Hfuel; lia|]. exists st. split; [done|]. split; [done|].
    split; [intros h Hh; by apply elem_of_nil in Hh|]. split; [done|].
    intros j h Hj. done. }
  destruct fuel as [|fuel]; [simpl in Hfuel; lia|]. simpl in Hfuel.
  assert (Hdup' : forall h, atomicNum (getAtomWithIdx mol h) = 1 ->
                    length (List.filter (fun y => bool_decide (y = h)) rest) <= 1).
  { intros h Hh. specialize (Hdup h Hh). simpl in Hdup.
    destruct (bool_decide (x = h)); simpl in Hdup; lia. }
  cbn [labelNeighbors monomerInfo max_serial current_info current_h_id].
  destruct (atomicNum (getAtomWithIdx mol x) =? 1) eqn:Hx.
  - apply Nat.eqb_eq in Hx.
    rewrite (Hno x ltac:(by left) Hx).
    assert (Hnotin : x ∉ rest).
    { intros Hin. specialize (Hdup x Hx). simpl in Hdup.
      rewrite bool_decide_eq_true_2 in Hdup by done. simpl in Hdup.
      assert (0 < length (List.filter (fun y => bool_decide (y = x)) rest)); [|lia].
      assert (Hf : x ∈ List.filter (fun y => bool_decide (y = x)) rest).
      { apply elem_of_filter. split; [done|]. by apply bool_decide_eq_true. }
      revert Hf. generalize (List.filter (fun y => bool_decide (y = x)) rest).
      intros [|? ?] Hf; [by apply elem_of_nil in Hf|simpl; lia]. }
    set (cid := match current_info st with
                | Some current =>
                    if negb (bool_decide (getResidueNumber current = getResidueNumber info))
                       || negb (bool_decide (getChainId current = getChainId info))
                    then 1%Z else incrInt (current_h_id st)
                | None => 1%Z
                end).
    set (newInfo := newAtomPDBResidueInfo (hydrogenLabel cid) (max_serial st) EmptyString
                      (getResidueName info) (getResidueNumber info) (getChainId info)
                      EmptyString 1%R 0%R (getIsHeteroAtom info)).
    assert (Hstep : exists st1,
              (let st0 := mkLabelState (monomerInfo st) (max_serial st) (current_info st)
                            (incrInt (current_h_id st)) in
               let st0 :=
                 match current_info st0 with
                 | Some current =>
                     if negb (bool_decide (getResidueNumber current = getResidueNumber info))
                        || negb (bool_decide (getChainId current = getChainId info))
                     then mkLabelState (monomerInfo st0) (max_serial st0) (Some info) 1%Z
                     else st0
                 | None => mkLabelState (monomerInfo st0) (max_serial st0) (Some info) 1%Z
                 end in
               mkLabelState
                 (<[x := newAtomPDBResidueInfo (hydrogenLabel (current_h_id st0))
                           (max_serial st0) EmptyString
                           (getResidueName info) (getResidueNumber info) (getChainId info)
                           EmptyString 1%R 0%R (getIsHeteroAtom info)]> (monomerInfo st0))
                 (incrInt (max_serial st0)) (current_info st0) (current_h_id st0)) = st1 /\
              monomerInfo st1 = <[x := newInfo]> (monomerInfo st) /\
              max_serial st1 = incrInt (max_serial st)).
    { unfold newInfo, cid. cbn [current_info]. destruct (current_info st) as [cur|];
        [case_match|]; eexists; (split; [reflexivity|done]). }
    destruct Hstep as (st1 & Hst1 & Hmi & Hms). cbv zeta in Hst1.
    cbn [monomerInfo max_serial current_info current_h_id] in Hst1. rewrite Hst1.
    destruct (IH fuel st1 ltac:(lia)) as (st' & Hrun & Hsame & Hlab & Hser & Hpos); [|done|].
    { intros h Hh HH. rewrite Hmi, lookup_insert_ne by (intros ->; done).
      apply Hno; [by right|done]. }
    assert (Hx' : (atomicNum (getAtomWithIdx mol x) =? 1) = true) by (by apply Nat.eqb_eq).
    assert (Hxinfo : monomerInfo st' !! x = Some newInfo).
    { rewrite Hsame by (intros [? _]; done). by rewrite Hmi, lookup_insert_eq. }
    exists st'. split; [done|]. split; [|split; [|split]].
    + intros y Hy. rewrite Hsame.
      * rewrite Hmi. apply lookup_insert_ne. intros ->. apply Hy. split; [by left|done].
      * intros [Hin HH]. apply Hy. split; [by right|done].
    + intros h Hh HH. apply elem_of_cons in Hh as [->|Hh]; [|by apply Hlab].
      rewrite Hxinfo. by exists cid, (max_serial st).
    + cbn [List.filter]. rewrite Hx'. cbn [length]. rewrite Hser, Hms.
      by rewrite Nat.iter_succ_r.
    + intros j h. cbn [List.filter]. rewrite Hx'. destruct j as [|j]; simpl.
      * intros [= <-]. exists cid. by rewrite Hxinfo.
      * intros Hj. destruct (Hpos j h Hj) as [id Hid]. exists id.
        rewrite Hid, Hms. by rewrite <- Nat.iter_succ_r.
  - assert (Hx' := Hx). apply Nat.eqb_neq in Hx.
    destruct (IH fuel st ltac:(lia)) as (st' & Hrun & Hsame & Hlab & Hser & Hpos); [|done|].
    { intros h Hh HH. apply Hno; [by right|done]. }
    exists st'. split; [done|]. split; [|split; [|split]].
    + intros y Hy. apply Hsame. intros [Hin HH]. apply Hy. split; [by right|done].
    + intros h Hh HH. apply elem_of_cons in Hh as [->|Hh]; [done|by apply Hlab].
    + cbn [List.filter]. by rewrite Hx'.
    + intros j h. cbn [List.filter]. rewrite Hx'. apply Hpos.
Qed.

Lemma labelAtoms_total fuel mol (monomerInfo0 : gmap nat AtomPDBResidueInfo) :
  HsSinglyBonded mol ->
  (forall h, atomicNum (getAtomWithIdx mol h) = 1 -> isPDBResidue (monomerInfo0 !! h) = false) ->
  (forall i, i < getNumAtoms mol -> getDegree mol i < fuel) ->
  forall k c (st : LabelState),
    c + k = getNumAtoms mol ->
    (forall h, atomicNum (getAtomWithIdx mol h) = 1 ->
               (forall p, p < c -> h ∉ getAtomNeighbors mol p) ->
               monomerInfo st !! h = monomerInfo0 !! h) ->
    (forall x, atomicNum (getAtomWithIdx mol x) <> 1 ->
               monomerInfo st !! x = monomerInfo0 !! x) ->
    (forall p ip h, p < c -> monomerInfo0 !! p = Some ip -> isPDBResidue (Some ip) = true ->
                    h ∈ getAtomNeighbors mol p -> atomicNum (getAtomWithIdx mol h) = 1 ->
                    labelledFor ip (monomerInfo st !! h)) ->
    exists st',
      labelAtoms fuel mol (seq c k) st = Some st' /\
      (forall x, atomicNum (getAtomWithIdx mol x) <> 1 ->
                 monomerInfo st' !! x = monomerInfo0 !! x) /\
      (forall p ip h, p < getNumAtoms mol -> monomerInfo0 !! p = Some ip ->
                      isPDBResidue (Some ip) = true ->
                      h ∈ getAtomNeighbors mol p -> atomicNum (getAtomWithIdx mol h) = 1 ->
                      labelledFor ip (monomerInfo st' !! h)).
Proof.
  intros Hs Hno Hfuel. induction k as [|k IH]; intros c st Hck Ha Hb Hc.
  { exists st. split; [done|]. split; [done|]. intros p ip h Hp. apply Hc. lia. }
  cbn [seq labelAtoms].
  assert (Hskip : isPDBResidue (monomerInfo st !! c) = false ->
            exists st', labelAtoms fuel mol (seq (S c) k) st = Some st' /\
              (forall x, atomicNum (getAtomWithIdx mol x) <> 1 ->
                         monomerInfo st' !! x = monomerInfo0 !! x) /\
              (forall p ip h, p < getNumAtoms mol -> monomerInfo0 !! p = Some ip ->
                              isPDBResidue (Some ip) = true ->
                              h ∈ getAtomNeighbors mol p ->
                              atomicNum (getAtomWithIdx mol h) = 1 ->
                              labelledFor ip (monomerInfo st' !! h))).
  { intros Hpc. apply (IH (S c) st); [lia| |done|].
    - intros h HH Hp. apply Ha; [done|]. intros p Hlt. apply Hp. lia.
    - intros p ip h Hp Hip Hpdb Hh HH.
      destruct (decide (p = c)) as [->|Hne]; [|apply (Hc p); [lia|done..]].
      assert (Hnot : atomicNum (getAtomWithIdx mol c) <> 1).
      { intros Hc1. specialize (Hno c Hc1). rewrite Hip in Hno. congruence. }
      rewrite (Hb c Hnot), Hip in Hpc. congruence. }
  destruct (monomerInfo st !! c) as [info|] eqn:Hinfo; [|by apply Hskip].
  destruct (isPDBResidue (Some info)) eqn:Hpdb; [|by apply Hskip].
  clear Hskip.
  assert (Hfresh : forall h, h ∈ getAtomNeighbors mol c ->
                     atomicNum (getAtomWithIdx mol h) = 1 ->
                     monomerInfo st !! h = monomerInfo0 !! h).
  { intros h Hh HH. apply Ha; [done|]. intros p Hp Hin.
    assert (p = c) by (by eapply hydrogen_parent_unique). lia. }
  destruct (labelNeighbors_total mol info (getAtomNeighbors mol c) fuel st)
    as (st1 & Hrun1 & Hsame1 & Hlab1 & _).
  { rewrite <- getDegree_neighbors. apply Hfuel. lia. }
  { intros h Hh HH. rewrite (Hfresh h Hh HH). by apply Hno. }
  { intros h HH. etrans; [apply neighbors_count_le_degree|].
    apply Hs; [by apply hydrogen_in_range|done]. }
  rewrite Hrun1. cbn [mbind option_bind].
  apply (IH (S c) st1); [lia| | |].
  - intros h HH Hp. rewrite Hsame1.
    + apply Ha; [done|]. intros p Hlt. apply Hp. lia.
    + intros [Hin _]. by apply (Hp c ltac:(lia)).
  - intros x Hx. rewrite Hsame1 by (intros [_ ?]; done). by apply Hb.
  - intros p ip h Hp Hip Hpdb' Hh HH.
    destruct (decide (p = c)) as [->|Hne].
    + assert (Hnot : atomicNum (getAtomWithIdx mol c) <> 1).
      { intros Hc1. specialize (Hno c Hc1). rewrite Hip in Hno. congruence. }
      rewrite (Hb c Hnot), Hip in Hinfo. injection Hinfo as ->. by apply Hlab1.
    + rewrite Hsame1; [apply (Hc p); [lia|done..]|].
      intros [Hin _]. apply Hne. by eapply hydrogen_parent_unique.
Qed.

(** X23. On a molecule in which every hydrogen has at most one bond and
    none is annotated as a PDB residue, [AssignHsResidueInfo] ends, given
    more turns than an atom has bonds. It leaves the annotations of the
    atoms that are not hydrogens as they are, and every hydrogen next to an
    atom with a PDB residue annotation then has an annotation with the
    label of a hydrogen number and the residue name, residue number, chain
    id and hetero flag of that atom's. *)
Theorem AssignHsResidueInfo_annotates_hydrogens
    (fuel : nat) (mol : Mol) (monomerInfo0 : gmap nat AtomPDBResidueInfo) :
  HsSinglyBonded mol ->
  (forall h, atomicNum (getAtomWithIdx mol h) = 1 ->
             isPDBResidue (monomerInfo0 !! h) = false) ->
  (forall i, i < getNumAtoms mol -> getDegree mol i < fuel) ->
  exists monomerInfo',
    AssignHsResidueInfo fuel mol monomerInfo0 = Some monomerInfo' /\
    (forall x, atomicNum (getAtomWithIdx mol x) <> 1 ->
               monomerInfo' !! x = monomerInfo0 !! x) /\
    (forall p ip h, p < getNumAtoms mol -> monomerInfo0 !! p = Some ip ->
                    isPDBResidue (Some ip) = true ->
                    h ∈ getAtomNeighbors mol p -> atomicNum (getAtomWithIdx mol h) = 1 ->
                    labelledFor ip (monomerInfo' !! h)).
Proof.
  intros Hs Hno Hfuel. unfold AssignHsResidueInfo.
  destruct (labelAtoms_total fuel mol monomerInfo0 Hs Hno Hfuel (getNumAtoms mol) 0
              (mkLabelState monomerInfo0 (maxSerial monomerInfo0 (getNumAtoms mol)) None 0%Z))
    as (st' & Hrun & Hb & Hc); [lia|done|done| |].
  { intros p ip h Hp. lia. }
  exists (monomerInfo st'). rewrite Hrun. done.
Qed.

End ResidueInfoTotal.

(** ** The label of a hydrogen *)

Lemma length_append (s1 s2 : string) :
  String.length (s1 +:+ s2) = String.length s1 + String.length s2.
Proof. induction s1 as [|a s1 IH]; simpl; [done|]. by rewrite IH. Qed.

Lemma length_substring (s : string) :
  forall n m, n + m <= String.length s -> String.length (String.substring n m s) = m.
Proof.
  induction s as [|a s IH]; intros n m Hle; simpl in *.
  - assert (m = 0) as -> by lia. by destruct n.
  - destruct n as [|n].
    + destruct m as [|m]; [done|]. simpl. rewrite IH; [done|lia].
    + apply IH. lia.
Qed.

Lemma padLabel_three (s : string) :
  String.length s <= 3 ->
  exists a b c, padLabel 3 s = String a (String b (String c EmptyString)).
Proof.
  intros Hle. destruct s as [|a [|b [|c [|d s]]]]; simpl in *; try lia; by eexists _, _, _.
Qed.

(** X24. The label [AssignHsResidueInfo] gives a hydrogen has four
    characters, whatever the number of the hydrogen. With the last three
    characters of the number, filled up with blanks to three, the label is
    the third of them, an H, and the first two. *)
Theorem hydrogenLabel_four_characters (current_h_id : Z) :
  exists a b c,
    (let number := pretty current_h_id in
     padLabel 3 (if 3 <? String.length number
                 then String.substring (String.length number - 3) 3 number else number)
     = String a (String b (String c EmptyString))) /\
    hydrogenLabel current_h_id = String c ("H" +:+ String a (String b EmptyString)) /\
    String.length (hydrogenLabel current_h_id) = 4.
Proof.
  unfold hydrogenLabel. cbv zeta.
  set (s := pretty current_h_id).
  set (s1 := if 3 <? String.length s
             then String.substring (String.length s - 3) 3 s else s).
  assert (Hle : String.length s1 <= 3).
  { unfold s1. destruct (3 <? String.length s) eqn:E.
    - apply Nat.ltb_lt in E. rewrite length_substring; lia.
    - apply Nat.ltb_ge in E. done. }
  destruct (padLabel_three s1 Hle) as (a & b & c & ->).
  exists a, b, c. done.
Qed.

Lemma ex_CH2_HsSinglyBonded : HsSinglyBonded ex_CH2.
Proof. intros i Hi Ha. destruct i as [|[|[|i]]]; cbv in Hi, Ha |- *; lia. Qed.

(** X21 at a carbon with two hydrogens, the carbon and the first hydrogen
    annotated. *)
Lemma AssignHsResidueInfo_loops_on_annotated_hydrogen_witness :
  0 < getNumAtoms ex_CH2 /\
  isPDBResidue (MIL := sampleMonomerInfo) (ex_CH2_infos_labelled !! 0) = true /\
  1 ∈ getAtomNeighbors ex_CH2 0 /\
  atomicNum (getAtomWithIdx ex_CH2 1) = 1 /\
  isPDBResidue (MIL := sampleMonomerInfo) (ex_CH2_infos_labelled !! 1) = true /\
  forall fuel,
    AssignHsResidueInfo (MIL := sampleMonomerInfo) fuel ex_CH2 ex_CH2_infos_labelled = None.
Proof.
  assert (H1 : 0 < getNumAtoms ex_CH2) by (cbv; lia).
  assert (H2 : isPDBResidue (MIL := sampleMonomerInfo) (ex_CH2_infos_labelled !! 0) = true)
    by reflexivity.
  assert (H3 : 1 ∈ getAtomNeighbors ex_CH2 0).
  { change (getAtomNeighbors ex_CH2 0) with [1; 2]. by left. }
  assert (H4 : atomicNum (getAtomWithIdx ex_CH2 1) = 1) by reflexivity.
  assert (H5 : isPDBResidue (MIL := sampleMonomerInfo) (ex_CH2_infos_labelled !! 1) = true)
    by reflexivity.
  do 5 (split; [assumption|]).
  exact (AssignHsResidueInfo_loops_on_annotated_hydrogen (MIL := sampleMonomerInfo)
           ex_CH2 ex_CH2_infos_labelled 0 1 H1 H2 H3 H4 H5).
Defined.

(** X22 at the same molecule with the carbon annotated only. *)
Lemma AssignHsResidueInfo_changes_only_hydrogens_witness :
  AssignHsResidueInfo (MIL := sampleMonomerInfo) 3 ex_CH2 ex_CH2_infos
  = Some ex_CH2_infos_result /\
  (forall x, isPDBResidue (MIL := sampleMonomerInfo) (ex_CH2_infos !! x) = true ->
             ex_CH2_infos_result !! x = ex_CH2_infos !! x) /\
  (forall x, ex_CH2_infos_result !! x <> ex_CH2_infos !! x ->
             atomicNum (getAtomWithIdx ex_CH2 x) = 1 /\
             isPDBResidue (MIL := sampleMonomerInfo) (ex_CH2_infos !! x) = false /\
             labelledFrom (MIL := sampleMonomerInfo) ex_CH2 ex_CH2_infos_result x).
Proof.
  assert (H1 : AssignHsResidueInfo (MIL := sampleMonomerInfo) 3 ex_CH2 ex_CH2_infos
               = Some ex_CH2_infos_result) by (vm_compute; reflexivity).
  split; [exact H1|].
  exact (AssignHsResidueInfo_changes_only_hydrogens (MIL := sampleMonomerInfo)
           3 ex_CH2 ex_CH2_infos ex_CH2_infos_result H1).
Defined.

(** X23 at the same molecule. *)
Lemma AssignHsResidueInfo_annotates_hydrogens_witness :
  HsSinglyBonded ex_CH2 /\
  (forall h, atomicNum (getAtomWithIdx ex_CH2 h) = 1 ->
             isPDBResidue (MIL := sampleMonomerInfo) (ex_CH2_infos !! h) = false) /\
  (forall i, i < getNumAtoms ex_CH2 -> getDegree ex_CH2 i < 3) /\
  exists monomerInfo',
    AssignHsResidueInfo (MIL := sampleMonomerInfo) 3 ex_CH2 ex_CH2_infos
    = Some monomerInfo' /\
    (forall x, atomicNum (getAtomWithIdx ex_CH2 x) <> 1 ->
               monomerInfo' !! x = ex_CH2_infos !! x) /\
    (forall p ip h, p < getNumAtoms ex_CH2 -> ex_CH2_infos !! p = Some ip ->
                    isPDBResidue (MIL := sampleMonomerInfo) (Some ip) = true ->
                    h ∈ getAtomNeighbors ex_CH2 p ->
                    atomicNum (getAtomWithIdx ex_CH2 h) = 1 ->
                    labelledFor (MIL := sampleMonomerInfo) ip (monomerInfo' !! h)).
Proof.
  assert (H2 : forall h, atomicNum (getAtomWithIdx ex_CH2 h) = 1 ->
                 isPDBResidue (MIL := sampleMonomerInfo) (ex_CH2_infos !! h) = false).
  { intros h Hh. destruct h as [|h]; [cbv in Hh; lia|].
    unfold ex_CH2_infos. by rewrite lookup_singleton_ne. }
  assert (H3 : forall i, i < getNumAtoms ex_CH2 -> getDegree ex_CH2 i < 3).
  { intros i Hi. destruct i as [|[|[|i]]]; cbv in Hi |- *; lia. }
  split; [exact ex_CH2_HsSinglyBonded|]. do 2 (split; [assumption|]).
  exact (AssignHsResidueInfo_annotates_hydrogens (MIL := sampleMonomerInfo)
           3 ex_CH2 ex_CH2_infos ex_CH2_HsSinglyBonded H2 H3).
Defined.

Section ResidueInfoSerials.
Context {MIL : MonomerInfoLibrary}.

Lemma annotatedHydrogens_S mol (monomerInfo0 : gmap nat AtomPDBResidueInfo) c :
  annotatedHydrogens mol monomerInfo0 (S c)
  = annotatedHydrogens mol monomerInfo0 c
    ++ (if isPDBResidue (monomerInfo0 !! c)
        then (fun nbr => (c, nbr))
               <$> List.filter (fun nbr => atomicNum (getAtomWithIdx mol nbr) =? 1)
                     (getAtomNeighbors mol c)
        else []).
Proof.
  unfold annotatedHydrogens. rewrite seq_S, flat_map_app. simpl. by rewrite app_nil_r.
Qed.

Lemma annotatedHydrogens_elem mol (monomerInfo0 : gmap nat AtomPDBResidueInfo) c p h :
  (p, h) ∈ annotatedHydrogens mol monomerInfo0 c ->
  p < c /\ isPDBResidue (monomerInfo0 !! p) = true /\
  h ∈ getAtomNeighbors mol p /\ atomicNum (getAtomWithIdx mol h) = 1.
Proof.
  unfold annotatedHydrogens. rewrite flat_map_bind, list_elem_of_bind.
  intros (a & Hin & Ha). apply elem_of_seq in Ha.
  destruct (isPDBResidue (monomerInfo0 !! a)) eqn:Hpdb; [|by apply elem_of_nil in Hin].
  apply list_elem_of_fmap in Hin as (nbr & [= -> ->] & Hnbr).
  apply elem_of_filter in Hnbr as [Hnbr HH]. apply Nat.eqb_eq in HH.
  split; [lia|done].
Qed.

Lemma labelAtoms_serials fuel mol (monomerInfo0 : gmap nat AtomPDBResidueInfo) (max0 : Z) :
  HsSinglyBonded mol ->
  (forall h, atomicNum (getAtomWithIdx mol h) = 1 -> isPDBResidue (monomerInfo0 !! h) = false) ->
  (forall h q, atomicNum (getAtomWithIdx mol h) = 1 -> q ∈ getAtomNeighbors mol h ->
               atomicNum (getAtomWithIdx mol q) <> 1) ->
  (forall i, i < getNumAtoms mol -> getDegree mol i < fuel) ->
  forall k c (st : LabelState),
    c + k = getNumAtoms mol ->
    (forall h, atomicNum (getAtomWithIdx mol h) = 1 ->
               (forall p, p < c -> h ∉ getAtomNeighbors mol p) ->
               monomerInfo st !! h = monomerInfo0 !! h) ->
    (forall x, atomicNum (getAtomWithIdx mol x) <> 1 ->
               monomerInfo st !! x = monomerInfo0 !! x) ->
    max_serial st = Nat.iter (length (annotatedHydrogens mol monomerInfo0 c)) incrInt max0 ->
    (forall j p h, annotatedHydrogens mol monomerInfo0 c !! j = Some (p, h) ->
       exists ip id,
         monomerInfo0 !! p = Some ip /\
         monomerInfo st !! h
         = Some (newAtomPDBResidueInfo (hydrogenLabel id) (Nat.iter j incrInt max0)
                   EmptyString (getResidueName ip) (getResidueNumber ip) (getChainId ip)
                   EmptyString 1%R 0%R (getIsHeteroAtom ip))) ->
    exists st',
      labelAtoms fuel mol (seq c k) st = Some st' /\
      (forall j p h,
         annotatedHydrogens mol monomerInfo0 (getNumAtoms mol) !! j = Some (p, h) ->
         exists ip id,
           monomerInfo0 !! p = Some ip /\
           monomerInfo st' !! h
           = Some (newAtomPDBResidueInfo (hydrogenLabel id) (Nat.iter j incrInt max0)
                     EmptyString (getResidueName ip) (getResidueNumber ip) (getChainId ip)
                     EmptyString 1%R 0%R (getIsHeteroAtom ip))).
Proof.
  intros Hs Hno Hhh Hfuel. induction k as [|k IH]; intros c st Hck Ha Hb Hser Hc.
  { exists st. split; [done|]. replace (getNumAtoms mol) with c by lia. done. }
  cbn [seq labelAtoms].
  assert (Hheavy : isPDBResidue (monomerInfo0 !! c) = true ->
                   monomerInfo st !! c = monomerInfo0 !! c).
  { intros Hpdb. apply Hb. intros Hc1. specialize (Hno c Hc1). congruence. }
  assert (Ha' : forall st1 : LabelState,
            (forall x, ~ (x ∈ getAtomNeighbors mol c /\ atomicNum (getAtomWithIdx mol x) = 1) ->
                       monomerInfo st1 !! x = monomerInfo st !! x) ->
            forall h, atomicNum (getAtomWithIdx mol h) = 1 ->
                      (forall p, p < S c -> h ∉ getAtomNeighbors mol p) ->
                      monomerInfo st1 !! h = monomerInfo0 !! h).
  { intros st1 Hsame h HH Hp. rewrite Hsame.
    - apply Ha; [done|]. intros p Hlt. apply Hp. lia.
    - intros [Hin _]. by apply (Hp c ltac:(lia)). }
  assert (Hb' : forall st1 : LabelState,
            (forall x, ~ (x ∈ getAtomNeighbors mol c /\ atomicNum (getAtomWithIdx mol x) = 1) ->
                       monomerInfo st1 !! x = monomerInfo st !! x) ->
            forall x, atomicNum (getAtomWithIdx mol x) <> 1 ->
                      monomerInfo st1 !! x = monomerInfo0 !! x).
  { intros st1 Hsame x Hx. rewrite Hsame by (intros [_ ?]; done). by apply Hb. }
  assert (Hold : forall st1 : LabelState,
            (forall x, ~ (x ∈ getAtomNeighbors mol c /\ atomicNum (getAtomWithIdx mol x) = 1) ->
                       monomerInfo st1 !! x = monomerInfo st !! x) ->
            forall j p h, annotatedHydrogens mol monomerInfo0 c !! j = Some (p, h) ->
              exists ip id,
                monomerInfo0 !! p = Some ip /\
                monomerInfo st1 !! h
                = Some (newAtomPDBResidueInfo (hydrogenLabel id) (Nat.iter j incrInt max0)
                          EmptyString (getResidueName ip) (getResidueNumber ip)
                          (getChainId ip) EmptyString 1%R 0%R (getIsHeteroAtom ip))).
  { intros st1 Hsame j p h Hj. destruct (Hc j p h Hj) as (ip & id & Hip & Hinfo).
    exists ip, id. split; [done|]. rewrite Hsame; [done|].
    intros [Hin HH].
    apply list_elem_of_lookup_2, annotatedHydrogens_elem in Hj as (Hlt & _ & Hhp & _).
    assert (p = c) by (by eapply hydrogen_parent_unique). lia. }
  assert (Hskip : isPDBResidue (monomerInfo st !! c) = false ->
            exists st',
              labelAtoms fuel mol (seq (S c) k) st = Some st' /\
              (forall j p h,
                 annotatedHydrogens mol monomerInfo0 (getNumAtoms mol) !! j = Some (p, h) ->
                 exists ip id,
                   monomerInfo0 !! p = Some ip /\
                   monomerInfo st' !! h
                   = Some (newAtomPDBResidueInfo (hydrogenLabel id)
                             (Nat.iter j incrInt max0) EmptyString
                             (getResidueName ip) (getResidueNumber ip) (getChainId ip)
                             EmptyString 1%R 0%R (getIsHeteroAtom ip)))).
  { intros Hpc.
    assert (H0 : isPDBResidue (monomerInfo0 !! c) = false).
    { destruct (isPDBResidue (monomerInfo0 !! c)) eqn:E; [|done].
      rewrite (Hheavy eq_refl), E in Hpc. done. }
    apply (IH (S c) st); [lia| |done| |].
    - by apply Ha'.
    - by rewrite annotatedHydrogens_S, H0, app_nil_r.
    - rewrite annotatedHydrogens_S, H0, app_nil_r. done. }
  destruct (monomerInfo st !! c) as [info|] eqn:Hinfo; [|by apply Hskip].
  destruct (isPDBResidue (Some info)) eqn:Hpdb; [|by apply Hskip].
  clear Hskip.
  assert (Hfresh : forall h, h ∈ getAtomNeighbors mol c ->
                     atomicNum (getAtomWithIdx mol h) = 1 ->
                     monomerInfo st !! h = monomerInfo0 !! h).
  { intros h Hh HH. apply Ha; [done|]. intros p Hp Hin.
    assert (p = c) by (by eapply hydrogen_parent_unique). lia. }
  destruct (labelNeighbors_total mol info (getAtomNeighbors mol c) fuel st)
    as (st1 & Hrun1 & Hsame1 & _ & Hser1 & Hpos1).
  { rewrite <- getDegree_neighbors. apply Hfuel. lia. }
  { intros h Hh HH. rewrite (Hfresh h Hh HH). by apply Hno. }
  { intros h HH. etrans; [apply neighbors_count_le_degree|].
    apply Hs; [by apply hydrogen_in_range|done]. }
  rewrite Hrun1. cbn [mbind option_bind].
  set (hs := List.filter (fun nbr => atomicNum (getAtomWithIdx mol nbr) =? 1)
               (getAtomNeighbors mol c)) in *.
  destruct (isPDBResidue (monomerInfo0 !! c)) eqn:H0.
  - (* the atom had its annotation from the start *)
    assert (Hinfo0 : monomerInfo0 !! c = Some info) by (by rewrite <- (Hheavy eq_refl)).
    apply (IH (S c) st1); [lia|by apply Ha'|by apply Hb'| |].
    + rewrite annotatedHydrogens_S, H0, length_app, length_fmap. fold hs.
      rewrite Hser1, Hser, Nat.add_comm. by rewrite Nat.iter_add.
    + intros j p h. rewrite annotatedHydrogens_S, H0. fold hs. intros Hj.
      apply lookup_app_Some in Hj as [Hj|[Hge Hj]]; [by apply (Hold st1 Hsame1)|].
      rewrite list_lookup_fmap in Hj.
      destruct (hs !! (j - length (annotatedHydrogens mol monomerInfo0 c))) as [nbr|] eqn:Hnbr;
        [|done].
      injection Hj as <- <-. destruct (Hpos1 _ _ Hnbr) as [id Hid].
      exists info, id. split; [done|]. rewrite Hid, Hser. rewrite <- Nat.iter_add.
      do 3 f_equal. lia.
  - (* the atom is a hydrogen that was annotated on the way *)
    assert (Hc1 : atomicNum (getAtomWithIdx mol c) = 1).
    { destruct (decide (atomicNum (getAtomWithIdx mol c) = 1)) as [|Hne]; [done|].
      rewrite (Hb c Hne) in Hinfo. rewrite Hinfo in H0. congruence. }
    assert (Hnil : hs = []).
    { unfold hs. apply filter_none. intros q Hq. apply Nat.eqb_neq. by apply (Hhh c). }
    rewrite Hnil in Hser1. simpl in Hser1.
    apply (IH (S c) st1); [lia|by apply Ha'|by apply Hb'| |].
    + by rewrite annotatedHydrogens_S, H0, app_nil_r, Hser1.
    + rewrite annotatedHydrogens_S, H0, app_nil_r. by apply Hold.
Qed.

(** X25. On a molecule in which every hydrogen has at most one bond, none
    is bonded to a hydrogen and none is annotated as a PDB residue,
    [AssignHsResidueInfo] ends and numbers the hydrogens next to the atoms
    with a PDB residue annotation in the order of the atoms and of their
    neighbours: the first one gets the largest serial number in use
    itself, not the one after it, and each one after that the next
    [int]. *)
Theorem AssignHsResidueInfo_serial_numbers
    (fuel : nat) (mol : Mol) (monomerInfo0 : gmap nat AtomPDBResidueInfo) :
  HsSinglyBonded mol ->
  (forall h, atomicNum (getAtomWithIdx mol h) = 1 ->
             isPDBResidue (monomerInfo0 !! h) = false) ->
  (forall h q, atomicNum (getAtomWithIdx mol h) = 1 -> q ∈ getAtomNeighbors mol h ->
               atomicNum (getAtomWithIdx mol q) <> 1) ->
  (forall i, i < getNumAtoms mol -> getDegree mol i < fuel) ->
  exists monomerInfo',
    AssignHsResidueInfo fuel mol monomerInfo0 = Some monomerInfo' /\
    forall j p h,
      annotatedHydrogens mol monomerInfo0 (getNumAtoms mol) !! j = Some (p, h) ->
      exists ip id,
        monomerInfo0 !! p = Some ip /\
        monomerInfo' !! h
        = Some (newAtomPDBResidueInfo (hydrogenLabel id)
                  (Nat.iter j incrInt (maxSerial monomerInfo0 (getNumAtoms mol)))
                  EmptyString (getResidueName ip) (getResidueNumber ip) (getChainId ip)
                  EmptyString 1%R 0%R (getIsHeteroAtom ip)).
Proof.
  intros Hs Hno Hhh Hfuel. unfold AssignHsResidueInfo.
  destruct (labelAtoms_serials fuel mol monomerInfo0
              (maxSerial monomerInfo0 (getNumAtoms mol)) Hs Hno Hhh Hfuel
              (getNumAtoms mol) 0
              (mkLabelState monomerInfo0 (maxSerial monomerInfo0 (getNumAtoms mol)) None 0%Z))
    as (st' & Hrun & Hc); [lia|done|done|done| |].
  { intros j p h Hj. done. }
  exists (monomerInfo st'). rewrite Hrun. done.
Qed.

End ResidueInfoSerials.

(** X25 at a carbon with two hydrogens, the carbon annotated with the
    serial number 2: the hydrogens get 2 and 3. *)
Lemma AssignHsResidueInfo_serial_numbers_witness :
  HsSinglyBonded ex_CH2 /\
  (forall h, atomicNum (getAtomWithIdx ex_CH2 h) = 1 ->
             isPDBResidue (MIL := sampleMonomerInfo) (ex_CH2_infos !! h) = false) /\
  (forall h q, atomicNum (getAtomWithIdx ex_CH2 h) = 1 -> q ∈ getAtomNeighbors ex_CH2 h ->
               atomicNum (getAtomWithIdx ex_CH2 q) <> 1) /\
  (forall i, i < getNumAtoms ex_CH2 -> getDegree ex_CH2 i < 3) /\
  exists monomerInfo' : gmap nat SampleInfo,
    AssignHsResidueInfo (MIL := sampleMonomerInfo) 3 ex_CH2 ex_CH2_infos
    = Some monomerInfo' /\
    forall (j p h : nat),
      annotatedHydrogens (MIL := sampleMonomerInfo) ex_CH2 ex_CH2_infos
        (getNumAtoms ex_CH2) !! j = Some (p, h) ->
      exists (ip : SampleInfo) (id : Z),
        ex_CH2_infos !! p = Some ip /\
        monomerInfo' !! h
        = Some (mkSampleInfo PDBRESIDUE (hydrogenLabel id)
                  (Nat.iter j incrInt
                     (maxSerial (MIL := sampleMonomerInfo) ex_CH2_infos (getNumAtoms ex_CH2)))
                  (si_residueName ip) (si_residueNumber ip) (si_chainId ip)
                  (si_isHeteroAtom ip)).
Proof.
  assert (H2 : forall h, atomicNum (getAtomWithIdx ex_CH2 h) = 1 ->
                 isPDBResidue (MIL := sampleMonomerInfo) (ex_CH2_infos !! h) = false).
  { intros h Hh. destruct h as [|h]; [cbv in Hh; lia|].
    unfold ex_CH2_infos. by rewrite lookup_singleton_ne. }
  assert (H3 : forall h q, atomicNum (getAtomWithIdx ex_CH2 h) = 1 ->
                 q ∈ getAtomNeighbors ex_CH2 h ->
                 atomicNum (getAtomWithIdx ex_CH2 q) <> 1).
  { intros h q Hh Hq. destruct h as [|[|[|h]]]; [cbv in Hh; lia| | |cbv in Hh; lia].
    - change (getAtomNeighbors ex_CH2 1) with [0] in Hq.
      apply list_elem_of_singleton in Hq as ->. cbv. lia.
    - change (getAtomNeighbors ex_CH2 2) with [0] in Hq.
      apply list_elem_of_singleton in Hq as ->. cbv. lia. }
  assert (H4 : forall i, i < getNumAtoms ex_CH2 -> getDegree ex_CH2 i < 3).
  { intros i Hi. destruct i as [|[|[|i]]]; cbv in Hi |- *; lia. }
  split; [exact ex_CH2_HsSinglyBonded|]. do 3 (split; [assumption|]).
  exact (AssignHsResidueInfo_serial_numbers (MIL := sampleMonomerInfo)
           3 ex_CH2 ex_CH2_infos ex_CH2_HsSinglyBonded H2 H3 H4).
Defined.

(* ===================================================================== *)
(** * setHydrogenCoords: three other neighbours                           *)
(* ===================================================================== *)

Lemma times_one (p : Point3D) : (p * 1)%P3 = p.
Proof. apply Point3D_eq; simpl; ring. Qed.

Lemma lengthSq_opposite (p : Point3D) : lengthSq (p * (-1))%P3 = lengthSq p.
Proof. rewrite lengthSq_times. ring. Qed.

Section Degree4.
Context {GE : GeometryEngine} {PT : PeriodicTable}.

(** Three other neighbours: the call returns, and every conformer is what
    the three-neighbour branch makes of it. *)
Lemma setHydrogenCoords_degree4 (mol : Mol) (hydIdx heavyIdx : nat) :
  setHydrogenCoords_pre mol hydIdx heavyIdx ->
  getDegree mol heavyIdx = 4 ->
  exists mol' nbr1 nbr2 nbr3,
    setHydrogenCoords mol hydIdx heavyIdx = Some mol' /\
    threeNeighbors mol hydIdx heavyIdx = Some (nbr1, nbr2, nbr3) /\
    forall k c,
      confs mol !! k = Some c ->
      exists st st' c',
        placeDegree4 mol hydIdx heavyIdx nbr1 nbr2 nbr3
          (getRb0 1 + getRb0 (atomicNum (getAtomWithIdx mol heavyIdx)))%R st c
        = Some (st', c') /\
        confs mol' !! k = Some c'.
Proof.
  intros Hpre Hdeg. rewrite setHydrogenCoords_unfold by done. cbv zeta. rewrite Hdeg.
  pose proof (otherNeighbors_length mol hydIdx heavyIdx) as Hlen.
  destruct Hpre as (_ & _ & Hh & _). rewrite Hh, Hdeg in Hlen.
  assert (Ht : is_Some (threeNeighbors mol hydIdx heavyIdx)).
  { unfold threeNeighbors.
    destruct (otherNeighbors mol hydIdx heavyIdx) as [|a [|b [|c r]]] eqn:Ho;
      simpl in Hlen; try lia.
    destruct (hasProp _ _); [|eauto].
    match goal with
    | |- context [merge_sort pair_le ?l] =>
        pose proof (Permutation_length (merge_sort_Permutation pair_le l)) as Hl;
        destruct (merge_sort pair_le l) as [|x [|y [|z w]]]; simpl in Hl; try done; eauto
    end. }
  destruct Ht as [[[n1 n2] n3] Ht]. rewrite Ht.
  set (bl := (getRb0 1 + getRb0 (atomicNum (getAtomWithIdx mol heavyIdx)))%R).
  set (body := placeDegree4 mol hydIdx heavyIdx n1 n2 n3 bl).
  destruct (forConformers_total body) with (cs := confs mol) (st := initLocals) as [cs' Hrun].
  { intros st c. apply placeDegree4_total. }
  rewrite Hrun. simpl. exists (set_confs cs' mol), n1, n2, n3.
  do 2 (split; [reflexivity|]). intros k c Hk.
  destruct (forConformers_lookup _ _ _ _ Hrun k c Hk) as (stk & stk' & c' & Hbody & Hk').
  exists stk, stk', c'. done.
Qed.

(** X26. The heavy atom has three neighbours besides the hydrogen. In a
    2-D conformer in which none of them lies on the heavy atom, the code
    takes two of the unit vectors away from the neighbours: a pair whose
    dot product is the smallest of the three, the two with the widest
    angle between them (github #908). When the sum of the two is not the
    zero vector, the hydrogen is put opposite that sum, at distance 1 from
    the heavy atom; the bond length plays no part. When the sum is the
    zero vector (the two neighbours opposite each other) the code
    normalizes the zero vector, and nothing is said of the place. *)
Theorem setHydrogenCoords_degree4_2D_widest_angle (mol : Mol) (hydIdx heavyIdx : nat) :
  setHydrogenCoords_pre mol hydIdx heavyIdx ->
  getDegree mol heavyIdx = 4 ->
  exists mol' nbr1 nbr2 nbr3,
    setHydrogenCoords mol hydIdx heavyIdx = Some mol' /\
    threeNeighbors mol hydIdx heavyIdx = Some (nbr1, nbr2, nbr3) /\
    forall k c,
      confs mol !! k = Some c ->
      is3D c = false ->
      let heavyPos := getAtomPos c heavyIdx in
      let u1 := normalize (heavyPos - getAtomPos c nbr1)%P3 in
      let u2 := normalize (heavyPos - getAtomPos c nbr2)%P3 in
      let u3 := normalize (heavyPos - getAtomPos c nbr3)%P3 in
      degenerate (heavyPos - getAtomPos c nbr1)%P3 = false ->
      degenerate (heavyPos - getAtomPos c nbr2)%P3 = false ->
      degenerate (heavyPos - getAtomPos c nbr3)%P3 = false ->
      exists c' u v,
        confs mol' !! k = Some c' /\
        ((u, v) = (u1, u2) \/ (u, v) = (u2, u3) \/ (u, v) = (u1, u3)) /\
        (dotProduct u v <= dotProduct u1 u2)%R /\
        (dotProduct u v <= dotProduct u2 u3)%R /\
        (dotProduct u v <= dotProduct u1 u3)%R /\
        (lengthSq (u + v)%P3 <> 0%R ->
         (getAtomPos c' hydIdx - heavyPos)%P3 = normalize ((u + v) * (-1))%P3 /\
         lengthSq (getAtomPos c' hydIdx - heavyPos)%P3 = 1%R).
Proof.
  intros Hpre Hdeg.
  destruct (setHydrogenCoords_degree4 mol hydIdx heavyIdx Hpre Hdeg)
    as (mol' & nbr1 & nbr2 & nbr3 & Hrun & Ht & Hconf).
  exists mol', nbr1, nbr2, nbr3. do 2 (split; [assumption|]).
  intros k c Hk H2d heavyPos u1 u2 u3 Hd1 Hd2 Hd3.
  destruct (Hconf k c Hk) as (st & st' & c' & Hbody & Hk').
  unfold placeDegree4 in Hbody. cbv zeta in Hbody.
  fold heavyPos in Hbody. rewrite Hd1, Hd2, Hd3, H2d in Hbody. cbn [orb] in Hbody.
  fold u1 u2 u3 in Hbody. unfold scaleFor in Hbody. rewrite H2d in Hbody.
  assert (Hfin : forall u v : Point3D,
            c' = setAtomPos hydIdx (heavyPos + normalize ((u + v) * -1) * 1)%P3 c ->
            lengthSq (u + v)%P3 <> 0%R ->
            (getAtomPos c' hydIdx - heavyPos)%P3 = normalize ((u + v) * (-1))%P3 /\
            lengthSq (getAtomPos c' hydIdx - heavyPos)%P3 = 1%R).
  { intros u v -> Hne. rewrite getAtomPos_setAtomPos, plus_minus_cancel, times_one.
    split; [done|]. apply lengthSq_normalize. by rewrite lengthSq_opposite. }
  destruct (Rlt_dec (dotProduct u2 u3) (dotProduct u1 u2)) as [H23|H23];
    [destruct (Rlt_dec (dotProduct u1 u3) (dotProduct u2 u3)) as [H13|H13]
    |destruct (Rlt_dec (dotProduct u1 u3) (dotProduct u1 u2)) as [H13|H13]];
    injection Hbody as _ Hc; symmetry in Hc.
  - exists c', u1, u3. split; [done|]. split; [by right; right|].
    do 3 (split; [lra|]). by apply Hfin.
  - exists c', u2, u3. split; [done|]. split; [by right; left|].
    do 3 (split; [lra|]). by apply Hfin.
  - exists c', u1, u3. split; [done|]. split; [by right; right|].
    do 3 (split; [lra|]). by apply Hfin.
  - exists c', u1, u2. split; [done|]. split; [by left|].
    do 3 (split; [lra|]). by apply Hfin.
Qed.

(** X27. The heavy atom has three neighbours besides the hydrogen. In a
    3-D conformer in which none of them lies on the heavy atom, the code
    takes a direction [d]: the sum of the three unit vectors away from the
    neighbours when these are not close to planar (triple product of at
    least 0.1 in absolute value), and otherwise the normal of the first
    two, turned round only when the heavy atom has a CIP code. When [d] is
    not the zero vector, the hydrogen is put along [d] at the distance of
    the bond length from the heavy atom. When [d] is the zero vector (the
    first two neighbours in line with the heavy atom, in the near-planar
    case) the code normalizes the zero vector, and nothing is said of the
    place. *)
Theorem setHydrogenCoords_degree4_3D (mol : Mol) (hydIdx heavyIdx : nat) :
  setHydrogenCoords_pre mol hydIdx heavyIdx ->
  getDegree mol heavyIdx = 4 ->
  exists mol' nbr1 nbr2 nbr3,
    setHydrogenCoords mol hydIdx heavyIdx = Some mol' /\
    threeNeighbors mol hydIdx heavyIdx = Some (nbr1, nbr2, nbr3) /\
    forall k c,
      confs mol !! k = Some c ->
      is3D c = true ->
      let bondLength := (getRb0 1 + getRb0 (atomicNum (getAtomWithIdx mol heavyIdx)))%R in
      let heavyPos := getAtomPos c heavyIdx in
      let u1 := normalize (heavyPos - getAtomPos c nbr1)%P3 in
      let u2 := normalize (heavyPos - getAtomPos c nbr2)%P3 in
      let u3 := normalize (heavyPos - getAtomPos c nbr3)%P3 in
      degenerate (heavyPos - getAtomPos c nbr1)%P3 = false ->
      degenerate (heavyPos - getAtomPos c nbr2)%P3 = false ->
      degenerate (heavyPos - getAtomPos c nbr3)%P3 = false ->
      exists c' d,
        confs mol' !! k = Some c' /\
        (~ (Rabs (dotProduct u3 (crossProduct u1 u2)) < 1 / 10)%R ->
         d = (u1 + u2 + u3)%P3) /\
        ((Rabs (dotProduct u3 (crossProduct u1 u2)) < 1 / 10)%R ->
         (d = crossProduct u1 u2 \/ d = (crossProduct u1 u2 * (-1))%P3) /\
         (getCIPCode (getAtomWithIdx mol heavyIdx) = None -> d = crossProduct u1 u2)) /\
        (lengthSq d <> 0%R ->
         (getAtomPos c' hydIdx - heavyPos)%P3 = (normalize d * bondLength)%P3 /\
         lengthSq (getAtomPos c' hydIdx - heavyPos)%P3 = (bondLength * bondLength)%R).
Proof.
  intros Hpre Hdeg.
  destruct (setHydrogenCoords_degree4 mol hydIdx heavyIdx Hpre Hdeg)
    as (mol' & nbr1 & nbr2 & nbr3 & Hrun & Ht & Hconf).
  exists mol', nbr1, nbr2, nbr3. do 2 (split; [assumption|]).
  intros k c Hk H3d bl heavyPos u1 u2 u3 Hd1 Hd2 Hd3.
  destruct (Hconf k c Hk) as (st & st' & c' & Hbody & Hk').
  unfold placeDegree4 in Hbody. cbv zeta in Hbody.
  fold heavyPos bl in Hbody. rewrite Hd1, Hd2, Hd3, H3d in Hbody. cbn [orb] in Hbody.
  fold u1 u2 u3 in Hbody. unfold scaleFor in Hbody. rewrite H3d in Hbody.
  assert (Hfin : forall d : Point3D,
            c' = setAtomPos hydIdx (heavyPos + normalize d * bl)%P3 c ->
            lengthSq d <> 0%R ->
            (getAtomPos c' hydIdx - heavyPos)%P3 = (normalize d * bl)%P3 /\
            lengthSq (getAtomPos c' hydIdx - heavyPos)%P3 = (bl * bl)%R).
  { intros d -> Hne. rewrite getAtomPos_setAtomPos, plus_minus_cancel.
    split; [done|]. rewrite lengthSq_times, lengthSq_normalize by done. ring. }
  destruct (Rlt_dec (Rabs (dotProduct u3 (crossProduct u1 u2))) (1 / 10)) as [Hflat|Hflat].
  - destruct (getCIPCode (getAtomWithIdx mol heavyIdx)) as [cipCode|] eqn:Hcip.
    + match type of Hbody with
      | context [if ?b then _ else _] => destruct b
      end; injection Hbody as _ Hc; symmetry in Hc.
      * exists c', (crossProduct u1 u2 * (-1))%P3. split; [done|].
        split; [done|]. split; [|by apply Hfin].
        intros _. split; [by right|done].
      * exists c', (crossProduct u1 u2). split; [done|].
        split; [done|]. split; [|by apply Hfin].
        intros _. split; [by left|done].
    + injection Hbody as _ Hc; symmetry in Hc.
      exists c', (crossProduct u1 u2). split; [done|].
      split; [done|]. split; [|by apply Hfin].
      intros _. split; [by left|done].
  - injection Hbody as _ Hc; symmetry in Hc.
    exists c', (u1 + u2 + u3)%P3. split; [done|].
    split; [done|]. split; [|by apply Hfin].
    intros Hlt. done.
Qed.

End Degree4.

Lemma ex_CC3H_pre : setHydrogenCoords_pre ex_CC3H 4 0.
Proof.
  unfold setHydrogenCoords_pre. split; [lia|]. split; [cbv; lia|].
  split; [reflexivity|]. split; [vm_compute; eauto|cbv; lia].
Qed.

(** The unit vectors away from the three neighbours of [ex_CC3H]. *)
Lemma ex_CC3H_unit (p : Point3D) :
  lengthSq p = 1%R -> normalize (origin - p)%P3 = (p * (-1))%P3.
Proof.
  intros Hp. rewrite (normalize_of_length _ 1); [|lra|].
  - apply Point3D_eq; simpl; lra.
  - unfold lengthSq in *. simpl. lra.
Qed.

Lemma ex_CC3H_u3 :
  normalize (origin - mkPoint3D (-3) (-4) 0)%P3 = mkPoint3D (3 / 5) (4 / 5) 0.
Proof.
  rewrite (normalize_of_length _ 5); [|lra|unfold lengthSq; simpl; lra].
  apply Point3D_eq; simpl; lra.
Qed.

Lemma ex_CC3H_neighbors : threeNeighbors ex_CC3H 4 0 = Some (1, 2, 3).
Proof. reflexivity. Qed.

(** X26 at the 2-D conformer of [ex_CC3H], the neighbours at (1, 0),
    (0, 1) and (-3, -4): the unit vectors away from them are (-1, 0),
    (0, -1) and (3/5, 4/5), the last two have the smallest dot product,
    -4/5, and their sum (3/5, -1/5) is not zero. The hydrogen is put at
    distance 1, along (-3/5, 1/5). *)
Lemma setHydrogenCoords_degree4_2D_widest_angle_witness :
  setHydrogenCoords_pre ex_CC3H 4 0 /\ getDegree ex_CC3H 0 = 4 /\
  exists mol' c',
    setHydrogenCoords (GE := sampleGeometry) (PT := samplePeriodicTable) ex_CC3H 4 0
    = Some mol' /\
    confs mol' !! 0 = Some c' /\
    (getAtomPos c' 4 - origin)%P3 = normalize (mkPoint3D (-3 / 5) (1 / 5) 0) /\
    lengthSq (getAtomPos c' 4 - origin)%P3 = 1%R.
Proof.
  split; [exact ex_CC3H_pre|]. split; [reflexivity|].
  destruct (setHydrogenCoords_degree4_2D_widest_angle (GE := sampleGeometry)
              (PT := samplePeriodicTable) ex_CC3H 4 0 ex_CC3H_pre eq_refl)
    as (mol' & nbr1 & nbr2 & nbr3 & Hrun & Ht & Hconf).
  rewrite ex_CC3H_neighbors in Ht. injection Ht as <- <- <-.
  set (c := mkConformer false
              [origin; mkPoint3D 1 0 0; mkPoint3D 0 1 0; mkPoint3D (-3) (-4) 0; origin]).
  specialize (Hconf 0 c eq_refl eq_refl). cbv zeta in Hconf.
  change (getAtomPos c 0) with origin in Hconf.
  change (getAtomPos c 1) with (mkPoint3D 1 0 0) in Hconf.
  change (getAtomPos c 2) with (mkPoint3D 0 1 0) in Hconf.
  change (getAtomPos c 3) with (mkPoint3D (-3) (-4) 0) in Hconf.
  rewrite (ex_CC3H_unit (mkPoint3D 1 0 0)) in Hconf by (unfold lengthSq; simpl; lra).
  rewrite (ex_CC3H_unit (mkPoint3D 0 1 0)) in Hconf by (unfold lengthSq; simpl; lra).
  rewrite ex_CC3H_u3 in Hconf.
  destruct Hconf as (c' & u & v & Hk & Huv & H12 & H23 & H13 & Hpos).
  { apply degenerate_false. unfold lengthSq. simpl. lra. }
  { apply degenerate_false. unfold lengthSq. simpl. lra. }
  { apply degenerate_false. unfold lengthSq. simpl. lra. }
  exists mol', c'. split; [exact Hrun|]. split; [exact Hk|].
  assert (Huv' : u = (mkPoint3D 0 1 0 * -1)%P3 /\ v = mkPoint3D (3 / 5) (4 / 5) 0).
  { destruct Huv as [Huv|[Huv|Huv]]; injection Huv as -> ->.
    - exfalso. unfold dotProduct in H23. simpl in H23. lra.
    - done.
    - exfalso. unfold dotProduct in H23. simpl in H23. lra. }
  destruct Huv' as [-> ->].
  assert (Hsum : ((mkPoint3D 0 1 0 * -1 + mkPoint3D (3 / 5) (4 / 5) 0) * -1)%P3
                 = mkPoint3D (-3 / 5) (1 / 5) 0).
  { apply Point3D_eq; simpl; lra. }
  rewrite Hsum in Hpos. apply Hpos. unfold lengthSq. simpl. lra.
Defined.

(** X27 at the 3-D conformer of [ex_CC3H], the neighbours at (1, 0, 0),
    (0, 1, 0) and (0, 0, 1): the triple product of the unit vectors away
    from them is -1, so the direction is their sum (-1, -1, -1), which is
    not zero. The hydrogen is put along it at the bond length. *)
Lemma setHydrogenCoords_degree4_3D_witness :
  setHydrogenCoords_pre ex_CC3H 4 0 /\ getDegree ex_CC3H 0 = 4 /\
  exists mol' c',
    setHydrogenCoords (GE := sampleGeometry) (PT := samplePeriodicTable) ex_CC3H 4 0
    = Some mol' /\
    confs mol' !! 1 = Some c' /\
    let bondLength :=
      (getRb0 (PeriodicTable := samplePeriodicTable) 1
       + getRb0 (PeriodicTable := samplePeriodicTable) 6)%R in
    (getAtomPos c' 4 - origin)%P3
    = (normalize (mkPoint3D (-1) (-1) (-1)) * bondLength)%P3 /\
    lengthSq (getAtomPos c' 4 - origin)%P3 = (bondLength * bondLength)%R.
Proof.
  split; [exact ex_CC3H_pre|]. split; [reflexivity|].
  destruct (setHydrogenCoords_degree4_3D (GE := sampleGeometry)
              (PT := samplePeriodicTable) ex_CC3H 4 0 ex_CC3H_pre eq_refl)
    as (mol' & nbr1 & nbr2 & nbr3 & Hrun & Ht & Hconf).
  rewrite ex_CC3H_neighbors in Ht. injection Ht as <- <- <-.
  set (c := mkConformer true
              [origin; mkPoint3D 1 0 0; mkPoint3D 0 1 0; mkPoint3D 0 0 1; origin]).
  specialize (Hconf 1 c eq_refl eq_refl). cbv zeta in Hconf.
  change (getAtomPos c 0) with origin in Hconf.
  change (getAtomPos c 1) with (mkPoint3D 1 0 0) in Hconf.
  change (getAtomPos c 2) with (mkPoint3D 0 1 0) in Hconf.
  change (getAtomPos c 3) with (mkPoint3D 0 0 1) in Hconf.
  change (atomicNum (getAtomWithIdx ex_CC3H 0)) with 6 in Hconf.
  rewrite (ex_CC3H_unit (mkPoint3D 1 0 0)) in Hconf by (unfold lengthSq; simpl; lra).
  rewrite (ex_CC3H_unit (mkPoint3D 0 1 0)) in Hconf by (unfold lengthSq; simpl; lra).
  rewrite (ex_CC3H_unit (mkPoint3D 0 0 1)) in Hconf by (unfold lengthSq; simpl; lra).
  destruct Hconf as (c' & d & Hk & Hsum & _ & Hpos).
  { apply degenerate_false. unfold lengthSq. simpl. lra. }
  { apply degenerate_false. unfold lengthSq. simpl. lra. }
  { apply degenerate_false. unfold lengthSq. simpl. lra. }
  exists mol', c'. split; [exact Hrun|]. split; [exact Hk|]. cbv zeta.
  assert (Hd : d = mkPoint3D (-1) (-1) (-1)).
  { rewrite Hsum.
    - apply Point3D_eq; simpl; lra.
    - unfold dotProduct, crossProduct. simpl.
      intros Hlt. rewrite Rabs_left in Hlt by lra. lra. }
  rewrite Hd in Hpos. apply Hpos. unfold lengthSq. simpl. lra.
Defined.

Section Degree3Space.
Context {GE : GeometryEngine} {PT : PeriodicTable}.

(** Two other neighbours: the call returns, and every conformer is what
    the two-neighbour branch makes of it. *)
Lemma setHydrogenCoords_degree3 (mol : Mol) (hydIdx heavyIdx : nat) :
  setHydrogenCoords_pre mol hydIdx heavyIdx ->
  getDegree mol heavyIdx = 3 ->
  exists mol' nbr1 nbr2 rest,
    setHydrogenCoords mol hydIdx heavyIdx = Some mol' /\
    otherNeighbors mol hydIdx heavyIdx = nbr1 :: nbr2 :: rest /\
    forall k c,
      confs mol !! k = Some c ->
      exists st st' c',
        placeDegree3 mol hydIdx heavyIdx nbr1 (List.last rest nbr2)
          (getRb0 1 + getRb0 (atomicNum (getAtomWithIdx mol heavyIdx)))%R st c
        = Some (st', c') /\
        confs mol' !! k = Some c'.
Proof.
  intros Hpre Hdeg. rewrite setHydrogenCoords_unfold by done. cbv zeta. rewrite Hdeg.
  pose proof (otherNeighbors_length mol hydIdx heavyIdx) as Hlen.
  destruct Hpre as (_ & _ & Hh & _). rewrite Hh, Hdeg in Hlen.
  destruct (otherNeighbors mol hydIdx heavyIdx) as [|nbr1 [|nbr2 rest]] eqn:Ho;
    simpl in Hlen; try lia.
  set (bl := (getRb0 1 + getRb0 (atomicNum (getAtomWithIdx mol heavyIdx)))%R).
  set (body := placeDegree3 mol hydIdx heavyIdx nbr1 (List.last rest nbr2) bl).
  destruct (forConformers_total body) with (cs := confs mol) (st := initLocals) as [cs' Hrun].
  { intros st c. apply placeDegree3_total. }
  rewrite Hrun. simpl. exists (set_confs cs' mol), nbr1, nbr2, rest.
  do 2 (split; [reflexivity|]). intros k c Hk.
  destruct (forConformers_lookup _ _ _ _ Hrun k c Hk) as (stk & stk' & c' & Hbody & Hk').
  exists stk, stk', c'. done.
Qed.

(** X28. The heavy atom has two neighbours besides the hydrogen. In a 3-D
    conformer in which neither lies on the heavy atom, the hydrogen is put
    along a direction [d] scaled by the bond length. Unless the heavy atom
    is SP3, [d] is the normalized sum of the two unit vectors away from the
    neighbours, so the hydrogen lies in their plane at the distance of the
    bond length whenever that sum is not the zero vector. For an SP3 atom
    [d] is that direction turned by half the tetrahedral angle (109.471 / 2
    degrees) about the normalized cross product of the neighbours' normal
    with it. *)
Theorem setHydrogenCoords_degree3_3D (mol : Mol) (hydIdx heavyIdx : nat) :
  setHydrogenCoords_pre mol hydIdx heavyIdx ->
  getDegree mol heavyIdx = 3 ->
  exists mol' nbr1 nbr2 rest,
    setHydrogenCoords mol hydIdx heavyIdx = Some mol' /\
    otherNeighbors mol hydIdx heavyIdx = nbr1 :: nbr2 :: rest /\
    forall k c,
      confs mol !! k = Some c ->
      is3D c = true ->
      let bondLength := (getRb0 1 + getRb0 (atomicNum (getAtomWithIdx mol heavyIdx)))%R in
      let heavyPos := getAtomPos c heavyIdx in
      let u1 := normalize (heavyPos - getAtomPos c nbr1)%P3 in
      let u2 := normalize (heavyPos - getAtomPos c (List.last rest nbr2))%P3 in
      let n := normalize (u1 + u2)%P3 in
      degenerate (heavyPos - getAtomPos c nbr1)%P3 = false ->
      degenerate (heavyPos - getAtomPos c (List.last rest nbr2))%P3 = false ->
      exists c' d,
        confs mol' !! k = Some c' /\
        (getAtomPos c' hydIdx - heavyPos)%P3 = (d * bondLength)%P3 /\
        (hybridization (getAtomWithIdx mol heavyIdx) <> SP3 ->
         d = n /\
         (lengthSq (u1 + u2)%P3 <> 0%R ->
          lengthSq (getAtomPos c' hydIdx - heavyPos)%P3 = (bondLength * bondLength)%R)) /\
        (hybridization (getAtomWithIdx mol heavyIdx) = SP3 ->
         d = rotate ((109471 / 1000 / 2) * PI / 180)
               (normalize (crossProduct (crossProduct u1 u2) n)) n).
Proof.
  intros Hpre Hdeg.
  destruct (setHydrogenCoords_degree3 mol hydIdx heavyIdx Hpre Hdeg)
    as (mol' & nbr1 & nbr2 & rest & Hrun & Ho & Hconf).
  exists mol', nbr1, nbr2, rest. do 2 (split; [assumption|]).
  intros k c Hk H3d bl heavyPos u1 u2 n Hd1 Hd2.
  destruct (Hconf k c Hk) as (st & st' & c' & Hbody & Hk').
  unfold placeDegree3 in Hbody. cbv zeta in Hbody.
  fold heavyPos bl in Hbody. rewrite Hd1, Hd2, H3d in Hbody. cbn [orb] in Hbody.
  fold u1 u2 in Hbody. fold n in Hbody. unfold scaleFor in Hbody. rewrite H3d in Hbody.
  assert (Hfin : forall d : Point3D,
            c' = setAtomPos hydIdx (heavyPos + d * bl)%P3 c ->
            (getAtomPos c' hydIdx - heavyPos)%P3 = (d * bl)%P3).
  { intros d ->. by rewrite getAtomPos_setAtomPos, plus_minus_cancel. }
  assert (Hlen : lengthSq (u1 + u2)%P3 <> 0%R -> lengthSq (n * bl)%P3 = (bl * bl)%R).
  { intros Hne. unfold n. rewrite lengthSq_times, lengthSq_normalize by done. ring. }
  destruct (decide (hybridization (getAtomWithIdx mol heavyIdx) = SP3)) as [Hsp3|Hno].
  - rewrite Hsp3 in Hbody. injection Hbody as _ Hc. symmetry in Hc.
    eexists c', _. split; [done|]. split; [exact (Hfin _ Hc)|].
    split; [intros Hno; done|intros _; reflexivity].
  - assert (Hc : c' = setAtomPos hydIdx (heavyPos + n * bl)%P3 c).
    { destruct (hybridization (getAtomWithIdx mol heavyIdx)); try done;
        by injection Hbody as _ <-. }
    exists c', n. split; [done|]. split; [exact (Hfin _ Hc)|].
    split; [|intros Hsp3; done].
    intros _. split; [done|]. intros Hne. rewrite (Hfin _ Hc). by apply Hlen.
Qed.

End Degree3Space.

(** A carbon (atom 0) with two carbon neighbours at (-3, -4, 0) and
    (-3, 4, 0) and a hydrogen (atom 3), in space. *)
Lemma setHydrogenCoords_degree3_3D_witness :
  setHydrogenCoords_pre ex_CH_3D 3 0 /\ getDegree ex_CH_3D 0 = 3 /\
  exists mol' nbr1 nbr2 rest,
    setHydrogenCoords (GE := sampleGeometry) (PT := samplePeriodicTable) ex_CH_3D 3 0
    = Some mol' /\
    otherNeighbors ex_CH_3D 3 0 = nbr1 :: nbr2 :: rest /\
    forall k c,
      confs ex_CH_3D !! k = Some c ->
      is3D c = true ->
      let bondLength :=
        (getRb0 (PeriodicTable := samplePeriodicTable) 1
         + getRb0 (PeriodicTable := samplePeriodicTable)
             (atomicNum (getAtomWithIdx ex_CH_3D 0)))%R in
      let heavyPos := getAtomPos c 0 in
      let u1 := normalize (heavyPos - getAtomPos c nbr1)%P3 in
      let u2 := normalize (heavyPos - getAtomPos c (List.last rest nbr2))%P3 in
      let n := normalize (u1 + u2)%P3 in
      degenerate (heavyPos - getAtomPos c nbr1)%P3 = false ->
      degenerate (heavyPos - getAtomPos c (List.last rest nbr2))%P3 = false ->
      exists c' d,
        confs mol' !! k = Some c' /\
        (getAtomPos c' 3 - heavyPos)%P3 = (d * bondLength)%P3 /\
        (hybridization (getAtomWithIdx ex_CH_3D 0) <> SP3 ->
         d = n /\
         (lengthSq (u1 + u2)%P3 <> 0%R ->
          lengthSq (getAtomPos c' 3 - heavyPos)%P3 = (bondLength * bondLength)%R)) /\
        (hybridization (getAtomWithIdx ex_CH_3D 0) = SP3 ->
         d = rotate (GeometryEngine := sampleGeometry) ((109471 / 1000 / 2) * PI / 180)
               (normalize (crossProduct (crossProduct u1 u2) n)) n).
Proof.
  assert (Hpre : setHydrogenCoords_pre ex_CH_3D 3 0).
  { unfold setHydrogenCoords_pre. split; [lia|]. split; [cbv; lia|].
    split; [reflexivity|]. split; [vm_compute; eauto|cbv; lia]. }
  split; [exact Hpre|]. split; [reflexivity|].
  exact (setHydrogenCoords_degree3_3D (GE := sampleGeometry)
           (PT := samplePeriodicTable) ex_CH_3D 3 0 Hpre eq_refl).
Defined.
